(** * winres: the resource-set model and its binary directory codec

    A shallow embedding of the Go package [winres] (files [winres.go] and the
    resource-directory codec), together with the properties stated about it.

    Conventions of the embedding:
    - Go [int] values (offsets, sizes) are [Z]; conversions to [uint16] and
      [uint32] are written out as [_ mod 2^16] and [_ mod 2^32];
    - a [[]byte] is a [list byte]; a nil payload is [None];
    - Go maps are [gmap]s; a nil map and an empty map are both [∅] (the code
      only ever reads a nil map, or replaces it before writing);
    - a slice that may be nil (the ordering caches) is an [option (list _)];
    - pointers to entries are owned by exactly one map slot, so entries are
      plain values that are written back into their slot. *)

From Stdlib Require Import ZArith List String Ascii Lia Sorted.
From stdpp Require Import gmap strings list fin_maps.
From coqutil Require Import Byte Word.LittleEndianList.

Local Open Scope Z_scope.

(** ** Identifiers *)

(** Modelled from the spec: the declaration of [Identifier], [ID] and [Name]
    is not part of the sources at hand.  An identifier is either a 16-bit
    ordinal or a name (a Go string, that is a sequence of bytes). *)
Inductive Identifier : Type :=
| ID (n : Z)
| Name (s : string).

Global Instance Identifier_eq_dec : EqDecision Identifier.
Proof. solve_decision. Defined.

Global Instance Identifier_countable : Countable Identifier.
Proof.
  refine (inj_countable'
            (fun i => match i with ID n => inl n | Name s => inr s end)
            (fun x => match x with inl n => ID n | inr s => Name s end) _).
  intros []; reflexivity.
Defined.

(** The values an [ID] (a [uint16]) can take. *)
Definition is_uint16 (n : Z) : Prop := 0 <= n < 2 ^ 16.

Definition Identifier_wf (i : Identifier) : Prop :=
  match i with ID n => is_uint16 n | Name _ => True end.

(** Modelled from the spec: [lessThan] is not part of the sources at hand.
    All names sort before all ordinals; names compare lexicographically,
    byte for byte; ordinals compare numerically. *)
Definition lessThan (a b : Identifier) : bool :=
  match a, b with
  | Name x, Name y => String.ltb x y
  | Name _, ID _ => true
  | ID _, Name _ => false
  | ID x, ID y => x <? y
  end.

Definition isName (i : Identifier) : bool :=
  match i with Name _ => true | ID _ => false end.

Definition isID (i : Identifier) : bool := negb (isName i).

Inductive error : Type :=
| errZeroID
| errEmptyName
| errInvalidResDir
| errDataEntryOutOfBounds.

Global Instance error_eq_dec : EqDecision error.
Proof. solve_decision. Defined.

(** Modelled from the spec: [checkIdentifier] is not part of the sources at
    hand.  A zero-valued ordinal or an empty name is rejected. *)
Definition checkIdentifier (i : Identifier) : option error :=
  match i with
  | ID n => if n =? 0 then Some errZeroID else None
  | Name s => if String.eqb s EmptyString then Some errEmptyName else None
  end.

Definition RT_CURSOR : Identifier := ID 1.
Definition RT_ICON : Identifier := ID 3.
Definition RT_GROUP_CURSOR : Identifier := ID 12.
Definition RT_GROUP_ICON : Identifier := ID 14.

(** ** The data model (winres.go) *)

Record DataEntry : Type := mkDataEntry { de_Data : list byte }.

Record ResourceEntry : Type := mkResourceEntry {
  Data : gmap Z DataEntry;
  re_OrderedKeys : option (list Z)
}.

Record TypeEntry : Type := mkTypeEntry {
  Resources : gmap Identifier ResourceEntry;
  te_OrderedKeys : option (list Identifier);
  NamesCount : nat
}.

Record ResourceSet : Type := mkResourceSet {
  Types : gmap Identifier TypeEntry;
  lastIconID : Z;
  lastCursorID : Z
}.

(** The zero value [ResourceSet{}]. *)
Definition emptySet : ResourceSet := mkResourceSet ∅ 0 0.

(** [ResourceSet.delete]. *)
Definition ResourceSet_delete (rs : ResourceSet) (typeID resID : Identifier)
    (langID : Z) : ResourceSet :=
  match Types rs !! typeID with
  | None => rs
  | Some te =>
    match Resources te !! resID with
    | None => rs
    | Some re =>
      let re' := mkResourceEntry (delete langID (Data re)) None in
      if 0 <? Z.of_nat (size (Data re')) then
        let te' := mkTypeEntry (<[resID := re']> (Resources te))
                               (te_OrderedKeys te) (NamesCount te) in
        mkResourceSet (<[typeID := te']> (Types rs))
                      (lastIconID rs) (lastCursorID rs)
      else
        let te' := mkTypeEntry (delete resID (Resources te)) None
                               (NamesCount te) in
        if 0 <? Z.of_nat (size (Resources te')) then
          mkResourceSet (<[typeID := te']> (Types rs))
                        (lastIconID rs) (lastCursorID rs)
        else
          mkResourceSet (delete typeID (Types rs))
                        (lastIconID rs) (lastCursorID rs)
    end
  end.

(** The update of [lastIconID] / [lastCursorID] inside [ResourceSet.set]. *)
Definition bump (typeID tag resID : Identifier) (last : Z) : Z :=
  if bool_decide (typeID = tag) then
    match resID with
    | ID id => if last <? id then id else last
    | Name _ => last
    end
  else last.

(** [ResourceSet.set]: the only function that creates or modifies entries. *)
Definition ResourceSet_set (rs : ResourceSet) (typeID resID : Identifier)
    (langID : Z) (data : option (list byte)) : ResourceSet :=
  match data with
  | None => ResourceSet_delete rs typeID resID langID
  | Some d =>
    let te := match Types rs !! typeID with
              | Some te => te
              | None => mkTypeEntry ∅ None 0
              end in
    let '(teKeys, re) :=
      match Resources te !! resID with
      | Some re => (te_OrderedKeys te, re)
      | None => (None, mkResourceEntry ∅ None)
      end in
    let icon := bump typeID RT_ICON resID (lastIconID rs) in
    let cursor :=
      if bool_decide (typeID = RT_ICON) then lastCursorID rs
      else bump typeID RT_CURSOR resID (lastCursorID rs) in
    let reKeys := match Data re !! langID with
                  | Some _ => re_OrderedKeys re
                  | None => None
                  end in
    let re' := mkResourceEntry (<[langID := mkDataEntry d]> (Data re)) reKeys in
    let te' := mkTypeEntry (<[resID := re']> (Resources te)) teKeys
                           (NamesCount te) in
    mkResourceSet (<[typeID := te']> (Types rs)) icon cursor
  end.

(** [ResourceSet.Set]: the set after the call, and the error returned. *)
Definition ResourceSet_Set (rs : ResourceSet) (typeID resID : Identifier)
    (langID : Z) (data : option (list byte)) : ResourceSet * option error :=
  match checkIdentifier resID with
  | Some e => (rs, Some e)
  | None =>
    match checkIdentifier typeID with
    | Some e => (rs, Some e)
    | None => (ResourceSet_set rs typeID resID langID data, None)
    end
  end.

(** [ResourceSet.Get]; [None] is the nil slice returned for a missing entry. *)
Definition ResourceSet_Get (rs : ResourceSet) (typeID resID : Identifier)
    (langID : Z) : option (list byte) :=
  te ← Types rs !! typeID;
  re ← Resources te !! resID;
  de ← Data re !! langID;
  Some (de_Data de).

(** ** Library functions used by the codec *)

(** [sort.Slice(keys, less)]: the result is a sorted rearrangement of [keys].
    The keys sorted by the codec are pairwise distinct and [less] is a strict
    total order on them, so every correct sorting algorithm returns the same
    list (see [sort_Slice_unique] below); insertion sort stands for it. *)
Section Sorting.
Context {A : Type} (less : A -> A -> bool).

Fixpoint sort_insert (x : A) (l : list A) : list A :=
  match l with
  | [] => [x]
  | y :: l' => if less y x then y :: sort_insert x l' else x :: y :: l'
  end.

Fixpoint sort_Slice (l : list A) : list A :=
  match l with
  | [] => []
  | x :: l' => sort_insert x (sort_Slice l')
  end.

End Sorting.

(** [sort.Search(n, f)]: the binary search of the Go standard library; the
    loop [for i < j] runs at most [n] times. *)
Fixpoint search_loop (fuel : nat) (f : Z -> bool) (i j : Z) : Z :=
  match fuel with
  | O => i
  | S fuel' =>
    if i <? j then
      let h := (i + j) / 2 in
      if negb (f h) then search_loop fuel' f (h + 1) j
      else search_loop fuel' f i h
    else i
  end.

Definition sort_Search (n : nat) (f : Z -> bool) : nat :=
  Z.to_nat (search_loop n f 0 (Z.of_nat n)).

(** The value of a byte of a Go string. *)
Definition byteZ (c : ascii) : Z := Z.of_N (N_of_ascii c).
Definition asciiZ (z : Z) : ascii := ascii_of_N (Z.to_N z).

Definition RuneError : Z := 0xFFFD.

Definition isCont (b : Z) : bool := (0x80 <=? b) && (b <=? 0xBF).

(** [[]rune(s)]: UTF-8 decoding; every byte that does not start a well-formed
    sequence yields U+FFFD and is skipped on its own. *)
Fixpoint runes_of_string (s : string) : list Z :=
  match s with
  | EmptyString => []
  | String c0 r0 =>
    let b0 := byteZ c0 in
    let bad := fun _ : unit => RuneError :: runes_of_string r0 in
    if b0 <? 0x80 then b0 :: runes_of_string r0
    else if (0xC2 <=? b0) && (b0 <=? 0xDF) then
      match r0 with
      | String c1 r1 =>
        let b1 := byteZ c1 in
        if isCont b1 then
          Z.lor (Z.shiftl (Z.land b0 0x1F) 6) (Z.land b1 0x3F)
            :: runes_of_string r1
        else bad tt
      | _ => bad tt
      end
    else if (0xE0 <=? b0) && (b0 <=? 0xEF) then
      match r0 with
      | String c1 (String c2 r2) =>
        let b1 := byteZ c1 in
        let b2 := byteZ c2 in
        let lo := if b0 =? 0xE0 then 0xA0 else 0x80 in
        let hi := if b0 =? 0xED then 0x9F else 0xBF in
        if (lo <=? b1) && (b1 <=? hi) && isCont b2 then
          Z.lor (Z.shiftl (Z.land b0 0x0F) 12)
            (Z.lor (Z.shiftl (Z.land b1 0x3F) 6) (Z.land b2 0x3F))
            :: runes_of_string r2
        else bad tt
      | _ => bad tt
      end
    else if (0xF0 <=? b0) && (b0 <=? 0xF4) then
      match r0 with
      | String c1 (String c2 (String c3 r3)) =>
        let b1 := byteZ c1 in
        let b2 := byteZ c2 in
        let b3 := byteZ c3 in
        let lo := if b0 =? 0xF0 then 0x90 else 0x80 in
        let hi := if b0 =? 0xF4 then 0x8F else 0xBF in
        if (lo <=? b1) && (b1 <=? hi) && isCont b2 && isCont b3 then
          Z.lor (Z.shiftl (Z.land b0 0x07) 18)
            (Z.lor (Z.shiftl (Z.land b1 0x3F) 12)
               (Z.lor (Z.shiftl (Z.land b2 0x3F) 6) (Z.land b3 0x3F)))
            :: runes_of_string r3
        else bad tt
      | _ => bad tt
      end
    else bad tt
  end.

(** The UTF-8 encoding of one rune; surrogates and values out of range are
    encoded as U+FFFD. *)
Definition encodeRune (r : Z) : list Z :=
  if (0 <=? r) && (r <? 0x80) then [r]
  else if (0x80 <=? r) && (r <? 0x800) then
    [Z.lor 0xC0 (Z.shiftr r 6); Z.lor 0x80 (Z.land r 0x3F)]
  else if ((0x800 <=? r) && (r <? 0xD800)) || ((0xE000 <=? r) && (r <? 0x10000)) then
    [Z.lor 0xE0 (Z.shiftr r 12); Z.lor 0x80 (Z.land (Z.shiftr r 6) 0x3F);
     Z.lor 0x80 (Z.land r 0x3F)]
  else if (0x10000 <=? r) && (r <=? 0x10FFFF) then
    [Z.lor 0xF0 (Z.shiftr r 18); Z.lor 0x80 (Z.land (Z.shiftr r 12) 0x3F);
     Z.lor 0x80 (Z.land (Z.shiftr r 6) 0x3F); Z.lor 0x80 (Z.land r 0x3F)]
  else [0xEF; 0xBF; 0xBD].

(** [string(runes)]. *)
Definition string_of_runes (rs : list Z) : string :=
  string_of_list_ascii (map asciiZ (flat_map encodeRune rs)).

(** [utf16.Encode]. *)
Definition utf16_EncodeRune (v : Z) : list Z :=
  if ((0 <=? v) && (v <? 0xD800)) || ((0xE000 <=? v) && (v <? 0x10000)) then [v]
  else if (0x10000 <=? v) && (v <=? 0x10FFFF) then
    let r := v - 0x10000 in
    [0xD800 + Z.land (Z.shiftr r 10) 0x3FF; 0xDC00 + Z.land r 0x3FF]
  else [RuneError].

Definition utf16_Encode (s : list Z) : list Z := flat_map utf16_EncodeRune s.

(** [utf16.Decode]. *)
Fixpoint utf16_Decode (s : list Z) : list Z :=
  match s with
  | [] => []
  | r :: s' =>
    if (r <? 0xD800) || (0xE000 <=? r) then r :: utf16_Decode s'
    else
      match s' with
      | r2 :: s'' =>
        if (0xD800 <=? r) && (r <? 0xDC00) && (0xDC00 <=? r2) && (r2 <? 0xE000)
        then (Z.lor (Z.shiftl (r - 0xD800) 10) (r2 - 0xDC00) + 0x10000)
               :: utf16_Decode s''
        else RuneError :: utf16_Decode s'
      | [] => RuneError :: utf16_Decode s'
      end
  end.

(** The UTF-16 code units written for a name, and the name read back from
    code units. *)
Definition nameUnits (n : string) : list Z := utf16_Encode (runes_of_string n).
Definition unitsName (u : list Z) : string := string_of_runes (utf16_Decode u).

(** ** Ordering (the codec, first part) *)

Definition uint16 (n : Z) : Z := n mod 2 ^ 16.
Definition uint32 (n : Z) : Z := n mod 2 ^ 32.

Definition len {A} (l : list A) : Z := Z.of_nat (length l).

Definition sumZ (l : list Z) : Z := fold_right Z.add 0 l.

Definition cached {A} (o : option (list A)) : list A := default [] o.

(** [sort.Search(len(keys), func(i) { _, ok := keys[i].(ID); return ok })]. *)
Definition countNames (keys : list Identifier) : nat :=
  sort_Search (length keys)
    (fun i => isID (nth (Z.to_nat i) keys (ID 0))).

(** [ResourceEntry.order]. *)
Definition ResourceEntry_order (re : ResourceEntry) : ResourceEntry :=
  match re_OrderedKeys re with
  | Some _ => re
  | None =>
    mkResourceEntry (Data re)
      (Some (sort_Slice Z.ltb (map fst (map_to_list (Data re)))))
  end.

(** [TypeEntry.Order]. *)
Definition TypeEntry_Order (te : TypeEntry) : TypeEntry :=
  match te_OrderedKeys te with
  | Some _ => te
  | None =>
    let keys := sort_Slice lessThan (map fst (map_to_list (Resources te))) in
    mkTypeEntry (ResourceEntry_order <$> Resources te) (Some keys)
                (countNames keys)
  end.

(** The temporary state of [ResourceSet.write]. *)
Record state : Type := mkState {
  offset : Z;
  relocAddr : list Z;
  nameOffset : gmap string Z;
  namesData : list Z;
  orderedKeys : list Identifier;
  namesCount : nat
}.

Definition state0 : state := mkState 0 [] ∅ [] [] 0.

Definition setOffset (s : state) (o : Z) : state :=
  mkState o (relocAddr s) (nameOffset s) (namesData s) (orderedKeys s)
          (namesCount s).

Definition addReloc (s : state) (a : Z) : state :=
  mkState (offset s) (relocAddr s ++ [a]) (nameOffset s) (namesData s)
          (orderedKeys s) (namesCount s).

(** [ResourceSet.order]: the caches of the set are filled in, the keys of the
    root level are stored in the state. *)
Definition ResourceSet_order (rs : ResourceSet) (s : state)
    : ResourceSet * state :=
  let keys := sort_Slice lessThan (map fst (map_to_list (Types rs))) in
  (mkResourceSet (TypeEntry_Order <$> Types rs) (lastIconID rs)
                 (lastCursorID rs),
   mkState (offset s) (relocAddr s) (nameOffset s) (namesData s) keys
           (countNames keys)).

(** ** Sizes and binary records *)

Definition dataAlignment : Z := 8.
Definition sizeOfDirTable : Z := 16.
Definition sizeOfDirEntry : Z := 8.
Definition sizeOfDataEntry : Z := 16.
Definition subdirectoryOffset : Z := 0x80000000.
Definition nameOffsetFlag : Z := 0x80000000.

(** [alignData]: [(offset + dataAlignment - 1) &^ (dataAlignment - 1)]. *)
Definition alignData (offset : Z) : Z :=
  Z.ldiff (offset + dataAlignment - 1) (dataAlignment - 1).

(** [DataEntry.paddedDataSize]. *)
Definition paddedDataSize (de : DataEntry) : Z := alignData (len (de_Data de)).

(** [TypeEntry.size] and [ResourceEntry.size]. *)
Definition TypeEntry_size (te : TypeEntry) : Z :=
  sizeOfDirTable + Z.of_nat (size (Resources te)) * sizeOfDirEntry.

Definition ResourceEntry_size (re : ResourceEntry) : Z :=
  sizeOfDirTable + Z.of_nat (size (Data re)) * sizeOfDirEntry.

(** [ResourceSet.dirSize]. *)
Definition ResourceSet_dirSize (rs : ResourceSet) : Z :=
  sizeOfDirTable + Z.of_nat (size (Types rs)) * sizeOfDirEntry
  + sumZ (map (fun kt =>
        TypeEntry_size (snd kt)
        + sumZ (map (fun kr =>
              ResourceEntry_size (snd kr)
              + Z.of_nat (size (Data (snd kr))) * sizeOfDataEntry)
            (map_to_list (Resources (snd kt)))))
      (map_to_list (Types rs))).

(** [ResourceSet.numDataEntries] (the result of [Count]). *)
Definition ResourceSet_numDataEntries (rs : ResourceSet) : Z :=
  sumZ (map (fun kt =>
        sumZ (map (fun kr => Z.of_nat (size (Data (snd kr))))
                  (map_to_list (Resources (snd kt)))))
      (map_to_list (Types rs))).

(** [binary.Write(w, binary.LittleEndian, _)] of the three record types. *)
Definition writeDirectoryTable (numNameEntries numIDEntries : Z) : list byte :=
  le_split 4 0 ++ le_split 4 0 ++ le_split 2 0 ++ le_split 2 0
  ++ le_split 2 (uint16 numNameEntries) ++ le_split 2 (uint16 numIDEntries).

Definition writeDirectoryEntry (id offs : Z) (isNm isSubDir : bool)
    : list byte :=
  let e_ID := uint32 id in
  let e_Offset := uint32 offs in
  let e_Offset := if isSubDir then Z.lor e_Offset subdirectoryOffset
                  else e_Offset in
  let e_ID := if isNm then Z.lor e_ID nameOffsetFlag else e_ID in
  le_split 4 e_ID ++ le_split 4 e_Offset.

Definition writeDataEntry (offs dataSize : Z) : list byte :=
  le_split 4 (uint32 offs) ++ le_split 4 (uint32 dataSize)
  ++ le_split 4 0 ++ le_split 4 0.

Definition writeUint16s (l : list Z) : list byte :=
  flat_map (fun u => le_split 2 (uint16 u)) l.

(** ** The layout planner: [ResourceSet.prepare] *)

(** The type assertions [ident.(Name)] and [ident.(ID)].  The code applies
    them only where the ordering caches guarantee the variant; Go would panic
    otherwise. *)
Definition asName (i : Identifier) : string :=
  match i with Name n => n | ID _ => EmptyString end.

Definition asID (i : Identifier) : Z :=
  match i with ID n => n | Name _ => 0 end.

Definition namesOf (keys : list Identifier) : list string :=
  omap (fun i => match i with Name n => Some n | ID _ => None end) keys.

(** The set [nameSet] collected by [prepare]. *)
Definition nameSet (rs : ResourceSet) : gset string :=
  list_to_set
    (flat_map (fun kt =>
         namesOf [fst kt]
         ++ namesOf (firstn (NamesCount (snd kt)) (cached (te_OrderedKeys (snd kt)))))
       (map_to_list (Types rs))).

(** One round of the loop of [prepare] over the sorted names. *)
Definition addName (acc : Z * gmap string Z * list Z) (n : string)
    : Z * gmap string Z * list Z :=
  let '(offs, nameOffs, data) := acc in
  let u := nameUnits n in
  (offs + (len u + 1) * 2, <[n := offs]> nameOffs, data ++ uint16 (len u) :: u).

Definition ResourceSet_prepare (rs : ResourceSet) : ResourceSet * state :=
  let '(rs1, s) := ResourceSet_order rs state0 in
  let names := sort_Slice String.ltb (elements (nameSet rs1)) in
  let '(_, nameOffs, data) :=
    fold_left addName names (ResourceSet_dirSize rs1, ∅, []) in
  let sz := len data * 2 in
  let data := data ++ repeat 0 (Z.to_nat ((alignData sz - sz) / 2)) in
  (rs1, mkState (offset s) (relocAddr s) nameOffs data (orderedKeys s)
                (namesCount s)).

(** ** The encoder *)

(** A write function appends bytes to the output and updates the state. *)
Definition writer : Type := state -> list byte * state.

Fixpoint forEach {A} (f : A -> writer) (l : list A) : writer :=
  fun s =>
    match l with
    | [] => ([], s)
    | x :: l' =>
      let '(o1, s1) := f x s in
      let '(o2, s2) := forEach f l' s1 in
      (o1 ++ o2, s2)
    end.

Definition typeOf (rs : ResourceSet) (tid : Identifier) : TypeEntry :=
  default (mkTypeEntry ∅ None 0) (Types rs !! tid).

Definition resourceOf (te : TypeEntry) (rid : Identifier) : ResourceEntry :=
  default (mkResourceEntry ∅ None) (Resources te !! rid).

Definition dataOf (re : ResourceEntry) (lcid : Z) : DataEntry :=
  default (mkDataEntry []) (Data re !! lcid).

Definition nameOffsetOf (s : state) (i : Identifier) : Z :=
  default 0 (nameOffset s !! asName i).

(** One directory entry that points to a subdirectory of size [sz]. *)
Definition writeSubdirEntry (isNm : bool) (sz : Identifier -> Z)
    (ident : Identifier) : writer :=
  fun s =>
    (writeDirectoryEntry (if isNm then nameOffsetOf s ident else asID ident)
                         (offset s) isNm true,
     setOffset s (offset s + sz ident)).

(** [ResourceSet.writeTypeDir]. *)
Definition ResourceSet_writeTypeDir (rs : ResourceSet) : writer :=
  fun s =>
    let hdr := writeDirectoryTable (Z.of_nat (namesCount s))
                 (len (orderedKeys s) - Z.of_nat (namesCount s)) in
    let s := setOffset s (offset s + sizeOfDirTable
                          + len (orderedKeys s) * sizeOfDirEntry) in
    let sz := fun ident => TypeEntry_size (typeOf rs ident) in
    let '(o1, s) := forEach (writeSubdirEntry true sz)
                            (firstn (namesCount s) (orderedKeys s)) s in
    let '(o2, s) := forEach (writeSubdirEntry false sz)
                            (skipn (namesCount s) (orderedKeys s)) s in
    (hdr ++ o1 ++ o2, s).

(** [TypeEntry.write]. *)
Definition TypeEntry_write (te : TypeEntry) : writer :=
  fun s =>
    let keys := cached (te_OrderedKeys te) in
    let hdr := writeDirectoryTable (Z.of_nat (NamesCount te))
                 (len keys - Z.of_nat (NamesCount te)) in
    let sz := fun ident => ResourceEntry_size (resourceOf te ident) in
    let '(o1, s) := forEach (writeSubdirEntry true sz)
                            (firstn (NamesCount te) keys) s in
    let '(o2, s) := forEach (writeSubdirEntry false sz)
                            (skipn (NamesCount te) keys) s in
    (hdr ++ o1 ++ o2, s).

(** [ResourceEntry.write]. *)
Definition ResourceEntry_write (re : ResourceEntry) : writer :=
  fun s =>
    let hdr := writeDirectoryTable 0 (Z.of_nat (size (Data re))) in
    let '(o, s) :=
      forEach (fun lcid s =>
                 let s := addReloc s (offset s) in
                 (writeDirectoryEntry lcid (offset s) false false,
                  setOffset s (offset s + sizeOfDataEntry)))
              (cached (re_OrderedKeys re)) s in
    (hdr ++ o, s).

(** [DataEntry.write] and [DataEntry.writeData]. *)
Definition DataEntry_write (de : DataEntry) : writer :=
  fun s =>
    (writeDataEntry (offset s) (len (de_Data de)),
     setOffset s (offset s + paddedDataSize de)).

Definition DataEntry_writeData (de : DataEntry) : list byte :=
  de_Data de
  ++ firstn (Z.to_nat (paddedDataSize de - len (de_Data de)))
            (repeat Byte.x00 (Z.to_nat dataAlignment)).

(** The three nested loops shared by [writeLangDirs], [writeDataIndex] and
    [writeData]. *)
Definition forEachResource (rs : ResourceSet) (s : state)
    (f : ResourceEntry -> writer) : writer :=
  forEach (fun tid =>
             let te := typeOf rs tid in
             forEach (fun rid => f (resourceOf te rid))
                     (cached (te_OrderedKeys te)))
          (orderedKeys s).

Definition ResourceSet_writeResDirs (rs : ResourceSet) : writer :=
  fun s => forEach (fun tid => TypeEntry_write (typeOf rs tid)) (orderedKeys s) s.

Definition ResourceSet_writeLangDirs (rs : ResourceSet) : writer :=
  fun s => forEachResource rs s ResourceEntry_write s.

Definition ResourceSet_writeDataIndex (rs : ResourceSet) : writer :=
  fun s =>
    forEachResource rs s
      (fun re => forEach (fun lcid => DataEntry_write (dataOf re lcid))
                         (cached (re_OrderedKeys re))) s.

Definition ResourceSet_writeData (rs : ResourceSet) : writer :=
  fun s =>
    forEachResource rs s
      (fun re => forEach (fun lcid s => (DataEntry_writeData (dataOf re lcid), s))
                         (cached (re_OrderedKeys re))) s.

(** [ResourceSet.write] into a [bytes.Buffer], whose [Write] never fails:
    the set with its caches filled in, the bytes written, and the addresses
    for the relocation table.  This is [ResourceSet.bytes]. *)
Definition ResourceSet_write (rs : ResourceSet)
    : ResourceSet * list byte * list Z :=
  let '(rs, s) := ResourceSet_prepare rs in
  let '(o1, s) := ResourceSet_writeTypeDir rs s in
  let '(o2, s) := ResourceSet_writeResDirs rs s in
  let '(o3, s) := ResourceSet_writeLangDirs rs s in
  let s := setOffset s (offset s + len (namesData s) * 2) in
  let '(o4, s) := ResourceSet_writeDataIndex rs s in
  let o5 := writeUint16s (namesData s) in
  let '(o6, s) := ResourceSet_writeData rs s in
  (rs, o1 ++ o2 ++ o3 ++ o4 ++ o5 ++ o6, relocAddr s).

Definition ResourceSet_bytes (rs : ResourceSet) : list byte :=
  snd (fst (ResourceSet_write rs)).

(** [ResourceSet.Walk], with the callback that records every visit and never
    stops: the set with its caches filled in, and the visits in order. *)
Definition ResourceSet_Walk (rs : ResourceSet)
    : ResourceSet * list (Identifier * Identifier * Z * list byte) :=
  let '(rs, s) := ResourceSet_order rs state0 in
  (rs,
   flat_map (fun tk =>
       let te := typeOf rs tk in
       flat_map (fun rk =>
           let re := resourceOf te rk in
           map (fun dk => (tk, rk, uint16 dk, de_Data (dataOf re dk)))
               (cached (re_OrderedKeys re)))
         (cached (te_OrderedKeys te)))
     (orderedKeys s)).

(** ** The decoder *)

Inductive result (A : Type) : Type :=
| Ok (a : A)
| Err (e : error).
Arguments Ok {A} a.
Arguments Err {A} e.

(** The sub-slice [l[pos : pos+n]]. *)
Definition slice {A} (l : list A) (pos n : Z) : list A :=
  firstn (Z.to_nat n) (skipn (Z.to_nat pos) l).

(** Modelled from the spec: [binaryRead] is not part of the sources at hand.
    It reads the [n] bytes of a fixed-size value at the position [pos] of the
    reader; a truncated buffer is reported as an invalid directory.  Every
    decoding function seeks before it reads, so the position is local to the
    function and the reader is represented by the section itself. *)
Definition binaryRead (section : list byte) (pos n : Z) : result (list byte) :=
  if (n =? 0) || (pos + n <=? len section) then Ok (slice section pos n)
  else Err errInvalidResDir.

Definition readUint16 (bs : list byte) (i : Z) : Z := le_combine (slice bs i 2).
Definition readUint32 (bs : list byte) (i : Z) : Z := le_combine (slice bs i 4).

Fixpoint readUint16s (n : nat) (bs : list byte) : list Z :=
  match n with
  | O => []
  | S n' => le_combine (firstn 2 bs) :: readUint16s n' (skipn 2 bs)
  end.

(** The array of [resourceDirectoryIDEntry] read by [readDirTable]. *)
Fixpoint readDirEntries (n : nat) (bs : list byte) : list (Z * Z) :=
  match n with
  | O => []
  | S n' =>
    (le_combine (firstn 4 bs), le_combine (firstn 4 (skipn 4 bs)))
      :: readDirEntries n' (skipn 8 bs)
  end.

Record dirEntry : Type := mkDirEntry {
  ident : Identifier;
  de_offset : Z;
  leaf : bool
}.

(** The zero value [dirEntry{}] from which the walk starts; its [ident] is
    nil in the code and is never read. *)
Definition rootEntry : dirEntry := mkDirEntry (ID 0) 0 false.

(** [readName]. *)
Definition readName (section : list byte) (offs : Z) : result string :=
  match binaryRead section offs 2 with
  | Err e => Err e
  | Ok l =>
    let length := le_combine l in
    match binaryRead section (offs + 2) (length * 2) with
    | Err e => Err e
    | Ok b => Ok (unitsName (readUint16s (Z.to_nat length) b))
    end
  end.

(** The loop of [readDirTable] over the entries it has read. *)
Fixpoint readEntries (de : dirEntry) (section : list byte)
    (dir : list (Z * Z)) : result (list dirEntry) :=
  match dir with
  | [] => Ok []
  | (e_ID, e_Offset) :: dir' =>
    if negb (Bool.eqb (leaf de) (Z.land e_Offset subdirectoryOffset =? 0))
    then Err errInvalidResDir
    else if leaf de && negb (Z.land e_ID nameOffsetFlag =? 0)
    then Err errInvalidResDir
    else
      let offs := Z.ldiff e_Offset subdirectoryOffset in
      let id := if Z.land e_ID nameOffsetFlag =? 0 then Ok (ID (uint16 e_ID))
                else match readName section (Z.ldiff e_ID nameOffsetFlag) with
                     | Ok n => Ok (Name n)
                     | Err e => Err e
                     end in
      match id with
      | Err e => Err e
      | Ok i =>
        match readEntries de section dir' with
        | Err e => Err e
        | Ok rest => Ok (mkDirEntry i offs false :: rest)
        end
      end
  end.

(** [dirEntry.readDirTable]. *)
Definition readDirTable (de : dirEntry) (section : list byte)
    : result (list dirEntry) :=
  match binaryRead section (de_offset de) sizeOfDirTable with
  | Err e => Err e
  | Ok table =>
    let n := uint16 (readUint16 table 12 + readUint16 table 14) in
    match binaryRead section (de_offset de + sizeOfDirTable)
                     (n * sizeOfDirEntry) with
    | Err e => Err e
    | Ok dir => readEntries de section (readDirEntries (Z.to_nat n) dir)
    end
  end.

(** [dirEntry.readData]: nothing is read from the section after the bounds
    check has failed. *)
Definition readData (de : dirEntry) (section : list byte) (baseAddress : Z)
    : result (list byte) :=
  match binaryRead section (de_offset de) sizeOfDataEntry with
  | Err e => Err e
  | Ok entry =>
    let DataRVA := readUint32 entry 0 in
    let Size := readUint32 entry 4 in
    let offs := DataRVA - baseAddress in
    if (offs <? 0) || (len section <? offs + Size)
    then Err errDataEntryOutOfBounds
    else Ok (slice section offs Size)
  end.

(** The loop of [dirEntry.walk]; the callback updates a state. *)
Fixpoint forEntries {S} (fn : dirEntry -> S -> S * option error)
    (entries : list dirEntry) (st : S) : S * option error :=
  match entries with
  | [] => (st, None)
  | e :: es =>
    match fn e st with
    | (st', Some err) => (st', Some err)
    | (st', None) => forEntries fn es st'
    end
  end.

(** [dirEntry.walk]. *)
Definition walk {S} (de : dirEntry) (section : list byte)
    (fn : dirEntry -> S -> S * option error) (st : S) : S * option error :=
  match readDirTable de section with
  | Err e => (st, Some e)
  | Ok entries => forEntries fn entries st
  end.

Definition setLeaf (de : dirEntry) : dirEntry :=
  mkDirEntry (ident de) (de_offset de) true.

(** The type filter of [ResourceSet.read]: [true] when the type is skipped. *)
Definition skipType (typeID tid : Identifier) : bool :=
  bool_decide (typeID <> ID 0) && bool_decide (tid <> typeID)
  && (bool_decide (tid <> RT_ICON) || bool_decide (typeID <> RT_GROUP_ICON))
  && (bool_decide (tid <> RT_CURSOR) || bool_decide (typeID <> RT_GROUP_CURSOR)).

(** The innermost callback of [ResourceSet.read]. *)
Definition readLang (section : list byte) (baseAddress : Z)
    (typeEntry resourceEntry langEntry : dirEntry) (rs : ResourceSet)
    : ResourceSet * option error :=
  match readData langEntry section baseAddress with
  | Err e => (rs, Some e)
  | Ok data =>
    ResourceSet_Set rs (ident typeEntry) (ident resourceEntry)
                    (uint16 (asID (ident langEntry))) (Some data)
  end.

(** The three nested walks of [ResourceSet.read], with the innermost callback
    [leafFn] left open. *)
Definition readWith {S}
    (leafFn : dirEntry -> dirEntry -> dirEntry -> S -> S * option error)
    (section : list byte) (typeID : Identifier) (st : S) : S * option error :=
  walk rootEntry section (fun typeEntry st =>
    if skipType typeID (ident typeEntry) then (st, None)
    else
      walk typeEntry section (fun resourceEntry st =>
        let resourceEntry := setLeaf resourceEntry in
        walk resourceEntry section (leafFn typeEntry resourceEntry) st) st) st.

(** [ResourceSet.read]. *)
Definition ResourceSet_read (rs : ResourceSet) (section : list byte)
    (baseAddress : Z) (typeID : Identifier) : ResourceSet * option error :=
  readWith (readLang section baseAddress) section typeID rs.

(** [loadFromEXE], from the point where the section and its base address
    have been extracted from the executable. *)
Definition loadFromSection (section : list byte) (baseAddress : Z)
    (typeID : Identifier) : result ResourceSet :=
  match ResourceSet_read emptySet section baseAddress typeID with
  | (_, Some e) => Err e
  | (rs, None) => Ok rs
  end.

(** ** The remaining functions of the resource set *)

(** [ResourceSet.Count]. *)
Definition ResourceSet_Count (rs : ResourceSet) : Z :=
  ResourceSet_numDataEntries rs.


(** [ResourceSet.firstLang]: the set with the languages of the resource
    ordered, and the first language.  [re.OrderedKeys[0]] is read after
    [re.order()] on a resource that has data; it would panic on an empty
    slice, which a valid cache never is there. *)
Definition ResourceSet_firstLang (rs : ResourceSet) (typeID resID : Identifier)
    : ResourceSet * Z :=
  match Types rs !! typeID with
  | None => (rs, 0)
  | Some te =>
    match Resources te !! resID with
    | None => (rs, 0)
    | Some re =>
      if Z.of_nat (size (Data re)) =? 0 then (rs, 0)
      else
        let re' := ResourceEntry_order re in
        let te' := mkTypeEntry (<[resID := re']> (Resources te))
                               (te_OrderedKeys te) (NamesCount te) in
        (mkResourceSet (<[typeID := te']> (Types rs)) (lastIconID rs)
                       (lastCursorID rs),
         uint16 (nth 0 (cached (re_OrderedKeys re')) 0))
    end
  end.

(** [ResourceSet.fullSize]: the set as [prepare] leaves it, and the size. *)
Definition ResourceSet_fullSize (rs : ResourceSet) : ResourceSet * Z :=
  let '(rs1, s) := ResourceSet_prepare rs in
  (rs1,
   ResourceSet_dirSize rs1 + len (namesData s) * 2
   + sumZ (map (fun kt =>
         sumZ (map (fun kr =>
               sumZ (map (fun kd => paddedDataSize (snd kd))
                         (map_to_list (Data (snd kr)))))
             (map_to_list (Resources (snd kt)))))
       (map_to_list (Types rs1)))).

(** [LoadFromEXE] and [LoadFromEXESingleType], from the point where the
    section and its base address have been extracted from the executable;
    the check of the type comes before the extraction. *)
Definition LoadFromSection (section : list byte) (baseAddress : Z)
    : result ResourceSet :=
  loadFromSection section baseAddress (ID 0).

Definition LoadFromSectionSingleType (section : list byte) (baseAddress : Z)
    (typeID : Identifier) : result ResourceSet :=
  if bool_decide (typeID = ID 0) then Err errZeroID
  else loadFromSection section baseAddress typeID.

(** ** Icons (icon.go) *)

Definition uint8 (n : Z) : Z := n mod 2 ^ 8.

(** [IconInfo]: the fields are [uint8], [uint16] and [uint32] values. *)
Record IconInfo : Type := mkIconInfo {
  Width : Z;
  Height : Z;
  ColorCount : Z;
  ii_Reserved : Z;
  Planes : Z;
  BitCount : Z;
  BytesInRes : Z
}.

(** [IconImage]; [None] is a nil [Image]. *)
Record IconImage : Type := mkIconImage {
  Info : IconInfo;
  Image : option (list byte)
}.

Record Icon : Type := mkIcon { Images : list IconImage }.

Definition LCIDNeutral : Z := 0.
Definition sizeOfIconDirHeader : Z := 6.

(** The size of an [iconResDirEntry] in its binary form: an [IconInfo]
    (12 bytes) and a [uint16]. *)
Definition sizeOfIconResDirEntry : Z := 14.

(** [sort.SliceStable(s, less)]: the elements in the order of [less], those
    that [less] does not tell apart in their original order.  Insertion
    sort, each element going before the first one that is not less than it,
    does that. *)
Definition sort_SliceStable {A} (less : A -> A -> bool) (l : list A) : list A :=
  sort_Slice less l.

(** The comparison of [Icon.order]: by descending [BitCount], then by
    descending width, [int(Width-1)+1] in [uint8] arithmetic, so that the
    width 0 counts as 256. *)
Definition iconLess (a b : IconImage) : bool :=
  let img1 := Info a in
  let img2 := Info b in
  (BitCount img2 <? BitCount img1)
  || ((BitCount img1 =? BitCount img2)
      && (uint8 (Width img2 - 1) + 1 <? uint8 (Width img1 - 1) + 1)).

(** [Icon.order]. *)
Definition Icon_order (icon : Icon) : Icon :=
  mkIcon (sort_SliceStable iconLess (Images icon)).

(** [binary.Write] of an [IconInfo], of an [iconDirHeader] and of an
    [iconResDirEntry]. *)
Definition writeIconInfo (i : IconInfo) : list byte :=
  le_split 1 (Width i) ++ le_split 1 (Height i) ++ le_split 1 (ColorCount i)
  ++ le_split 1 (ii_Reserved i) ++ le_split 2 (Planes i)
  ++ le_split 2 (BitCount i) ++ le_split 4 (BytesInRes i).

Definition writeIconDirHeader (reserved type count : Z) : list byte :=
  le_split 2 reserved ++ le_split 2 type ++ le_split 2 count.

Definition writeIconResDirEntry (i : IconInfo) (id : Z) : list byte :=
  writeIconInfo i ++ le_split 2 id.

(** The loop of [SetIconTranslation] over the images: the set, the bytes
    appended to the buffer, and the error that stopped the loop. *)
Fixpoint setIconImages (rs : ResourceSet) (imgs : list IconImage)
    : ResourceSet * list byte * option error :=
  match imgs with
  | [] => (rs, [], None)
  | img :: imgs' =>
    let id := uint16 (lastIconID rs + 1) in
    let b := writeIconResDirEntry (Info img) id in
    match ResourceSet_Set rs RT_ICON (ID id) LCIDNeutral (Image img) with
    | (rs', Some e) => (rs', b, Some e)
    | (rs', None) =>
      let '(rs'', bs, err) := setIconImages rs' imgs' in
      (rs'', b ++ bs, err)
    end
  end.

(** [ResourceSet.SetIconTranslation]: the set and the icon after the call
    (the images of the icon are put in order), and the error returned. *)
Definition ResourceSet_SetIconTranslation (rs : ResourceSet)
    (resID : Identifier) (langID : Z) (icon : Icon)
    : ResourceSet * Icon * option error :=
  let hdr := writeIconDirHeader 0 1 (uint16 (len (Images icon))) in
  let icon := Icon_order icon in
  match setIconImages rs (Images icon) with
  | (rs', _, Some e) => (rs', icon, Some e)
  | (rs', bs, None) =>
    let '(rs'', err) :=
      ResourceSet_Set rs' RT_GROUP_ICON resID langID (Some (hdr ++ bs)) in
    (rs'', icon, err)
  end.

(** [ResourceSet.SetIcon]. *)
Definition ResourceSet_SetIcon (rs : ResourceSet) (resID : Identifier)
    (icon : Icon) : ResourceSet * Icon * option error :=
  ResourceSet_SetIconTranslation rs resID LCIDNeutral icon.

(** Modelled from the spec: the error constants of icon.go are not part of
    the sources at hand; there is one constructor for each constant that
    [GetIconTranslation] names. *)
Inductive iconError : Type :=
| errGroupNotFound
| errInvalidGroup
| errIconMissing.

Inductive iconResult : Type :=
| IconOk (icon : Icon)
| IconErr (e : iconError).

(** [binary.Read] of an [IconInfo] and of an [iconResDirEntry]. *)
Definition readIconInfo (bs : list byte) : IconInfo :=
  mkIconInfo (le_combine (slice bs 0 1)) (le_combine (slice bs 1 1))
             (le_combine (slice bs 2 1)) (le_combine (slice bs 3 1))
             (le_combine (slice bs 4 2)) (le_combine (slice bs 6 2))
             (le_combine (slice bs 8 4)).

Definition readIconResDirEntry (bs : list byte) : IconInfo * Z :=
  (readIconInfo bs, le_combine (slice bs 12 2)).

(** The loop of [GetIconTranslation]: [n] entries are still to be read from
    the position [pos] of the reader. *)
Fixpoint getIconImages (n : nat) (rs : ResourceSet) (data : list byte)
    (pos : Z) (images : list IconImage) : ResourceSet * iconResult :=
  match n with
  | O => (rs, IconOk (mkIcon images))
  | S n' =>
    match binaryRead data pos sizeOfIconResDirEntry with
    | Err _ => (rs, IconErr errInvalidGroup)
    | Ok bs =>
      let '(info, id) := readIconResDirEntry bs in
      let '(rs, lang) := ResourceSet_firstLang rs RT_ICON (ID id) in
      match ResourceSet_Get rs RT_ICON (ID id) lang with
      | None => (rs, IconErr errIconMissing)
      | Some img =>
        getIconImages n' rs data (pos + sizeOfIconResDirEntry)
                      (images ++ [mkIconImage info (Some img)])
      end
    end
  end.

(** [ResourceSet.GetIconTranslation]: the set after the call (ordering
    caches may have been filled in) and the result. *)
Definition ResourceSet_GetIconTranslation (rs : ResourceSet)
    (resID : Identifier) (langID : Z) : ResourceSet * iconResult :=
  match ResourceSet_Get rs RT_GROUP_ICON resID langID with
  | None => (rs, IconErr errGroupNotFound)
  | Some data =>
    match binaryRead data 0 sizeOfIconDirHeader with
    | Err _ => (rs, IconErr errInvalidGroup)
    | Ok hdr =>
      let Reserved := readUint16 hdr 0 in
      let Type_ := readUint16 hdr 2 in
      let Count := readUint16 hdr 4 in
      if negb (Type_ =? 1) || negb (Reserved =? 0)
      then (rs, IconErr errInvalidGroup)
      else getIconImages (Z.to_nat Count) rs data sizeOfIconDirHeader []
    end
  end.

(** [ResourceSet.GetIcon]. *)
Definition ResourceSet_GetIcon (rs : ResourceSet) (resID : Identifier)
    : ResourceSet * iconResult :=
  let '(rs, lang) := ResourceSet_firstLang rs RT_GROUP_ICON resID in
  ResourceSet_GetIconTranslation rs resID lang.

Definition sizeOfIconFileDirEntry : Z := 16.

(** [binary.Write] of an [iconFileDirEntry]. *)
Definition writeIconFileDirEntry (i : IconInfo) (imageOffset : Z) : list byte :=
  writeIconInfo i ++ le_split 4 (uint32 imageOffset).

(** The bytes of an image; the length of a nil slice is 0 and writing it
    writes nothing. *)
Definition imageBytes (img : IconImage) : list byte := default [] (Image img).

(** The first loop of [SaveICO]: the directory entries, [offset] being the
    offset of the next image. *)
Fixpoint saveIconEntries (imgs : list IconImage) (offset : Z) : list byte :=
  match imgs with
  | [] => []
  | img :: imgs' =>
    writeIconFileDirEntry (Info img) offset
    ++ saveIconEntries imgs' (offset + len (imageBytes img))
  end.

(** [Icon.SaveICO] into a writer that never fails: the icon after the call
    (its images are put in order) and the bytes written. *)
Definition Icon_SaveICO (icon : Icon) : Icon * list byte :=
  let hdr := writeIconDirHeader 0 1 (uint16 (len (Images icon))) in
  let hdrLen := sizeOfIconDirHeader
                + len (Images icon) * sizeOfIconFileDirEntry in
  let icon := Icon_order icon in
  (icon,
   hdr ++ saveIconEntries (Images icon) hdrLen
   ++ flat_map imageBytes (Images icon)).

(** * Specification-level definitions *)

Fixpoint leadingNames (keys : list Identifier) : nat :=
  match keys with
  | Name _ :: keys' => S (leadingNames keys')
  | _ => O
  end.

Definition pruned (rs : ResourceSet) : Prop :=
  forall t te, Types rs !! t = Some te ->
    Resources te <> ∅ /\
    forall r re, Resources te !! r = Some re -> Data re <> ∅.

(** [keys] lists exactly the keys of [m], in strictly ascending order. *)
Definition cacheOf {K V} `{Countable K} (less : K -> K -> bool)
    (m : gmap K V) (keys : list K) : Prop :=
  (forall k, k ∈ keys <-> is_Some (m !! k))
  /\ StronglySorted (fun a b => less a b = true) keys.

Definition re_cache_ok (re : ResourceEntry) : Prop :=
  forall keys, re_OrderedKeys re = Some keys -> cacheOf Z.ltb (Data re) keys.

Definition te_cache_ok (te : TypeEntry) : Prop :=
  (forall keys, te_OrderedKeys te = Some keys ->
     cacheOf lessThan (Resources te) keys /\ NamesCount te = leadingNames keys)
  /\ forall r re, Resources te !! r = Some re -> re_cache_ok re.

Definition caches_ok (rs : ResourceSet) : Prop :=
  forall t te, Types rs !! t = Some te -> te_cache_ok te.

(** The caches held by a set. *)
Definition te_caches (te : TypeEntry)
    : option (list Identifier) * nat * gmap Identifier (option (list Z)) :=
  (te_OrderedKeys te, NamesCount te, re_OrderedKeys <$> Resources te).

Definition caches (rs : ResourceSet) := te_caches <$> Types rs.

(** The operations of the package that touch the ordering caches. *)
Inductive op : Type :=
| opSet (t r : Identifier) (l : Z) (d : option (list byte))
| opWalk
| opWrite.

Definition runOp (rs : ResourceSet) (o : op) : ResourceSet :=
  match o with
  | opSet t r l d => fst (ResourceSet_Set rs t r l d)
  | opWalk => fst (ResourceSet_Walk rs)
  | opWrite => fst (fst (ResourceSet_write rs))
  end.

Definition runOps (ops : list op) : ResourceSet := fold_left runOp ops emptySet.

(** The resources in the order in which they are written. *)
Definition langList : Type := list (Z * list byte).
Definition resList : Type := list (Identifier * langList).
Definition tree : Type := list (Identifier * resList).

Definition langsOf (re : ResourceEntry) : langList :=
  map (fun lk => (lk, de_Data (dataOf re lk))) (cached (re_OrderedKeys re)).

Definition resOf (te : TypeEntry) : resList :=
  map (fun rk => (rk, langsOf (resourceOf te rk))) (cached (te_OrderedKeys te)).

Definition treeOf (rs : ResourceSet) (keys : list Identifier) : tree :=
  map (fun tk => (tk, resOf (typeOf rs tk))) keys.

(** [thread f sz xs o]: the items [xs] laid out one after the other from
    the offset [o], the item [x] taking [sz x] bytes. *)
Fixpoint thread {X A} (f : X -> Z -> list A) (sz : X -> Z) (xs : list X)
    (o : Z) : list A :=
  match xs with
  | [] => []
  | x :: xs' => f x o ++ thread f sz xs' (o + sz x)
  end.

Definition total {X} (sz : X -> Z) (xs : list X) : Z := sumZ (map sz xs).

Definition langTableSize (ls : langList) : Z :=
  sizeOfDirTable + len ls * sizeOfDirEntry.
Definition resTableSize (R : resList) : Z :=
  sizeOfDirTable + len R * sizeOfDirEntry.
Definition paddedLen (lp : Z * list byte) : Z := alignData (len (snd lp)).

Definition dirEntryB (no : gmap string Z) (k : Identifier) (o : Z) : list byte :=
  match k with
  | Name n => writeDirectoryEntry (default 0 (no !! n)) o true true
  | ID i => writeDirectoryEntry i o false true
  end.

Definition tableB {X} (no : gmap string Z) (sz : X -> Z)
    (items : list (Identifier * X)) (o : Z) : list byte :=
  writeDirectoryTable (Z.of_nat (leadingNames (map fst items)))
                      (len items - Z.of_nat (leadingNames (map fst items)))
  ++ thread (fun kx => dirEntryB no (fst kx)) (fun kx => sz (snd kx)) items o.

Definition langTableB (ls : langList) (o : Z) : list byte :=
  writeDirectoryTable 0 (len ls)
  ++ thread (fun lp o => writeDirectoryEntry (fst lp) o false false)
            (fun _ => sizeOfDataEntry) ls o.

(** The six parts of the section. *)
Definition typeDirB (no : gmap string Z) (T : tree) : list byte :=
  tableB no resTableSize T (sizeOfDirTable + len T * sizeOfDirEntry).

Definition resDirsB (no : gmap string Z) (T : tree) (o : Z) : list byte :=
  thread (fun tR => tableB no langTableSize (snd tR))
         (fun tR => total (fun rl => langTableSize (snd rl)) (snd tR)) T o.

Definition langDirsR (R : resList) (o : Z) : list byte :=
  thread (fun rl => langTableB (snd rl))
         (fun rl => len (snd rl) * sizeOfDataEntry) R o.

Definition dataIndexSizeR (R : resList) : Z :=
  total (fun rl => len (snd rl) * sizeOfDataEntry) R.

Definition langDirsB (T : tree) (o : Z) : list byte :=
  thread (fun tR => langDirsR (snd tR)) (fun tR => dataIndexSizeR (snd tR)) T o.

Definition relocsL (ls : langList) (o : Z) : list Z :=
  thread (fun (_ : Z * list byte) o => [o]) (fun _ => sizeOfDataEntry) ls o.
Definition relocsR (R : resList) (o : Z) : list Z :=
  thread (fun rl => relocsL (snd rl))
         (fun rl => len (snd rl) * sizeOfDataEntry) R o.
Definition relocsB (T : tree) (o : Z) : list Z :=
  thread (fun tR => relocsR (snd tR)) (fun tR => dataIndexSizeR (snd tR)) T o.

Definition dataIndexL (ls : langList) (o : Z) : list byte :=
  thread (fun lp o => writeDataEntry o (len (snd lp))) paddedLen ls o.
Definition payloadSizeL (ls : langList) : Z := total paddedLen ls.
Definition dataIndexR (R : resList) (o : Z) : list byte :=
  thread (fun rl => dataIndexL (snd rl)) (fun rl => payloadSizeL (snd rl)) R o.
Definition payloadSizeR (R : resList) : Z :=
  total (fun rl => payloadSizeL (snd rl)) R.
Definition dataIndexB (T : tree) (o : Z) : list byte :=
  thread (fun tR => dataIndexR (snd tR)) (fun tR => payloadSizeR (snd tR)) T o.

Definition payloadL (ls : langList) : list byte :=
  flat_map (fun lp => DataEntry_writeData (mkDataEntry (snd lp))) ls.
Definition payloadR (R : resList) : list byte :=
  flat_map (fun rl => payloadL (snd rl)) R.
Definition payloadB (T : tree) : list byte :=
  flat_map (fun tR => payloadR (snd tR)) T.

(** The offsets at which the parts begin. *)
Definition resDirsAt (T : tree) : Z := sizeOfDirTable + len T * sizeOfDirEntry.
Definition langDirsAt (T : tree) : Z :=
  resDirsAt T + total (fun tR => resTableSize (snd tR)) T.
Definition dataIndexAt (T : tree) : Z :=
  langDirsAt T
  + total (fun tR => total (fun rl => langTableSize (snd rl)) (snd tR)) T.
Definition namesAt (T : tree) : Z :=
  dataIndexAt T + total (fun tR => dataIndexSizeR (snd tR)) T.

(** The whole section. *)
Definition imageB (no : gmap string Z) (names : list Z) (T : tree) : list byte :=
  typeDirB no T ++ resDirsB no T (langDirsAt T) ++ langDirsB T (dataIndexAt T)
  ++ dataIndexB T (namesAt T + len names * 2)
  ++ writeUint16s names ++ payloadB T.

(** The state after a writer that moves the offset by [d] and records the
    relocation addresses [rl]. *)
Definition advance (s : state) (d : Z) (rl : list Z) : state :=
  mkState (offset s + d) (relocAddr s ++ rl) (nameOffset s) (namesData s)
          (orderedKeys s) (namesCount s).

(** Every cache of the set is filled in and valid. *)
Definition re_complete (re : ResourceEntry) : Prop :=
  exists keys, re_OrderedKeys re = Some keys /\ cacheOf Z.ltb (Data re) keys.

Definition te_complete (te : TypeEntry) : Prop :=
  (exists keys, te_OrderedKeys te = Some keys
                /\ cacheOf lessThan (Resources te) keys
                /\ NamesCount te = leadingNames keys)
  /\ forall r re, Resources te !! r = Some re -> re_complete re.

Definition complete (rs : ResourceSet) : Prop :=
  forall t te, Types rs !! t = Some te -> te_complete te.

(** A cached order of resources comes with the orders of their languages:
    what [TypeEntry.Order] relies on when it returns early. *)
Definition nested (rs : ResourceSet) : Prop :=
  forall t te, Types rs !! t = Some te -> te_OrderedKeys te <> None ->
    forall r re, Resources te !! r = Some re -> re_OrderedKeys re <> None.

Definition clean (rs : ResourceSet) : Prop := caches_ok rs /\ nested rs.

(** [w] writes [out o] at the offset [o], moves the offset by [sz] and
    records the relocation addresses [rel o]; [no] is the table of name
    offsets of the state. *)
Definition regular (no : gmap string Z) (w : writer) (out : Z -> list byte)
    (sz : Z) (rel : Z -> list Z) : Prop :=
  forall s, nameOffset s = no ->
    w s = (out (offset s), advance s sz (rel (offset s))).

Definition typeKeys (rs : ResourceSet) : list Identifier :=
  sort_Slice lessThan (map fst (map_to_list (Types rs))).

(** The set as [prepare] leaves it, and the tree that is written. *)
Definition ordered (rs : ResourceSet) : ResourceSet :=
  fst (ResourceSet_order rs state0).

Definition treeOfSet (rs : ResourceSet) : tree :=
  treeOf (ordered rs) (typeKeys rs).

(** [buf] holds the bytes [bs] at the offset [o]. *)
Definition has_at {A} (buf : list A) (o : Z) (bs : list A) : Prop :=
  exists pre post, buf = pre ++ bs ++ post /\ len pre = o.

(** The bytes of one entry of the name table. *)
Definition nameBytes (n : string) : list byte :=
  writeUint16s (uint16 (len (nameUnits n)) :: nameUnits n).

Definition unitsOk (us : list Z) : Prop := Forall (fun u => 0 <= u < 2 ^ 16) us.

(** What the decoder needs to know about an identifier of a directory. *)
Definition key_ok (buf : list byte) (no : gmap string Z) (k : Identifier) : Prop :=
  match k with
  | ID i => 0 <= i < 2 ^ 16
  | Name n =>
    exists o, no !! n = Some o /\ 0 <= o < 2 ^ 31 /\ has_at buf o (nameBytes n)
              /\ len (nameUnits n) < 2 ^ 16 /\ unitsOk (nameUnits n)
              /\ unitsName (nameUnits n) = n
  end.

Definition rawEntry (no : gmap string Z) (k : Identifier) (o : Z) : Z * Z :=
  match k with
  | Name n => (Z.lor (uint32 (default 0 (no !! n))) nameOffsetFlag,
               Z.lor (uint32 o) subdirectoryOffset)
  | ID i => (uint32 i, Z.lor (uint32 o) subdirectoryOffset)
  end.

(** The effect of decoding a list of languages, of resources, of types. *)
Definition setLangs (rs : ResourceSet) (t r : Identifier) (ls : langList)
    : ResourceSet :=
  fold_left (fun rs lp => ResourceSet_set rs t r (fst lp) (Some (snd lp))) ls rs.

Definition setResources (rs : ResourceSet) (t : Identifier) (R : resList)
    : ResourceSet :=
  fold_left (fun rs rl => setLangs rs t (fst rl) (snd rl)) R rs.

Definition setTree (rs : ResourceSet) (T : tree) : ResourceSet :=
  fold_left (fun rs tR => setResources rs (fst tR) (snd tR)) T rs.

Definition langs_ok (ls : langList) : Prop :=
  len ls < 2 ^ 16 /\ Forall (fun lp => 0 <= fst lp < 2 ^ 16) ls.

Definition res_ok (rl : Identifier * langList) : Prop :=
  checkIdentifier (fst rl) = None /\ langs_ok (snd rl).

Definition type_ok (buf : list byte) (no : gmap string Z)
    (tR : Identifier * resList) : Prop :=
  key_ok buf no (fst tR) /\ checkIdentifier (fst tR) = None
  /\ len (snd tR) < 2 ^ 16
  /\ Forall (fun rl => key_ok buf no (fst rl) /\ res_ok rl) (snd tR).

Definition tree_ok (buf : list byte) (no : gmap string Z) (T : tree) : Prop :=
  len T < 2 ^ 16 /\ Forall (type_ok buf no) T.

Definition nameEntry (n : string) : list Z :=
  uint16 (len (nameUnits n)) :: nameUnits n.

(** A resource with its key. *)
Definition entry : Type := Identifier * Identifier * Z * list byte.
Definition entryKey (e : entry) : Identifier * Identifier * Z := fst e.

Definition setEntry (rs : ResourceSet) (e : entry) : ResourceSet :=
  let '(t, r, l, p) := e in ResourceSet_set rs t r l (Some p).

Definition GetKey (rs : ResourceSet) (k : Identifier * Identifier * Z)
    : option (list byte) :=
  let '(t, r, l) := k in ResourceSet_Get rs t r l.

(** The tree as a list of entries, in the order of the walk. *)
Definition flatL (t r : Identifier) (ls : langList) : list entry :=
  map (fun lp => (t, r, fst lp, snd lp)) ls.
Definition flatR (t : Identifier) (R : resList) : list entry :=
  flat_map (fun rl => flatL t (fst rl) (snd rl)) R.
Definition flatT (T : tree) : list entry :=
  flat_map (fun tR => flatR (fst tR) (snd tR)) T.

(** A name survives the transcoding to UTF-16 and back, and its length fits
    the 16-bit length field. *)
Definition name_fits (n : string) : Prop :=
  unitsName (nameUnits n) = n /\ len (nameUnits n) < 2 ^ 16.

Definition ident_ok (k : Identifier) : Prop :=
  checkIdentifier k = None
  /\ match k with ID i => is_uint16 i | Name n => name_fits n end.

Definition keys_wf (rs : ResourceSet) : Prop :=
  forall t te, Types rs !! t = Some te ->
    ident_ok t
    /\ forall r re, Resources te !! r = Some re ->
         ident_ok r /\ forall l, is_Some (Data re !! l) -> is_uint16 l.

Definition counts_fit (rs : ResourceSet) : Prop :=
  Z.of_nat (size (Types rs)) < 2 ^ 16
  /\ map_Forall (fun _ te =>
        Z.of_nat (size (Resources te)) < 2 ^ 16
        /\ map_Forall (fun _ re => Z.of_nat (size (Data re)) < 2 ^ 16)
                      (Resources te)) (Types rs).

Definition fits (rs : ResourceSet) : Prop :=
  counts_fit rs /\ len (ResourceSet_bytes rs) < 2 ^ 31.

(** No ordering cache is filled in. *)
Definition fresh (rs : ResourceSet) : Prop :=
  forall t te, Types rs !! t = Some te ->
    te_OrderedKeys te = None
    /\ forall r re, Resources te !! r = Some re -> re_OrderedKeys re = None.

Definition entry_ok (e : entry) : Prop :=
  let '(t, r, l, _) := e in ident_ok t /\ ident_ok r /\ is_uint16 l.

(** The set built from a collection of resources by calls to [Set]. *)
Definition SetEntry (rs : ResourceSet) (e : entry) : ResourceSet :=
  let '(t, r, l, p) := e in fst (ResourceSet_Set rs t r l (Some p)).

Definition buildSet (entries : list entry) : ResourceSet :=
  fold_left SetEntry entries emptySet.

Definition badUtf8Name : string := String (ascii_of_nat 255) EmptyString.

Definition badUtf8Entries : list entry :=
  [(ID 10, Name badUtf8Name, 0, [Byte.x01])].

(** The entry of [x] is written before the entry of [y]. *)
Definition precedes {A} (keys : list A) (x y : A) : Prop :=
  exists i j, (i < j)%nat /\ keys !! i = Some x /\ keys !! j = Some y.

Definition orderLaw (keys : list Identifier) : Prop :=
  (forall a b, Name a ∈ keys -> ID b ∈ keys -> precedes keys (Name a) (ID b))
  /\ (forall a b, Name a ∈ keys -> Name b ∈ keys -> String.ltb a b = true ->
        precedes keys (Name a) (Name b))
  /\ (forall a b, ID a ∈ keys -> ID b ∈ keys -> a < b ->
        precedes keys (ID a) (ID b)).

(** The innermost callback, recording the directory entries whose data
    record it reads. *)
Definition logged {S}
    (leafFn : dirEntry -> dirEntry -> dirEntry -> S -> S * option error)
    (te re le : dirEntry) (st : S * list dirEntry)
    : (S * list dirEntry) * option error :=
  let '(st', err) := leafFn te re le (fst st) in
  ((st', snd st ++ [le]), err).

(** The language entries on which [readData] is called while the section is
    decoded, in order. *)
Definition recordsRead (section : list byte) (baseAddress : Z)
    (typeID : Identifier) : list dirEntry :=
  snd (fst (readWith (logged (readLang section baseAddress)) section typeID
                     (emptySet, []))).

(** The fields of the data record at an entry, when it can be read. *)
Definition dataRecord (section : list byte) (le : dirEntry)
    : option (Z * Z) :=
  match binaryRead section (de_offset le) sizeOfDataEntry with
  | Ok entry => Some (readUint32 entry 0, readUint32 entry 4)
  | Err _ => None
  end.

Definition outOfBounds (section : list byte) (baseAddress : Z)
    (rec : Z * Z) : Prop :=
  fst rec - baseAddress < 0 \/ fst rec - baseAddress + snd rec > len section.

(** While the walk goes on, every record read so far was in bounds; once it
    has failed, only a record that was out of bounds can be the cause. *)
Definition log_good (section : list byte) (baseAddress : Z)
    (st : ResourceSet * list dirEntry) : Prop :=
  Forall (fun le => exists data, readData le section baseAddress = Ok data)
         (snd st).

Definition log_bad (section : list byte) (baseAddress : Z)
    (st : ResourceSet * list dirEntry) (err : error) : Prop :=
  forall le e, le ∈ snd st -> readData le section baseAddress = Err e ->
               err = e.

(** A call to [Set]. *)
Definition setCall : Type := Identifier * Identifier * Z * option (list byte).

Definition callOp (c : setCall) : op :=
  let '(t, r, l, d) := c in opSet t r l d.

(** The set obtained from the empty set by calls to [Set] alone. *)
Definition applySets (calls : list setCall) : ResourceSet :=
  runOps (map callOp calls).

(** The closed form as the specification words it: a table header and the
    entries of every directory, at the three levels. *)
Definition dirSize_claimed (rs : ResourceSet) : Z :=
  16 + 8 * Z.of_nat (size (Types rs))
  + sumZ (map (fun kt =>
        16 + 8 * Z.of_nat (size (Resources (snd kt)))
        + sumZ (map (fun kr => 16 + 8 * Z.of_nat (size (Data (snd kr))))
                    (map_to_list (Resources (snd kt)))))
      (map_to_list (Types rs))).

(** The closed form of the code: the data records, 16 bytes for every
    language of every resource, belong to the directory as well. *)
Definition dirSize_closed (rs : ResourceSet) : Z :=
  16 + 8 * Z.of_nat (size (Types rs))
  + sumZ (map (fun kt =>
        16 + 8 * Z.of_nat (size (Resources (snd kt)))
        + sumZ (map (fun kr => 16 + 8 * Z.of_nat (size (Data (snd kr)))
                               + 16 * Z.of_nat (size (Data (snd kr))))
                    (map_to_list (Resources (snd kt)))))
      (map_to_list (Types rs))).

(** The payloads in the order of the walk, each padded. *)
Definition payloadRegion (rs : ResourceSet) : list byte :=
  flat_map (fun e => DataEntry_writeData (mkDataEntry (snd e)))
           (snd (ResourceSet_Walk rs)).

Definition oneNamed : list setCall :=
  [(Name "A", ID 1, 0, Some [Byte.x01])].

Definition contents (rs : ResourceSet)
    : gmap Identifier (gmap Identifier (gmap Z DataEntry)) :=
  (fun te => Data <$> Resources te) <$> Types rs.

Definition staleOps : list op :=
  [opSet (ID 10) (ID 1) 0 (Some [Byte.x01]); opWalk;
   opSet (ID 10) (ID 1) 1033 (Some [Byte.x02])].

Definition freshOps : list op :=
  [opSet (ID 10) (ID 1) 0 (Some [Byte.x01]);
   opSet (ID 10) (ID 1) 1033 (Some [Byte.x02])].

Definition invalid (i : Identifier) : Prop :=
  i = ID 0 \/ i = Name EmptyString.

Definition sampleSet : ResourceSet :=
  runOps [opSet (ID 3) (ID 1) 0 (Some [Byte.xff]);
          opSet (ID 3) (Name "MAIN") 1033 (Some [Byte.xaa; Byte.xbb]);
          opWalk].

Definition lastOne : ResourceSet :=
  runOps [opSet (ID 3) (ID 1) 0 (Some [Byte.xff]);
          opSet (ID 24) (ID 1) 1033 (Some [Byte.x01])].

Definition sampleEntries : list entry :=
  [(ID 3, ID 1, 0, [Byte.xff; Byte.xff; Byte.xff]);
   (ID 3, Name "MAIN", 1033, [Byte.xaa]);
   (Name "CFG", ID 2, 0, [Byte.x01; Byte.x02])].

Definition truncatedSection : list byte :=
  firstn 242 (ResourceSet_bytes (buildSet sampleEntries)).

(** A name of 262144 letters: its UTF-16 form has 262144 code units, and
    [uint16] of that length is 0. *)
Definition longName : string :=
  string_of_list_ascii (repeat "a"%char (Z.to_nat 262144)).

Definition longEntries : list entry := [(Name longName, ID 1, 0, [Byte.x01])].

(** A name read by [readName] has at most 65535 code units, hence at most
    four times as many bytes. *)
Definition shortIdent (k : Identifier) : Prop :=
  match k with
  | Name n => Z.of_nat (String.length n) <= 4 * 65535
  | ID _ => True
  end.

Definition shortTypes (rs : ResourceSet) : Prop :=
  forall k te, Types rs !! k = Some te -> shortIdent k.

Definition isAscii (n : string) : Prop :=
  Forall (fun c => byteZ c < 0x80) (list_ascii_of_string n).

(** The zero bytes that follow a payload. *)
Definition padding (payload : list byte) : list byte :=
  repeat Byte.x00 (Z.to_nat (alignData (len payload) - len payload)).

(** The directory of the section [out] that the entry [de] points to, as
    [readDirTable] reads it: [entries] are its entries in the order in which
    they are stored, their identifiers are [keys], and the two counts of its
    header are the number of leading names of [keys] and the number of the
    other keys. *)
Definition tableAt (out : list byte) (de : dirEntry) (keys : list Identifier)
    (entries : list dirEntry) : Prop :=
  readDirTable de out = Ok entries
  /\ map ident entries = keys
  /\ readUint16 out (de_offset de + 12) = Z.of_nat (leadingNames keys)
  /\ readUint16 out (de_offset de + 14) = len keys - Z.of_nat (leadingNames keys).

(** The directory at [de] holds one entry for each identifier that is
    [present] at the level and no other entry; the entries are stored in the
    order of the identifiers, and the name count of the header (the 16-bit
    field at offset 12 of the table) is the number of leading name entries,
    the count of ordinals (at offset 14) the number of the other entries. *)
Definition directoryAt (out : list byte) (de : dirEntry)
    (present : Identifier -> Prop) (entries : list dirEntry) : Prop :=
  let keys := map ident entries in
  readDirTable de out = Ok entries
  /\ NoDup keys
  /\ (forall k, k ∈ keys <-> present k)
  /\ orderLaw keys
  /\ readUint16 out (de_offset de + 12) = Z.of_nat (leadingNames keys)
  /\ readUint16 out (de_offset de + 14) = len keys - Z.of_nat (leadingNames keys).

(** The languages present in a resource, as identifiers. *)
Definition langPresent (re : ResourceEntry) (k : Identifier) : Prop :=
  match k with
  | ID l => is_Some (Data re !! l)
  | Name _ => False
  end.

Definition langKeys (ls : langList) : list Identifier :=
  map (fun lp => ID (fst lp)) ls.

(** The language directory of a resource of the list [R] is read at [e2]. *)
Definition langsRead (out : list byte) (R : resList) (e2 : dirEntry) : Prop :=
  exists ls langs,
    (ident e2, ls) ∈ R /\ tableAt out (setLeaf e2) (langKeys ls) langs.

(** The resource directory of a type of the tree [T] is read at [e], and so
    are the language directories below it. *)
Definition resourcesRead (out : list byte) (T : tree) (e : dirEntry) : Prop :=
  exists R ress,
    (ident e, R) ∈ T /\ tableAt out e (map fst R) ress
    /\ Forall (langsRead out R) ress.

Definition sampleCalls : list setCall :=
  [(ID 3, ID 1, 0, Some [Byte.xff]);
   (ID 3, Name "MAIN", 1033, Some [Byte.xaa]);
   (ID 3, Name "MAIN", 0, Some [Byte.xbb]);
   (Name "CFG", ID 2, 0, Some [Byte.x01]);
   (Name "APP", ID 2, 0, Some [Byte.x02])].

(** The 16 binary digits of [i], lowest first: 65536 distinct names of 16
    letters. *)
Definition bitName (i : Z) : string :=
  string_of_list_ascii
    (map (fun k => if Z.testbit i (Z.of_nat k) then "1"%char else "0"%char)
         (seq 0 16)).

Definition namedCall (n : string) : setCall :=
  (Name n, ID 1, 0, Some [Byte.x01]).

Definition manyNames : list string :=
  map (fun i => bitName (Z.of_nat i)) (seq 0 (Z.to_nat 65536)).

(** One resource for each of the 65536 names, the name being its type. *)
Definition manyCalls : list setCall := map namedCall manyNames.

(** Two names as types: the byte 0xFF, which is not well-formed UTF-8, and
    the character U+10000 (the bytes F0 90 80 80). *)
Definition byteFF : string := String (ascii_of_nat 255) EmptyString.

Definition plane1 : string :=
  String (ascii_of_nat 240) (String (ascii_of_nat 144)
    (String (ascii_of_nat 128) (String (ascii_of_nat 128) EmptyString))).

Definition mixedCalls : list setCall := [namedCall byteFF; namedCall plane1].

(** The types that the filter [typeID] lets through. *)
Definition admitted (typeID t : Identifier) : Prop :=
  typeID = ID 0 \/ t = typeID
  \/ (t = RT_ICON /\ typeID = RT_GROUP_ICON)
  \/ (t = RT_CURSOR /\ typeID = RT_GROUP_CURSOR).

(** Every resource of the set has valid identifiers, a type that the filter
    lets through and a payload that is a range of the section. *)
Definition readFrom (section : list byte) (typeID : Identifier)
    (rs : ResourceSet) : Prop :=
  forall t r l p, ResourceSet_Get rs t r l = Some p ->
    admitted typeID t
    /\ checkIdentifier t = None /\ checkIdentifier r = None
    /\ 0 <= l < 2 ^ 16
    /\ exists o, has_at section o p.

(** The visits of [Walk], from the ordered tree. *)
Definition visitOf (e : entry) : entry :=
  let '(t, r, l, p) := e in (t, r, uint16 l, p).

(** The order of the keys of the resources: by type, then by resource, then
    by language. *)
Definition keyLess (a b : Identifier * Identifier * Z) : Prop :=
  let '(t1, r1, l1) := a in
  let '(t2, r2, l2) := b in
  lessThan t1 t2 = true
  \/ (t1 = t2 /\ (lessThan r1 r2 = true \/ (r1 = r2 /\ l1 < l2))).

Definition entryLess (a b : entry) : Prop := keyLess (entryKey a) (entryKey b).

(** Every language passed to [Set] is a [uint16]. *)
Definition calls16 (calls : list setCall) : Prop :=
  Forall (fun c => is_uint16 (snd (fst c))) calls.

Definition langs16 (rs : ResourceSet) : Prop :=
  forall t r l p, ResourceSet_Get rs t r l = Some p -> is_uint16 l.

Definition walkCalls : list setCall :=
  [(ID 3, ID 2, 1033, Some [Byte.x02]);
   (Name "CFG", ID 1, 0, Some [Byte.x03]);
   (ID 3, ID 2, 0, Some [Byte.x01])].


Definition typeIs (typeID : Identifier) (e : entry) : Prop :=
  fst (fst (fst e)) = typeID.
Global Instance typeIs_dec typeID e : Decision (typeIs typeID e).
Proof. unfold typeIs. apply _. Defined.


Definition ops16 (ops : list op) : Prop :=
  Forall (fun o => match o with
                   | opSet _ _ l _ => is_uint16 l
                   | _ => True
                   end) ops.

Definition langOps : list op :=
  [opSet (ID 16) (ID 1) 1036 (Some [Byte.x01]);
   opWalk;
   opSet (ID 16) (ID 1) 1033 (Some [Byte.x02])].

(** The room taken by the payload of a resource, and its data record when
    the payload is written at the offset [o]. *)
Definition padded (e : entry) : Z := alignData (len (snd e)).

Definition recordB (e : entry) (o : Z) : list byte :=
  writeDataEntry o (len (snd e)).

Definition paddedPayload (e : entry) : list byte :=
  DataEntry_writeData (mkDataEntry (snd e)).

(** The two sets hold the same resources. *)
Definition sameData (rs1 rs2 : ResourceSet) : Prop :=
  forall t r l, ResourceSet_Get rs1 t r l = ResourceSet_Get rs2 t r l.

(** The names of the directories of a tree. *)
Definition treeNames (T : tree) : list string :=
  flat_map (fun tR => namesOf [fst tR] ++ namesOf (map fst (snd tR))) T.

Definition historyCalls : list setCall :=
  [(ID 3, ID 2, 0, Some [Byte.x09]);
   (Name "CFG", ID 1, 0, Some [Byte.x03]);
   (ID 24, ID 1, 1033, Some [Byte.x07]);
   (ID 3, ID 2, 0, Some [Byte.x01]);
   (ID 24, ID 1, 1033, None);
   (ID 3, ID 1, 0, Some [Byte.x02])].

Definition directCalls : list setCall :=
  [(ID 3, ID 1, 0, Some [Byte.x02]);
   (ID 3, ID 2, 0, Some [Byte.x01]);
   (Name "CFG", ID 1, 0, Some [Byte.x03])].

(** The filter lets the type of the subtree through. *)
Definition kept (typeID : Identifier) (tR : Identifier * resList) : Prop :=
  skipType typeID (fst tR) = false.
Global Instance kept_dec typeID tR : Decision (kept typeID tR).
Proof. unfold kept. apply _. Defined.

(** The subtrees that the filter lets through. *)
Definition keptTree (typeID : Identifier) (T : list (Identifier * resList))
    : tree :=
  filter (kept typeID) T.

Definition filteredEntries : list entry :=
  [(RT_ICON, ID 1, 0, [Byte.xff; Byte.xff; Byte.xff]);
   (RT_GROUP_ICON, Name "APP", 0, [Byte.x00; Byte.x00; Byte.x01; Byte.x00]);
   (ID 24, ID 1, 1033, [Byte.x3c])].

(** The fields of an [IconInfo] are within the ranges of their types. *)
Definition IconInfo_wf (i : IconInfo) : Prop :=
  0 <= Width i < 2 ^ 8 /\ 0 <= Height i < 2 ^ 8
  /\ 0 <= ColorCount i < 2 ^ 8 /\ 0 <= ii_Reserved i < 2 ^ 8
  /\ 0 <= Planes i < 2 ^ 16 /\ 0 <= BitCount i < 2 ^ 16
  /\ 0 <= BytesInRes i < 2 ^ 32.

(** An icon as its constructors make it: no image is nil. *)
Definition Image_wf (img : IconImage) : Prop :=
  IconInfo_wf (Info img) /\ Image img <> None.

Definition Icon_wf (icon : Icon) : Prop := Forall Image_wf (Images icon).

(** The resources and the directory entries that [SetIconTranslation] makes
    of the images, the first one under the ordinal [id]. *)
Fixpoint iconEntries (imgs : list IconImage) (id : Z) : list entry :=
  match imgs with
  | [] => []
  | img :: imgs' =>
    (RT_ICON, ID id, 0, default [] (Image img)) :: iconEntries imgs' (id + 1)
  end.

Fixpoint groupEntries (imgs : list IconImage) (id : Z) : list byte :=
  match imgs with
  | [] => []
  | img :: imgs' =>
    writeIconResDirEntry (Info img) id ++ groupEntries imgs' (id + 1)
  end.

Definition sampleOps : list op :=
  [opSet (ID 3) (ID 1) 0 (Some [Byte.xff]);
   opSet (Name "CFG") (ID 2) 0 (Some [Byte.x01]);
   opSet (Name "APP") (ID 2) 0 (Some [Byte.x02])].

Definition sampleIcon : Icon :=
  mkIcon [mkIconImage (mkIconInfo 16 16 0 0 1 32 3) (Some [Byte.x0a; Byte.x0b; Byte.x0c]);
          mkIconImage (mkIconInfo 0 0 0 0 1 32 2) (Some [Byte.x01; Byte.x02])].

(** The two images have the same rank in the order of [Icon.order]. *)
Definition sameRank (a b : IconImage) : Prop :=
  iconLess a b = false /\ iconLess b a = false.
Global Instance sameRank_dec a b : Decision (sameRank a b).
Proof. unfold sameRank. apply _. Defined.

(** No icon image has an ordinal above [lastIconID]. *)
Definition icons_below (rs : ResourceSet) : Prop :=
  forall i l p, ResourceSet_Get rs RT_ICON (ID i) l = Some p -> i <= lastIconID rs.

Definition iconOps : list op :=
  [opSet RT_ICON (ID 7) 0 (Some [Byte.xff]);
   opSet (ID 24) (ID 1) 1033 (Some [Byte.x3c])].

Definition fullOps : list op :=
  [opSet RT_ICON (ID 65534) 0 (Some [Byte.xff])].

(** The image is the payload of an icon image of the set. *)
Definition storedImage (rs : ResourceSet) (img : IconImage) : Prop :=
  exists id l p, Image img = Some p
                 /\ ResourceSet_Get rs RT_ICON (ID id) l = Some p.

Definition imageLen (img : IconImage) : Z := len (imageBytes img).

(** * Lemmas and theorems *)

Section SortingFacts.
Context {A : Type} (less : A -> A -> bool).
Hypothesis less_irrefl : forall x, less x x = false.
Hypothesis less_trans :
  forall x y z, less x y = true -> less y z = true -> less x z = true.
Hypothesis less_total :
  forall x y, less x y = false -> less y x = false -> x = y.

Lemma sort_insert_perm x l : Permutation (sort_insert less x l) (x :: l).
Proof.
  induction l as [|y l IH]; cbn; [done|].
  destruct (less y x); [|done].
  etransitivity; [apply perm_skip, IH|apply perm_swap].
Qed.

Lemma sort_Slice_perm l : Permutation (sort_Slice less l) l.
Proof.
  induction l as [|x l IH]; cbn; [done|].
  etransitivity; [apply sort_insert_perm|]. by constructor.
Qed.

Lemma sort_insert_sorted x l :
  x ∉ l -> StronglySorted (fun a b => less a b = true) l ->
  StronglySorted (fun a b => less a b = true) (sort_insert less x l).
Proof.
  intros Hx Hs. induction Hs as [|y l Hs IH Hall]; cbn.
  - repeat constructor.
  - apply not_elem_of_cons in Hx as [Hxy Hxl].
    destruct (less y x) eqn:Hyx.
    + constructor; [by apply IH|].
      apply Forall_forall. intros z Hz.
      rewrite sort_insert_perm in Hz.
      apply elem_of_cons in Hz as [->|Hz]; [done|].
      rewrite Forall_forall in Hall. by apply Hall.
    + assert (Hlt : less x y = true).
      { destruct (less x y) eqn:E; [done|]. by specialize (less_total _ _ E Hyx). }
      constructor; [by constructor|].
      constructor; [done|].
      eapply Forall_impl; [exact Hall|]. intros z Hz. cbn in Hz. eauto.
Qed.

Lemma sort_Slice_sorted l :
  NoDup l -> StronglySorted (fun a b => less a b = true) (sort_Slice less l).
Proof.
  induction 1 as [|x l Hx Hnd IH]; cbn; [constructor|].
  apply sort_insert_sorted; [|done].
  by rewrite sort_Slice_perm.
Qed.

Lemma sorted_unique l1 l2 :
  StronglySorted (fun a b => less a b = true) l1 ->
  StronglySorted (fun a b => less a b = true) l2 ->
  Permutation l1 l2 -> l1 = l2.
Proof.
  intros H1. revert l2. induction H1 as [|x l1 Hs1 IH Hall1]; intros l2 H2 Hp.
  - by apply Permutation_nil in Hp.
  - destruct H2 as [|y l2 Hs2 Hall2].
    + symmetry in Hp. by apply Permutation_nil in Hp.
    + assert (x = y) as ->.
      { assert (Hx : x ∈ y :: l2) by (rewrite <- Hp; left).
        assert (Hy : y ∈ x :: l1) by (rewrite Hp; left).
        apply elem_of_cons in Hx as [?|Hx]; [done|].
        apply elem_of_cons in Hy as [?|Hy]; [done|].
        rewrite Forall_forall in Hall1, Hall2.
        pose proof (less_trans _ _ _ (Hall1 _ Hy) (Hall2 _ Hx)) as Hxx.
        by rewrite less_irrefl in Hxx. }
      f_equal. apply IH; [done|]. by apply Permutation_cons_inv in Hp.
Qed.

(** Sorting does not depend on the order in which a map is iterated. *)
Lemma sort_Slice_unique l1 l2 :
  NoDup l1 -> Permutation l1 l2 -> sort_Slice less l1 = sort_Slice less l2.
Proof.
  intros Hnd Hp. apply sorted_unique.
  - by apply sort_Slice_sorted.
  - apply sort_Slice_sorted. by rewrite <- Hp.
  - by rewrite !sort_Slice_perm.
Qed.

Lemma sorted_NoDup l :
  StronglySorted (fun a b => less a b = true) l -> NoDup l.
Proof.
  induction 1 as [|x l Hs IH Hall]; constructor; [|done].
  intros Hx. rewrite Forall_forall in Hall.
  specialize (Hall _ Hx). by rewrite less_irrefl in Hall.
Qed.
End SortingFacts.

Lemma lessThan_irrefl x : lessThan x x = false.
Proof. destruct x; cbn; [apply Z.ltb_irrefl|apply String.ltb_antirefl]. Qed.

Lemma lessThan_trans x y z :
  lessThan x y = true -> lessThan y z = true -> lessThan x z = true.
Proof.
  destruct x, y, z; cbn; try done.
  - rewrite !Z.ltb_lt. lia.
  - apply String.ltb_trans.
Qed.

Lemma lessThan_total x y :
  lessThan x y = false -> lessThan y x = false -> x = y.
Proof.
  destruct x, y; cbn; try done.
  - rewrite !Z.ltb_ge. intros. f_equal. lia.
  - intros. f_equal. by apply String.ltb_total.
Qed.

Lemma Zltb_trans (x y z : Z) : (x <? y) = true -> (y <? z) = true -> (x <? z) = true.
Proof. rewrite !Z.ltb_lt. lia. Qed.

Lemma Zltb_total (x y : Z) : (x <? y) = false -> (y <? x) = false -> x = y.
Proof. rewrite !Z.ltb_ge. lia. Qed.

(** Binary search *)
Lemma search_loop_spec (f : Z -> bool) (t : Z) fuel i j :
  (forall h, i <= h < j -> f h = (t <=? h)) ->
  i <= t <= j -> j - i <= Z.of_nat fuel ->
  search_loop fuel f i j = t.
Proof.
  revert i j. induction fuel as [|fuel IH]; intros i j Hf Hij Hfuel; cbn.
  - lia.
  - destruct (i <? j) eqn:E; [|apply Z.ltb_ge in E; lia].
    apply Z.ltb_lt in E.
    assert (Hh : i <= (i + j) / 2 < j).
    { split; [apply Z.div_le_lower_bound|apply Z.div_lt_upper_bound]; lia. }
    rewrite (Hf _ Hh).
    destruct (t <=? (i + j) / 2) eqn:Et; cbn.
    + apply Z.leb_le in Et. apply IH; [|lia|lia].
      intros h Hh'. apply Hf. lia.
    + apply Z.leb_gt in Et. apply IH; [|lia|lia].
      intros h Hh'. apply Hf. lia.
Qed.

Lemma sorted_names_first keys :
  StronglySorted (fun a b => lessThan a b = true) keys ->
  forall i, (i < length keys)%nat ->
    isID (nth i keys (ID 0)) = (leadingNames keys <=? i)%nat.
Proof.
  induction 1 as [|x l Hs IH Hall]; intros i Hi; cbn in *; [lia|].
  destruct x as [n|s].
  - cbn. destruct i; [done|].
    rewrite Forall_forall in Hall.
    assert (Hin : nth i l (ID 0) ∈ l) by (apply list_elem_of_In, nth_In; lia).
    specialize (Hall _ Hin). destruct (nth i l (ID 0)); done.
  - destruct i; [done|]. cbn. apply IH. lia.
Qed.

Lemma leadingNames_le keys : (leadingNames keys <= length keys)%nat.
Proof. induction keys as [|[] ? IH]; cbn; lia. Qed.

Lemma countNames_sorted keys :
  StronglySorted (fun a b => lessThan a b = true) keys ->
  countNames keys = leadingNames keys.
Proof.
  intros Hs. unfold countNames, sort_Search.
  rewrite (search_loop_spec _ (Z.of_nat (leadingNames keys))); [lia|..].
  - intros h Hh. rewrite sorted_names_first by (done || lia).
    destruct (Nat.leb_spec (leadingNames keys) (Z.to_nat h));
      [symmetry; apply Z.leb_le|symmetry; apply Z.leb_gt]; lia.
  - pose proof (leadingNames_le keys). lia.
  - lia.
Qed.

Lemma size_pos_iff `{Countable K} {V} (m : gmap K V) :
  (0 <? Z.of_nat (size m)) = true <-> m <> ∅.
Proof.
  rewrite Z.ltb_lt. rewrite <- map_size_non_empty_iff. lia.
Qed.

Lemma size_pos_false `{Countable K} {V} (m : gmap K V) :
  (0 <? Z.of_nat (size m)) = false <-> m = ∅.
Proof.
  rewrite Z.ltb_ge. rewrite <- map_size_empty_iff. lia.
Qed.

Lemma pruned_empty : pruned emptySet.
Proof. intros t te H. cbn in H. rewrite lookup_empty in H. discriminate. Qed.

Lemma pruned_insert rs t te ic cc :
  pruned rs -> Resources te <> ∅ ->
  (forall r re, Resources te !! r = Some re -> Data re <> ∅) ->
  pruned (mkResourceSet (<[t := te]> (Types rs)) ic cc).
Proof.
  intros Hp Hne Hre t' te' Hl. cbn in Hl.
  destruct (decide (t = t')) as [->|Hneq].
  - rewrite lookup_insert_eq in Hl. injection Hl as <-. auto.
  - rewrite lookup_insert_ne in Hl by done. eauto.
Qed.

Lemma pruned_delete_type rs t ic cc :
  pruned rs -> pruned (mkResourceSet (delete t (Types rs)) ic cc).
Proof.
  intros Hp t' te' Hl. cbn in Hl.
  apply lookup_delete_Some in Hl as [_ Hl]. eauto.
Qed.

Lemma delete_preserves_pruned rs t r l :
  pruned rs -> pruned (ResourceSet_delete rs t r l).
Proof.
  intros Hp. unfold ResourceSet_delete.
  destruct (Types rs !! t) as [te|] eqn:Ht; [|done].
  destruct (Resources te !! r) as [re|] eqn:Hr; [|done].
  destruct (Hp _ _ Ht) as [Hne Hre]. cbn.
  destruct (0 <? Z.of_nat (size (delete l (Data re)))) eqn:Hs.
  - apply size_pos_iff in Hs. apply pruned_insert; cbn; [done|..].
    + apply insert_non_empty.
    + intros r' re' Hl. destruct (decide (r = r')) as [->|Hneq].
      * rewrite lookup_insert_eq in Hl. injection Hl as <-. done.
      * rewrite lookup_insert_ne in Hl by done. eauto.
  - destruct (0 <? Z.of_nat (size (delete r (Resources te)))) eqn:Hs'.
    + apply size_pos_iff in Hs'. apply pruned_insert; cbn; [done|done|].
      intros r' re' Hl. apply lookup_delete_Some in Hl as [_ Hl]. eauto.
    + by apply pruned_delete_type.
Qed.

Lemma set_preserves_pruned rs t r l d :
  pruned rs -> pruned (ResourceSet_set rs t r l d).
Proof.
  intros Hp. destruct d as [d|]; [|by apply delete_preserves_pruned].
  unfold ResourceSet_set.
  destruct (Types rs !! t) as [te|] eqn:Ht.
  - destruct (Hp _ _ Ht) as [Hne Hre].
    destruct (Resources te !! r) as [re|] eqn:Hr; cbn.
    + apply pruned_insert; cbn; [done|apply insert_non_empty|].
      intros r' re' Hl. destruct (decide (r = r')) as [->|Hneq].
      * rewrite lookup_insert_eq in Hl. injection Hl as <-. cbn. apply insert_non_empty.
      * rewrite lookup_insert_ne in Hl by done. eauto.
    + apply pruned_insert; cbn; [done|apply insert_non_empty|].
      intros r' re' Hl. destruct (decide (r = r')) as [->|Hneq].
      * rewrite lookup_insert_eq in Hl. injection Hl as <-. cbn. apply insert_non_empty.
      * rewrite lookup_insert_ne in Hl by done. eauto.
  - cbn. rewrite lookup_empty. cbn.
    apply pruned_insert; cbn; [done|apply insert_non_empty|].
    intros r' re' Hl. destruct (decide (r = r')) as [->|Hneq].
    * rewrite lookup_insert_eq in Hl. injection Hl as <-. cbn. apply insert_non_empty.
    * rewrite lookup_insert_ne in Hl by done. rewrite lookup_empty in Hl. done.
Qed.

Lemma Set_preserves_pruned rs t r l d :
  pruned rs -> pruned (fst (ResourceSet_Set rs t r l d)).
Proof.
  intros Hp. unfold ResourceSet_Set.
  destruct (checkIdentifier r); [done|].
  destruct (checkIdentifier t); [done|]. cbn.
  by apply set_preserves_pruned.
Qed.

Lemma delete_last rs t r l te re de :
  Types rs !! t = Some te -> Resources te = {[ r := re ]} ->
  Data re = {[ l := de ]} ->
  Types (ResourceSet_delete rs t r l) !! t = None.
Proof.
  intros Ht Hr Hd. unfold ResourceSet_delete. rewrite Ht, Hr.
  rewrite lookup_singleton_eq. cbn. rewrite Hd.
  rewrite delete_singleton_eq. rewrite map_size_empty. cbn.
  rewrite delete_singleton_eq. rewrite map_size_empty. cbn.
  apply lookup_delete_eq.
Qed.

(** C6: no type entry of a resource set has an empty map of resources, and
    no resource entry has an empty map of languages.  This holds of the empty
    set and is preserved by every call to [Set], whether it inserts, replaces
    or deletes; and when a type holds one resource with one language,
    deleting that language removes the type from the set. *)
Theorem no_empty_nodes :
  pruned emptySet
  /\ (forall rs t r l d, pruned rs -> pruned (fst (ResourceSet_Set rs t r l d)))
  /\ (forall rs t r l te re de,
        checkIdentifier t = None -> checkIdentifier r = None ->
        Types rs !! t = Some te -> Resources te = {[ r := re ]} ->
        Data re = {[ l := de ]} ->
        Types (fst (ResourceSet_Set rs t r l None)) !! t = None).
Proof.
  split; [apply pruned_empty|]. split.
  - intros. by apply Set_preserves_pruned.
  - intros * Hct Hcr Ht Hr Hd. unfold ResourceSet_Set. rewrite Hcr, Hct. cbn.
    eapply delete_last; eauto.
Qed.

Lemma Set_invalid rs t r l d :
  checkIdentifier t <> None \/ checkIdentifier r <> None ->
  exists e, ResourceSet_Set rs t r l d = (rs, Some e).
Proof.
  intros H. unfold ResourceSet_Set.
  destruct (checkIdentifier r) as [e|]; [eauto|].
  destruct (checkIdentifier t) as [e|]; [eauto|].
  destruct H; done.
Qed.

Lemma keys_of_map `{Countable K} {V} (m : gmap K V) k :
  k ∈ map fst (map_to_list m) <-> is_Some (m !! k).
Proof.
  rewrite list_elem_of_fmap. split.
  - intros [[k' v] [-> Hin]]. apply elem_of_map_to_list in Hin. by eexists.
  - intros [v Hv]. exists (k, v). split; [done|]. by apply elem_of_map_to_list.
Qed.

Lemma sorted_keys_cacheOf `{Countable K} {V} (less : K -> K -> bool) (m : gmap K V) :
  (forall x, less x x = false) ->
  (forall x y z, less x y = true -> less y z = true -> less x z = true) ->
  (forall x y, less x y = false -> less y x = false -> x = y) ->
  cacheOf less m (sort_Slice less (map fst (map_to_list m))).
Proof.
  intros Hi Ht Htot. split.
  - intros k. rewrite (sort_Slice_perm less). apply keys_of_map.
  - apply sort_Slice_sorted; try done. apply NoDup_fst_map_to_list.
Qed.

Lemma cacheOf_proper `{Countable K} {V W} (less : K -> K -> bool)
    (m : gmap K V) (m' : gmap K W) keys :
  (forall k, is_Some (m !! k) <-> is_Some (m' !! k)) ->
  cacheOf less m keys -> cacheOf less m' keys.
Proof. intros Hd [Hk Hs]. split; [|done]. intros k. by rewrite Hk. Qed.

Lemma ResourceEntry_order_ok re : re_cache_ok re -> re_cache_ok (ResourceEntry_order re).
Proof.
  intros Hre. unfold ResourceEntry_order.
  destruct (re_OrderedKeys re) eqn:E; [done|].
  intros keys [= <-]. cbn.
  apply sorted_keys_cacheOf; [apply Z.ltb_irrefl|apply Zltb_trans|apply Zltb_total].
Qed.

Lemma TypeEntry_Order_ok te : te_cache_ok te -> te_cache_ok (TypeEntry_Order te).
Proof.
  intros Hok. unfold TypeEntry_Order.
  destruct (te_OrderedKeys te) eqn:E; [done|]. destruct Hok as [Hte Hres].
  split; cbn.
  - intros keys [= <-].
    pose proof (sorted_keys_cacheOf lessThan (Resources te)
                  lessThan_irrefl lessThan_trans lessThan_total) as Hc.
    split.
    + eapply cacheOf_proper; [|exact Hc].
      intros k. rewrite lookup_fmap. by rewrite fmap_is_Some.
    + apply countNames_sorted, Hc.
  - intros r re Hl. rewrite lookup_fmap in Hl.
    destruct (Resources te !! r) as [re0|] eqn:E0; [|done].
    injection Hl as <-. apply ResourceEntry_order_ok. eauto.
Qed.

Lemma order_caches_ok rs s : caches_ok rs -> caches_ok (fst (ResourceSet_order rs s)).
Proof.
  intros Hok t te Hl. cbn in Hl. rewrite lookup_fmap in Hl.
  destruct (Types rs !! t) as [te0|] eqn:E0; [|done].
  injection Hl as <-. apply TypeEntry_Order_ok. eauto.
Qed.

Lemma caches_ok_empty : caches_ok emptySet.
Proof. intros t te H. cbn in H. by rewrite lookup_empty in H. Qed.

Lemma caches_ok_insert rs t te ic cc :
  caches_ok rs -> te_cache_ok te ->
  caches_ok (mkResourceSet (<[t := te]> (Types rs)) ic cc).
Proof.
  intros Hok Hte t' te' Hl. cbn in Hl.
  destruct (decide (t = t')) as [->|Hne].
  - rewrite lookup_insert_eq in Hl. by injection Hl as <-.
  - rewrite lookup_insert_ne in Hl by done. eauto.
Qed.

Lemma cacheOf_insert_present `{Countable K} {V} (less : K -> K -> bool)
    (m : gmap K V) k v keys :
  is_Some (m !! k) -> cacheOf less m keys -> cacheOf less (<[k := v]> m) keys.
Proof.
  intros Hk. apply cacheOf_proper. intros k'.
  destruct (decide (k = k')) as [->|Hne].
  - rewrite lookup_insert_eq. split; eauto.
  - by rewrite lookup_insert_ne.
Qed.

Lemma delete_caches_ok rs t r l :
  caches_ok rs -> caches_ok (ResourceSet_delete rs t r l).
Proof.
  intros Hok. unfold ResourceSet_delete.
  destruct (Types rs !! t) as [te|] eqn:Ht; [|done].
  destruct (Resources te !! r) as [re|] eqn:Hr; [|done].
  destruct (Hok _ _ Ht) as [Hte Hres]. cbn.
  destruct (0 <? Z.of_nat (size (delete l (Data re)))).
  - apply caches_ok_insert; [done|]. split; cbn.
    + intros keys Hk. destruct (Hte _ Hk) as [Hc Hn]. split; [|done].
      apply cacheOf_insert_present; eauto.
    + intros r' re' Hl. destruct (decide (r = r')) as [->|Hne].
      * rewrite lookup_insert_eq in Hl. injection Hl as <-. by intros keys.
      * rewrite lookup_insert_ne in Hl by done. eauto.
  - destruct (0 <? Z.of_nat (size (delete r (Resources te)))).
    + apply caches_ok_insert; [done|]. split; cbn; [done|].
      intros r' re' Hl. apply lookup_delete_Some in Hl as [_ Hl]. eauto.
    + intros t' te' Hl. cbn in Hl. apply lookup_delete_Some in Hl as [_ Hl]. eauto.
Qed.

Lemma set_caches_ok rs t r l d :
  caches_ok rs -> caches_ok (ResourceSet_set rs t r l d).
Proof.
  intros Hok. destruct d as [d|]; [|by apply delete_caches_ok].
  unfold ResourceSet_set.
  assert (Hte0 : te_cache_ok (match Types rs !! t with
                              | Some te => te
                              | None => mkTypeEntry ∅ None 0
                              end)).
  { destruct (Types rs !! t) eqn:Ht; [eauto|]. split; cbn; [done|].
    intros ??. by rewrite lookup_empty. }
  destruct Hte0 as [Hte Hres].
  set (te := match Types rs !! t with Some te => te | None => _ end) in *.
  destruct (Resources te !! r) as [re|] eqn:Hr; cbn.
  - apply caches_ok_insert; [done|]. split; cbn.
    + intros keys Hk. destruct (Hte _ Hk) as [Hc Hn]. split; [|done].
      apply cacheOf_insert_present; eauto.
    + intros r' re' Hl. destruct (decide (r = r')) as [->|Hne].
      * rewrite lookup_insert_eq in Hl. injection Hl as <-.
        intros keys Hk. cbn in *.
        destruct (Data re !! l) eqn:Hd; [|done].
        apply cacheOf_insert_present; [eauto|]. by apply (Hres _ _ Hr).
      * rewrite lookup_insert_ne in Hl by done. eauto.
  - apply caches_ok_insert; [done|]. split; cbn; [done|].
    intros r' re' Hl. destruct (decide (r = r')) as [->|Hne].
    + rewrite lookup_insert_eq in Hl. injection Hl as <-.
      intros keys Hk. cbn in Hk. by rewrite lookup_empty in Hk.
    + rewrite lookup_insert_ne in Hl by done. eauto.
Qed.

Lemma Set_caches_ok rs t r l d :
  caches_ok rs -> caches_ok (fst (ResourceSet_Set rs t r l d)).
Proof.
  intros Hok. unfold ResourceSet_Set.
  destruct (checkIdentifier r); [done|].
  destruct (checkIdentifier t); [done|]. by apply set_caches_ok.
Qed.

Lemma replace_keeps_caches rs t r l old d :
  ResourceSet_Get rs t r l = Some old ->
  caches (ResourceSet_set rs t r l (Some d)) = caches rs.
Proof.
  unfold ResourceSet_Get, caches, ResourceSet_set. intros Hg.
  destruct (Types rs !! t) as [te|] eqn:Ht; [|done]. cbn in Hg.
  destruct (Resources te !! r) as [re|] eqn:Hr; [|done]. cbn in Hg.
  destruct (Data re !! l) as [de|] eqn:Hd; [|done]. cbn.
  rewrite fmap_insert. apply insert_id. rewrite lookup_fmap, Ht. cbn.
  f_equal. unfold te_caches. cbn. f_equal.
  rewrite fmap_insert. symmetry. apply insert_id. by rewrite lookup_fmap, Hr.
Qed.

Lemma dom_insert_present `{Countable K} {V} (m : gmap K V) k v :
  is_Some (m !! k) -> dom (<[k := v]> m) = dom m.
Proof.
  intros Hk. rewrite dom_insert_L. apply elem_of_dom in Hk.
  apply set_eq. intros x. rewrite elem_of_union, elem_of_singleton.
  split; [intros [->|]; done|by right].
Qed.

Lemma delete_clears rs t r l t' te te' :
  Types rs !! t' = Some te ->
  Types (ResourceSet_delete rs t r l) !! t' = Some te' ->
  (dom (Resources te') <> dom (Resources te) -> te_OrderedKeys te' = None)
  /\ forall r' re re', Resources te !! r' = Some re ->
       Resources te' !! r' = Some re' ->
       dom (Data re') <> dom (Data re) -> re_OrderedKeys re' = None.
Proof.
  unfold ResourceSet_delete. intros Ht' Hl.
  destruct (Types rs !! t) as [te0|] eqn:Ht.
  2:{ rewrite Ht' in Hl. injection Hl as <-. split; [done|].
      intros r' re re' H1 H2. rewrite H1 in H2. by injection H2 as <-. }
  destruct (Resources te0 !! r) as [re0|] eqn:Hr.
  2:{ rewrite Ht' in Hl. injection Hl as <-. split; [done|].
      intros r' re re' H1 H2. rewrite H1 in H2. by injection H2 as <-. }
  cbn in Hl.
  destruct (decide (t = t')) as [->|Hne].
  2:{ assert (Hsame : Types rs !! t' = Some te').
      { destruct (0 <? _) in Hl; [|destruct (0 <? _) in Hl]; cbn in Hl;
          [rewrite lookup_insert_ne in Hl by done..|
           rewrite lookup_delete_ne in Hl by done]; done. }
      rewrite Ht' in Hsame. injection Hsame as <-. split; [done|].
      intros r' re re' H1 H2. rewrite H1 in H2. by injection H2 as <-. }
  rewrite Ht in Ht'. injection Ht' as ->.
  destruct (0 <? Z.of_nat (size (delete l (Data re0)))); cbn in Hl.
  - rewrite lookup_insert_eq in Hl. injection Hl as <-. cbn. split.
    + intros Hd. exfalso. apply Hd. apply dom_insert_present. eauto.
    + intros r' re re' H1 H2. destruct (decide (r = r')) as [->|Hne].
      * rewrite lookup_insert_eq in H2. by injection H2 as <-.
      * rewrite lookup_insert_ne in H2 by done. rewrite H1 in H2.
        by injection H2 as <-.
  - destruct (0 <? Z.of_nat (size (delete r (Resources te)))); cbn in Hl.
    + rewrite lookup_insert_eq in Hl. injection Hl as <-. cbn. split; [done|].
      intros r' re re' H1 H2. apply lookup_delete_Some in H2 as [_ H2].
      rewrite H1 in H2. by injection H2 as <-.
    + by rewrite lookup_delete_eq in Hl.
Qed.

Lemma set_clears rs t r l d t' te te' :
  Types rs !! t' = Some te ->
  Types (ResourceSet_set rs t r l d) !! t' = Some te' ->
  (dom (Resources te') <> dom (Resources te) -> te_OrderedKeys te' = None)
  /\ forall r' re re', Resources te !! r' = Some re ->
       Resources te' !! r' = Some re' ->
       dom (Data re') <> dom (Data re) -> re_OrderedKeys re' = None.
Proof.
  destruct d as [d|]; [|apply delete_clears].
  unfold ResourceSet_set. intros Ht' Hl.
  destruct (decide (t = t')) as [->|Hne].
  2:{ assert (Hsame : Types rs !! t' = Some te').
      { destruct (Resources _ !! r) in Hl; cbn in Hl;
          by rewrite lookup_insert_ne in Hl by done. }
      rewrite Ht' in Hsame. injection Hsame as <-. split; [done|].
      intros r' re re' H1 H2. rewrite H1 in H2. by injection H2 as <-. }
  rewrite Ht' in Hl.
  destruct (Resources te !! r) as [re0|] eqn:Hr; cbn in Hl;
    rewrite lookup_insert_eq in Hl; injection Hl as <-; cbn.
  - split.
    + intros Hd. exfalso. apply Hd. apply dom_insert_present. eauto.
    + intros r' re re' H1 H2. destruct (decide (r = r')) as [->|Hne].
      * rewrite lookup_insert_eq in H2. injection H2 as <-. cbn.
        rewrite Hr in H1. injection H1 as <-.
        destruct (Data re0 !! l) eqn:Hd; [|done].
        intros Hdom. exfalso. apply Hdom. apply dom_insert_present. eauto.
      * rewrite lookup_insert_ne in H2 by done. rewrite H1 in H2.
        by injection H2 as <-.
  - split; [done|].
    intros r' re re' H1 H2. destruct (decide (r = r')) as [->|Hne].
    + by rewrite Hr in H1.
    + rewrite lookup_insert_ne in H2 by done. rewrite H1 in H2.
      by injection H2 as <-.
Qed.

Lemma write_fst rs :
  fst (fst (ResourceSet_write rs)) = fst (ResourceSet_order rs state0).
Proof.
  unfold ResourceSet_write, ResourceSet_prepare. cbn [ResourceSet_order].
  destruct (fold_left _ _ _) as [[o1 no] nd].
  destruct (ResourceSet_writeTypeDir _ _) as [o1' s1].
  destruct (ResourceSet_writeResDirs _ _) as [o2 s2].
  destruct (ResourceSet_writeLangDirs _ _) as [o3 s3].
  destruct (ResourceSet_writeDataIndex _ _) as [o4 s4].
  destruct (ResourceSet_writeData _ _) as [o6 s6]. done.
Qed.

Lemma runOps_caches_ok ops : caches_ok (runOps ops).
Proof.
  unfold runOps. generalize caches_ok_empty. generalize emptySet.
  induction ops as [|o ops IH]; intros rs Hok; cbn; [done|].
  apply IH. destruct o; cbn.
  - by apply Set_caches_ok.
  - by apply (order_caches_ok rs state0).
  - rewrite write_fst. by apply (order_caches_ok rs state0).
Qed.

Lemma alignData_eq n : alignData n = 8 * ((n + 7) / 8).
Proof.
  unfold alignData, dataAlignment.
  change (8 - 1) with (Z.ones 3).
  rewrite Z.ldiff_ones_r by lia.
  rewrite Z.shiftl_mul_pow2, Z.shiftr_div_pow2 by lia.
  change (2 ^ 3) with 8. replace (n + 8 - 1) with (n + 7) by lia. lia.
Qed.

Lemma alignData_bounds n :
  alignData n mod 8 = 0 /\ n <= alignData n < n + 8.
Proof.
  rewrite alignData_eq. split.
  - rewrite Z.mul_comm. apply Z.mod_mul. lia.
  - pose proof (Z.div_mod (n + 7) 8 ltac:(lia)).
    pose proof (Z.mod_pos_bound (n + 7) 8 ltac:(lia)). lia.
Qed.

Lemma firstn_repeat {A} (x : A) n m :
  (n <= m)%nat -> firstn n (repeat x m) = repeat x n.
Proof.
  revert m. induction n as [|n IH]; intros m Hm; [done|].
  destruct m; [lia|]. cbn. f_equal. apply IH. lia.
Qed.

Lemma writeData_padded (de : DataEntry) :
  DataEntry_writeData de
  = de_Data de
    ++ repeat Byte.x00 (Z.to_nat (paddedDataSize de - len (de_Data de)))
  /\ len (DataEntry_writeData de) = paddedDataSize de.
Proof.
  destruct (alignData_bounds (len (de_Data de))) as [Hm Hb].
  unfold DataEntry_writeData, paddedDataSize, len in *.
  rewrite firstn_repeat by (unfold dataAlignment; lia). split; [done|].
  rewrite length_app, repeat_length. lia.
Qed.

(** ** The layout, as a function of the ordered tree *)

Lemma advance_0 s : advance s 0 [] = s.
Proof. destruct s. unfold advance. cbn. by rewrite Z.add_0_r, app_nil_r. Qed.

Lemma advance_advance s d1 r1 d2 r2 :
  advance (advance s d1 r1) d2 r2 = advance s (d1 + d2) (r1 ++ r2).
Proof. unfold advance. cbn. by rewrite Z.add_assoc, app_assoc. Qed.

Lemma thread_ext {X A} (f f' : X -> Z -> list A) sz sz' (l : list X) o :
  (forall x o, x ∈ l -> f x o = f' x o) -> (forall x, x ∈ l -> sz x = sz' x) ->
  thread f sz l o = thread f' sz' l o.
Proof.
  revert o. induction l as [|x l IH]; intros o Hf Hs; cbn; [done|].
  rewrite Hf, Hs by left. f_equal. apply IH; intros; [apply Hf|apply Hs]; by right.
Qed.

Lemma total_ext {X} (sz sz' : X -> Z) (l : list X) :
  (forall x, x ∈ l -> sz x = sz' x) -> total sz l = total sz' l.
Proof.
  unfold total. induction l as [|x l IH]; intros Hs; cbn; [done|].
  rewrite Hs by left. f_equal. apply IH. intros. apply Hs. by right.
Qed.

Lemma thread_map {X Y A} (h : X -> Y) (f : Y -> Z -> list A) sz (l : list X) o :
  thread f sz (map h l) o = thread (fun x => f (h x)) (fun x => sz (h x)) l o.
Proof. revert o. induction l as [|x l IH]; intros o; cbn; [done|]. by rewrite IH. Qed.

Lemma total_map {X Y} (h : X -> Y) (sz : Y -> Z) (l : list X) :
  total sz (map h l) = total (fun x => sz (h x)) l.
Proof. unfold total. by rewrite map_map. Qed.

Lemma total_cons {X} (sz : X -> Z) x (l : list X) :
  total sz (x :: l) = sz x + total sz l.
Proof. reflexivity. Qed.

Lemma total_nil {X} (sz : X -> Z) : total sz [] = 0.
Proof. reflexivity. Qed.

Lemma thread_app {X A} (f : X -> Z -> list A) sz (l1 l2 : list X) o :
  thread f sz (l1 ++ l2) o = thread f sz l1 o ++ thread f sz l2 (o + total sz l1).
Proof.
  revert o. induction l1 as [|x l1 IH]; intros o; cbn [thread app].
  - by rewrite total_nil, Z.add_0_r.
  - rewrite IH, <- app_assoc.
    replace (o + total sz (x :: l1)) with (o + sz x + total sz l1); [done|].
    rewrite total_cons. lia.
Qed.

Lemma total_app {X} (sz : X -> Z) (l1 l2 : list X) :
  total sz (l1 ++ l2) = total sz l1 + total sz l2.
Proof.
  induction l1 as [|x l1 IH]; [done|].
  cbn [app]. rewrite !total_cons, IH. lia.
Qed.

Lemma thread_nil_out {X A} (sz : X -> Z) (l : list X) o :
  thread (fun _ _ => @nil A) sz l o = [].
Proof. revert o. induction l as [|x l IH]; intros o; cbn; [done|]. apply IH. Qed.

Lemma total_const {X} (c : Z) (l : list X) : total (fun _ => c) l = len l * c.
Proof.
  induction l as [|x l IH]; [done|].
  rewrite total_cons, IH. unfold len. cbn [length]. lia.
Qed.

Lemma re_order_complete re : re_cache_ok re -> re_complete (ResourceEntry_order re).
Proof.
  intros Hok. pose proof (ResourceEntry_order_ok re Hok) as Hok'.
  unfold ResourceEntry_order in *.
  destruct (re_OrderedKeys re) as [keys|] eqn:E.
  - exists keys. split; [done|]. by apply Hok.
  - eexists. split; [done|]. by apply Hok'.
Qed.

Lemma te_Order_complete te :
  te_cache_ok te ->
  (te_OrderedKeys te <> None ->
   forall r re, Resources te !! r = Some re -> re_OrderedKeys re <> None) ->
  te_complete (TypeEntry_Order te).
Proof.
  intros Hok Hn. pose proof (TypeEntry_Order_ok te Hok) as [Hk' Hres'].
  unfold TypeEntry_Order in *.
  destruct (te_OrderedKeys te) as [keys|] eqn:E.
  - split.
    + exists keys. split; [done|]. by apply Hk'.
    + intros r re Hr. destruct (re_OrderedKeys re) as [k|] eqn:Ek.
      * exists k. split; [done|]. by apply (Hres' _ _ Hr).
      * by specialize (Hn ltac:(done) _ _ Hr).
  - split.
    + eexists. split; [done|]. by apply Hk'.
    + cbn. intros r re Hr. rewrite lookup_fmap in Hr.
      destruct (Resources te !! r) as [re0|] eqn:E0; [|done].
      injection Hr as <-. apply re_order_complete. destruct Hok as [_ Hres]. eauto.
Qed.

Lemma order_complete rs s : clean rs -> complete (fst (ResourceSet_order rs s)).
Proof.
  intros [Hok Hn] t te Hl. cbn in Hl. rewrite lookup_fmap in Hl.
  destruct (Types rs !! t) as [te0|] eqn:E0; [|done].
  injection Hl as <-. apply te_Order_complete; eauto.
Qed.

Lemma cacheOf_length `{Countable K} {V} (less : K -> K -> bool) (m : gmap K V) keys :
  (forall x, less x x = false) ->
  cacheOf less m keys -> length keys = size m.
Proof.
  intros Hi [Hk Hs].
  rewrite <- (length_map_to_list m), <- (length_map fst (map_to_list m)).
  apply Permutation_length. apply NoDup_Permutation.
  - by apply (sorted_NoDup less).
  - apply NoDup_fst_map_to_list.
  - intros k. by rewrite Hk, keys_of_map.
Qed.

Lemma names_first keys :
  StronglySorted (fun a b => lessThan a b = true) keys ->
  Forall (fun k => isName k = true) (firstn (leadingNames keys) keys)
  /\ Forall (fun k => isName k = false) (skipn (leadingNames keys) keys).
Proof.
  induction 1 as [|x l Hs [IH1 IH2] Hall]; cbn; [by split|].
  destruct x as [n|s]; cbn.
  - split; [constructor|]. constructor; [done|].
    eapply Forall_impl; [exact Hall|]. intros [] Hlt; done.
  - split; [by constructor|done].
Qed.

Section Regular.
Context (no : gmap string Z).

Lemma forEach_regular {X} (g : X -> writer) (f : X -> Z -> list byte)
    (sz : X -> Z) (rel : X -> Z -> list Z) (l : list X) :
  (forall x, x ∈ l -> regular no (g x) (f x) (sz x) (rel x)) ->
  regular no (forEach g l) (thread f sz l) (total sz l) (thread rel sz l).
Proof.
  induction l as [|x l IH]; intros Hg s Hs; cbn [forEach thread].
  - by rewrite total_nil, advance_0.
  - rewrite (Hg x) by (done || left).
    rewrite IH by (done || intros; apply Hg; by right). cbn [offset advance].
    by rewrite total_cons, advance_advance.
Qed.

Lemma writeSubdirEntry_regular sz k :
  regular no (writeSubdirEntry (isName k) sz k)
           (dirEntryB no k) (sz k) (fun _ => []).
Proof.
  intros s Hs. unfold writeSubdirEntry, dirEntryB, nameOffsetOf. rewrite Hs.
  destruct k; cbn; f_equal; destruct s; unfold advance, setOffset; cbn;
    by rewrite app_nil_r.
Qed.

Lemma subdirEntries_regular sz keys :
  StronglySorted (fun a b => lessThan a b = true) keys ->
  forall s, nameOffset s = no ->
    (let '(o1, s1) := forEach (writeSubdirEntry true sz)
                              (firstn (leadingNames keys) keys) s in
     let '(o2, s2) := forEach (writeSubdirEntry false sz)
                              (skipn (leadingNames keys) keys) s1 in
     (o1 ++ o2, s2))
    = (thread (dirEntryB no) sz keys (offset s), advance s (total sz keys) []).
Proof.
  intros Hs s Hno. destruct (names_first keys Hs) as [H1 H2].
  rewrite (forEach_regular _ (dirEntryB no) sz (fun _ _ => [])
             (firstn (leadingNames keys) keys)); [|
    intros x Hx; rewrite Forall_forall in H1; rewrite <- (H1 x Hx);
      apply writeSubdirEntry_regular | done].
  rewrite (forEach_regular _ (dirEntryB no) sz (fun _ _ => [])
             (skipn (leadingNames keys) keys)); [|
    intros x Hx; rewrite Forall_forall in H2; rewrite <- (H2 x Hx);
      apply writeSubdirEntry_regular | done].
  rewrite advance_advance, !thread_nil_out. cbn [offset advance].
  rewrite <- thread_app, <- total_app, firstn_skipn. done.
Qed.
End Regular.

Lemma len_map {A B} (f : A -> B) (l : list A) : len (map f l) = len l.
Proof. unfold len. by rewrite length_map. Qed.

Lemma re_size_eq re :
  re_complete re ->
  Z.of_nat (size (Data re)) = len (langsOf re)
  /\ ResourceEntry_size re = langTableSize (langsOf re).
Proof.
  intros (keys & Hk & Hc). unfold ResourceEntry_size, langTableSize, langsOf.
  rewrite Hk. cbn. rewrite len_map. unfold len.
  rewrite (cacheOf_length Z.ltb (Data re) keys Z.ltb_irrefl Hc). done.
Qed.

Lemma te_size_eq te :
  te_complete te ->
  Z.of_nat (size (Resources te)) = len (resOf te)
  /\ TypeEntry_size te = resTableSize (resOf te).
Proof.
  intros [(keys & Hk & Hc & Hn) _]. unfold TypeEntry_size, resTableSize, resOf.
  rewrite Hk. cbn. rewrite len_map. unfold len.
  rewrite (cacheOf_length lessThan (Resources te) keys lessThan_irrefl Hc). done.
Qed.

Lemma complete_resource te keys r :
  te_complete te -> te_OrderedKeys te = Some keys -> r ∈ keys ->
  Resources te !! r = Some (resourceOf te r) /\ re_complete (resourceOf te r).
Proof.
  intros [(keys' & Hk & Hc & Hn) Hres] Hk' Hr.
  rewrite Hk in Hk'. injection Hk' as ->.
  destruct Hc as [Hc _]. apply Hc in Hr as [re Hre].
  unfold resourceOf. rewrite Hre. cbn. eauto.
Qed.

Lemma map_fst_pair {A B} (f : A -> B) (l : list A) :
  map fst (map (fun k => (k, f k)) l) = l.
Proof. rewrite map_map. cbn. apply map_id. Qed.

Section Phases.
Context (no : gmap string Z).

Lemma TypeEntry_write_regular te :
  te_complete te ->
  regular no (TypeEntry_write te)
    (tableB no langTableSize (resOf te))
    (total (fun rl => langTableSize (snd rl)) (resOf te)) (fun _ => []).
Proof.
  intros Hte s Hs. pose proof Hte as [(keys & Hk & Hc & Hn) Hres].
  unfold TypeEntry_write. rewrite Hk, Hn. cbn [cached default].
  pose proof (subdirEntries_regular no
                (fun ident => ResourceEntry_size (resourceOf te ident))
                keys (proj2 Hc) s Hs) as Hsub.
  destruct (forEach _ (firstn _ _) s) as [o1 s1].
  destruct (forEach _ (skipn _ _) s1) as [o2 s2].
  injection Hsub as Ho Hs2. rewrite Hs2.
  assert (Hsz : forall x, x ∈ keys ->
            ResourceEntry_size (resourceOf te x)
            = langTableSize (langsOf (resourceOf te x))).
  { intros x Hx. apply re_size_eq. by eapply complete_resource. }
  f_equal.
  - unfold tableB, resOf. rewrite Hk. cbn [cached default].
    rewrite map_fst_pair, len_map. f_equal.
    rewrite Ho, thread_map. cbn [fst snd]. by apply thread_ext.
  - f_equal. unfold resOf. rewrite Hk. cbn [cached default].
    rewrite total_map. cbn [snd]. by apply total_ext.
Qed.

Lemma ResourceEntry_write_regular re :
  re_complete re ->
  regular no (ResourceEntry_write re) (langTableB (langsOf re))
    (len (langsOf re) * sizeOfDataEntry) (relocsL (langsOf re)).
Proof.
  intros Hre s Hs. pose proof Hre as (keys & Hk & Hc).
  unfold ResourceEntry_write. rewrite Hk. cbn [cached default].
  rewrite (forEach_regular no _
             (fun lcid o => writeDirectoryEntry lcid o false false)
             (fun _ => sizeOfDataEntry) (fun (_ : Z) o => [o]) keys);
    [| intros x _ s' _; f_equal; by destruct s' | done].
  unfold langTableB, relocsL, langsOf. rewrite Hk. cbn [cached default].
  rewrite !thread_map, len_map, total_const. cbn [fst].
  destruct (re_size_eq re Hre) as [-> _]. unfold langsOf. rewrite Hk.
  cbn [cached default]. by rewrite len_map.
Qed.

Lemma DataEntry_write_regular de :
  regular no (DataEntry_write de)
    (fun o => writeDataEntry o (len (de_Data de))) (paddedDataSize de)
    (fun _ => []).
Proof.
  intros s Hs. unfold DataEntry_write. f_equal.
  destruct s. unfold advance, setOffset. cbn. by rewrite app_nil_r.
Qed.

Lemma dataIndex_regular re :
  regular no
    (forEach (fun lcid => DataEntry_write (dataOf re lcid))
             (cached (re_OrderedKeys re)))
    (dataIndexL (langsOf re)) (payloadSizeL (langsOf re)) (fun _ => []).
Proof.
  intros s Hs.
  rewrite (forEach_regular no _
             (fun lcid o => writeDataEntry o (len (de_Data (dataOf re lcid))))
             (fun lcid => paddedDataSize (dataOf re lcid)) (fun _ _ => []));
    [| intros; apply DataEntry_write_regular | done].
  unfold dataIndexL, payloadSizeL, langsOf.
  by rewrite thread_map, total_map, thread_nil_out.
Qed.

Lemma writeData_regular re :
  regular no
    (forEach (fun lcid s => (DataEntry_writeData (dataOf re lcid), s))
             (cached (re_OrderedKeys re)))
    (fun _ => payloadL (langsOf re)) 0 (fun _ => []).
Proof.
  intros s Hs. unfold payloadL, langsOf.
  induction (cached (re_OrderedKeys re)) as [|x l IH]; cbn.
  - by rewrite advance_0.
  - rewrite IH. cbn. done.
Qed.

Lemma regular_ext w out sz rel out' sz' rel' :
  regular no w out sz rel -> (forall o, out o = out' o) -> sz = sz' ->
  (forall o, rel o = rel' o) -> regular no w out' sz' rel'.
Proof. intros Hw Ho <- Hr s Hs. by rewrite Hw, Ho, Hr. Qed.

Lemma resourceLoop_regular te (f : ResourceEntry -> writer)
    (out : langList -> Z -> list byte) (sz : langList -> Z)
    (rel : langList -> Z -> list Z) :
  te_complete te ->
  (forall re, re_complete re ->
     regular no (f re) (out (langsOf re)) (sz (langsOf re)) (rel (langsOf re))) ->
  regular no
    (forEach (fun rid => f (resourceOf te rid)) (cached (te_OrderedKeys te)))
    (thread (fun rl => out (snd rl)) (fun rl => sz (snd rl)) (resOf te))
    (total (fun rl => sz (snd rl)) (resOf te))
    (thread (fun rl => rel (snd rl)) (fun rl => sz (snd rl)) (resOf te)).
Proof.
  intros Htec Hf. pose proof Htec as [(rkeys & Hk & _) _].
  unfold resOf. rewrite Hk. cbn [cached default].
  eapply regular_ext.
  - apply (forEach_regular no _
             (fun rk => out (langsOf (resourceOf te rk)))
             (fun rk => sz (langsOf (resourceOf te rk)))
             (fun rk => rel (langsOf (resourceOf te rk)))).
    intros rk Hrk. apply Hf. by eapply complete_resource.
  - intros o. by rewrite thread_map.
  - by rewrite total_map.
  - intros o. by rewrite thread_map.
Qed.

(** The three nested loops, for a writer that is regular on every resource. *)
Lemma forEachResource_regular rs keys (f : ResourceEntry -> writer)
    (out : langList -> Z -> list byte) (sz : langList -> Z)
    (rel : langList -> Z -> list Z) :
  complete rs -> (forall k, k ∈ keys -> is_Some (Types rs !! k)) ->
  (forall re, re_complete re ->
     regular no (f re) (out (langsOf re)) (sz (langsOf re)) (rel (langsOf re))) ->
  regular no
    (forEach (fun tid =>
                forEach (fun rid => f (resourceOf (typeOf rs tid) rid))
                        (cached (te_OrderedKeys (typeOf rs tid)))) keys)
    (thread (fun tR => thread (fun rl => out (snd rl)) (fun rl => sz (snd rl)) (snd tR))
            (fun tR => total (fun rl => sz (snd rl)) (snd tR)) (treeOf rs keys))
    (total (fun tR => total (fun rl => sz (snd rl)) (snd tR)) (treeOf rs keys))
    (thread (fun tR => thread (fun rl => rel (snd rl)) (fun rl => sz (snd rl)) (snd tR))
            (fun tR => total (fun rl => sz (snd rl)) (snd tR)) (treeOf rs keys)).
Proof.
  intros Hc Hkeys Hf. unfold treeOf.
  eapply regular_ext.
  - apply (forEach_regular no _
      (fun tk => thread (fun rl => out (snd rl)) (fun rl => sz (snd rl))
                        (resOf (typeOf rs tk)))
      (fun tk => total (fun rl => sz (snd rl)) (resOf (typeOf rs tk)))
      (fun tk => thread (fun rl => rel (snd rl)) (fun rl => sz (snd rl))
                        (resOf (typeOf rs tk)))).
    intros tk Htk. destruct (Hkeys _ Htk) as [te Hte].
    unfold typeOf. rewrite Hte. cbn [default].
    apply resourceLoop_regular; eauto.
  - intros o. by rewrite thread_map.
  - by rewrite total_map.
  - intros o. by rewrite thread_map.
Qed.
End Phases.

Lemma prepare_fields rs :
  let p := ResourceSet_prepare rs in
  fst p = ordered rs /\ offset (snd p) = 0 /\ relocAddr (snd p) = []
  /\ orderedKeys (snd p) = typeKeys rs
  /\ namesCount (snd p) = countNames (typeKeys rs).
Proof.
  cbn zeta. unfold ResourceSet_prepare, ordered. cbn.
  destruct (fold_left _ _ _) as [[o1 no] nd]. cbn. done.
Qed.

Lemma typeKeys_sorted rs :
  cacheOf lessThan (Types rs) (typeKeys rs).
Proof. apply sorted_keys_cacheOf; [apply lessThan_irrefl|apply lessThan_trans|apply lessThan_total]. Qed.

Lemma typeKeys_ordered rs k :
  k ∈ typeKeys rs -> is_Some (Types (ordered rs) !! k).
Proof.
  intros Hk. apply (typeKeys_sorted rs) in Hk as [te Hte].
  unfold ordered. cbn. rewrite lookup_fmap, Hte. by eexists.
Qed.

Lemma thread_const_out {X A} (g : X -> list A) sz (l : list X) o :
  thread (fun x _ => g x) sz l o = flat_map g l.
Proof. revert o. induction l as [|x l IH]; intros o; cbn; [done|]. by rewrite IH. Qed.

Lemma thread_nil_nested {X Y A} (g : X -> list Y) sz sz' (l : list X) o :
  thread (fun x => thread (fun _ _ => @nil A) sz (g x)) sz' l o = [].
Proof.
  revert o. induction l as [|x l IH]; intros o; cbn [thread]; [done|].
  by rewrite thread_nil_out, IH.
Qed.

Lemma total_zero {X} (l : list X) : total (fun _ => 0) l = 0.
Proof. rewrite total_const. lia. Qed.

Lemma treeOf_fst rs keys : map fst (treeOf rs keys) = keys.
Proof. unfold treeOf. apply map_fst_pair. Qed.

Lemma setOffset_advance s d : setOffset s (offset s + d) = advance s d [].
Proof. destruct s. unfold setOffset, advance. cbn. by rewrite app_nil_r. Qed.

(** The encoder writes the layout [imageB] of the ordered tree. *)
Lemma write_image rs :
  clean rs ->
  let s := snd (ResourceSet_prepare rs) in
  let T := treeOfSet rs in
  ResourceSet_write rs
  = (ordered rs, imageB (nameOffset s) (namesData s) T,
     relocsB T (dataIndexAt T)).
Proof.
  intros Hclean. cbn zeta.
  pose proof (order_complete rs state0 Hclean) as Hc. fold (ordered rs) in Hc.
  destruct (prepare_fields rs) as (Hfst & Hoff & Hrel & Hkeys & Hcount).
  unfold ResourceSet_write.
  destruct (ResourceSet_prepare rs) as [rs1 s]. cbn [fst snd] in *. subst rs1.
  set (no := nameOffset s). set (T := treeOfSet rs).
  pose proof (typeKeys_sorted rs) as [Hkin Hksorted].
  assert (HT : forall k, k ∈ typeKeys rs ->
             exists te, Types (ordered rs) !! k = Some te
                        /\ typeOf (ordered rs) k = te /\ te_complete te).
  { intros k Hk. destruct (typeKeys_ordered rs k Hk) as [te Hte].
    exists te. unfold typeOf. rewrite Hte. eauto. }
  (* the type directory *)
  assert (H1 : ResourceSet_writeTypeDir (ordered rs) s
               = (typeDirB no T, advance s (langDirsAt T) [])).
  { unfold ResourceSet_writeTypeDir.
    cbn [namesCount orderedKeys setOffset].
    rewrite Hcount, Hkeys, (countNames_sorted _ Hksorted).
    destruct (names_first _ Hksorted) as [Hn1 Hn2].
    rewrite (forEach_regular no _ (dirEntryB no)
               (fun ident => TypeEntry_size (typeOf (ordered rs) ident))
               (fun _ _ => [])
               (firstn (leadingNames (typeKeys rs)) (typeKeys rs))); [|
      intros x Hx; rewrite Forall_forall in Hn1; rewrite <- (Hn1 x Hx);
        apply writeSubdirEntry_regular | done].
    cbn [namesCount orderedKeys advance setOffset offset].
    rewrite Hcount, Hkeys, (countNames_sorted _ Hksorted).
    rewrite (forEach_regular no _ (dirEntryB no)
               (fun ident => TypeEntry_size (typeOf (ordered rs) ident))
               (fun _ _ => [])
               (skipn (leadingNames (typeKeys rs)) (typeKeys rs))); [|
      intros x Hx; rewrite Forall_forall in Hn2; rewrite <- (Hn2 x Hx);
        apply writeSubdirEntry_regular | done].
    cbn [namesCount orderedKeys advance setOffset offset nameOffset relocAddr namesData].
    rewrite !thread_nil_out, <- thread_app, firstn_skipn.
    replace (offset s + sizeOfDirTable + len (typeKeys rs) * sizeOfDirEntry)
      with (offset s + (sizeOfDirTable + len (typeKeys rs) * sizeOfDirEntry))
      by lia.
    rewrite advance_advance, setOffset_advance, advance_advance.
    rewrite <- total_app, firstn_skipn. cbn [app].
    assert (Hsz : forall x, x ∈ typeKeys rs ->
              TypeEntry_size (typeOf (ordered rs) x)
              = resTableSize (resOf (typeOf (ordered rs) x))).
    { intros x Hx. destruct (HT x Hx) as (te & _ & -> & Htec).
      by apply te_size_eq. }
    f_equal.
    - unfold typeDirB, tableB, T, treeOfSet. rewrite treeOf_fst.
      unfold treeOf. rewrite len_map, thread_map. cbn [fst snd].
      rewrite Hoff. f_equal. by apply thread_ext.
    - unfold langDirsAt, resDirsAt, T, treeOfSet, treeOf.
      rewrite len_map, total_map. cbn [snd].
      rewrite (total_ext _ _ _ Hsz).
      f_equal; lia. }
  rewrite H1.
  (* the resource directories *)
  assert (H2 : forall s', nameOffset s' = no -> orderedKeys s' = typeKeys rs ->
             ResourceSet_writeResDirs (ordered rs) s'
             = (resDirsB no T (offset s'),
                advance s' (total (fun tR => total (fun rl => langTableSize (snd rl)) (snd tR)) T) [])).
  { intros s' Hno Hk'. unfold ResourceSet_writeResDirs. rewrite Hk'.
    rewrite (forEach_regular no _
               (fun tk => tableB no langTableSize (resOf (typeOf (ordered rs) tk)))
               (fun tk => total (fun rl => langTableSize (snd rl))
                                (resOf (typeOf (ordered rs) tk)))
               (fun _ _ => [])); [| | done].
    - unfold resDirsB, T, treeOfSet, treeOf.
      by rewrite thread_map, total_map, thread_nil_out.
    - intros tk Htk. destruct (HT tk Htk) as (te & _ & -> & Htec).
      by apply TypeEntry_write_regular. }
  rewrite H2 by done. cbn [offset advance].
  (* the language directories *)
  assert (H3 : forall s', nameOffset s' = no -> orderedKeys s' = typeKeys rs ->
             ResourceSet_writeLangDirs (ordered rs) s'
             = (langDirsB T (offset s'),
                advance s' (total (fun tR => dataIndexSizeR (snd tR)) T)
                        (relocsB T (offset s')))).
  { intros s' Hno Hk'. unfold ResourceSet_writeLangDirs, forEachResource.
    rewrite Hk'.
    by rewrite (forEachResource_regular no (ordered rs) (typeKeys rs)
               ResourceEntry_write langTableB
               (fun ls => len ls * sizeOfDataEntry) relocsL Hc
               (typeKeys_ordered rs)
               (ResourceEntry_write_regular no)). }
  rewrite H3 by done. cbn [offset advance namesData].
  rewrite setOffset_advance. cbn [offset advance].
  (* the data index *)
  assert (H4 : forall s', nameOffset s' = no -> orderedKeys s' = typeKeys rs ->
             ResourceSet_writeDataIndex (ordered rs) s'
             = (dataIndexB T (offset s'),
                advance s' (total (fun tR => payloadSizeR (snd tR)) T) [])).
  { intros s' Hno Hk'. unfold ResourceSet_writeDataIndex, forEachResource.
    rewrite Hk'.
    pose proof (forEachResource_regular no (ordered rs) (typeKeys rs)
               (fun re => forEach (fun lcid => DataEntry_write (dataOf re lcid))
                                  (cached (re_OrderedKeys re)))
               dataIndexL payloadSizeL (fun _ _ => []) Hc
               (typeKeys_ordered rs) (fun re _ => dataIndex_regular no re)) as Hreg.
    cbv beta in Hreg. rewrite (Hreg s' Hno). clear Hreg.
    fold T. unfold dataIndexB, dataIndexR, payloadSizeR.
    by rewrite (thread_nil_nested snd). }
  rewrite H4 by done. cbn [offset advance namesData].
  (* the data *)
  assert (H5 : forall s', nameOffset s' = no -> orderedKeys s' = typeKeys rs ->
             ResourceSet_writeData (ordered rs) s' = (payloadB T, s')).
  { intros s' Hno Hk'. unfold ResourceSet_writeData, forEachResource.
    rewrite Hk'.
    pose proof (forEachResource_regular no (ordered rs) (typeKeys rs)
               (fun re => forEach (fun lcid s =>
                                     (DataEntry_writeData (dataOf re lcid), s))
                                  (cached (re_OrderedKeys re)))
               (fun ls _ => payloadL ls) (fun _ => 0) (fun _ _ => []) Hc
               (typeKeys_ordered rs) (fun re _ => writeData_regular no re)) as Hreg.
    cbv beta in Hreg. rewrite (Hreg s' Hno). clear Hreg.
    fold T. f_equal.
    - unfold payloadB. rewrite <- (thread_const_out _
        (fun tR : Identifier * resList => total (fun _ => 0) (snd tR)) T (offset s')).
      apply thread_ext; [|done]. intros [t R] o _. cbn [snd].
      unfold payloadR. apply thread_const_out.
    - rewrite (total_ext _ (fun _ => 0)) by (intros; apply total_zero).
      rewrite total_zero, (thread_nil_nested snd). apply advance_0. }
  rewrite H5 by done. cbn [relocAddr advance].
  rewrite Hrel, Hoff. cbn [app].
  unfold imageB, namesAt, dataIndexAt. rewrite !app_nil_r, !Z.add_0_l. done.
Qed.

Lemma len_app {A} (l1 l2 : list A) : len (l1 ++ l2) = len l1 + len l2.
Proof. unfold len. rewrite length_app. lia. Qed.

Lemma len_nonneg {A} (l : list A) : 0 <= len l.
Proof. unfold len. lia. Qed.

Lemma has_at_app {A} (buf : list A) o x y :
  has_at buf o (x ++ y) -> has_at buf o x /\ has_at buf (o + len x) y.
Proof.
  intros (pre & post & -> & <-). split.
  - exists pre, (y ++ post). by rewrite <- app_assoc.
  - exists (pre ++ x), post. rewrite <- !app_assoc. split; [done|]. apply len_app.
Qed.

Lemma has_at_bounds {A} (buf : list A) o bs :
  has_at buf o bs -> 0 <= o /\ o + len bs <= len buf.
Proof.
  intros (pre & post & -> & <-). rewrite !len_app.
  pose proof (len_nonneg pre). pose proof (len_nonneg post). lia.
Qed.

Lemma has_at_slice {A} (buf : list A) o bs n :
  has_at buf o bs -> n = len bs -> slice buf o n = bs.
Proof.
  intros (pre & post & -> & <-) ->. unfold slice, len.
  rewrite !Nat2Z.id. rewrite drop_app_length. by rewrite take_app_length.
Qed.

Lemma has_at_here {A} (x y : list A) : has_at (x ++ y) 0 x.
Proof. exists [], y. done. Qed.

Lemma has_at_shift {A} (pre buf bs : list A) o :
  has_at buf o bs -> has_at (pre ++ buf) (len pre + o) bs.
Proof.
  intros (p & post & -> & <-). exists (pre ++ p), post.
  rewrite <- app_assoc. split; [done|]. apply len_app.
Qed.

Lemma has_at_prefix {A} (buf post bs : list A) o :
  has_at buf o bs -> has_at (buf ++ post) o bs.
Proof.
  intros (p & q & -> & <-). exists p, (q ++ post).
  by rewrite <- !app_assoc.
Qed.

Lemma binaryRead_has_at buf o bs n :
  has_at buf o bs -> n = len bs -> binaryRead buf o n = Ok bs.
Proof.
  intros H ->. unfold binaryRead.
  destruct (has_at_bounds _ _ _ H) as [H0 H1].
  rewrite (has_at_slice buf o bs) by done.
  apply Z.leb_le in H1. rewrite H1. by rewrite orb_true_r.
Qed.

(** Little-endian fields. *)
Lemma len_le_split n z : len (le_split n z) = Z.of_nat n.
Proof. unfold len. by rewrite length_le_split. Qed.

Lemma le_combine_split_small n z :
  0 <= z < 2 ^ (Z.of_nat n * 8) -> le_combine (le_split n z) = z.
Proof. intros H. rewrite le_combine_split. by apply Z.mod_small. Qed.

Lemma len_writeDirectoryTable a b : len (writeDirectoryTable a b) = 16.
Proof. unfold writeDirectoryTable. by rewrite !len_app, !len_le_split. Qed.

Lemma len_writeDirectoryEntry a b c d : len (writeDirectoryEntry a b c d) = 8.
Proof. unfold writeDirectoryEntry. by rewrite !len_app, !len_le_split. Qed.

Lemma len_writeDataEntry a b : len (writeDataEntry a b) = 16.
Proof. unfold writeDataEntry. by rewrite !len_app, !len_le_split. Qed.

Lemma slice_app_skip {A} (x y : list A) o n :
  o = len x -> slice (x ++ y) o n = slice y 0 n.
Proof.
  intros ->. unfold slice, len. rewrite Nat2Z.id, drop_app_length. done.
Qed.

Lemma slice_app_take {A} (x y : list A) n :
  n = len x -> slice (x ++ y) 0 n = x.
Proof.
  intros ->. unfold slice, len. rewrite Nat2Z.id. cbn. apply take_app_length.
Qed.

Lemma readTable_counts a b :
  let t := writeDirectoryTable a b in
  readUint16 t 12 = uint16 a /\ readUint16 t 14 = uint16 b.
Proof.
  cbn zeta. unfold writeDirectoryTable, readUint16.
  assert (Hu : forall z, 0 <= uint16 z < 2 ^ (Z.of_nat 2 * 8)).
  { intros z. unfold uint16. apply Z.mod_pos_bound. lia. }
  split.
  - rewrite (has_at_slice _ 12 (le_split 2 (uint16 a))); [|
      | by rewrite len_le_split].
    + by apply le_combine_split_small.
    + exists (le_split 4 0 ++ le_split 4 0 ++ le_split 2 0 ++ le_split 2 0),
             (le_split 2 (uint16 b)).
      rewrite <- !app_assoc. split; [done|].
      by rewrite !len_app, !len_le_split.
  - rewrite (has_at_slice _ 14 (le_split 2 (uint16 b))); [|
      | by rewrite len_le_split].
    + by apply le_combine_split_small.
    + exists (le_split 4 0 ++ le_split 4 0 ++ le_split 2 0 ++ le_split 2 0
              ++ le_split 2 (uint16 a)), [].
      rewrite <- !app_assoc, app_nil_r. split; [done|].
      by rewrite !len_app, !len_le_split.
Qed.

Lemma uint32_range z : 0 <= uint32 z < 2 ^ 32.
Proof. unfold uint32. apply Z.mod_pos_bound. lia. Qed.

Lemma uint32_small z : 0 <= z < 2 ^ 32 -> uint32 z = z.
Proof. apply Z.mod_small. Qed.

Lemma uint16_small z : 0 <= z < 2 ^ 16 -> uint16 z = z.
Proof. apply Z.mod_small. Qed.

Lemma flag_lor z :
  0 <= z < 2 ^ 31 ->
  0 <= Z.lor z 0x80000000 < 2 ^ 32
  /\ Z.land (Z.lor z 0x80000000) 0x80000000 = 0x80000000
  /\ Z.ldiff (Z.lor z 0x80000000) 0x80000000 = z
  /\ Z.land z 0x80000000 = 0
  /\ Z.ldiff z 0x80000000 = z.
Proof.
  intros Hz.
  assert (Hland : Z.land z 0x80000000 = 0).
  { change 0x80000000 with (2 ^ 31). apply Z.bits_inj'. intros n Hn.
    rewrite Z.land_spec, Z.bits_0, Z.pow2_bits_eqb by lia.
    destruct (Z.eqb_spec 31 n) as [<-|]; [|by rewrite andb_false_r].
    rewrite andb_true_r.
    destruct (Z.eq_dec z 0) as [->|]; [apply Z.bits_0|].
    apply Z.bits_above_log2; [lia|]. apply Z.log2_lt_pow2; lia. }
  assert (Hlor : Z.lor z 0x80000000 = z + 0x80000000).
  { symmetry. apply Z.add_nocarry_lxor in Hland as Hx. rewrite Hx.
    rewrite Z.lxor_lor by done. done. }
  split; [rewrite Hlor; lia|]. split.
  - rewrite Z.land_lor_distr_l, Hland, Z.land_diag. done.
  - split; [|split; [done|]].
    + rewrite Z.ldiff_land. rewrite Z.land_lor_distr_l.
      rewrite <- !Z.ldiff_land. rewrite Z.ldiff_diag, Z.lor_0_r.
      apply Z.bits_inj'. intros n Hn.
      rewrite Z.ldiff_spec. change 0x80000000 with (2 ^ 31).
      rewrite Z.pow2_bits_eqb by lia.
      destruct (Z.eqb_spec 31 n) as [<-|]; [|by rewrite andb_true_r].
      rewrite andb_false_r. symmetry.
      destruct (Z.eq_dec z 0) as [->|]; [apply Z.bits_0|].
      apply Z.bits_above_log2; [lia|]. apply Z.log2_lt_pow2; lia.
    + apply Z.bits_inj'. intros n Hn.
      rewrite Z.ldiff_spec. change 0x80000000 with (2 ^ 31).
      rewrite Z.pow2_bits_eqb by lia.
      destruct (Z.eqb_spec 31 n) as [<-|]; [|by rewrite andb_true_r].
      rewrite andb_false_r. symmetry.
      destruct (Z.eq_dec z 0) as [->|]; [apply Z.bits_0|].
      apply Z.bits_above_log2; [lia|]. apply Z.log2_lt_pow2; lia.
Qed.

Lemma firstn_le_split_app n z (rest : list byte) :
  firstn n (le_split n z ++ rest) = le_split n z.
Proof.
  rewrite <- (length_le_split n z) at 1. apply take_app_length.
Qed.

Lemma skipn_le_split_app n z (rest : list byte) :
  skipn n (le_split n z ++ rest) = rest.
Proof.
  rewrite <- (length_le_split n z) at 1. apply drop_app_length.
Qed.

Lemma readUint16s_write us :
  Forall (fun u => 0 <= u < 2 ^ 16) us ->
  readUint16s (length us) (writeUint16s us) = us.
Proof.
  induction 1 as [|u us Hu Hus IH]; cbn [length readUint16s writeUint16s flat_map]; [done|].
  rewrite firstn_le_split_app, skipn_le_split_app.
  fold (writeUint16s us). rewrite IH. f_equal.
  rewrite uint16_small by done. by apply le_combine_split_small.
Qed.

Lemma len_writeUint16s us : len (writeUint16s us) = 2 * len us.
Proof.
  unfold len. induction us as [|u us IH]; cbn [writeUint16s flat_map length]; [done|].
  rewrite length_app, length_le_split. fold (writeUint16s us). lia.
Qed.

Lemma writeUint16s_app a b : writeUint16s (a ++ b) = writeUint16s a ++ writeUint16s b.
Proof. unfold writeUint16s. by rewrite flat_map_app. Qed.

Lemma readName_ok buf o n :
  has_at buf o (nameBytes n) -> len (nameUnits n) < 2 ^ 16 ->
  unitsOk (nameUnits n) ->
  readName buf o = Ok (unitsName (nameUnits n)).
Proof.
  intros Hat Hlen Hu. unfold nameBytes in Hat.
  change (writeUint16s (?x :: ?l)) with (le_split 2 (uint16 x) ++ writeUint16s l) in Hat.
  apply has_at_app in Hat as [H1 H2]. rewrite len_le_split in H2.
  unfold readName. rewrite (binaryRead_has_at _ _ _ _ H1) by by rewrite len_le_split.
  pose proof (len_nonneg (nameUnits n)).
  assert (Hu16 : uint16 (len (nameUnits n)) = len (nameUnits n))
    by (apply uint16_small; lia).
  rewrite !Hu16 in *.
  rewrite le_combine_split_small
    by (change (2 ^ (Z.of_nat 2 * 8)) with (2 ^ 16); lia).
  rewrite (binaryRead_has_at _ _ _ _ H2) by (rewrite len_writeUint16s; lia).
  unfold len. rewrite Nat2Z.id. by rewrite readUint16s_write.
Qed.

Lemma dirEntryB_raw no k o :
  dirEntryB no k o
  = le_split 4 (fst (rawEntry no k o)) ++ le_split 4 (snd (rawEntry no k o)).
Proof. by destruct k. Qed.

Lemma readDirEntries_cons n a b rest :
  readDirEntries (S n) (le_split 4 a ++ le_split 4 b ++ rest)
  = (a mod 2 ^ 32, b mod 2 ^ 32) :: readDirEntries n rest.
Proof.
  cbn [readDirEntries].
  rewrite firstn_le_split_app, skipn_le_split_app, firstn_le_split_app.
  by rewrite !le_combine_split.
Qed.

Lemma thread_length_const {X A} (f : X -> Z -> list A) sz (l : list X) o c :
  (forall x o, x ∈ l -> len (f x o) = c) -> len (thread f sz l o) = len l * c.
Proof.
  revert o. induction l as [|x l IH]; intros o Hf; cbn [thread]; [unfold len; cbn; lia|].
  rewrite len_app, Hf, IH by (left || (intros; apply Hf; by right)).
  unfold len. cbn [length]. lia.
Qed.

Section DecodeEntries.
Context (buf : list byte) (no : gmap string Z).

Lemma readDirEntries_thread {X} (raw : X -> Z -> Z * Z) (sz : X -> Z)
    (items : list X) (o : Z) :
  (forall x o, 0 <= fst (raw x o) < 2 ^ 32 /\ 0 <= snd (raw x o) < 2 ^ 32) ->
  readDirEntries (length items)
    (thread (fun x o => le_split 4 (fst (raw x o)) ++ le_split 4 (snd (raw x o)))
            sz items o)
  = thread (fun x o => [raw x o]) sz items o.
Proof.
  intros Hraw. revert o. induction items as [|x items IH]; intros o; [done|].
  cbn [thread length]. rewrite <- app_assoc, readDirEntries_cons, IH.
  destruct (Hraw x o) as [H1 H2].
  rewrite !Z.mod_small by done. by destruct (raw x o).
Qed.

Lemma total_nonneg {X} (sz : X -> Z) (l : list X) :
  Forall (fun x => 0 <= sz x) l -> 0 <= total sz l.
Proof.
  induction 1 as [|x l Hx Hl IH]; [done|]. rewrite total_cons. lia.
Qed.

Lemma readEntries_subdir {X} (de : dirEntry) (sz : X -> Z)
    (items : list (Identifier * X)) (o : Z) :
  leaf de = false ->
  Forall (fun kx => key_ok buf no (fst kx) /\ 0 < sz (snd kx)) items ->
  0 <= o -> o + total (fun kx => sz (snd kx)) items <= 2 ^ 31 ->
  readEntries de buf
    (thread (fun kx o => [rawEntry no (fst kx) o]) (fun kx => sz (snd kx)) items o)
  = Ok (thread (fun kx o => [mkDirEntry (fst kx) o false])
               (fun kx => sz (snd kx)) items o).
Proof.
  intros Hleaf Hall. revert o.
  induction Hall as [|[k x] items [Hk Hsz] Hall IH]; intros o Ho Hend; [done|].
  cbn [thread app fst snd] in *. rewrite total_cons in Hend. cbn [snd] in Hend.
  assert (Htot : 0 <= total (fun kx => sz (snd kx)) items).
  { apply total_nonneg. eapply Forall_impl; [exact Hall|]. cbn. lia. }
  assert (Ho31 : 0 <= o < 2 ^ 31) by lia.
  destruct (flag_lor o Ho31) as (Hr & Hland & Hldiff & _).
  assert (Hu : uint32 o = o) by (apply uint32_small; lia).
  destruct k as [i|n]; cbn [rawEntry fst]; cbn [readEntries]; rewrite Hleaf.
  - rewrite Hu. unfold subdirectoryOffset, nameOffsetFlag. rewrite Hland. cbn [Z.eqb Bool.eqb negb andb].
    assert (Hi : 0 <= i < 2 ^ 31) by (cbn in Hk; lia).
    destruct (flag_lor i Hi) as (_ & _ & _ & Hl0 & _).
    rewrite uint32_small by lia. rewrite Hl0. cbn [Z.eqb].
    rewrite IH by lia. rewrite Hldiff. rewrite uint16_small by (cbn in Hk; lia). done.
  - destruct Hk as (on & Hno & Hon & Hat & Hlen & Hus & Hrt).
    rewrite Hno. cbn [from_option id]. rewrite Hu, (uint32_small on) by lia.
    destruct (flag_lor on Hon) as (_ & Hland' & Hldiff' & _).
    unfold subdirectoryOffset, nameOffsetFlag.
    rewrite Hland, Hland', Hldiff, Hldiff'. cbn [Z.eqb Bool.eqb negb andb].
    rewrite (readName_ok buf on n) by done. rewrite Hrt.
    rewrite IH by lia. done.
Qed.

Lemma readEntries_leaf {X} (de : dirEntry) (items : list (Z * X)) (o : Z) :
  leaf de = true ->
  Forall (fun lp => 0 <= fst lp < 2 ^ 16) items ->
  0 <= o -> o + len items * sizeOfDataEntry <= 2 ^ 31 ->
  readEntries de buf
    (thread (fun lp o => [(uint32 (fst lp), uint32 o)])
            (fun _ => sizeOfDataEntry) items o)
  = Ok (thread (fun lp o => [mkDirEntry (ID (fst lp)) o false])
               (fun _ => sizeOfDataEntry) items o).
Proof.
  intros Hleaf Hall. revert o.
  induction Hall as [|[l x] items Hl Hall IH]; intros o Ho Hend; [done|].
  cbn [thread app fst snd] in *.
  unfold len in Hend. cbn [length] in Hend. unfold sizeOfDataEntry in *.
  assert (Ho31 : 0 <= o < 2 ^ 31) by lia.
  destruct (flag_lor o Ho31) as (_ & _ & _ & Hland & Hldiff).
  assert (Hl31 : 0 <= l < 2 ^ 31) by lia.
  destruct (flag_lor l Hl31) as (_ & _ & _ & Hland' & _).
  cbn [readEntries]. rewrite Hleaf.
  rewrite !uint32_small by lia.
  unfold subdirectoryOffset, nameOffsetFlag.
  rewrite Hland, Hland', Hldiff. cbn [Z.eqb Bool.eqb negb andb].
  rewrite IH by (unfold len; lia). by rewrite uint16_small by lia.
Qed.
End DecodeEntries.

Lemma lor_flag_range a : 0 <= a < 2 ^ 32 -> 0 <= Z.lor a 0x80000000 < 2 ^ 32.
Proof.
  intros Ha. split; [apply Z.lor_nonneg; lia|].
  destruct (Z.eq_dec (Z.lor a 0x80000000) 0) as [->|Hne]; [lia|].
  apply Z.log2_lt_pow2; [pose proof (Z.lor_nonneg a 0x80000000); lia|].
  rewrite Z.log2_lor by lia.
  apply Z.max_lub_lt; [|done].
  destruct (Z.eq_dec a 0) as [->|]; [done|]. apply Z.log2_lt_pow2; lia.
Qed.

Lemma rawEntry_range no k o :
  0 <= fst (rawEntry no k o) < 2 ^ 32 /\ 0 <= snd (rawEntry no k o) < 2 ^ 32.
Proof.
  destruct k; cbn [rawEntry fst snd]; split;
    try apply lor_flag_range; apply uint32_range.
Qed.

Section DecodeTables.
Context (buf : list byte) (no : gmap string Z).

Lemma readDirTable_subdir {X} (de : dirEntry) (sz : X -> Z)
    (items : list (Identifier * X)) (o : Z) :
  leaf de = false ->
  has_at buf (de_offset de) (tableB no sz items o) ->
  len items < 2 ^ 16 ->
  Forall (fun kx => key_ok buf no (fst kx) /\ 0 < sz (snd kx)) items ->
  0 <= o -> o + total (fun kx => sz (snd kx)) items <= 2 ^ 31 ->
  readDirTable de buf
  = Ok (thread (fun kx o => [mkDirEntry (fst kx) o false])
               (fun kx => sz (snd kx)) items o).
Proof.
  intros Hleaf Hat Hlen Hall Ho Hend. unfold tableB in Hat.
  apply has_at_app in Hat as [Hhdr Hent].
  rewrite len_writeDirectoryTable in Hent.
  unfold readDirTable.
  rewrite (binaryRead_has_at _ _ _ _ Hhdr) by by rewrite len_writeDirectoryTable.
  destruct (readTable_counts (Z.of_nat (leadingNames (map fst items)))
              (len items - Z.of_nat (leadingNames (map fst items)))) as [-> ->].
  pose proof (leadingNames_le (map fst items)) as Hln.
  rewrite length_map in Hln. pose proof (len_nonneg items). unfold len in *.
  rewrite (uint16_small (Z.of_nat (leadingNames _))) by lia.
  rewrite (uint16_small (_ - _)) by lia.
  rewrite uint16_small by lia.
  replace (Z.of_nat (leadingNames (map fst items))
           + (Z.of_nat (length items) - Z.of_nat (leadingNames (map fst items))))
    with (Z.of_nat (length items)) by lia.
  rewrite (binaryRead_has_at _ _ _ _ Hent).
  2:{ rewrite (thread_length_const _ _ _ _ 8); [done|].
      intros [k x] o' _. destruct k; apply len_writeDirectoryEntry. }
  rewrite Nat2Z.id.
  rewrite (thread_ext _ (fun kx o => le_split 4 (fst (rawEntry no (fst kx) o))
                                     ++ le_split 4 (snd (rawEntry no (fst kx) o)))
             _ (fun kx => sz (snd kx)));
    [|intros; apply dirEntryB_raw|done].
  rewrite (readDirEntries_thread (fun kx o => rawEntry no (fst kx) o))
    by (intros; apply rawEntry_range).
  by apply readEntries_subdir.
Qed.

Lemma readDirTable_leaf (de : dirEntry) (ls : langList) (o : Z) :
  leaf de = true ->
  has_at buf (de_offset de) (langTableB ls o) ->
  len ls < 2 ^ 16 ->
  Forall (fun lp => 0 <= fst lp < 2 ^ 16) ls ->
  0 <= o -> o + len ls * sizeOfDataEntry <= 2 ^ 31 ->
  readDirTable de buf
  = Ok (thread (fun lp o => [mkDirEntry (ID (fst lp)) o false])
               (fun _ => sizeOfDataEntry) ls o).
Proof.
  intros Hleaf Hat Hlen Hall Ho Hend. unfold langTableB in Hat.
  apply has_at_app in Hat as [Hhdr Hent].
  rewrite len_writeDirectoryTable in Hent.
  unfold readDirTable.
  rewrite (binaryRead_has_at _ _ _ _ Hhdr) by by rewrite len_writeDirectoryTable.
  destruct (readTable_counts 0 (len ls)) as [-> ->].
  pose proof (len_nonneg ls).
  rewrite (uint16_small 0), (uint16_small (len ls)) by lia.
  rewrite Z.add_0_l, uint16_small by lia.
  rewrite (binaryRead_has_at _ _ _ _ Hent).
  2:{ rewrite (thread_length_const _ _ _ _ 8); [done|].
      intros. apply len_writeDirectoryEntry. }
  unfold len. rewrite Nat2Z.id.
  rewrite (readDirEntries_thread (fun (lp : Z * list byte) o => (uint32 (fst lp), uint32 o)))
    by (intros; split; apply uint32_range).
  by apply readEntries_leaf.
Qed.

Lemma readData_ok (de : dirEntry) (p : list byte) (po : Z) :
  has_at buf (de_offset de) (writeDataEntry po (len p)) ->
  has_at buf po (DataEntry_writeData (mkDataEntry p)) ->
  len buf < 2 ^ 32 ->
  readData de buf 0 = Ok p.
Proof.
  intros Hent Hp Hbuf. unfold readData.
  rewrite (binaryRead_has_at _ _ _ _ Hent) by by rewrite len_writeDataEntry.
  unfold DataEntry_writeData in Hp. cbn [de_Data] in Hp.
  apply has_at_app in Hp as [Hp _].
  destruct (has_at_bounds _ _ _ Hp) as [Hp0 Hp1].
  pose proof (len_nonneg p).
  destruct (has_at_bounds _ _ _ Hent) as [_ He1]. rewrite len_writeDataEntry in He1.
  assert (Hrva : readUint32 (writeDataEntry po (len p)) 0 = po).
  { unfold readUint32, writeDataEntry.
    rewrite slice_app_take by by rewrite len_le_split.
    rewrite uint32_small by lia. apply le_combine_split_small.
    change (2 ^ (Z.of_nat 4 * 8)) with (2 ^ 32). lia. }
  assert (Hsize : readUint32 (writeDataEntry po (len p)) 4 = len p).
  { unfold readUint32, writeDataEntry.
    rewrite slice_app_skip by by rewrite len_le_split.
    rewrite slice_app_take by by rewrite len_le_split.
    rewrite uint32_small by lia. apply le_combine_split_small.
    change (2 ^ (Z.of_nat 4 * 8)) with (2 ^ 32). lia. }
  rewrite Hrva, Hsize, Z.sub_0_r.
  destruct (Z.ltb_spec po 0); [lia|].
  destruct (Z.ltb_spec (len buf) (po + len p)); [lia|]. cbn [orb].
  by rewrite (has_at_slice buf po p).
Qed.
End DecodeTables.

Lemma thread_length {X A} (f : X -> Z -> list A) sz (c : X -> Z) (l : list X) o :
  (forall x o, x ∈ l -> len (f x o) = c x) -> len (thread f sz l o) = total c l.
Proof.
  revert o. induction l as [|x l IH]; intros o Hf; cbn [thread]; [done|].
  rewrite len_app, Hf, IH, total_cons by (left || (intros; apply Hf; by right)).
  done.
Qed.

Lemma len_flat_map {X A} (f : X -> list A) (c : X -> Z) (l : list X) :
  (forall x, x ∈ l -> len (f x) = c x) -> len (flat_map f l) = total c l.
Proof.
  induction l as [|x l IH]; intros Hf; cbn [flat_map]; [done|].
  rewrite len_app, Hf, IH, total_cons by (left || (intros; apply Hf; by right)).
  done.
Qed.

Lemma len_langTableB ls o : len (langTableB ls o) = langTableSize ls.
Proof.
  unfold langTableB, langTableSize.
  rewrite len_app, len_writeDirectoryTable, (thread_length_const _ _ _ _ 8);
    [done|]. intros. apply len_writeDirectoryEntry.
Qed.

Lemma len_tableB {X} no (sz : X -> Z) (items : list (Identifier * X)) o :
  len (tableB no sz items o) = sizeOfDirTable + len items * sizeOfDirEntry.
Proof.
  unfold tableB.
  rewrite len_app, len_writeDirectoryTable, (thread_length_const _ _ _ _ 8);
    [done|]. intros [[] ?] ? _; apply len_writeDirectoryEntry.
Qed.

Lemma len_dataIndexL ls o : len (dataIndexL ls o) = len ls * sizeOfDataEntry.
Proof.
  unfold dataIndexL. apply thread_length_const. intros. apply len_writeDataEntry.
Qed.

Lemma len_writeData p : len (DataEntry_writeData (mkDataEntry p)) = alignData (len p).
Proof. apply (writeData_padded (mkDataEntry p)). Qed.

Lemma len_payloadL ls : len (payloadL ls) = payloadSizeL ls.
Proof.
  unfold payloadL, payloadSizeL. apply len_flat_map. intros. apply len_writeData.
Qed.

Lemma len_langDirsR R o :
  len (langDirsR R o) = total (fun rl => langTableSize (snd rl)) R.
Proof. unfold langDirsR. apply thread_length. intros. apply len_langTableB. Qed.

Lemma len_dataIndexR R o : len (dataIndexR R o) = dataIndexSizeR R.
Proof. unfold dataIndexR. apply thread_length. intros. apply len_dataIndexL. Qed.

Lemma len_payloadR R : len (payloadR R) = payloadSizeR R.
Proof. unfold payloadR. apply len_flat_map. intros. apply len_payloadL. Qed.

Section DecodeLoops.
Context (buf : list byte) (no : gmap string Z).
Hypothesis buf_small : len buf < 2 ^ 31.

Lemma langLoop (te re : dirEntry) (ls : langList) (o_di o_p : Z)
    (rs : ResourceSet) :
  checkIdentifier (ident te) = None -> checkIdentifier (ident re) = None ->
  Forall (fun lp => 0 <= fst lp < 2 ^ 16) ls ->
  has_at buf o_di (dataIndexL ls o_p) -> has_at buf o_p (payloadL ls) ->
  forEntries (readLang buf 0 te re)
    (thread (fun lp o => [mkDirEntry (ID (fst lp)) o false])
            (fun _ => sizeOfDataEntry) ls o_di) rs
  = (setLangs rs (ident te) (ident re) ls, None).
Proof.
  intros Ht Hr Hall. revert o_di o_p rs.
  induction Hall as [|[l p] ls Hl Hall IH]; intros o_di o_p rs Hdi Hp; [done|].
  cbn [thread app forEntries setLangs fold_left fst snd].
  unfold dataIndexL in Hdi. cbn [thread] in Hdi. fold (dataIndexL ls) in Hdi.
  apply has_at_app in Hdi as [He Hdi]. rewrite len_writeDataEntry in Hdi.
  unfold payloadL in Hp. cbn [flat_map] in Hp. fold (payloadL ls) in Hp.
  apply has_at_app in Hp as [Hp1 Hp]. cbn [snd] in *.
  rewrite len_writeData in Hp.
  unfold readLang at 1.
  rewrite (readData_ok buf _ p o_p) by (done || lia).
  unfold ResourceSet_Set. rewrite Hr, Ht. cbn [ident asID].
  rewrite uint16_small by done.
  by apply (IH _ (o_p + alignData (len p))).
Qed.

Lemma resLoop (te : dirEntry) (R : resList) (o_lt o_di o_p : Z)
    (rs : ResourceSet) :
  checkIdentifier (ident te) = None -> Forall res_ok R ->
  has_at buf o_lt (langDirsR R o_di) -> has_at buf o_di (dataIndexR R o_p) ->
  has_at buf o_p (payloadR R) ->
  forEntries (fun resourceEntry st =>
                let resourceEntry := setLeaf resourceEntry in
                walk resourceEntry buf (readLang buf 0 te resourceEntry) st)
    (thread (fun rl o => [mkDirEntry (fst rl) o false])
            (fun rl => langTableSize (snd rl)) R o_lt) rs
  = (setResources rs (ident te) R, None).
Proof.
  intros Ht Hall. revert o_lt o_di o_p rs.
  induction Hall as [|[r ls] R [Hr [Hlen Hls]] Hall IH];
    intros o_lt o_di o_p rs Hlt Hdi Hp; [done|].
  cbn [thread app forEntries setResources fold_left fst snd] in *.
  unfold langDirsR in Hlt. cbn [thread snd] in Hlt. fold (langDirsR R) in Hlt.
  apply has_at_app in Hlt as [Htab Hlt]. rewrite len_langTableB in Hlt.
  unfold dataIndexR in Hdi. cbn [thread snd] in Hdi. fold (dataIndexR R) in Hdi.
  apply has_at_app in Hdi as [Hdi1 Hdi]. rewrite len_dataIndexL in Hdi.
  unfold payloadR in Hp. cbn [flat_map snd] in Hp. fold (payloadR R) in Hp.
  apply has_at_app in Hp as [Hp1 Hp]. rewrite len_payloadL in Hp.
  destruct (has_at_bounds _ _ _ Hdi1) as [Hb0 Hb1]. rewrite len_dataIndexL in Hb1.
  unfold walk at 1.
  rewrite (readDirTable_leaf buf (setLeaf (mkDirEntry r o_lt false)) ls o_di)
    by (done || lia).
  rewrite (langLoop te (setLeaf (mkDirEntry r o_lt false)) ls o_di o_p) by done.
  cbn [setLeaf ident].
  by apply (IH _ (o_di + len ls * sizeOfDataEntry) (o_p + payloadSizeL ls)).
Qed.
End DecodeLoops.

Lemma len_resDirsB no T o :
  len (resDirsB no T o) = total (fun tR => resTableSize (snd tR)) T.
Proof. unfold resDirsB. apply thread_length. intros. apply len_tableB. Qed.

Lemma len_langDirsB T o :
  len (langDirsB T o)
  = total (fun tR => total (fun rl => langTableSize (snd rl)) (snd tR)) T.
Proof. unfold langDirsB. apply thread_length. intros. apply len_langDirsR. Qed.

Lemma len_dataIndexB T o :
  len (dataIndexB T o) = total (fun tR => dataIndexSizeR (snd tR)) T.
Proof. unfold dataIndexB. apply thread_length. intros. apply len_dataIndexR. Qed.

Lemma len_payloadB T : len (payloadB T) = total (fun tR => payloadSizeR (snd tR)) T.
Proof. unfold payloadB. apply len_flat_map. intros. apply len_payloadR. Qed.

Lemma len_typeDirB no T : len (typeDirB no T) = resDirsAt T.
Proof. unfold typeDirB. apply len_tableB. Qed.

Lemma langTableSize_pos ls : 0 < langTableSize ls.
Proof. unfold langTableSize, sizeOfDirTable, sizeOfDirEntry. pose proof (len_nonneg ls). lia. Qed.

Lemma resTableSize_pos R : 0 < resTableSize R.
Proof. unfold resTableSize, sizeOfDirTable, sizeOfDirEntry. pose proof (len_nonneg R). lia. Qed.

Lemma has_at_parts {A} (buf a b c d e f : list A) :
  buf = a ++ b ++ c ++ d ++ e ++ f ->
  has_at buf 0 a /\ has_at buf (len a) b /\ has_at buf (len a + len b) c
  /\ has_at buf (len a + len b + len c) d
  /\ has_at buf (len a + len b + len c + len d) e
  /\ has_at buf (len a + len b + len c + len d + len e) f.
Proof.
  intros ->. repeat split.
  - apply has_at_here.
  - exists a, (c ++ d ++ e ++ f). done.
  - exists (a ++ b), (d ++ e ++ f). rewrite <- !app_assoc, len_app. done.
  - exists (a ++ b ++ c), (e ++ f). rewrite <- !app_assoc, !len_app. split; [done|lia].
  - exists (a ++ b ++ c ++ d), f. rewrite <- !app_assoc, !len_app. split; [done|lia].
  - exists (a ++ b ++ c ++ d ++ e), []. rewrite <- !app_assoc, !len_app, app_nil_r.
    split; [done|lia].
Qed.

Section DecodeTree.
Context (buf : list byte) (no : gmap string Z).
Hypothesis buf_small : len buf < 2 ^ 31.

Lemma typeLoop (T : tree) (o_rt o_lt o_di o_p : Z) (rs : ResourceSet) :
  Forall (type_ok buf no) T ->
  has_at buf o_rt (resDirsB no T o_lt) -> has_at buf o_lt (langDirsB T o_di) ->
  has_at buf o_di (dataIndexB T o_p) -> has_at buf o_p (payloadB T) ->
  forEntries (fun typeEntry st =>
      if skipType (ID 0) (ident typeEntry) then (st, None)
      else
        walk typeEntry buf (fun resourceEntry st =>
          let resourceEntry := setLeaf resourceEntry in
          walk resourceEntry buf (readLang buf 0 typeEntry resourceEntry) st) st)
    (thread (fun tR o => [mkDirEntry (fst tR) o false])
            (fun tR => resTableSize (snd tR)) T o_rt) rs
  = (setTree rs T, None).
Proof.
  intros Hall. revert o_rt o_lt o_di o_p rs.
  induction Hall as [|[t R] T (Hk & Hc & Hlen & HR) Hall IH];
    intros o_rt o_lt o_di o_p rs Hrt Hlt Hdi Hp; [done|].
  cbn [thread app forEntries setTree fold_left fst snd] in *.
  unfold resDirsB in Hrt. cbn [thread snd] in Hrt. fold (resDirsB no T) in Hrt.
  apply has_at_app in Hrt as [Htab Hrt]. rewrite len_tableB in Hrt.
  unfold langDirsB in Hlt. cbn [thread snd] in Hlt. fold (langDirsB T) in Hlt.
  apply has_at_app in Hlt as [Hlt1 Hlt]. rewrite len_langDirsR in Hlt.
  unfold dataIndexB in Hdi. cbn [thread snd] in Hdi. fold (dataIndexB T) in Hdi.
  apply has_at_app in Hdi as [Hdi1 Hdi]. rewrite len_dataIndexR in Hdi.
  unfold payloadB in Hp. cbn [flat_map snd] in Hp. fold (payloadB T) in Hp.
  apply has_at_app in Hp as [Hp1 Hp]. rewrite len_payloadR in Hp.
  destruct (has_at_bounds _ _ _ Hlt1) as [Hb0 Hb1]. rewrite len_langDirsR in Hb1.
  change (skipType (ID 0) t) with false. cbn iota.
  unfold walk at 1.
  rewrite (readDirTable_subdir buf no (mkDirEntry t o_rt false) langTableSize R o_lt);
    [| done | done | done | | done | lia].
  2:{ eapply Forall_impl; [exact HR|]. intros rl [Hrk _]. split; [done|].
      apply langTableSize_pos. }
  rewrite (resLoop buf buf_small (mkDirEntry t o_rt false) R o_lt o_di o_p);
    [| done | | done..].
  2:{ eapply Forall_impl; [exact HR|]. by intros rl [_ Hro]. }
  cbn [ident].
  by apply (IH _ (o_lt + total (fun rl => langTableSize (snd rl)) R)
              (o_di + dataIndexSizeR R) (o_p + payloadSizeR R)).
Qed.

(** Decoding a section that has the layout [imageB] replays the tree. *)
Lemma decode_image (nd : list Z) (T : tree) (rs : ResourceSet) :
  buf = imageB no nd T -> tree_ok buf no T ->
  readWith (readLang buf 0) buf (ID 0) rs = (setTree rs T, None).
Proof.
  intros Hbuf [HlenT Hall].
  assert (Hparts :
    has_at buf 0 (typeDirB no T)
    /\ has_at buf (resDirsAt T) (resDirsB no T (langDirsAt T))
    /\ has_at buf (langDirsAt T) (langDirsB T (dataIndexAt T))
    /\ has_at buf (dataIndexAt T) (dataIndexB T (namesAt T + len nd * 2))
    /\ has_at buf (namesAt T + len nd * 2) (payloadB T)).
  { destruct (has_at_parts _ _ _ _ _ _ _ Hbuf) as (P1 & P2 & P3 & P4 & _ & P6).
    rewrite len_typeDirB in *.
    rewrite len_resDirsB, ?len_langDirsB, ?len_dataIndexB, ?len_writeUint16s in *.
    split; [done|]. split; [done|].
    split; [unfold langDirsAt; done|].
    split; [unfold dataIndexAt, langDirsAt; done|].
    replace (namesAt T + len nd * 2)
      with (resDirsAt T + total (fun tR => resTableSize (snd tR)) T
            + total (fun tR => total (fun rl => langTableSize (snd rl)) (snd tR)) T
            + total (fun tR => dataIndexSizeR (snd tR)) T + 2 * len nd) at 1;
      [done|]. unfold namesAt, dataIndexAt, langDirsAt. lia. }
  destruct Hparts as (H0 & H1 & H2 & H3 & H4).
  destruct (has_at_bounds _ _ _ H1) as [Hb0 Hb1]. rewrite len_resDirsB in Hb1.
  unfold readWith, walk at 1.
  rewrite (readDirTable_subdir buf no rootEntry resTableSize T (resDirsAt T));
    [| done | done | done | | done | lia].
  2:{ eapply Forall_impl; [exact Hall|]. intros tR (Hk & _). split; [done|].
      apply resTableSize_pos. }
  by apply (typeLoop T (resDirsAt T) (langDirsAt T) (dataIndexAt T)
              (namesAt T + len nd * 2)).
Qed.
End DecodeTree.

(** ** The directory size *)

Lemma sumZ_perm l1 l2 : Permutation l1 l2 -> sumZ l1 = sumZ l2.
Proof.
  induction 1 as [|x l1 l2 _ IH|x y l|l1 l2 l3 _ IH1 _ IH2]; cbn; try lia.
  unfold sumZ in *. lia.
Qed.

Lemma cacheOf_perm `{Countable K} {V} (less : K -> K -> bool) (m : gmap K V) keys :
  (forall x, less x x = false) -> cacheOf less m keys ->
  Permutation keys (map fst (map_to_list m)).
Proof.
  intros Hi [Hk Hs]. apply NoDup_Permutation.
  - by apply (sorted_NoDup less).
  - apply NoDup_fst_map_to_list.
  - intros k. by rewrite Hk, keys_of_map.
Qed.

Lemma sum_over_keys `{Countable K} {V} (m : gmap K V) (g : V -> Z) (d : V) keys :
  Permutation keys (map fst (map_to_list m)) ->
  sumZ (map (fun kv => g (snd kv)) (map_to_list m))
  = total (fun k => g (default d (m !! k))) keys.
Proof.
  intros Hp. unfold total. rewrite (sumZ_perm _ _ (Permutation_map _ Hp)).
  rewrite map_map. f_equal. apply map_ext_in. intros [k v] Hin.
  apply list_elem_of_In, elem_of_map_to_list in Hin. cbn. by rewrite Hin.
Qed.

Lemma total_add {X} (f g : X -> Z) (l : list X) :
  total (fun x => f x + g x) l = total f l + total g l.
Proof.
  induction l as [|x l IH]; [done|]. rewrite !total_cons, IH. lia.
Qed.

Lemma size_eq_len `{Countable K} {V} (less : K -> K -> bool) (m : gmap K V) keys :
  (forall x, less x x = false) -> cacheOf less m keys ->
  Z.of_nat (size m) = len keys.
Proof. intros Hi Hc. unfold len. by rewrite (cacheOf_length less m keys). Qed.

Lemma typeKeys_cache_ordered rs :
  cacheOf lessThan (Types (ordered rs)) (typeKeys rs).
Proof.
  eapply cacheOf_proper; [|apply typeKeys_sorted].
  intros k. unfold ordered. cbn. by rewrite lookup_fmap, fmap_is_Some.
Qed.

Lemma te_dirSize te :
  te_complete te ->
  TypeEntry_size te
  + sumZ (map (fun kr => ResourceEntry_size (snd kr)
                         + Z.of_nat (size (Data (snd kr))) * sizeOfDataEntry)
              (map_to_list (Resources te)))
  = resTableSize (resOf te)
    + total (fun rl => langTableSize (snd rl)) (resOf te)
    + dataIndexSizeR (resOf te).
Proof.
  intros Htec. pose proof Htec as [(keys & Hk & Hc & Hn) Hres].
  destruct (te_size_eq te Htec) as [_ ->].
  rewrite (sum_over_keys (Resources te)
             (fun re => ResourceEntry_size re
                        + Z.of_nat (size (Data re)) * sizeOfDataEntry)
             (mkResourceEntry ∅ None) keys)
    by by apply (cacheOf_perm lessThan _ _ lessThan_irrefl).
  unfold dataIndexSizeR, resOf. rewrite Hk. cbn [cached from_option id].
  rewrite !total_map. cbn [snd]. rewrite <- Z.add_assoc, <- total_add. f_equal.
  apply total_ext. intros r Hr.
  destruct (complete_resource te keys r Htec Hk Hr) as [Hl Hrec].
  fold (resourceOf te r).
  destruct (re_size_eq _ Hrec) as [-> ->]. done.
Qed.

Lemma dirSize_namesAt rs :
  complete (ordered rs) ->
  ResourceSet_dirSize (ordered rs) = namesAt (treeOfSet rs).
Proof.
  intros Hc. unfold ResourceSet_dirSize.
  pose proof (typeKeys_cache_ordered rs) as Hkc.
  rewrite (sum_over_keys (Types (ordered rs))
             (fun te => TypeEntry_size te
                + sumZ (map (fun kr => ResourceEntry_size (snd kr)
                               + Z.of_nat (size (Data (snd kr))) * sizeOfDataEntry)
                            (map_to_list (Resources te))))
             (mkTypeEntry ∅ None 0) (typeKeys rs))
    by by apply (cacheOf_perm lessThan _ _ lessThan_irrefl).
  rewrite (size_eq_len lessThan _ _ lessThan_irrefl Hkc).
  unfold namesAt, dataIndexAt, langDirsAt, resDirsAt, treeOfSet, treeOf.
  rewrite len_map, !total_map. cbn [snd].
  rewrite <- !Z.add_assoc. f_equal. rewrite <- !total_add. f_equal.
  apply total_ext. intros t Ht.
  apply Hkc in Ht as [te Hte]. fold (typeOf (ordered rs) t).
  unfold typeOf. rewrite Hte. cbn [from_option id].
  rewrite te_dirSize by eauto. lia.
Qed.

(** ** The name table *)

Lemma addName_fold names : forall o0 no0 d0,
  NoDup names ->
  exists o' no' ext,
    fold_left addName names (o0, no0, d0) = (o', no', d0 ++ ext)
    /\ (forall n, n ∉ names -> no' !! n = no0 !! n)
    /\ (forall n, n ∈ names ->
          exists o, no' !! n = Some o
                    /\ has_at (writeUint16s ext) (o - o0) (nameBytes n)).
Proof.
  induction names as [|n1 names IH]; intros o0 no0 d0 Hnd.
  - exists o0, no0, []. rewrite app_nil_r. split; [done|]. split; [done|].
    intros n Hn. by apply elem_of_nil in Hn.
  - apply NoDup_cons in Hnd as [Hn1 Hnd]. cbn [fold_left addName].
    destruct (IH (o0 + (len (nameUnits n1) + 1) * 2) (<[n1 := o0]> no0)
                 (d0 ++ nameEntry n1) Hnd)
      as (o' & no' & ext & Hfold & Hout & Hin).
    exists o', no', (nameEntry n1 ++ ext).
    split; [unfold nameEntry in *; by rewrite Hfold, <- app_assoc|]. split.
    + intros n Hn. apply not_elem_of_cons in Hn as [Hne Hn].
      rewrite Hout by done. by rewrite lookup_insert_ne.
    + intros n Hn. rewrite writeUint16s_app.
      apply elem_of_cons in Hn as [->|Hn].
      * exists o0. rewrite Hout by done. rewrite lookup_insert_eq.
        split; [done|]. rewrite Z.sub_diag. apply has_at_here.
      * destruct (Hin n Hn) as (o & Ho & Hat). exists o. split; [done|].
        replace (o - o0) with (len (writeUint16s (nameEntry n1))
                               + (o - (o0 + (len (nameUnits n1) + 1) * 2))).
        -- by apply has_at_shift.
        -- rewrite len_writeUint16s. unfold nameEntry, len. cbn [length]. lia.
Qed.

Lemma String_ltb_irrefl x : String.ltb x x = false.
Proof. apply String.ltb_antirefl. Qed.

(** The plan of [prepare]: where every collected name is written. *)
Lemma prepare_names rs n :
  n ∈ nameSet (ordered rs) ->
  let s := snd (ResourceSet_prepare rs) in
  exists o, nameOffset s !! n = Some o
    /\ has_at (writeUint16s (namesData s))
              (o - ResourceSet_dirSize (ordered rs)) (nameBytes n).
Proof.
  intros Hn. cbn zeta. unfold ResourceSet_prepare.
  change (ResourceSet_order rs state0) with (ordered rs, snd (ResourceSet_order rs state0)).
  cbn iota.
  destruct (addName_fold (sort_Slice String.ltb (elements (nameSet (ordered rs))))
              (ResourceSet_dirSize (ordered rs)) ∅ [])
    as (o' & no' & ext & Hfold & _ & Hin).
  { rewrite (sort_Slice_perm String.ltb). apply NoDup_elements. }
  rewrite Hfold. cbn [snd nameOffset namesData app].
  destruct (Hin n) as (o & Ho & Hat).
  { rewrite (sort_Slice_perm String.ltb). by apply elem_of_elements. }
  exists o. split; [done|]. rewrite writeUint16s_app. by apply has_at_prefix.
Qed.

(** ** Lookups after [set] *)

Lemma Get_set rs t r l d t' r' l' :
  ResourceSet_Get (ResourceSet_set rs t r l (Some d)) t' r' l'
  = if decide ((t, r, l) = (t', r', l')) then Some d
    else ResourceSet_Get rs t' r' l'.
Proof.
  unfold ResourceSet_Get, ResourceSet_set.
  destruct (Types rs !! t) as [te|] eqn:Ht;
    [destruct (Resources te !! r) as [re|] eqn:Hr|]; cbn [Types].
  - destruct (decide (t = t')) as [<-|Hne].
    + rewrite lookup_insert_eq, Ht. cbn.
      destruct (decide (r = r')) as [<-|Hne].
      * rewrite lookup_insert_eq, Hr. cbn.
        destruct (decide (l = l')) as [<-|Hne].
        -- rewrite lookup_insert_eq. cbn. by rewrite decide_True.
        -- rewrite lookup_insert_ne by done. rewrite decide_False by congruence. done.
      * rewrite lookup_insert_ne by done. rewrite decide_False by congruence. done.
    + rewrite lookup_insert_ne by done. rewrite decide_False by congruence. done.
  - destruct (decide (t = t')) as [<-|Hne].
    + rewrite lookup_insert_eq, Ht. cbn.
      destruct (decide (r = r')) as [<-|Hne].
      * rewrite lookup_insert_eq, Hr. cbn.
        destruct (decide (l = l')) as [<-|Hne].
        -- rewrite lookup_insert_eq. cbn. by rewrite decide_True.
        -- rewrite lookup_insert_ne by done. rewrite decide_False by congruence.
           by rewrite lookup_empty.
      * rewrite lookup_insert_ne by done. rewrite decide_False by congruence. done.
    + rewrite lookup_insert_ne by done. rewrite decide_False by congruence. done.
  - cbn [Resources]. rewrite lookup_empty. cbn [Resources Data Types].
    rewrite lookup_empty.
    destruct (decide (t = t')) as [<-|Hne].
    + rewrite lookup_insert_eq, Ht. cbn.
      destruct (decide (r = r')) as [<-|Hne].
      * rewrite lookup_insert_eq. cbn.
        destruct (decide (l = l')) as [<-|Hne].
        -- rewrite lookup_insert_eq. cbn. by rewrite decide_True.
        -- rewrite lookup_insert_ne by done. rewrite decide_False by congruence.
           by rewrite lookup_empty.
      * rewrite lookup_insert_ne by done. rewrite decide_False by congruence.
        by rewrite lookup_empty.
    + rewrite lookup_insert_ne by done. rewrite decide_False by congruence. done.
Qed.

Lemma GetKey_setEntry rs e k :
  GetKey (setEntry rs e) k
  = if decide (entryKey e = k) then Some (snd e) else GetKey rs k.
Proof. destruct e as [[[t r] l] p], k as [[t' r'] l']. apply Get_set. Qed.

Lemma GetKey_fold (L : list entry) : forall rs0 k,
  (exists p, (k, p) ∈ L /\ GetKey (fold_left setEntry L rs0) k = Some p)
  \/ ((forall p, (k, p) ∉ L)
      /\ GetKey (fold_left setEntry L rs0) k = GetKey rs0 k).
Proof.
  induction L as [|e L IH]; intros rs0 k; cbn [fold_left].
  - right. split; [|done]. intros p Hp. by apply elem_of_nil in Hp.
  - destruct (IH (setEntry rs0 e) k) as [(p & Hp & Hg)|[Hno Hg]].
    + left. exists p. split; [by right|done].
    + rewrite GetKey_setEntry in Hg.
      destruct (decide (entryKey e = k)) as [<-|Hne].
      * left. exists (snd e). split; [|done].
        replace (entryKey e, snd e) with e by (by destruct e). left.
      * right. split; [|done]. intros p Hp.
        apply elem_of_cons in Hp as [Heq|Hp]; [by subst e|]. by apply (Hno p).
Qed.

Lemma fold_left_flat_map {A B C} (f : A -> B -> A) (g : C -> list B) (l : list C) a :
  fold_left f (flat_map g l) a = fold_left (fun a x => fold_left f (g x) a) l a.
Proof.
  revert a. induction l as [|x l IH]; intros a; cbn [flat_map fold_left]; [done|].
  by rewrite fold_left_app, IH.
Qed.

Lemma fold_left_ext' {A B} (f g : A -> B -> A) (l : list B) a :
  (forall a x, f a x = g a x) -> fold_left f l a = fold_left g l a.
Proof.
  intros Hfg. revert a. induction l as [|x l IH]; intros a; cbn; [done|].
  by rewrite Hfg, IH.
Qed.

Lemma fold_left_map' {A B C} (f : A -> B -> A) (g : C -> B) (l : list C) a :
  fold_left f (map g l) a = fold_left (fun a x => f a (g x)) l a.
Proof. revert a. induction l as [|x l IH]; intros a; cbn; [done|]. by rewrite IH. Qed.

Lemma setTree_flat rs T : setTree rs T = fold_left setEntry (flatT T) rs.
Proof.
  unfold setTree, flatT. rewrite fold_left_flat_map.
  apply fold_left_ext'. intros rs' [t R]. cbn [fst snd].
  unfold setResources, flatR. rewrite fold_left_flat_map.
  apply fold_left_ext'. intros rs'' [r ls]. cbn [fst snd].
  unfold setLangs, flatL. rewrite fold_left_map'. done.
Qed.

Lemma Get_ordered rs t r l :
  ResourceSet_Get (ordered rs) t r l = ResourceSet_Get rs t r l.
Proof.
  unfold ResourceSet_Get, ordered. cbn. rewrite lookup_fmap.
  destruct (Types rs !! t) as [te|]; [|done]. cbn.
  unfold TypeEntry_Order. destruct (te_OrderedKeys te); [done|]. cbn.
  rewrite lookup_fmap. destruct (Resources te !! r) as [re|]; [|done]. cbn.
  unfold ResourceEntry_order. by destruct (re_OrderedKeys re).
Qed.

Lemma flatT_elem rs t r l p :
  complete (ordered rs) ->
  (t, r, l, p) ∈ flatT (treeOfSet rs) <-> ResourceSet_Get rs t r l = Some p.
Proof.
  intros Hc. rewrite <- Get_ordered.
  pose proof (typeKeys_cache_ordered rs) as [Hkin _].
  unfold flatT, treeOfSet, treeOf, ResourceSet_Get.
  rewrite list_elem_of_In, in_flat_map. split.
  - intros ([t' R] & HtR & Hin). cbn [fst snd] in Hin.
    apply in_map_iff in HtR as (tk & [= <- <-] & Htk).
    apply list_elem_of_In, Hkin in Htk as [te Hte].
    unfold typeOf in Hin. rewrite Hte in Hin. cbn [from_option id] in Hin.
    pose proof (Hc _ _ Hte) as Htec. pose proof Htec as [(rkeys & Hk & [Hrkin _] & _) _].
    unfold flatR, resOf in Hin. rewrite Hk in Hin. cbn [cached from_option id] in Hin.
    apply in_flat_map in Hin as ([r' ls] & HrR & Hin). cbn [fst snd] in Hin.
    apply in_map_iff in HrR as (rk & [= <- <-] & Hrk).
    apply list_elem_of_In in Hrk.
    destruct (complete_resource te rkeys rk Htec Hk Hrk) as [Hre (lkeys & Hlk & [Hlkin _])].
    unfold flatL, langsOf in Hin. rewrite Hlk in Hin. cbn [cached from_option id] in Hin.
    rewrite map_map in Hin. cbn [fst snd] in Hin.
    apply in_map_iff in Hin as (lk & Heq & Hl).
    injection Heq as <- <- <- <-.
    apply list_elem_of_In, Hlkin in Hl as [de Hde].
    rewrite Hte. cbn. rewrite Hre. cbn.
    unfold dataOf. rewrite Hde. done.
  - intros Hg.
    destruct (Types (ordered rs) !! t) as [te|] eqn:Hte; [|done]. cbn in Hg.
    destruct (Resources te !! r) as [re|] eqn:Hre; [|done]. cbn in Hg.
    destruct (Data re !! l) as [de|] eqn:Hde; [|done]. cbn in Hg.
    injection Hg as <-.
    pose proof (Hc _ _ Hte) as Htec. pose proof Htec as [(rkeys & Hk & [Hrkin _] & _) Hres].
    destruct (Hres _ _ Hre) as (lkeys & Hlk & [Hlkin _]).
    exists (t, resOf (typeOf (ordered rs) t)). split.
    + apply in_map_iff. exists t. split; [done|].
      apply list_elem_of_In, Hkin. eauto.
    + cbn [fst snd]. unfold typeOf. rewrite Hte. cbn [from_option id].
      unfold flatR, resOf. rewrite Hk. cbn [cached from_option id].
      apply in_flat_map. exists (r, langsOf (resourceOf te r)). split.
      * apply in_map_iff. exists r. split; [done|].
        apply list_elem_of_In, Hrkin. eauto.
      * cbn [fst snd]. unfold resourceOf. rewrite Hre. cbn [from_option id].
        unfold flatL, langsOf. rewrite Hlk. cbn [cached from_option id].
        rewrite map_map. apply in_map_iff. exists l. split.
        -- cbn. unfold dataOf. by rewrite Hde.
        -- apply list_elem_of_In, Hlkin. eauto.
Qed.

(** Replaying the tree of a set into the empty set gives the same contents. *)
Lemma setTree_Get rs t r l :
  complete (ordered rs) ->
  ResourceSet_Get (setTree emptySet (treeOfSet rs)) t r l
  = ResourceSet_Get rs t r l.
Proof.
  intros Hc. rewrite setTree_flat.
  destruct (GetKey_fold (flatT (treeOfSet rs)) emptySet (t, r, l))
    as [(p & Hp & Hg)|[Hno Hg]]; cbn [GetKey] in Hg; rewrite Hg.
  - symmetry. by apply flatT_elem.
  - cbn. destruct (ResourceSet_Get rs t r l) as [p|] eqn:E; [|done].
    apply flatT_elem in E; [|done]. by apply Hno in E.
Qed.

(** ** UTF-16 code units *)

Lemma land_3FF_range r : 0 <= Z.land r 0x3FF < 0x400.
Proof.
  change 0x3FF with (Z.ones 10). rewrite Z.land_ones by lia.
  change 0x400 with (2 ^ 10). apply Z.mod_pos_bound. lia.
Qed.

Lemma utf16_EncodeRune_range v : unitsOk (utf16_EncodeRune v).
Proof.
  unfold utf16_EncodeRune, unitsOk, RuneError. change (2 ^ 16) with 65536.
  pose proof (land_3FF_range (Z.shiftr (v - 0x10000) 10)).
  pose proof (land_3FF_range (v - 0x10000)).
  destruct (Z.leb_spec 0 v), (Z.ltb_spec v 0xD800), (Z.leb_spec 0xE000 v),
    (Z.ltb_spec v 0x10000), (Z.leb_spec 0x10000 v), (Z.leb_spec v 0x10FFFF);
    cbn [andb orb]; repeat (apply Forall_cons; split);
    try apply Forall_nil; lia.
Qed.

Lemma nameUnits_ok n : unitsOk (nameUnits n).
Proof.
  unfold nameUnits, utf16_Encode, unitsOk.
  induction (runes_of_string n) as [|v l IH]; cbn [flat_map]; [constructor|].
  apply Forall_app. split; [apply utf16_EncodeRune_range|done].
Qed.

Lemma has_at_trans {A} (buf x y : list A) o1 o2 :
  has_at buf o1 x -> has_at x o2 y -> has_at buf (o1 + o2) y.
Proof.
  intros (p1 & q1 & -> & <-) (p2 & q2 & -> & <-).
  exists (p1 ++ p2), (q2 ++ q1). rewrite <- !app_assoc, len_app. done.
Qed.

(** ** Sets that the format can represent *)

Lemma namesOf_elem keys n : n ∈ namesOf keys <-> Name n ∈ keys.
Proof.
  unfold namesOf. rewrite list_elem_of_omap. split.
  - intros ([i|s] & Hin & Heq); [done|]. by injection Heq as ->.
  - intros Hin. by exists (Name n).
Qed.

Lemma name_in_leading keys n :
  StronglySorted (fun a b => lessThan a b = true) keys ->
  Name n ∈ keys -> Name n ∈ firstn (leadingNames keys) keys.
Proof.
  intros Hs Hin. destruct (names_first keys Hs) as [_ H2].
  rewrite <- (firstn_skipn (leadingNames keys) keys) in Hin.
  apply elem_of_app in Hin as [Hin|Hin]; [done|].
  rewrite Forall_forall in H2. by specialize (H2 _ Hin).
Qed.

Lemma nameSet_type rs t te n :
  Types rs !! t = Some te -> t = Name n -> n ∈ nameSet rs.
Proof.
  intros Hte ->. unfold nameSet. apply elem_of_list_to_set.
  apply list_elem_of_In, in_flat_map. exists (Name n, te). split.
  - apply list_elem_of_In. by apply elem_of_map_to_list.
  - apply list_elem_of_In, elem_of_app. left. cbn. left.
Qed.

Lemma nameSet_resource rs t te keys n :
  Types rs !! t = Some te -> te_OrderedKeys te = Some keys ->
  StronglySorted (fun a b => lessThan a b = true) keys ->
  NamesCount te = leadingNames keys -> Name n ∈ keys -> n ∈ nameSet rs.
Proof.
  intros Hte Hk Hs Hn Hin. unfold nameSet. apply elem_of_list_to_set.
  apply list_elem_of_In, in_flat_map. exists (t, te). split.
  - apply list_elem_of_In. by apply elem_of_map_to_list.
  - apply list_elem_of_In, elem_of_app. right. cbn [snd].
    rewrite Hk, Hn. cbn [cached from_option id].
    apply namesOf_elem. by apply name_in_leading.
Qed.

Lemma bytes_image rs :
  clean rs ->
  ResourceSet_bytes rs
  = imageB (nameOffset (snd (ResourceSet_prepare rs)))
           (namesData (snd (ResourceSet_prepare rs))) (treeOfSet rs).
Proof. intros Hc. unfold ResourceSet_bytes. by rewrite write_image. Qed.

Lemma keys_wf_ordered rs : keys_wf rs -> keys_wf (ordered rs).
Proof.
  intros Hwf t te Hte. unfold ordered in Hte. cbn in Hte.
  rewrite lookup_fmap in Hte.
  destruct (Types rs !! t) as [te0|] eqn:E; [|done]. injection Hte as <-.
  destruct (Hwf _ _ E) as [Ht Hres]. split; [done|].
  intros r re Hre. unfold TypeEntry_Order in Hre.
  destruct (te_OrderedKeys te0); [eauto|]. cbn in Hre.
  rewrite lookup_fmap in Hre.
  destruct (Resources te0 !! r) as [re0|] eqn:E'; [|done]. injection Hre as <-.
  destruct (Hres _ _ E') as [Hr Hl]. split; [done|].
  intros l. unfold ResourceEntry_order. destruct (re_OrderedKeys re0); eauto.
Qed.

Lemma counts_fit_lookup rs :
  counts_fit rs <->
  Z.of_nat (size (Types rs)) < 2 ^ 16
  /\ forall t te, Types rs !! t = Some te ->
       Z.of_nat (size (Resources te)) < 2 ^ 16
       /\ forall r re, Resources te !! r = Some re ->
            Z.of_nat (size (Data re)) < 2 ^ 16.
Proof.
  unfold counts_fit. rewrite map_Forall_lookup. split.
  - intros [Hn Hc]. split; [done|]. intros t te Hte.
    destruct (Hc _ _ Hte) as [Hr Hd]. split; [done|].
    by rewrite map_Forall_lookup in Hd.
  - intros [Hn Hc]. split; [done|]. intros t te Hte.
    destruct (Hc _ _ Hte) as [Hr Hd]. split; [done|].
    by rewrite map_Forall_lookup.
Qed.

Lemma counts_fit_ordered rs : counts_fit rs -> counts_fit (ordered rs).
Proof.
  rewrite !counts_fit_lookup.
  intros [Hn Hc]. split.
  - unfold ordered. cbn. by rewrite map_size_fmap.
  - intros t te Hte. unfold ordered in Hte. cbn in Hte.
    rewrite lookup_fmap in Hte.
    destruct (Types rs !! t) as [te0|] eqn:E; [|done]. injection Hte as <-.
    destruct (Hc _ _ E) as [Ht Hres].
    unfold TypeEntry_Order. destruct (te_OrderedKeys te0); [eauto|]. cbn.
    rewrite map_size_fmap. split; [done|].
    intros r re Hre. rewrite lookup_fmap in Hre.
    destruct (Resources te0 !! r) as [re0|] eqn:E'; [|done]. injection Hre as <-.
    unfold ResourceEntry_order. destruct (re_OrderedKeys re0); cbn; eauto.
Qed.

(** The tree written for a representable set can be decoded. *)
Lemma tree_ok_of_set rs :
  clean rs -> keys_wf rs -> fits rs ->
  tree_ok (ResourceSet_bytes rs) (nameOffset (snd (ResourceSet_prepare rs)))
          (treeOfSet rs).
Proof.
  intros Hclean Hwf [Hcounts Hlen].
  pose proof (order_complete rs state0 Hclean) as Hc. fold (ordered rs) in Hc.
  apply keys_wf_ordered in Hwf. apply counts_fit_ordered in Hcounts.
  apply counts_fit_lookup in Hcounts. destruct Hcounts as [HnT Hcounts].
  pose proof (typeKeys_cache_ordered rs) as Hkc.
  set (buf := ResourceSet_bytes rs) in *.
  set (no := nameOffset (snd (ResourceSet_prepare rs))).
  assert (Hname : forall n, n ∈ nameSet (ordered rs) -> name_fits n ->
                    key_ok buf no (Name n)).
  { intros n Hn [Hrt Hnlen].
    destruct (prepare_names rs n Hn) as (o & Ho & Hat).
    fold no in Ho. exists o. split; [done|].
    assert (Hat' : has_at buf o (nameBytes n)).
    { unfold buf. rewrite bytes_image by done. fold no.
      set (nd := namesData (snd (ResourceSet_prepare rs))) in *.
      set (T := treeOfSet rs).
      destruct (has_at_parts (imageB no nd T) (typeDirB no T)
                  (resDirsB no T (langDirsAt T)) (langDirsB T (dataIndexAt T))
                  (dataIndexB T (namesAt T + len nd * 2)) (writeUint16s nd)
                  (payloadB T) eq_refl) as (_ & _ & _ & _ & P5 & _).
      rewrite len_typeDirB, len_resDirsB, len_langDirsB, len_dataIndexB in P5.
      replace o with (namesAt T + (o - ResourceSet_dirSize (ordered rs)))
        by (rewrite dirSize_namesAt by done; fold T; lia).
      eapply has_at_trans; [|exact Hat].
      unfold namesAt, dataIndexAt, langDirsAt. exact P5. }
    destruct (has_at_bounds _ _ _ Hat') as [H0 H1].
    pose proof (len_nonneg (nameBytes n)).
    repeat split; try done; try lia. apply nameUnits_ok. }
  assert (Hkey : forall k, ident_ok k ->
                   (forall n, k = Name n -> n ∈ nameSet (ordered rs)) ->
                   key_ok buf no k).
  { intros [i|n] [_ Hk] Hin; [exact Hk|]. apply Hname; [by apply Hin|done]. }
  split.
  - unfold treeOfSet, treeOf. rewrite len_map.
    by rewrite <- (size_eq_len lessThan _ _ lessThan_irrefl Hkc).
  - unfold treeOfSet, treeOf. apply Forall_forall. intros [t R] HtR.
    apply list_elem_of_In, in_map_iff in HtR as (tk & [= <- <-] & Htk).
    apply list_elem_of_In in Htk. apply Hkc in Htk as [te Hte].
    unfold typeOf. rewrite Hte. cbn [from_option id].
    destruct (Hwf _ _ Hte) as [Htok Hres].
    destruct (Hcounts _ _ Hte) as [HnR HcR].
    pose proof (Hc _ _ Hte) as Htec.
    pose proof Htec as [(rkeys & Hk & Hrc & Hn) Hrec].
    split; [|split; [apply Htok|split]]; cbn [fst snd].
    + apply Hkey; [done|]. intros n ->. by eapply nameSet_type.
    + by destruct (te_size_eq te Htec) as [<- _].
    + unfold resOf. rewrite Hk. cbn [cached from_option id].
      apply Forall_forall. intros [r ls] Hrl.
      apply list_elem_of_In, in_map_iff in Hrl as (rk & [= <- <-] & Hrk).
      apply list_elem_of_In in Hrk.
      destruct (complete_resource te rkeys rk Htec Hk Hrk) as [Hre Hrecomp].
      destruct (Hres _ _ Hre) as [Hrok Hls].
      cbn [fst snd]. split.
      * apply Hkey; [done|]. intros n ->.
        eapply nameSet_resource; eauto. apply Hrc.
      * split; [apply Hrok|]. cbn [snd]. split.
        -- destruct (re_size_eq _ Hrecomp) as [<- _]. by apply (HcR _ _ Hre).
        -- pose proof Hrecomp as (lkeys & Hlk & [Hlin _]).
           unfold langsOf. rewrite Hlk. cbn [cached from_option id].
           apply Forall_forall. intros [l p] Hlp.
           apply list_elem_of_In, in_map_iff in Hlp as (lk & [= <- <-] & Hl).
           apply list_elem_of_In, Hlin in Hl. cbn [fst]. by apply Hls.
Qed.

(** Decoding the serialized form of a representable set gives a set with
    the same contents. *)
Lemma roundtrip_set rs :
  clean rs -> keys_wf rs -> fits rs ->
  exists rs', loadFromSection (ResourceSet_bytes rs) 0 (ID 0) = Ok rs'
    /\ forall t r l, ResourceSet_Get rs' t r l = ResourceSet_Get rs t r l.
Proof.
  intros Hclean Hwf Hfits.
  pose proof (order_complete rs state0 Hclean) as Hc. fold (ordered rs) in Hc.
  exists (setTree emptySet (treeOfSet rs)). split.
  - unfold loadFromSection, ResourceSet_read.
    rewrite (decode_image (ResourceSet_bytes rs)
               (nameOffset (snd (ResourceSet_prepare rs))) (proj2 Hfits)
               (namesData (snd (ResourceSet_prepare rs))) (treeOfSet rs));
      [done|by apply bytes_image|by apply tree_ok_of_set].
  - intros. by apply setTree_Get.
Qed.

(** ** Sets built by [Set] alone *)

Lemma fresh_clean rs : fresh rs -> clean rs.
Proof.
  intros Hf. split.
  - intros t te Hte. destruct (Hf _ _ Hte) as [Hk Hres]. split.
    + intros keys. by rewrite Hk.
    + intros r re Hre keys. by rewrite (Hres _ _ Hre).
  - intros t te Hte Hk. destruct (Hf _ _ Hte) as [Hn _]. by rewrite Hn in Hk.
Qed.

Lemma fresh_empty : fresh emptySet.
Proof. intros t te H. cbn in H. by rewrite lookup_empty in H. Qed.

(** The shape of the set after an insertion. *)
Lemma set_shape rs t r l p :
  let te0 := typeOf rs t in
  let re0 := resourceOf te0 r in
  exists teKeys reKeys ic cc,
    ResourceSet_set rs t r l (Some p)
    = mkResourceSet
        (<[t := mkTypeEntry
                  (<[r := mkResourceEntry (<[l := mkDataEntry p]> (Data re0))
                                          reKeys]> (Resources te0))
                  teKeys (NamesCount te0)]> (Types rs)) ic cc
    /\ (teKeys = None \/ teKeys = te_OrderedKeys te0)
    /\ (reKeys = None \/ reKeys = re_OrderedKeys re0).
Proof.
  cbn zeta. unfold ResourceSet_set, typeOf, resourceOf.
  destruct (Types rs !! t) as [te|]; cbn [from_option id].
  - destruct (Resources te !! r) as [re|]; cbn [from_option id].
    + do 4 eexists. split; [reflexivity|]. split; [by right|].
      destruct (Data re !! l); [by right|by left].
    + do 4 eexists. split; [reflexivity|]. split; [by left|].
      cbn [Data]. rewrite lookup_empty. by left.
  - cbn [Resources]. rewrite lookup_empty. cbn [from_option id Data].
    rewrite lookup_empty.
    do 4 eexists. split; [reflexivity|]. split; by left.
Qed.

Lemma typeOf_inv (P : TypeEntry -> Prop) rs t :
  P (mkTypeEntry ∅ None 0) -> (forall te, Types rs !! t = Some te -> P te) ->
  P (typeOf rs t).
Proof. intros H0 H1. unfold typeOf. destruct (Types rs !! t); cbn; eauto. Qed.

Lemma resourceOf_inv (P : ResourceEntry -> Prop) te r :
  P (mkResourceEntry ∅ None) -> (forall re, Resources te !! r = Some re -> P re) ->
  P (resourceOf te r).
Proof. intros H0 H1. unfold resourceOf. destruct (Resources te !! r); cbn; eauto. Qed.

Lemma set_fresh rs t r l p :
  fresh rs -> fresh (ResourceSet_set rs t r l (Some p)).
Proof.
  intros Hf.
  destruct (set_shape rs t r l p) as (teKeys & reKeys & ic & cc & -> & HtK & HrK).
  assert (Hte0 : te_OrderedKeys (typeOf rs t) = None
            /\ forall r re, Resources (typeOf rs t) !! r = Some re ->
                  re_OrderedKeys re = None).
  { apply typeOf_inv; [|by apply Hf]. split; [done|].
    cbn. intros ?? H. by rewrite lookup_empty in H. }
  destruct Hte0 as [Hk0 Hres0].
  assert (Hre0 : re_OrderedKeys (resourceOf (typeOf rs t) r) = None).
  { apply resourceOf_inv; [done|]. apply Hres0. }
  intros t' te' Hl. cbn [Types] in Hl.
  destruct (decide (t = t')) as [<-|Hne];
    [|rewrite lookup_insert_ne in Hl by done; eauto].
  rewrite lookup_insert_eq in Hl. injection Hl as <-. cbn. split.
  - destruct HtK; congruence.
  - intros r' re' Hl'. destruct (decide (r = r')) as [<-|Hne];
      [|rewrite lookup_insert_ne in Hl' by done; eauto].
    rewrite lookup_insert_eq in Hl'. injection Hl' as <-. cbn.
    destruct HrK; congruence.
Qed.

Lemma set_keys_wf rs t r l p :
  ident_ok t -> ident_ok r -> is_uint16 l ->
  keys_wf rs -> keys_wf (ResourceSet_set rs t r l (Some p)).
Proof.
  intros Ht Hr Hl Hwf.
  destruct (set_shape rs t r l p) as (teKeys & reKeys & ic & cc & -> & _ & _).
  assert (Hres0 : forall r re, Resources (typeOf rs t) !! r = Some re ->
            ident_ok r /\ forall l, is_Some (Data re !! l) -> is_uint16 l).
  { apply typeOf_inv; [cbn; intros ?? H; by rewrite lookup_empty in H|].
    intros te Hte. by destruct (Hwf _ _ Hte). }
  assert (Hl0 : forall l, is_Some (Data (resourceOf (typeOf rs t) r) !! l) -> is_uint16 l).
  { apply resourceOf_inv;
      [cbn; intros ? H; rewrite lookup_empty in H; by destruct H|].
    intros re Hre. by destruct (Hres0 _ _ Hre). }
  intros t' te' Hl'. cbn [Types] in Hl'.
  destruct (decide (t = t')) as [<-|Hne];
    [|rewrite lookup_insert_ne in Hl' by done; eauto].
  rewrite lookup_insert_eq in Hl'. injection Hl' as <-. cbn. split; [done|].
  intros r' re' Hr'. destruct (decide (r = r')) as [<-|Hne];
    [|rewrite lookup_insert_ne in Hr' by done; eauto].
  rewrite lookup_insert_eq in Hr'. injection Hr' as <-. cbn. split; [done|].
  intros l' Hs. destruct (decide (l = l')) as [<-|Hne]; [done|].
  rewrite lookup_insert_ne in Hs by done. eauto.
Qed.

Lemma SetEntry_ok rs e : entry_ok e -> SetEntry rs e = setEntry rs e.
Proof.
  destruct e as [[[t r] l] p]. intros ([Ht _] & [Hr _] & _).
  unfold SetEntry, setEntry, ResourceSet_Set. by rewrite Hr, Ht.
Qed.

Lemma buildSet_fold entries rs :
  Forall entry_ok entries ->
  fold_left SetEntry entries rs = fold_left setEntry entries rs.
Proof.
  intros Hall. revert rs. induction Hall as [|e L He Hall IH]; intros rs; [done|].
  cbn [fold_left]. by rewrite SetEntry_ok, IH.
Qed.

Lemma buildSet_inv entries :
  Forall entry_ok entries ->
  fresh (buildSet entries) /\ keys_wf (buildSet entries).
Proof.
  intros Hall. unfold buildSet. rewrite buildSet_fold by done.
  assert (H0 : fresh emptySet /\ keys_wf emptySet).
  { split; [apply fresh_empty|]. intros t te H. cbn in H. by rewrite lookup_empty in H. }
  revert H0. generalize emptySet.
  induction Hall as [|[[[t r] l] p] L (Ht & Hr & Hl) Hall IH]; intros rs [Hf Hwf];
    [done|].
  cbn [fold_left setEntry]. apply IH. split.
  - by apply set_fresh.
  - by apply set_keys_wf.
Qed.

Lemma buildSet_Get entries t r l p :
  NoDup (map entryKey entries) -> Forall entry_ok entries ->
  ResourceSet_Get (buildSet entries) t r l = Some p <-> (t, r, l, p) ∈ entries.
Proof.
  intros Hnd Hall. unfold buildSet. rewrite buildSet_fold by done.
  destruct (GetKey_fold entries emptySet (t, r, l)) as [(p' & Hp & Hg)|[Hno Hg]];
    cbn [GetKey] in Hg; rewrite Hg.
  - split.
    + by intros [= <-].
    + intros Hin. f_equal.
      assert (Huniq : forall (L : list entry) k a b,
                NoDup (map entryKey L) -> (k, a) ∈ L -> (k, b) ∈ L -> a = b).
      { clear. induction L as [|e L IH]; intros k a b Hnd Ha Hb.
        - by apply elem_of_nil in Ha.
        - cbn in Hnd. apply NoDup_cons in Hnd as [Hn Hnd].
          apply elem_of_cons in Ha as [Ha|Ha], Hb as [Hb|Hb].
          + congruence.
          + subst e. exfalso. apply Hn. cbn.
            apply list_elem_of_fmap. by exists (k, b).
          + subst e. exfalso. apply Hn. cbn.
            apply list_elem_of_fmap. by exists (k, a).
          + eauto. }
      by apply (Huniq entries (t, r, l)).
  - cbn. split; [done|]. intros Hin. by apply Hno in Hin.
Qed.

(** C1, amended: let a resource set be built by [Set] from a finite
    collection of resources with distinct (type, id, language) keys, whose
    identifiers are valid (a non-zero 16-bit ordinal, or a non-empty name
    that the conversion to UTF-16 and back leaves unchanged and that has
    fewer than 65536 code units) and whose languages are 16-bit, with fewer
    than 65536 entries in every directory and a serialized section shorter
    than 2^31 bytes.  Decoding the serialized section with base address 0 and
    no type filter succeeds, and the decoded set holds exactly the resources
    of the collection, with the same payloads. *)
Theorem roundtrip (entries : list entry) :
  NoDup (map entryKey entries) -> Forall entry_ok entries ->
  fits (buildSet entries) ->
  exists S',
    loadFromSection (ResourceSet_bytes (buildSet entries)) 0 (ID 0) = Ok S'
    /\ forall t r l p,
         ResourceSet_Get S' t r l = Some p <-> (t, r, l, p) ∈ entries.
Proof.
  intros Hnd Hall Hfits.
  destruct (buildSet_inv entries Hall) as [Hfresh Hwf].
  destruct (roundtrip_set (buildSet entries) (fresh_clean _ Hfresh) Hwf Hfits)
    as (S' & Hload & Hget).
  exists S'. split; [done|]. intros t r l p.
  rewrite Hget. by apply buildSet_Get.
Qed.

(** A name that is not well-formed UTF-8 is not read back either: the byte
    0xFF is written as U+FFFD and read back as the bytes EF BF BD, so the
    decoded set does not hold the resource under its name. *)
Lemma roundtrip_fails_bad_utf8 :
  match loadFromSection (ResourceSet_bytes (buildSet badUtf8Entries)) 0 (ID 0) with
  | Ok S' => ResourceSet_Get S' (ID 10) (Name badUtf8Name) 0 = None
  | Err _ => False
  end.
Proof. by vm_compute. Qed.

(** ** The ordering law *)

Lemma sorted_precedes {A} (less : A -> A -> bool) keys x y :
  (forall x, less x x = false) ->
  (forall x y z, less x y = true -> less y z = true -> less x z = true) ->
  StronglySorted (fun a b => less a b = true) keys ->
  x ∈ keys -> y ∈ keys -> less x y = true -> precedes keys x y.
Proof.
  intros Hi Ht Hs. induction Hs as [|k l Hs IH Hall]; intros Hx Hy Hlt.
  - by apply elem_of_nil in Hx.
  - rewrite Forall_forall in Hall.
    apply elem_of_cons in Hx as [->|Hx], Hy as [->|Hy].
    + by rewrite Hi in Hlt.
    + apply list_elem_of_lookup in Hy as [j Hj].
      exists 0%nat, (S j). split; [lia|]. by split.
    + specialize (Hall _ Hx). pose proof (Ht _ _ _ Hall Hlt) as Hkk.
      by rewrite Hi in Hkk.
    + destruct (IH Hx Hy Hlt) as (i & j & Hij & Hli & Hlj).
      exists (S i), (S j). split; [lia|]. by split.
Qed.

Lemma sorted_orderLaw keys :
  StronglySorted (fun a b => lessThan a b = true) keys -> orderLaw keys.
Proof.
  intros Hs. repeat split; intros a b Ha Hb;
    [|intros Hlt|intros Hlt];
    apply (sorted_precedes lessThan); try done;
    try apply lessThan_irrefl; try apply lessThan_trans.
  cbn. by apply Z.ltb_lt.
Qed.

(** ** Data records out of bounds *)

Lemma readData_out_of_bounds section base le rec :
  dataRecord section le = Some rec -> outOfBounds section base rec ->
  readData le section base = Err errDataEntryOutOfBounds.
Proof.
  unfold dataRecord, readData, outOfBounds.
  destruct (binaryRead _ _ _) as [entry|]; [|done]. intros [= <-]. cbn [fst snd].
  intros [H|H].
  - apply Z.ltb_lt in H. by rewrite H.
  - assert (H' : len section < readUint32 entry 0 - base + readUint32 entry 4) by lia.
    apply Z.ltb_lt in H'. rewrite H'. by rewrite orb_true_r.
Qed.

Lemma readData_in_bounds section base le data :
  readData le section base = Ok data ->
  exists rva size,
    dataRecord section le = Some (rva, size)
    /\ 0 <= rva - base /\ rva - base + size <= len section
    /\ data = slice section (rva - base) size.
Proof.
  unfold dataRecord, readData.
  destruct (binaryRead _ _ _) as [entry|]; [|done].
  destruct (Z.ltb_spec (readUint32 entry 0 - base) 0); [done|].
  destruct (Z.ltb_spec (len section)
              (readUint32 entry 0 - base + readUint32 entry 4)); [done|].
  cbn [orb]. intros [= <-]. eauto 10.
Qed.

(** A walk whose callback fails at some entry fails with the same error. *)
Section Traversal.
Context {S : Type} (good : S -> Prop) (bad : S -> error -> Prop).

Lemma forEntries_inv (fn : dirEntry -> S -> S * option error) entries st :
  good st ->
  (forall e st, good st ->
     match fn e st with
     | (st', None) => good st'
     | (st', Some err) => bad st' err
     end) ->
  match forEntries fn entries st with
  | (st', None) => good st'
  | (st', Some err) => bad st' err
  end.
Proof.
  intros Hg Hfn. revert st Hg.
  induction entries as [|e es IH]; intros st Hg; cbn [forEntries]; [done|].
  specialize (Hfn e st Hg). destruct (fn e st) as [st' [err|]]; [done|].
  by apply IH.
Qed.

Lemma walk_inv de section (fn : dirEntry -> S -> S * option error) st :
  good st ->
  (forall err, bad st err) ->
  (forall e st, good st ->
     match fn e st with
     | (st', None) => good st'
     | (st', Some err) => bad st' err
     end) ->
  match walk de section fn st with
  | (st', None) => good st'
  | (st', Some err) => bad st' err
  end.
Proof.
  intros Hg Hb Hfn. unfold walk.
  destruct (readDirTable de section); [by apply forEntries_inv|apply Hb].
Qed.
End Traversal.

Section Logged.
Context (section : list byte) (baseAddress : Z) (typeID : Identifier).

Lemma log_good_bad st err : log_good section baseAddress st -> log_bad section baseAddress st err.
Proof.
  intros Hg le e Hle He. unfold log_good in Hg. rewrite Forall_forall in Hg.
  destruct (Hg _ Hle) as [data Hd]. congruence.
Qed.

Lemma logged_inv te re le st :
  log_good section baseAddress st ->
  match logged (readLang section baseAddress) te re le st with
  | (st', None) => log_good section baseAddress st'
  | (st', Some err) => log_bad section baseAddress st' err
  end.
Proof.
  intros Hg. unfold logged, readLang.
  destruct (readData le section baseAddress) as [data|e] eqn:Hrd.
  - assert (Hg' : forall rs, log_good section baseAddress (rs, snd st ++ [le])).
    { intros rs. apply Forall_app. split; [done|].
      constructor; [by exists data|constructor]. }
    destruct (ResourceSet_Set _ _ _ _ _) as [rs' [err|]]; [|apply Hg'].
    apply log_good_bad, Hg'.
  - intros le' e' Hin He'. cbn [snd] in Hin.
    apply elem_of_app in Hin as [Hin|Hin].
    + unfold log_good in Hg. rewrite Forall_forall in Hg.
      destruct (Hg _ Hin) as [data Hd]. congruence.
    + apply list_elem_of_singleton in Hin as ->. congruence.
Qed.

Lemma readWith_logged_inv st :
  log_good section baseAddress st ->
  match readWith (logged (readLang section baseAddress)) section typeID st with
  | (st', None) => log_good section baseAddress st'
  | (st', Some err) => log_bad section baseAddress st' err
  end.
Proof.
  intros Hg. unfold readWith.
  apply (walk_inv (log_good section baseAddress) (log_bad section baseAddress)); [done|intros; by apply log_good_bad|].
  intros typeEntry st1 Hg1. destruct (skipType _ _); [done|].
  apply (walk_inv (log_good section baseAddress) (log_bad section baseAddress)); [done|intros; by apply log_good_bad|].
  intros resourceEntry st2 Hg2. cbn zeta.
  apply (walk_inv (log_good section baseAddress) (log_bad section baseAddress)); [done|intros; by apply log_good_bad|].
  intros langEntry st3 Hg3. by apply logged_inv.
Qed.

(** Recording the records does not change what is decoded. *)
Lemma forEntries_logged (fn : dirEntry -> ResourceSet -> ResourceSet * option error)
    (fn' : dirEntry -> ResourceSet * list dirEntry
           -> (ResourceSet * list dirEntry) * option error) entries st :
  (forall e st, (fst (fst (fn' e st)), snd (fn' e st)) = fn e (fst st)) ->
  (fst (fst (forEntries fn' entries st)), snd (forEntries fn' entries st))
  = forEntries fn entries (fst st).
Proof.
  intros Hfn. revert st. induction entries as [|e es IH]; intros st;
    cbn [forEntries]; [done|].
  specialize (Hfn e st). destruct (fn' e st) as [st' [err|]];
    cbn [fst snd] in Hfn; rewrite <- Hfn; [done|]. apply IH.
Qed.

Lemma walk_logged de (fn : dirEntry -> ResourceSet -> ResourceSet * option error)
    (fn' : dirEntry -> ResourceSet * list dirEntry
           -> (ResourceSet * list dirEntry) * option error) st :
  (forall e st, (fst (fst (fn' e st)), snd (fn' e st)) = fn e (fst st)) ->
  (fst (fst (walk de section fn' st)), snd (walk de section fn' st))
  = walk de section fn (fst st).
Proof.
  intros Hfn. unfold walk. destruct (readDirTable de section); [|done].
  by apply forEntries_logged.
Qed.

Lemma readWith_logged st :
  (fst (fst (readWith (logged (readLang section baseAddress)) section typeID st)),
   snd (readWith (logged (readLang section baseAddress)) section typeID st))
  = readWith (readLang section baseAddress) section typeID (fst st).
Proof.
  unfold readWith. apply walk_logged. intros typeEntry st1.
  destruct (skipType _ _); [done|].
  apply walk_logged. intros resourceEntry st2. cbn zeta.
  apply walk_logged. intros langEntry st3. unfold logged.
  by destruct (readLang _ _ _ _ _ _).
Qed.
End Logged.

(** C5: if, while a section is decoded, [readData] is called on an entry
    whose data record has an RVA below the base address, or whose local
    offset plus size exceeds the length of the section, then [readData] fails
    with [errDataEntryOutOfBounds], [read] returns that error and no set is
    returned; and whenever [readData] succeeds, the bytes it returns are a
    slice of the section that lies within its bounds. *)
Theorem out_of_bounds_rejected (section : list byte) (baseAddress : Z)
    (typeID : Identifier) (le : dirEntry) (rec : Z * Z) :
  le ∈ recordsRead section baseAddress typeID ->
  dataRecord section le = Some rec ->
  outOfBounds section baseAddress rec ->
  readData le section baseAddress = Err errDataEntryOutOfBounds
  /\ snd (ResourceSet_read emptySet section baseAddress typeID)
     = Some errDataEntryOutOfBounds
  /\ loadFromSection section baseAddress typeID = Err errDataEntryOutOfBounds
  /\ forall le' data, readData le' section baseAddress = Ok data ->
       exists rva size,
         dataRecord section le' = Some (rva, size)
         /\ 0 <= rva - baseAddress /\ rva - baseAddress + size <= len section
         /\ data = slice section (rva - baseAddress) size.
Proof.
  intros Hin Hrec Hout.
  pose proof (readData_out_of_bounds _ _ _ _ Hrec Hout) as Hrd.
  pose proof (readWith_logged_inv section baseAddress typeID (emptySet, [])
                ltac:(constructor)) as Hinv.
  pose proof (readWith_logged section baseAddress typeID (emptySet, [])) as Hsame.
  unfold recordsRead in Hin. cbn [fst] in Hsame.
  assert (Herr : snd (ResourceSet_read emptySet section baseAddress typeID)
                 = Some errDataEntryOutOfBounds).
  { unfold ResourceSet_read. rewrite <- Hsame. cbn [snd].
    destruct (readWith (logged _) _ _ _) as [[rs' log] [err|]]; cbn [fst snd] in *.
    - f_equal. by apply (Hinv le).
    - unfold log_good in Hinv. rewrite Forall_forall in Hinv.
      destruct (Hinv _ Hin) as [data Hd]. cbn in Hd. congruence. }
  split; [done|]. split; [done|]. split.
  - unfold loadFromSection.
    destruct (ResourceSet_read _ _ _ _) as [rs' err]. cbn in Herr. by subst.
  - intros. by apply readData_in_bounds.
Qed.

Lemma delete_fresh rs t r l : fresh rs -> fresh (ResourceSet_delete rs t r l).
Proof.
  intros Hf. unfold ResourceSet_delete.
  destruct (Types rs !! t) as [te|] eqn:Ht; [|done].
  destruct (Resources te !! r) as [re|] eqn:Hr; [|done].
  destruct (Hf _ _ Ht) as [Hk Hres]. cbn.
  destruct (0 <? Z.of_nat (size (delete l (Data re)))).
  - intros t' te' Hl. cbn in Hl. destruct (decide (t = t')) as [<-|Hne];
      [|rewrite lookup_insert_ne in Hl by done; eauto].
    rewrite lookup_insert_eq in Hl. injection Hl as <-. cbn. split; [done|].
    intros r' re' Hl'. destruct (decide (r = r')) as [<-|Hne];
      [|rewrite lookup_insert_ne in Hl' by done; eauto].
    rewrite lookup_insert_eq in Hl'. by injection Hl' as <-.
  - destruct (0 <? Z.of_nat (size (delete r (Resources te)))).
    + intros t' te' Hl. cbn in Hl. destruct (decide (t = t')) as [<-|Hne];
        [|rewrite lookup_insert_ne in Hl by done; eauto].
      rewrite lookup_insert_eq in Hl. injection Hl as <-. cbn. split; [done|].
      intros r' re' Hl'. apply lookup_delete_Some in Hl' as [_ Hl']. eauto.
    + intros t' te' Hl. cbn in Hl. apply lookup_delete_Some in Hl as [_ Hl]. eauto.
Qed.

Lemma Set_fresh rs t r l d :
  fresh rs -> fresh (fst (ResourceSet_Set rs t r l d)).
Proof.
  intros Hf. unfold ResourceSet_Set.
  destruct (checkIdentifier r); [done|].
  destruct (checkIdentifier t); [done|]. cbn [fst].
  destruct d; [by apply set_fresh|by apply delete_fresh].
Qed.

Lemma applySets_fresh calls : fresh (applySets calls).
Proof.
  unfold applySets, runOps. generalize fresh_empty. generalize emptySet.
  induction calls as [|[[[t r] l] d] calls IH]; intros rs Hf; cbn; [done|].
  apply IH. by apply Set_fresh.
Qed.

(** ** The size of the directory *)

Lemma sum_fmap `{Countable K} {V W} (f : V -> W) (g : W -> Z) (m : gmap K V) :
  sumZ (map (fun kv => g (snd kv)) (map_to_list (f <$> m)))
  = sumZ (map (fun kv => g (f (snd kv))) (map_to_list m)).
Proof.
  rewrite map_to_list_fmap. f_equal.
  induction (map_to_list m) as [|[k v] l IH]; cbn; [done|]. by rewrite <- IH.
Qed.

Lemma re_order_Data re : Data (ResourceEntry_order re) = Data re.
Proof. unfold ResourceEntry_order. by destruct (re_OrderedKeys re). Qed.

Lemma dirSize_ordered rs :
  ResourceSet_dirSize (ordered rs) = ResourceSet_dirSize rs.
Proof.
  unfold ResourceSet_dirSize, ordered. cbn [fst ResourceSet_order Types].
  rewrite map_size_fmap. f_equal.
  rewrite (sum_fmap TypeEntry_Order
             (fun te => TypeEntry_size te
                + sumZ (map (fun kr => ResourceEntry_size (snd kr)
                               + Z.of_nat (size (Data (snd kr))) * sizeOfDataEntry)
                            (map_to_list (Resources te))))).
  f_equal. apply map_ext. intros [t te]. cbn [snd].
  unfold TypeEntry_Order. destruct (te_OrderedKeys te); [done|].
  unfold TypeEntry_size. cbn [Resources]. rewrite map_size_fmap. f_equal.
  rewrite (sum_fmap ResourceEntry_order
             (fun re => ResourceEntry_size re
                        + Z.of_nat (size (Data re)) * sizeOfDataEntry)).
  f_equal. apply map_ext. intros [r re]. cbn [snd].
  unfold ResourceEntry_size. by rewrite re_order_Data.
Qed.

Lemma dirSize_closed_eq rs : ResourceSet_dirSize rs = dirSize_closed rs.
Proof.
  unfold ResourceSet_dirSize, dirSize_closed, sizeOfDirTable, sizeOfDirEntry.
  f_equal; [lia|]. f_equal. apply map_ext. intros [t te]. cbn [snd].
  unfold TypeEntry_size, sizeOfDirTable, sizeOfDirEntry.
  f_equal; [lia|]. f_equal. apply map_ext. intros [r re]. cbn [snd].
  unfold ResourceEntry_size, sizeOfDirTable, sizeOfDirEntry, sizeOfDataEntry. lia.
Qed.

Lemma flat_map_map' {A B C} (f : A -> B) (g : B -> list C) (l : list A) :
  flat_map g (map f l) = flat_map (fun x => g (f x)) l.
Proof. induction l as [|x l IH]; cbn; [done|]. by rewrite IH. Qed.

Lemma flat_map_flat_map {A B C} (f : A -> list B) (g : B -> list C) (l : list A) :
  flat_map g (flat_map f l) = flat_map (fun x => flat_map g (f x)) l.
Proof.
  induction l as [|x l IH]; cbn; [done|]. by rewrite flat_map_app, IH.
Qed.

Lemma payloadRegion_tree rs : payloadRegion rs = payloadB (treeOfSet rs).
Proof.
  unfold payloadRegion, ResourceSet_Walk, payloadB, treeOfSet, treeOf.
  change (ResourceSet_order rs state0)
    with (ordered rs, snd (ResourceSet_order rs state0)).
  cbn [snd orderedKeys ResourceSet_order]. fold (typeKeys rs).
  rewrite flat_map_flat_map, flat_map_map'. apply flat_map_ext. intros tk.
  cbn [snd]. unfold payloadR, resOf.
  rewrite flat_map_flat_map, flat_map_map'. apply flat_map_ext. intros rk.
  cbn [snd]. unfold payloadL, langsOf.
  rewrite flat_map_map'. rewrite flat_map_map'. done.
Qed.

(** The serialized section is the directory, of the size that [dirSize]
    computes, then the table of names, then the padded payloads in the order
    of the walk. *)
Lemma bytes_regions (calls : list setCall) :
  let rs := applySets calls in
  let s := snd (ResourceSet_prepare rs) in
  exists directory : list byte,
    ResourceSet_bytes rs
    = directory ++ writeUint16s (namesData s) ++ payloadRegion rs
    /\ len directory = ResourceSet_dirSize rs.
Proof.
  cbn zeta. set (rs := applySets calls).
  pose proof (fresh_clean _ (applySets_fresh calls)) as Hclean. fold rs in Hclean.
  pose proof (order_complete rs state0 Hclean) as Hc. fold (ordered rs) in Hc.
  set (s := snd (ResourceSet_prepare rs)). set (T := treeOfSet rs).
  exists (typeDirB (nameOffset s) T ++ resDirsB (nameOffset s) T (langDirsAt T)
          ++ langDirsB T (dataIndexAt T)
          ++ dataIndexB T (namesAt T + len (namesData s) * 2)).
  split.
  - rewrite bytes_image by done. unfold imageB. fold s T.
    rewrite payloadRegion_tree. by rewrite <- !app_assoc.
  - rewrite !len_app, len_typeDirB, len_resDirsB, len_langDirsB, len_dataIndexB.
    rewrite <- dirSize_ordered, dirSize_namesAt by done. fold T.
    unfold namesAt, dataIndexAt, langDirsAt. lia.
Qed.

(** C8, amended: for every resource set obtained from the empty set by calls
    to [Set], the serialized section is a directory region followed by the
    table of names and the payloads; the length of the directory region, that
    is the offset at which the table of names begins, is the value of
    [dirSize], and this value is, in closed form, a 16-byte header plus 8
    bytes per entry at the root, plus the same for every type entry, plus,
    for every resource entry, its 16-byte header, 8 bytes per entry and the
    16-byte data record of each of its languages. *)
Theorem directory_size (calls : list setCall) :
  let rs := applySets calls in
  let s := snd (ResourceSet_prepare rs) in
  exists directory : list byte,
    ResourceSet_bytes rs
    = directory ++ writeUint16s (namesData s) ++ payloadRegion rs
    /\ len directory = ResourceSet_dirSize rs
    /\ ResourceSet_dirSize rs = dirSize_closed rs.
Proof.
  cbn zeta. destruct (bytes_regions calls) as (directory & Hb & Hl).
  exists directory. split; [done|]. split; [done|]. apply dirSize_closed_eq.
Qed.

(** C8 as stated fails: the name table of this set begins at offset 88,
    the stated closed form gives 72. *)
Lemma directory_size_claimed_fails :
  let rs := applySets oneNamed in
  let s := snd (ResourceSet_prepare rs) in
  dirSize_claimed rs = 72
  /\ ~ exists directory : list byte,
         ResourceSet_bytes rs
         = directory ++ writeUint16s (namesData s) ++ payloadRegion rs
         /\ len directory = dirSize_claimed rs.
Proof.
  cbn zeta. split; [by vm_compute|].
  intros (directory & Heq & Hlen).
  apply (f_equal len) in Heq. rewrite !len_app, Hlen in Heq.
  vm_compute in Heq. discriminate.
Qed.

(** ** Stale caches *)

(** C2 fails on the code: the two sequences of operations build sets with
    the same contents, the first one walking the set between the two calls to
    [Set]; the serialized bytes differ, and so do the relocation lists.  The
    second [Set] clears the cached keys of the resource only, and
    [TypeEntry.Order] returns early on the cached keys of the type, without
    ordering the languages of the resource again. *)
Theorem determinism_fails :
  contents (runOps staleOps) = contents (runOps freshOps)
  /\ ResourceSet_bytes (runOps staleOps) <> ResourceSet_bytes (runOps freshOps)
  /\ snd (ResourceSet_write (runOps staleOps))
     <> snd (ResourceSet_write (runOps freshOps)).
Proof.
  split; [by vm_compute|]. split.
  - intros H. apply (f_equal len) in H. vm_compute in H. discriminate.
  - intros H. vm_compute in H. discriminate.
Qed.

(** C4 fails on the code, through the same stale cache: the set holds two
    data entries and the relocation list is empty; built without the walk,
    the same contents give the addresses of the two data records. *)
Theorem relocations_missing :
  ResourceSet_numDataEntries (runOps staleOps) = 2
  /\ snd (ResourceSet_write (runOps staleOps)) = []
  /\ snd (ResourceSet_write (runOps freshOps)) = [80; 96].
Proof. by vm_compute. Qed.

(** C7: a call to [Set] whose type or resource identifier is the ordinal 0
    or the empty name returns an error, and the set it returns is the set it
    was given: types, resources, payloads, ordering caches and the icon and
    cursor counters are unchanged. *)
Theorem Set_invalid_rejected (rs : ResourceSet) (typeID resID : Identifier)
    (langID : Z) (data : option (list byte)) :
  invalid typeID \/ invalid resID ->
  exists e, ResourceSet_Set rs typeID resID langID data = (rs, Some e).
Proof.
  intros H. apply Set_invalid.
  destruct H as [[->| ->]|[->| ->]]; by (left + right).
Qed.

(** [Set] with the type ordinal 0, on a set of two resources. *)
Lemma Set_invalid_rejected_witness :
  (invalid (ID 0) \/ invalid (ID 7))
  /\ exists e, ResourceSet_Set sampleSet (ID 0) (ID 7) 0 (Some [Byte.x01])
               = (sampleSet, Some e).
Proof.
  split; [left; by left|].
  apply (Set_invalid_rejected sampleSet (ID 0) (ID 7) 0 (Some [Byte.x01])).
  left. by left.
Defined.

(** Deleting the one language of the one resource of type 24. *)
Lemma no_empty_nodes_witness :
  Types (fst (ResourceSet_Set lastOne (ID 24) (ID 1) 1033 None)) !! ID 24 = None
  /\ pruned (fst (ResourceSet_Set emptySet (ID 3) (ID 1) 0 (Some [Byte.xff]))).
Proof.
  destruct no_empty_nodes as (H0 & Hpres & Hlast). split.
  - apply (Hlast lastOne (ID 24) (ID 1) 1033 (typeOf lastOne (ID 24))
             (resourceOf (typeOf lastOne (ID 24)) (ID 1))
             (dataOf (resourceOf (typeOf lastOne (ID 24)) (ID 1)) 1033));
      by vm_compute.
  - apply Hpres. exact H0.
Defined.

(** C10: after any sequence of calls to [Set], interleaved with walks and
    writes, every cached slice of ordered keys that is not nil lists exactly
    the keys of its map, sorted by the order of the identifiers, and the
    cached count of names is the number of leading names of the slice;
    replacing the payload of an existing resource leaves every cache as it
    was; and when a call changes the set of keys of a level, the cache of
    that level is nil afterwards. *)
Theorem caches_valid :
  (forall ops, caches_ok (runOps ops))
  /\ (forall rs t r l old d,
        ResourceSet_Get rs t r l = Some old ->
        caches (ResourceSet_set rs t r l (Some d)) = caches rs)
  /\ (forall rs t r l d t' te te',
        Types rs !! t' = Some te ->
        Types (ResourceSet_set rs t r l d) !! t' = Some te' ->
        (dom (Resources te') <> dom (Resources te) -> te_OrderedKeys te' = None)
        /\ forall r' re re', Resources te !! r' = Some re ->
             Resources te' !! r' = Some re' ->
             dom (Data re') <> dom (Data re) -> re_OrderedKeys re' = None).
Proof.
  split; [apply runOps_caches_ok|]. split.
  - intros. by eapply replace_keeps_caches.
  - intros. by eapply set_clears.
Qed.

(** Replacing a payload of a walked set, and adding a language to it. *)
Lemma caches_valid_witness :
  caches (ResourceSet_set sampleSet (ID 3) (ID 1) 0 (Some [Byte.x00]))
  = caches sampleSet
  /\ re_OrderedKeys
       (resourceOf (typeOf (ResourceSet_set sampleSet (ID 3) (ID 1) 7
                                            (Some [Byte.x00])) (ID 3)) (ID 1))
     = None.
Proof.
  destruct caches_valid as (_ & Hrep & Hclr). split.
  - apply (Hrep sampleSet (ID 3) (ID 1) 0 [Byte.xff] [Byte.x00]). by vm_compute.
  - refine (proj2 (Hclr sampleSet (ID 3) (ID 1) 7 (Some [Byte.x00]) (ID 3)
                     (typeOf sampleSet (ID 3)) _ _ _)
                  (ID 1) (resourceOf (typeOf sampleSet (ID 3)) (ID 1)) _ _ _ _);
      [by vm_compute|by vm_compute|by vm_compute|by vm_compute|].
    intros H. apply (f_equal (fun s : gset Z => bool_decide (7 ∈ s))) in H.
    vm_compute in H. discriminate.
Defined.

(** The round trip of a set of three resources, two of them named. *)
Lemma roundtrip_witness :
  exists S',
    loadFromSection (ResourceSet_bytes (buildSet sampleEntries)) 0 (ID 0) = Ok S'
    /\ forall t r l p,
         ResourceSet_Get S' t r l = Some p <-> (t, r, l, p) ∈ sampleEntries.
Proof.
  apply (roundtrip sampleEntries).
  - apply (bool_decide_unpack _). by vm_compute.
  - repeat constructor; by vm_compute.
  - split; [split|]; [by vm_compute| |by vm_compute].
    apply (bool_decide_unpack _). by vm_compute.
Defined.

(** The section of the three resources cut before the end of its last
    payload: the data record at offset 192 claims 3 bytes at offset 248. *)
Lemma out_of_bounds_rejected_witness :
  loadFromSection truncatedSection 0 (ID 0) = Err errDataEntryOutOfBounds.
Proof.
  refine (proj1 (proj2 (proj2 (out_of_bounds_rejected truncatedSection 0 (ID 0)
            (mkDirEntry (ID 0) 192 false) (248, 3) _ _ _)))).
  - vm_compute. right. right. left.
  - by vm_compute.
  - right. by vm_compute.
Defined.

(** ** Names longer than the length field *)

Lemma length_string_of_list_ascii l :
  String.length (string_of_list_ascii l) = length l.
Proof. induction l as [|c l IH]; cbn; [done|]. by rewrite IH. Qed.

Lemma encodeRune_length r : (length (encodeRune r) <= 4)%nat.
Proof. unfold encodeRune. repeat case_match; cbn; lia. Qed.

Lemma flat_map_encodeRune_length rs :
  (length (flat_map encodeRune rs) <= 4 * length rs)%nat.
Proof.
  induction rs as [|r rs IH]; cbn [flat_map length]; [lia|].
  rewrite length_app. pose proof (encodeRune_length r). lia.
Qed.

Lemma utf16_Decode_length n : forall us,
  (length us <= n)%nat -> (length (utf16_Decode us) <= length us)%nat.
Proof.
  induction n as [|n IH]; intros [|u us] Hn; cbn [length] in *;
    try lia; try (cbn; lia).
  - cbn [utf16_Decode].
    destruct ((u <? 55296) || (57344 <=? u)).
    + cbn [length]. specialize (IH us). lia.
    + destruct us as [|u2 us].
      * cbn. lia.
      * destruct ((55296 <=? u) && (u <? 56320) && (56320 <=? u2) && (u2 <? 57344)).
        -- cbn [length] in *. specialize (IH us). lia.
        -- specialize (IH (u2 :: us)). cbn [length] in *. lia.
Qed.

Lemma unitsName_length us :
  (String.length (unitsName us) <= 4 * length us)%nat.
Proof.
  unfold unitsName, string_of_runes.
  rewrite length_string_of_list_ascii, length_map.
  pose proof (flat_map_encodeRune_length (utf16_Decode us)).
  pose proof (utf16_Decode_length (length us) us). lia.
Qed.

Lemma readUint16s_length k : forall b, length (readUint16s k b) = k.
Proof. induction k as [|k IH]; intros b; cbn; [done|]. by rewrite IH. Qed.

Lemma readName_short section o n :
  readName section o = Ok n -> shortIdent (Name n).
Proof.
  unfold readName, binaryRead.
  destruct ((2 =? 0) || (o + 2 <=? len section)); [|done].
  set (k := le_combine (slice section o 2)).
  destruct ((k * 2 =? 0) || (o + 2 + k * 2 <=? len section)); [|done].
  intros [= <-]. cbn [shortIdent].
  pose proof (unitsName_length
    (readUint16s (Z.to_nat k) (slice section (o + 2) (k * 2)))) as H.
  rewrite readUint16s_length in H.
  pose proof (le_combine_bound (slice section o 2)) as Hb. fold k in Hb.
  assert (length (slice section o 2) <= 2)%nat as Hl.
  { unfold slice. rewrite length_take. lia. }
  assert (2 ^ (8 * Z.of_nat (length (slice section o 2))) <= 2 ^ 16).
  { apply Z.pow_le_mono_r; lia. }
  lia.
Qed.

Lemma readEntries_short de section dir : forall es,
  readEntries de section dir = Ok es ->
  Forall (fun e => shortIdent (ident e)) es.
Proof.
  induction dir as [|[e_ID e_Offset] dir IH]; intros es; cbn [readEntries].
  - intros [= <-]. constructor.
  - destruct (negb _); [done|]. destruct (leaf de && _); [done|].
    destruct (Z.land e_ID nameOffsetFlag =? 0).
    + destruct (readEntries de section dir) as [rest|]; [|done].
      intros [= <-]. constructor; [done|]. by apply IH.
    + destruct (readName section _) as [n|] eqn:En; [|done].
      destruct (readEntries de section dir) as [rest|]; [|done].
      intros [= <-]. constructor; [|by apply IH].
      cbn [ident]. by eapply readName_short.
Qed.

Lemma readDirTable_short de section es :
  readDirTable de section = Ok es ->
  Forall (fun e => shortIdent (ident e)) es.
Proof.
  unfold readDirTable.
  destruct (binaryRead section (de_offset de) sizeOfDirTable); [|done].
  destruct (binaryRead section _ _); [|done].
  apply readEntries_short.
Qed.

Section ShortWalk.
Context {S : Type} (good : S -> Prop).

Lemma forEntries_short (fn : dirEntry -> S -> S * option error) entries :
  forall st,
  Forall (fun e => shortIdent (ident e)) entries ->
  good st ->
  (forall e st, shortIdent (ident e) -> good st -> good (fst (fn e st))) ->
  good (fst (forEntries fn entries st)).
Proof.
  induction entries as [|e es IH]; intros st Hall Hst Hfn; cbn [forEntries].
  - done.
  - inversion Hall as [|? ? He Hes]; subst.
    pose proof (Hfn e st He Hst) as Hstep.
    destruct (fn e st) as [st' [err|]]; cbn [fst] in *; [done|].
    by apply IH.
Qed.

Lemma walk_short de section (fn : dirEntry -> S -> S * option error) st :
  good st ->
  (forall e st, shortIdent (ident e) -> good st -> good (fst (fn e st))) ->
  good (fst (walk de section fn st)).
Proof.
  intros Hst Hfn. unfold walk.
  destruct (readDirTable de section) as [es|] eqn:E; [|done].
  apply forEntries_short; [|done..]. by eapply readDirTable_short.
Qed.

End ShortWalk.

Lemma Set_shortTypes rs t r l d :
  shortTypes rs -> shortIdent t ->
  shortTypes (fst (ResourceSet_Set rs t r l (Some d))).
Proof.
  intros Hrs Ht. unfold ResourceSet_Set.
  destruct (checkIdentifier r); [done|].
  destruct (checkIdentifier t); [done|]. cbn [fst].
  destruct (set_shape rs t r l d) as (tk & rk & ic & cc & -> & _).
  intros k te. cbn [Types].
  destruct (decide (k = t)) as [->|Hne]; [done|].
  rewrite lookup_insert_ne by done. apply Hrs.
Qed.

Lemma read_shortTypes rs section baseAddress typeID :
  shortTypes rs ->
  shortTypes (fst (ResourceSet_read rs section baseAddress typeID)).
Proof.
  intros Hrs. unfold ResourceSet_read, readWith.
  apply walk_short; [done|]. intros te st Hte Hst.
  destruct (skipType typeID (ident te)); [done|].
  apply walk_short; [done|]. intros re st1 _ Hst1.
  apply walk_short; [done|]. intros le st2 _ Hst2.
  unfold readLang. destruct (readData le section baseAddress); [|done].
  by apply Set_shortTypes.
Qed.

Lemma load_shortTypes section baseAddress typeID rs :
  loadFromSection section baseAddress typeID = Ok rs -> shortTypes rs.
Proof.
  unfold loadFromSection.
  pose proof (read_shortTypes emptySet section baseAddress typeID) as H.
  destruct (ResourceSet_read emptySet section baseAddress typeID) as [rs' [e|]];
    [done|].
  intros [= <-]. apply H. intros k te. cbn. by rewrite lookup_empty.
Qed.

Lemma longName_length : Z.of_nat (String.length longName) = 262144.
Proof.
  unfold longName. rewrite length_string_of_list_ascii, repeat_length. lia.
Qed.

Lemma longName_valid : checkIdentifier (Name longName) = None.
Proof.
  cbn [checkIdentifier].
  destruct (String.eqb_spec longName EmptyString) as [E|]; [|done].
  pose proof longName_length as H. rewrite E in H. done.
Qed.

(** C1 fails on the code: the set built from one resource whose type name
    has 262144 letters is serialized with the length field of the name
    wrapped around to 0; whatever the decoder returns for these bytes, it is
    never a set that holds the resource. *)
Lemma roundtrip_fails_long_name :
  NoDup (map entryKey longEntries)
  /\ Forall (fun e => checkIdentifier (fst (fst (fst e))) = None
                      /\ checkIdentifier (snd (fst (fst e))) = None
                      /\ snd e <> []) longEntries
  /\ ~ exists S',
       loadFromSection (ResourceSet_bytes (buildSet longEntries)) 0 (ID 0) = Ok S'
       /\ forall t r l p,
            ResourceSet_Get S' t r l = Some p <-> (t, r, l, p) ∈ longEntries.
Proof.
  split; [|split].
  - unfold longEntries. cbn [map entryKey fst]. apply NoDup_singleton.
  - unfold longEntries. constructor; [|constructor].
    cbn [fst snd]. split; [apply longName_valid|]. by split.
  - intros (S' & Hload & Hget).
    apply load_shortTypes in Hload.
    destruct (Hget (Name longName) (ID 1) 0 [Byte.x01]) as [_ Hin].
    unfold longEntries in Hin. specialize (Hin ltac:(by left)).
    unfold ResourceSet_Get in Hin.
    destruct (Types S' !! Name longName) as [te|] eqn:E; [|done].
    apply Hload in E. cbn [shortIdent] in E.
    rewrite longName_length in E. lia.
Qed.

(** ** Names made of ASCII letters *)

Lemma byteZ_nonneg c : 0 <= byteZ c.
Proof. unfold byteZ. lia. Qed.

Lemma asciiZ_byteZ c : asciiZ (byteZ c) = c.
Proof. unfold asciiZ, byteZ. rewrite N2Z.id. apply ascii_N_embedding. Qed.

Lemma runes_ascii n :
  isAscii n -> runes_of_string n = map byteZ (list_ascii_of_string n).
Proof.
  unfold isAscii. induction n as [|c n IH]; intros H; [done|].
  cbn [list_ascii_of_string] in H. inversion H as [|? ? Hc Hn]; subst.
  cbn [runes_of_string list_ascii_of_string map].
  destruct (Z.ltb_spec (byteZ c) 128); [|lia]. by rewrite IH.
Qed.

Lemma utf16_Encode_ascii l :
  Forall (fun c => byteZ c < 0x80) l ->
  utf16_Encode (map byteZ l) = map byteZ l.
Proof.
  induction l as [|c l IH]; intros H; [done|].
  inversion H as [|? ? Hc Hl]; subst.
  unfold utf16_Encode in *. cbn [map flat_map]. rewrite IH by done.
  unfold utf16_EncodeRune. pose proof (byteZ_nonneg c).
  destruct (Z.leb_spec 0 (byteZ c)); [|lia].
  destruct (Z.ltb_spec (byteZ c) 55296); [|lia]. done.
Qed.

Lemma utf16_Decode_ascii l :
  Forall (fun c => byteZ c < 0x80) l ->
  utf16_Decode (map byteZ l) = map byteZ l.
Proof.
  induction l as [|c l IH]; intros H; [done|].
  inversion H as [|? ? Hc Hl]; subst.
  cbn [map utf16_Decode].
  destruct (Z.ltb_spec (byteZ c) 55296); [|lia].
  cbn [orb]. by rewrite IH.
Qed.

Lemma encodeRune_ascii l :
  Forall (fun c => byteZ c < 0x80) l ->
  flat_map encodeRune (map byteZ l) = map byteZ l.
Proof.
  induction l as [|c l IH]; intros H; [done|].
  inversion H as [|? ? Hc Hl]; subst.
  cbn [map flat_map]. rewrite IH by done.
  unfold encodeRune. pose proof (byteZ_nonneg c).
  destruct (Z.leb_spec 0 (byteZ c)); [|lia].
  destruct (Z.ltb_spec (byteZ c) 128); [|lia]. done.
Qed.

(** A name of fewer than 65536 ASCII letters is written and read back
    unchanged. *)
Lemma ascii_name_fits n :
  isAscii n -> Z.of_nat (String.length n) < 2 ^ 16 -> name_fits n.
Proof.
  intros Ha Hl. unfold name_fits, nameUnits, unitsName, string_of_runes.
  rewrite runes_ascii, utf16_Encode_ascii by done. split.
  - rewrite utf16_Decode_ascii, encodeRune_ascii by done.
    rewrite map_map. rewrite (map_ext _ id) by apply asciiZ_byteZ.
    rewrite map_id. apply string_of_list_ascii_of_string.
  - unfold len. rewrite length_map.
    rewrite <- (string_of_list_ascii_of_string n) in Hl.
    by rewrite length_string_of_list_ascii in Hl.
Qed.

(** ** Alignment of the payloads *)

Lemma payloadRegion_padding rs :
  payloadRegion rs
  = flat_map (fun e => snd e ++ padding (snd e)) (snd (ResourceSet_Walk rs)).
Proof.
  unfold payloadRegion. apply flat_map_ext. intros e.
  destruct (writeData_padded (mkDataEntry (snd e))) as [-> _]. done.
Qed.

(** C9: for every payload, the padded size is a multiple of 8, is not less
    than the length of the payload and exceeds it by less than 8, and
    [writeData] writes the payload followed by exactly that many zero bytes;
    the section serialized for a set built by calls to [Set] ends with the
    payloads in the order of the walk, each followed by its padding. *)
Theorem padded_size_aligned :
  (forall de : DataEntry,
     let padded := paddedDataSize de in
     let n := len (de_Data de) in
     padded mod 8 = 0 /\ padded >= n /\ padded - n < 8
     /\ DataEntry_writeData de
        = de_Data de ++ repeat Byte.x00 (Z.to_nat (padded - n))
     /\ len (DataEntry_writeData de) = padded)
  /\ forall calls : list setCall,
       let rs := applySets calls in
       exists front : list byte,
         ResourceSet_bytes rs
         = front ++ flat_map (fun e => snd e ++ padding (snd e))
                             (snd (ResourceSet_Walk rs)).
Proof.
  split.
  - intros de. cbn zeta. unfold paddedDataSize.
    destruct (alignData_bounds (len (de_Data de))) as [Hm Hb].
    destruct (writeData_padded de) as [Hw Hl].
    repeat split; try lia; done.
  - intros calls. cbn zeta.
    destruct (bytes_regions calls) as (directory & Hb & _).
    exists (directory
            ++ writeUint16s (namesData (snd (ResourceSet_prepare (applySets calls))))).
    rewrite Hb, <- app_assoc. by rewrite payloadRegion_padding.
Qed.

(** ** The order of the entries in the serialized directories *)

Lemma readUint16_has_at (buf bs : list byte) o i :
  has_at buf o bs -> 0 <= i -> i + 2 <= len bs ->
  readUint16 buf (o + i) = readUint16 bs i.
Proof.
  intros (pre & post & -> & Hpre) Hi Hlen. unfold readUint16, slice, len in *.
  f_equal. rewrite Z2Nat.inj_add by lia. rewrite <- Hpre, Nat2Z.id.
  rewrite skipn_app, skipn_all2 by lia. cbn [app].
  replace (length pre + Z.to_nat i - length pre)%nat with (Z.to_nat i) by lia.
  rewrite skipn_app, firstn_app.
  rewrite length_skipn.
  replace (Z.to_nat 2 - (length bs - Z.to_nat i))%nat with 0%nat by lia.
  by rewrite firstn_O, app_nil_r.
Qed.

Lemma header_counts (buf : list byte) o a b :
  has_at buf o (writeDirectoryTable a b) ->
  0 <= a < 2 ^ 16 -> 0 <= b < 2 ^ 16 ->
  readUint16 buf (o + 12) = a /\ readUint16 buf (o + 14) = b.
Proof.
  intros Hat Ha Hb.
  rewrite !(readUint16_has_at buf _ o _ Hat)
    by (rewrite ?len_writeDirectoryTable; lia).
  destruct (readTable_counts a b) as [-> ->].
  by rewrite !uint16_small.
Qed.

Lemma ident_thread {X} (key : X -> Identifier) (sz : X -> Z) (items : list X) o :
  map ident (thread (fun x o => [mkDirEntry (key x) o false]) sz items o)
  = map key items.
Proof.
  revert o. induction items as [|x items IH]; intros o; [done|].
  cbn [thread map app ident]. by rewrite IH.
Qed.

Lemma leadingNames_langKeys ls : leadingNames (langKeys ls) = 0%nat.
Proof. by destruct ls. Qed.

Section ReadTables.
Context (buf : list byte) (no : gmap string Z).
Hypothesis buf_small : len buf < 2 ^ 31.

Lemma tableAt_subdir {X} (de : dirEntry) (sz : X -> Z)
    (items : list (Identifier * X)) (o : Z) :
  leaf de = false ->
  has_at buf (de_offset de) (tableB no sz items o) ->
  len items < 2 ^ 16 ->
  Forall (fun kx => key_ok buf no (fst kx) /\ 0 < sz (snd kx)) items ->
  0 <= o -> o + total (fun kx => sz (snd kx)) items <= 2 ^ 31 ->
  tableAt buf de (map fst items)
    (thread (fun kx o => [mkDirEntry (fst kx) o false])
            (fun kx => sz (snd kx)) items o).
Proof.
  intros Hleaf Hat Hlen Hall Ho Hend. split; [|split].
  - by apply (readDirTable_subdir buf no).
  - apply ident_thread.
  - unfold tableB in Hat. apply has_at_app in Hat as [Hhdr _].
    pose proof (leadingNames_le (map fst items)) as Hln.
    rewrite length_map in Hln. pose proof (len_nonneg items).
    rewrite len_map. unfold len in *.
    apply (header_counts buf _ _ _ Hhdr); lia.
Qed.

Lemma tableAt_leaf (de : dirEntry) (ls : langList) (o : Z) :
  leaf de = true ->
  has_at buf (de_offset de) (langTableB ls o) ->
  len ls < 2 ^ 16 ->
  Forall (fun lp => 0 <= fst lp < 2 ^ 16) ls ->
  0 <= o -> o + len ls * sizeOfDataEntry <= 2 ^ 31 ->
  tableAt buf de (langKeys ls)
    (thread (fun lp o => [mkDirEntry (ID (fst lp)) o false])
            (fun _ => sizeOfDataEntry) ls o).
Proof.
  intros Hleaf Hat Hlen Hall Ho Hend. split; [|split].
  - by apply (readDirTable_leaf buf).
  - apply (ident_thread (fun lp : Z * list byte => ID (fst lp))).
  - unfold langTableB in Hat. apply has_at_app in Hat as [Hhdr _].
    rewrite leadingNames_langKeys. unfold langKeys. rewrite len_map.
    pose proof (len_nonneg ls).
    change (Z.of_nat 0) with 0. rewrite Z.sub_0_r.
    apply (header_counts buf _ _ _ Hhdr); lia.
Qed.

Lemma resLevel (R R0 : resList) (o_lt o_di o_p : Z) :
  Forall res_ok R -> (forall rl, rl ∈ R -> rl ∈ R0) ->
  has_at buf o_lt (langDirsR R o_di) -> has_at buf o_di (dataIndexR R o_p) ->
  Forall (langsRead buf R0)
    (thread (fun rl o => [mkDirEntry (fst rl) o false])
            (fun rl => langTableSize (snd rl)) R o_lt).
Proof.
  intros Hall. revert o_lt o_di o_p.
  induction Hall as [|[r ls] R [Hr [Hlen Hls]] Hall IH];
    intros o_lt o_di o_p Hsub Hlt Hdi; [constructor|].
  cbn [thread app fst snd] in *.
  unfold langDirsR in Hlt. cbn [thread snd] in Hlt. fold (langDirsR R) in Hlt.
  apply has_at_app in Hlt as [Htab Hlt]. rewrite len_langTableB in Hlt.
  unfold dataIndexR in Hdi. cbn [thread snd] in Hdi. fold (dataIndexR R) in Hdi.
  apply has_at_app in Hdi as [Hdi1 Hdi]. rewrite len_dataIndexL in Hdi.
  destruct (has_at_bounds _ _ _ Hdi1) as [Hb0 Hb1]. rewrite len_dataIndexL in Hb1.
  constructor.
  - exists ls, (thread (fun lp o => [mkDirEntry (ID (fst lp)) o false])
                       (fun _ => sizeOfDataEntry) ls o_di).
    split; [apply Hsub; by left|].
    apply tableAt_leaf; done || lia.
  - apply (IH _ (o_di + len ls * sizeOfDataEntry) (o_p + payloadSizeL ls));
      [|done..].
    intros rl Hrl. apply Hsub. by right.
Qed.

Lemma typeLevel (T T0 : tree) (o_rt o_lt o_di o_p : Z) :
  Forall (type_ok buf no) T -> (forall tR, tR ∈ T -> tR ∈ T0) ->
  has_at buf o_rt (resDirsB no T o_lt) -> has_at buf o_lt (langDirsB T o_di) ->
  has_at buf o_di (dataIndexB T o_p) ->
  Forall (resourcesRead buf T0)
    (thread (fun tR o => [mkDirEntry (fst tR) o false])
            (fun tR => resTableSize (snd tR)) T o_rt).
Proof.
  intros Hall. revert o_rt o_lt o_di o_p.
  induction Hall as [|[t R] T (Hk & Hc & Hlen & HR) Hall IH];
    intros o_rt o_lt o_di o_p Hsub Hrt Hlt Hdi; [constructor|].
  cbn [thread app fst snd] in *.
  unfold resDirsB in Hrt. cbn [thread snd] in Hrt. fold (resDirsB no T) in Hrt.
  apply has_at_app in Hrt as [Htab Hrt]. rewrite len_tableB in Hrt.
  unfold langDirsB in Hlt. cbn [thread snd] in Hlt. fold (langDirsB T) in Hlt.
  apply has_at_app in Hlt as [Hlt1 Hlt]. rewrite len_langDirsR in Hlt.
  unfold dataIndexB in Hdi. cbn [thread snd] in Hdi. fold (dataIndexB T) in Hdi.
  apply has_at_app in Hdi as [Hdi1 Hdi]. rewrite len_dataIndexR in Hdi.
  destruct (has_at_bounds _ _ _ Hlt1) as [Hb0 Hb1]. rewrite len_langDirsR in Hb1.
  constructor.
  - exists R, (thread (fun rl o => [mkDirEntry (fst rl) o false])
                      (fun rl => langTableSize (snd rl)) R o_lt).
    split; [apply Hsub; by left|]. split.
    + apply tableAt_subdir; [done|done|done| |done|lia].
      eapply Forall_impl; [exact HR|]. intros rl [Hrk _]. split; [done|].
      apply langTableSize_pos.
    + apply (resLevel R R o_lt o_di o_p); [|done|done|done].
      eapply Forall_impl; [exact HR|]. by intros rl [_ Hro].
  - apply (IH _ (o_lt + total (fun rl => langTableSize (snd rl)) R)
              (o_di + dataIndexSizeR R) (o_p + payloadSizeR R)); [|done..].
    intros tR HtR. apply Hsub. by right.
Qed.

(** The three levels of directories of a section that has the layout
    [imageB]. *)
Lemma tables_image (nd : list Z) (T : tree) :
  buf = imageB no nd T -> tree_ok buf no T ->
  let types := thread (fun tR o => [mkDirEntry (fst tR) o false])
                      (fun tR => resTableSize (snd tR)) T (resDirsAt T) in
  tableAt buf rootEntry (map fst T) types
  /\ Forall (resourcesRead buf T) types.
Proof.
  intros Hbuf [HlenT Hall]. cbn zeta.
  assert (Hparts :
    has_at buf 0 (typeDirB no T)
    /\ has_at buf (resDirsAt T) (resDirsB no T (langDirsAt T))
    /\ has_at buf (langDirsAt T) (langDirsB T (dataIndexAt T))
    /\ has_at buf (dataIndexAt T) (dataIndexB T (namesAt T + len nd * 2))).
  { destruct (has_at_parts _ _ _ _ _ _ _ Hbuf) as (P1 & P2 & P3 & P4 & _ & _).
    rewrite len_typeDirB in *.
    rewrite len_resDirsB, ?len_langDirsB in *.
    split; [done|]. split; [done|].
    split; [unfold langDirsAt; done|].
    unfold dataIndexAt, langDirsAt; done. }
  destruct Hparts as (H0 & H1 & H2 & H3).
  destruct (has_at_bounds _ _ _ H1) as [Hb0 Hb1]. rewrite len_resDirsB in Hb1.
  split.
  - apply tableAt_subdir; [done|done|done| |done|lia].
    eapply Forall_impl; [exact Hall|]. intros tR (Hk & _). split; [done|].
    apply resTableSize_pos.
  - by apply (typeLevel T T (resDirsAt T) (langDirsAt T) (dataIndexAt T)
                (namesAt T + len nd * 2)).
Qed.
End ReadTables.

Lemma directoryAt_table out de keys entries (present : Identifier -> Prop) :
  tableAt out de keys entries ->
  StronglySorted (fun a b => lessThan a b = true) keys ->
  (forall k, k ∈ keys <-> present k) ->
  directoryAt out de present entries.
Proof.
  intros (Hread & <- & Hn & Hi) Hs Hin. unfold directoryAt. cbn zeta.
  split; [done|]. split; [by apply (sorted_NoDup lessThan lessThan_irrefl)|].
  split; [done|]. split; [by apply sorted_orderLaw|]. done.
Qed.

Lemma sorted_langKeys (lkeys : list Z) :
  StronglySorted (fun a b => Z.ltb a b = true) lkeys ->
  StronglySorted (fun a b => lessThan a b = true) (map ID lkeys).
Proof.
  induction 1 as [|k l Hs IH Hall]; cbn [map]; constructor; [done|].
  rewrite Forall_forall in Hall. apply Forall_forall. intros x Hx.
  apply list_elem_of_In, in_map_iff in Hx as (y & <- & Hy).
  apply list_elem_of_In in Hy. cbn [lessThan]. by apply Hall.
Qed.

Lemma Order_lookup te r :
  Resources (TypeEntry_Order te) !! r = None /\ Resources te !! r = None
  \/ exists re re', Resources te !! r = Some re
       /\ Resources (TypeEntry_Order te) !! r = Some re' /\ Data re' = Data re.
Proof.
  unfold TypeEntry_Order. destruct (te_OrderedKeys te).
  - destruct (Resources te !! r) as [re|] eqn:E; [right|by left].
    by exists re, re.
  - cbn [Resources]. rewrite lookup_fmap.
    destruct (Resources te !! r) as [re|] eqn:E; [right|by left].
    exists re, (ResourceEntry_order re). cbn. split; [done|]. split; [done|].
    apply re_order_Data.
Qed.

(** The directories of the section serialized for a set whose caches are
    clean. *)
Lemma directories_clean rs :
  clean rs -> keys_wf rs -> fits rs ->
  let out := ResourceSet_bytes rs in
  exists types,
    directoryAt out rootEntry (fun t => is_Some (Types rs !! t)) types
    /\ forall tent te,
         tent ∈ types -> Types rs !! ident tent = Some te ->
         exists resources,
           directoryAt out tent (fun r => is_Some (Resources te !! r)) resources
           /\ forall rent re,
                rent ∈ resources -> Resources te !! ident rent = Some re ->
                exists langs,
                  directoryAt out (setLeaf rent) (langPresent re) langs.
Proof.
  intros Hclean Hwf Hfits. cbn zeta.
  pose proof (order_complete rs state0 Hclean) as Hc. fold (ordered rs) in Hc.
  pose proof (tree_ok_of_set rs Hclean Hwf Hfits) as Hok.
  pose proof (bytes_image rs Hclean) as Himg.
  destruct (tables_image (ResourceSet_bytes rs) _ (proj2 Hfits) _ _ Himg Hok)
    as [Hroot Hlevels].
  set (out := ResourceSet_bytes rs) in *.
  set (types := thread _ _ _ _) in *.
  exists types. split.
  { eapply directoryAt_table; [exact Hroot| |].
    - unfold treeOfSet. rewrite treeOf_fst. apply typeKeys_sorted.
    - unfold treeOfSet. rewrite treeOf_fst. apply typeKeys_sorted. }
  intros tent te Htent Hte.
  rewrite Forall_forall in Hlevels.
  destruct (Hlevels _ Htent) as (R & ress & HR & Htab & Hlangs).
  unfold treeOfSet, treeOf in HR.
  apply list_elem_of_In, in_map_iff in HR as (tk & [= Htk <-] & _).
  subst tk.
  assert (Hte' : Types (ordered rs) !! ident tent = Some (TypeEntry_Order te)).
  { unfold ordered. cbn. by rewrite lookup_fmap, Hte. }
  unfold typeOf in *. rewrite Hte' in *. cbn [from_option id] in *.
  pose proof (Hc _ _ Hte') as Htec.
  pose proof Htec as [(rkeys & Hk & [Hrin Hrs] & Hn) Hrec].
  assert (HfstR : map fst (resOf (TypeEntry_Order te)) = rkeys).
  { unfold resOf. rewrite Hk. cbn [cached from_option id]. apply map_fst_pair. }
  rewrite HfstR in Htab.
  exists ress. split.
  { eapply directoryAt_table; [exact Htab|done|].
    intros r. rewrite Hrin.
    destruct (Order_lookup te r) as [[-> ->]|(re & re' & -> & -> & _)]; [done|].
    split; eauto. }
  intros rent re Hrent Hre.
  rewrite Forall_forall in Hlangs.
  destruct (Hlangs _ Hrent) as (ls & langs & Hls & Hltab).
  unfold resOf in Hls. rewrite Hk in Hls. cbn [cached from_option id] in Hls.
  apply list_elem_of_In, in_map_iff in Hls as (rk & [= Hrk <-] & Hrkin).
  subst rk. apply list_elem_of_In in Hrkin.
  destruct (complete_resource _ rkeys _ Htec Hk Hrkin) as [Hre' Hrecomp].
  destruct (Order_lookup te (ident rent))
    as [[_ E]|(re0 & re' & E0 & E' & HData)]; [by rewrite E in Hre|].
  rewrite Hre in E0. injection E0 as <-.
  rewrite E' in Hre'. injection Hre' as Hre'.
  rewrite <- Hre' in *.
  destruct Hrecomp as (lkeys & Hlk & [Hlin Hlsorted]).
  assert (Hlks : langKeys (langsOf re') = map ID lkeys).
  { unfold langKeys, langsOf. rewrite Hlk. cbn [cached from_option id].
    rewrite map_map. done. }
  rewrite Hlks in Hltab.
  exists langs.
  eapply directoryAt_table; [exact Hltab|by apply sorted_langKeys|].
  intros [l|n]; cbn [langPresent].
  - rewrite <- HData, <- Hlin. split.
    + intros Hl. apply list_elem_of_In, in_map_iff in Hl as (y & [= ->] & Hy).
      by apply list_elem_of_In.
    + intros Hl. apply list_elem_of_In, in_map_iff. exists l.
      split; [done|]. by apply list_elem_of_In.
  - split; [|done]. intros Hl.
    apply list_elem_of_In, in_map_iff in Hl as (y & Hy & _). done.
Qed.

(** C3, amended: let a resource set be built by calls to [Set], with valid
    identifiers (a non-zero 16-bit ordinal, or a non-empty name that the
    conversion to UTF-16 and back leaves unchanged and that has fewer than
    65536 code units), 16-bit languages, fewer than 65536 entries in every
    directory and a serialized section shorter than 2^31 bytes.  In the
    serialized section the directory of every level, read from the bytes at
    its offset, holds exactly one entry for each identifier present at the
    level (the types of the set, the resources of a type, the languages of a
    resource); the entries are stored with every name before every ordinal,
    the names in ascending lexicographic order and the ordinals in ascending
    numeric order; and the name count stored in the header of the directory
    is the number of leading name entries. *)
Theorem directory_order (calls : list setCall) :
  let rs := applySets calls in
  let out := ResourceSet_bytes rs in
  keys_wf rs -> fits rs ->
  exists types,
    (* the root: one entry for each type *)
    directoryAt out rootEntry (fun t => is_Some (Types rs !! t)) types
    /\ forall tent te,
         tent ∈ types -> Types rs !! ident tent = Some te ->
         exists resources,
           (* the directory of a type: one entry for each resource *)
           directoryAt out tent (fun r => is_Some (Resources te !! r)) resources
           /\ forall rent re,
                rent ∈ resources -> Resources te !! ident rent = Some re ->
                exists langs,
                  (* the directory of a resource: one entry for each
                     language, all of them ordinals *)
                  directoryAt out (setLeaf rent) (langPresent re) langs.
Proof.
  cbn zeta. intros Hwf Hfits.
  apply directories_clean; [|done|done].
  apply fresh_clean, applySets_fresh.
Qed.

(** The three types of the sample (the names "APP" and "CFG" and the
    ordinal 3), the two resources of the type 3 (the name "MAIN" and the
    ordinal 1) and the two languages of "MAIN". *)
Lemma directory_order_witness :
  let rs := applySets sampleCalls in
  let out := ResourceSet_bytes rs in
  exists types,
    directoryAt out rootEntry (fun t => is_Some (Types rs !! t)) types
    /\ forall tent te,
         tent ∈ types -> Types rs !! ident tent = Some te ->
         exists resources,
           directoryAt out tent (fun r => is_Some (Resources te !! r)) resources
           /\ forall rent re,
                rent ∈ resources -> Resources te !! ident rent = Some re ->
                exists langs,
                  directoryAt out (setLeaf rent) (langPresent re) langs.
Proof.
  apply (directory_order sampleCalls).
  - change (applySets sampleCalls)
      with (buildSet [(ID 3, ID 1, 0, [Byte.xff]);
                      (ID 3, Name "MAIN", 1033, [Byte.xaa]);
                      (ID 3, Name "MAIN", 0, [Byte.xbb]);
                      (Name "CFG", ID 2, 0, [Byte.x01]);
                      (Name "APP", ID 2, 0, [Byte.x02])]).
    apply buildSet_inv. repeat constructor; by vm_compute.
  - split; [split|]; [by vm_compute| |by vm_compute].
    apply (bool_decide_unpack _). by vm_compute.
Defined.

(** ** A directory of 65536 names *)

Lemma bitName_inj i j :
  0 <= i < 2 ^ 16 -> 0 <= j < 2 ^ 16 -> bitName i = bitName j -> i = j.
Proof.
  intros Hi Hj H. apply (f_equal list_ascii_of_string) in H.
  unfold bitName in H. rewrite !list_ascii_of_string_of_list_ascii in H.
  assert (Hbits : forall k, (k < 16)%nat ->
            Z.testbit i (Z.of_nat k) = Z.testbit j (Z.of_nat k)).
  { intros k Hk.
    assert (Hnth : nth k (map (fun k => if Z.testbit i (Z.of_nat k)
                                        then "1"%char else "0"%char) (seq 0 16))
                         "0"%char
                   = nth k (map (fun k => if Z.testbit j (Z.of_nat k)
                                          then "1"%char else "0"%char) (seq 0 16))
                         "0"%char) by by rewrite H.
    assert (Hf : forall f : nat -> ascii,
              nth k (map f (seq 0 16)) "0"%char = f k).
    { intros f. rewrite (nth_indep _ "0"%char (f 0%nat))
        by (rewrite length_map, length_seq; lia).
      by rewrite map_nth, seq_nth by lia. }
    rewrite !Hf in Hnth.
    by destruct (Z.testbit i (Z.of_nat k)), (Z.testbit j (Z.of_nat k)). }
  apply Z.bits_inj'. intros k Hk.
  destruct (Z.lt_ge_cases k 16) as [Hlt|Hge].
  - specialize (Hbits (Z.to_nat k) ltac:(lia)). by rewrite Z2Nat.id in Hbits.
  - rewrite <- (Z.mod_small i (2 ^ 16)), <- (Z.mod_small j (2 ^ 16)) by lia.
    by rewrite !Z.mod_pow2_bits_high by lia.
Qed.

Lemma bitName_valid i : checkIdentifier (Name (bitName i)) = None.
Proof. unfold bitName. by cbn [seq map string_of_list_ascii]. Qed.

Lemma bitNames_NoDup (n : nat) :
  Z.of_nat n <= 2 ^ 16 ->
  NoDup (map (fun i => bitName (Z.of_nat i)) (seq 0 n)).
Proof.
  intros Hn. apply (NoDup_fmap_2_strong (fun i => bitName (Z.of_nat i))).
  - intros x y Hx Hy Hxy. apply list_elem_of_In, in_seq in Hx, Hy.
    apply Nat2Z.inj. apply bitName_inj; [lia..|done].
  - apply NoDup_ListNoDup, seq_NoDup.
Qed.

Lemma manyNames_NoDup : NoDup manyNames.
Proof. apply bitNames_NoDup. by rewrite Z2Nat.id. Qed.

Lemma manyNames_length : len manyNames = 65536.
Proof.
  unfold manyNames, len. rewrite length_map, length_seq. by apply Z2Nat.id.
Qed.

Lemma manyNames_valid :
  Forall (fun n => checkIdentifier (Name n) = None) manyNames.
Proof.
  unfold manyNames. apply Forall_forall. intros n Hn.
  apply list_elem_of_In, in_map_iff in Hn as (i & <- & _). apply bitName_valid.
Qed.

(** The types of a set after calls to [Set] with valid names as types. *)
Lemma named_types (ns : list string) (rs0 : ResourceSet) t :
  Forall (fun n => checkIdentifier (Name n) = None) ns ->
  is_Some (Types (fold_left runOp (map callOp (map namedCall ns)) rs0) !! t)
  <-> is_Some (Types rs0 !! t) \/ t ∈ map Name ns.
Proof.
  intros Hall. revert rs0.
  induction Hall as [|n ns Hn Hall IH]; intros rs0.
  - cbn. split; [by left|]. intros [H|H]; [done|by apply elem_of_nil in H].
  - cbn [map fold_left]. rewrite IH.
    cbn [namedCall callOp runOp]. unfold ResourceSet_Set.
    rewrite Hn. cbn [checkIdentifier Z.eqb fst].
    destruct (set_shape rs0 (Name n) (ID 1) 0 [Byte.x01])
      as (teKeys & reKeys & ic & cc & -> & _ & _).
    cbn [Types]. rewrite lookup_insert_is_Some', elem_of_cons.
    split; [intros [[->|H]|H]|intros [H|[->|H]]]; auto.
Qed.

Lemma leadingNames_all keys :
  Forall (fun k => isName k = true) keys -> leadingNames keys = length keys.
Proof.
  induction 1 as [|[i|n] keys Hk Hall IH]; [done|done|]. cbn. by rewrite IH.
Qed.

Lemma named_typeKeys (ns : list string) :
  Forall (fun n => checkIdentifier (Name n) = None) ns -> NoDup ns ->
  typeKeys (applySets (map namedCall ns)) ≡ₚ map Name ns.
Proof.
  intros Hall Hnd. destruct (typeKeys_sorted (applySets (map namedCall ns)))
    as [Hin Hs].
  apply NoDup_Permutation.
  - by apply (sorted_NoDup lessThan lessThan_irrefl).
  - apply (NoDup_fmap_2_strong Name); [|done]. by intros x y _ _ [= ->].
  - intros t. rewrite Hin. unfold applySets, runOps.
    rewrite (named_types ns emptySet t Hall). cbn [Types emptySet].
    rewrite lookup_empty. split; [intros [[? H]|H]; [done|done]|by right].
Qed.

Lemma slice_within {A} (buf bs : list A) o i n :
  has_at buf o bs -> 0 <= i -> 0 <= n -> i + n <= len bs ->
  slice buf (o + i) n = slice bs i n.
Proof.
  intros (pre & post & -> & Hpre) Hi Hn Hlen. unfold slice, len in *.
  rewrite Z2Nat.inj_add by lia. rewrite <- Hpre, Nat2Z.id.
  rewrite skipn_app, skipn_all2 by lia. cbn [app].
  replace (length pre + Z.to_nat i - length pre)%nat with (Z.to_nat i) by lia.
  rewrite skipn_app, firstn_app.
  rewrite length_skipn.
  replace (Z.to_nat n - (length bs - Z.to_nat i))%nat with 0%nat by lia.
  by rewrite firstn_O, app_nil_r.
Qed.

(** The entries of names are marked by the highest bit of their first
    word. *)
Lemma name_entries_marked {X} (no : gmap string Z) (sz : X -> Z)
    (items : list (Identifier * X)) (buf : list byte) (o0 o : Z) (i : nat) :
  Forall (fun kx => isName (fst kx) = true) items -> (i < length items)%nat ->
  has_at buf o0 (thread (fun kx => dirEntryB no (fst kx))
                        (fun kx => sz (snd kx)) items o) ->
  Z.testbit (readUint32 buf (o0 + Z.of_nat i * sizeOfDirEntry)) 31 = true.
Proof.
  intros Hall. revert i o0 o.
  induction Hall as [|[k x] items Hk Hall IH]; intros i o0 o Hi Hat;
    [cbn in Hi; lia|].
  cbn [thread fst snd] in Hat. apply has_at_app in Hat as [Hhd Htl].
  assert (Hlen : len (dirEntryB no k o) = 8).
  { rewrite dirEntryB_raw, len_app, !len_le_split. done. }
  destruct i as [|i].
  - unfold readUint32. change (Z.of_nat 0 * sizeOfDirEntry) with 0.
    rewrite (slice_within buf _ o0 0 4 Hhd) by (rewrite ?Hlen; lia).
    rewrite dirEntryB_raw. rewrite slice_app_take by by rewrite len_le_split.
    destruct (rawEntry_range no k o) as [Hr _].
    rewrite le_combine_split_small
      by (change (2 ^ (Z.of_nat 4 * 8)) with (2 ^ 32); lia).
    destruct k as [n|n]; [done|]. cbn [rawEntry fst].
    rewrite Z.lor_spec. unfold nameOffsetFlag.
    change (Z.testbit 0x80000000 31) with true. apply orb_true_r.
  - rewrite Hlen in Htl. cbn [length] in Hi.
    replace (o0 + Z.of_nat (S i) * sizeOfDirEntry)
      with (o0 + 8 + Z.of_nat i * sizeOfDirEntry)
      by (unfold sizeOfDirEntry; lia).
    apply (IH i (o0 + 8) (o + sz x)); [lia|done].
Qed.

(** The root directory of the section written for a set whose caches are
    clean: the header with the two counts, cut to 16 bits, and one entry for
    each type. *)
Lemma root_directory rs :
  clean rs ->
  let out := ResourceSet_bytes rs in
  let keys := typeKeys rs in
  readUint16 out 12 = uint16 (Z.of_nat (leadingNames keys))
  /\ readUint16 out 14 = uint16 (len keys - Z.of_nat (leadingNames keys))
  /\ forall i, (i < length keys)%nat ->
       Forall (fun k => isName k = true) keys ->
       Z.testbit (readUint32 out (sizeOfDirTable + Z.of_nat i * sizeOfDirEntry)) 31
       = true.
Proof.
  intros Hclean. cbn zeta.
  pose proof (bytes_image rs Hclean) as Himg.
  set (out := ResourceSet_bytes rs) in *.
  set (no := nameOffset (snd (ResourceSet_prepare rs))) in *.
  set (nd := namesData (snd (ResourceSet_prepare rs))) in *.
  assert (Hkeys : map fst (treeOfSet rs) = typeKeys rs)
    by (unfold treeOfSet; apply treeOf_fst).
  assert (Hdir : has_at out 0 (typeDirB no (treeOfSet rs))).
  { rewrite Himg. unfold imageB. apply has_at_here. }
  unfold typeDirB, tableB in Hdir. rewrite Hkeys in Hdir.
  apply has_at_app in Hdir as [Hhdr Hent].
  rewrite len_writeDirectoryTable in Hent.
  assert (Hlen : len (treeOfSet rs) = len (typeKeys rs))
    by by rewrite <- Hkeys, len_map.
  rewrite Hlen in Hhdr.
  split; [|split].
  - change 12 with (0 + 12).
    rewrite (readUint16_has_at out _ 0 12 Hhdr)
      by (rewrite ?len_writeDirectoryTable; lia).
    apply readTable_counts.
  - change 14 with (0 + 14).
    rewrite (readUint16_has_at out _ 0 14 Hhdr)
      by (rewrite ?len_writeDirectoryTable; lia).
    apply readTable_counts.
  - intros i Hi Hall.
    change sizeOfDirTable with (0 + 16) at 1.
    eapply (name_entries_marked no resTableSize (treeOfSet rs) out
              (0 + 16) _ i); [| |exact Hent].
    + rewrite <- Hkeys in Hall. by apply Forall_map in Hall.
    + unfold len in Hlen. lia.
Qed.

(** The root directory of a set built with 65536 names as types. *)
Lemma many_names_root (ns : list string) :
  Forall (fun n => checkIdentifier (Name n) = None) ns -> NoDup ns ->
  len ns = 65536 ->
  let rs := applySets (map namedCall ns) in
  let out := ResourceSet_bytes rs in
  Z.of_nat (size (Types rs)) = 65536
  /\ (forall t, is_Some (Types rs !! t) -> isName t = true)
  /\ (forall i, 0 <= i < 65536 ->
        Z.testbit (readUint32 out (sizeOfDirTable + i * sizeOfDirEntry)) 31 = true)
  /\ readUint16 out 12 = 0.
Proof.
  intros Hvalid Hnd Hns. cbn zeta.
  pose proof (named_typeKeys ns Hvalid Hnd) as Hperm.
  pose proof (fresh_clean _ (applySets_fresh (map namedCall ns))) as Hclean.
  generalize dependent (applySets (map namedCall ns)). intros rs Hperm Hclean.
  pose proof (typeKeys_sorted rs) as Hcache.
  assert (Hlen : len (typeKeys rs) = 65536).
  { unfold len. rewrite Hperm, length_map. exact Hns. }
  assert (Hnames : Forall (fun k => isName k = true) (typeKeys rs)).
  { rewrite Hperm. apply Forall_forall. intros k Hk.
    by apply list_elem_of_In, in_map_iff in Hk as (n & <- & _). }
  destruct (root_directory rs Hclean) as (Hcount & _ & Hentries).
  split; [|split; [|split]].
  - rewrite (size_eq_len lessThan _ _ lessThan_irrefl Hcache). exact Hlen.
  - intros t Ht. apply Hcache in Ht. rewrite Forall_forall in Hnames. eauto.
  - intros i Hi. rewrite <- (Z2Nat.id i) by lia. apply Hentries; [|exact Hnames].
    unfold len in Hlen. lia.
  - rewrite Hcount, (leadingNames_all _ Hnames). fold (len (typeKeys rs)).
    rewrite Hlen. reflexivity.
Qed.

(** C3 as stated fails on the code: the set built by 65536 calls to [Set],
    each with another name of 16 letters as the type, has 65536 names at the
    root level, and the root directory of its serialized section begins with
    65536 entries of names; but the name count of its header, a 16-bit
    field, is 0. *)
Lemma name_count_wraps :
  let rs := applySets manyCalls in
  let out := ResourceSet_bytes rs in
  Z.of_nat (size (Types rs)) = 65536
  /\ (forall t, is_Some (Types rs !! t) -> isName t = true)
  /\ (forall i, 0 <= i < 65536 ->
        Z.testbit (readUint32 out (sizeOfDirTable + i * sizeOfDirEntry)) 31 = true)
  /\ readUint16 out 12 = 0.
Proof.
  exact (many_names_root manyNames manyNames_valid manyNames_NoDup
                         manyNames_length).
Qed.

(** A name that is not well-formed UTF-8 is not stored as it is: of the two
    types 0xFF and U+10000 the second is the lower one and its entry is
    written first, but the name of the other entry is written as U+FFFD and
    read back as the bytes EF BF BD, which are lower than F0 90 80 80; the
    names read from the section are not in ascending order. *)
Lemma order_fails_bad_utf8 :
  lessThan (Name plane1) (Name byteFF) = true
  /\ exists a b entries,
       readDirTable rootEntry (ResourceSet_bytes (applySets mixedCalls))
       = Ok entries
       /\ map ident entries = [Name a; Name b]
       /\ a = plane1 /\ String.ltb b a = true.
Proof.
  split; [by vm_compute|].
  eexists _, _, _. split; [by vm_compute|]. split; [reflexivity|].
  split; by vm_compute.
Qed.

(** ** [Set] and [Get] *)

Lemma Get_delete rs t r l t' r' l' :
  ResourceSet_Get (ResourceSet_delete rs t r l) t' r' l'
  = if decide ((t, r, l) = (t', r', l')) then None
    else ResourceSet_Get rs t' r' l'.
Proof.
  unfold ResourceSet_delete.
  destruct (Types rs !! t) as [te|] eqn:Ht.
  2:{ destruct (decide _) as [[= <- <- <-]|]; [|done].
      unfold ResourceSet_Get. by rewrite Ht. }
  destruct (Resources te !! r) as [re|] eqn:Hr.
  2:{ destruct (decide _) as [[= <- <- <-]|]; [|done].
      unfold ResourceSet_Get. rewrite Ht. cbn. by rewrite Hr. }
  cbn [Data].
  destruct (0 <? Z.of_nat (size (delete l (Data re)))) eqn:E1.
  - unfold ResourceSet_Get. cbn [Types].
    destruct (decide (t = t')) as [<-|Hne].
    + rewrite lookup_insert_eq, Ht. cbn.
      destruct (decide (r = r')) as [<-|Hne].
      * rewrite lookup_insert_eq, Hr. cbn.
        destruct (decide (l = l')) as [<-|Hne].
        -- rewrite lookup_delete_eq. cbn. by rewrite decide_True.
        -- rewrite lookup_delete_ne by done. by rewrite decide_False by congruence.
      * rewrite lookup_insert_ne by done. by rewrite decide_False by congruence.
    + rewrite lookup_insert_ne by done. by rewrite decide_False by congruence.
  - apply size_pos_false in E1.
    assert (Hl : forall l', l <> l' -> Data re !! l' = None).
    { intros l0 Hne. rewrite <- (lookup_delete_ne (Data re) l l0) by done.
      rewrite E1. apply lookup_empty. }
    cbn [Resources].
    destruct (0 <? Z.of_nat (size (delete r (Resources te)))) eqn:E2.
    + unfold ResourceSet_Get. cbn [Types].
      destruct (decide (t = t')) as [<-|Hne].
      * rewrite lookup_insert_eq, Ht. cbn.
        destruct (decide (r = r')) as [<-|Hne].
        -- rewrite lookup_delete_eq, Hr. cbn.
           destruct (decide (l = l')) as [<-|Hne].
           ++ by rewrite decide_True.
           ++ rewrite Hl by done. by rewrite decide_False by congruence.
        -- rewrite lookup_delete_ne by done. by rewrite decide_False by congruence.
      * rewrite lookup_insert_ne by done. by rewrite decide_False by congruence.
    + apply size_pos_false in E2.
      assert (Hres : forall r', r <> r' -> Resources te !! r' = None).
      { intros r0 Hne. rewrite <- (lookup_delete_ne (Resources te) r r0) by done.
        rewrite E2. apply lookup_empty. }
      unfold ResourceSet_Get. cbn [Types].
      destruct (decide (t = t')) as [<-|Hne].
      * rewrite lookup_delete_eq, Ht. cbn.
        destruct (decide (r = r')) as [<-|Hne].
        -- rewrite Hr. cbn. destruct (decide (l = l')) as [<-|Hne].
           ++ by rewrite decide_True.
           ++ rewrite Hl by done. by rewrite decide_False by congruence.
        -- rewrite Hres by done. by rewrite decide_False by congruence.
      * rewrite lookup_delete_ne by done. by rewrite decide_False by congruence.
Qed.

(** X1: After a successful call to [Set], [Get] returns the data of the call
    (nil after a deletion) at the key of the call and what it returned before
    at every other key; a call that fails changes nothing. *)
Theorem Get_after_Set (rs : ResourceSet) (typeID resID : Identifier)
    (langID : Z) (data : option (list byte)) :
  match ResourceSet_Set rs typeID resID langID data with
  | (rs', None) =>
    forall t r l,
      ResourceSet_Get rs' t r l
      = if decide ((typeID, resID, langID) = (t, r, l)) then data
        else ResourceSet_Get rs t r l
  | (rs', Some _) => rs' = rs
  end.
Proof.
  unfold ResourceSet_Set.
  destruct (checkIdentifier resID); [done|].
  destruct (checkIdentifier typeID); [done|].
  intros t r l. destruct data as [d|]; [apply Get_set|apply Get_delete].
Qed.

(** ** What the decoder returns, whatever the section *)

Lemma skipType_false typeID t : skipType typeID t = false -> admitted typeID t.
Proof.
  unfold skipType, admitted. intros H.
  destruct (decide (typeID = ID 0)) as [|H0]; [by left|].
  destruct (decide (t = typeID)) as [|H1]; [by right; left|].
  rewrite (bool_decide_eq_true_2 _ H0), (bool_decide_eq_true_2 _ H1) in H.
  cbn [andb] in H.
  destruct (decide (t = RT_ICON)) as [Ht|Ht];
    destruct (decide (typeID = RT_GROUP_ICON)) as [Hg|Hg].
  - right; right; left. done.
  - rewrite (bool_decide_eq_true_2 _ Hg) in H. rewrite orb_true_r in H.
    cbn [andb] in H.
    destruct (decide (t = RT_CURSOR)) as [Hc|Hc];
      destruct (decide (typeID = RT_GROUP_CURSOR)) as [Hgc|Hgc].
    + right; right; right. done.
    + rewrite (bool_decide_eq_true_2 _ Hgc) in H. by rewrite orb_true_r in H.
    + by rewrite (bool_decide_eq_true_2 _ Hc) in H.
    + by rewrite (bool_decide_eq_true_2 _ Hc) in H.
  - rewrite (bool_decide_eq_true_2 _ Ht) in H. cbn [orb andb] in H.
    destruct (decide (t = RT_CURSOR)) as [Hc|Hc];
      destruct (decide (typeID = RT_GROUP_CURSOR)) as [Hgc|Hgc].
    + right; right; right. done.
    + rewrite (bool_decide_eq_true_2 _ Hgc) in H. by rewrite orb_true_r in H.
    + by rewrite (bool_decide_eq_true_2 _ Hc) in H.
    + by rewrite (bool_decide_eq_true_2 _ Hc) in H.
  - rewrite (bool_decide_eq_true_2 _ Ht) in H. cbn [orb andb] in H.
    destruct (decide (t = RT_CURSOR)) as [Hc|Hc];
      destruct (decide (typeID = RT_GROUP_CURSOR)) as [Hgc|Hgc].
    + right; right; right. done.
    + rewrite (bool_decide_eq_true_2 _ Hgc) in H. by rewrite orb_true_r in H.
    + by rewrite (bool_decide_eq_true_2 _ Hc) in H.
    + by rewrite (bool_decide_eq_true_2 _ Hc) in H.
Qed.

Lemma slice_has_at {A} (buf : list A) o n :
  0 <= o -> 0 <= n -> o + n <= len buf -> has_at buf o (slice buf o n).
Proof.
  intros Ho Hn Hb. unfold has_at, slice.
  exists (take (Z.to_nat o) buf), (drop (Z.to_nat n) (drop (Z.to_nat o) buf)).
  split.
  - by rewrite !take_drop.
  - unfold len in *. rewrite length_take. lia.
Qed.

Lemma readData_range le section base data :
  readData le section base = Ok data -> exists o, has_at section o data.
Proof.
  intros H. pose proof H as H'. apply readData_in_bounds in H'.
  destruct H' as (rva & sz & Hrec & H0 & H1 & ->).
  exists (rva - base). apply slice_has_at; [done| |done].
  unfold dataRecord in Hrec.
  destruct (binaryRead section (de_offset le) sizeOfDataEntry); [|done].
  injection Hrec as _ <-. unfold readUint32.
  apply le_combine_bound.
Qed.

Lemma uint16_range n : 0 <= uint16 n < 2 ^ 16.
Proof. unfold uint16. apply Z.mod_pos_bound. lia. Qed.

Lemma readLang_inv section base typeID te re le rs :
  admitted typeID (ident te) ->
  pruned rs /\ fresh rs /\ readFrom section typeID rs ->
  let rs' := fst (readLang section base te re le rs) in
  pruned rs' /\ fresh rs' /\ readFrom section typeID rs'.
Proof.
  intros Hadm (Hp & Hf & Hr). cbn zeta. unfold readLang.
  destruct (readData le section base) as [data|] eqn:Hd; [|done].
  split; [by apply Set_preserves_pruned|]. split; [by apply Set_fresh|].
  unfold ResourceSet_Set in *.
  destruct (checkIdentifier (ident re)) eqn:Hcr; [done|].
  destruct (checkIdentifier (ident te)) eqn:Hct; [done|].
  cbn [fst]. intros t r l p. rewrite Get_set.
  destruct (decide _) as [[= <- <- <-]|]; [|by apply Hr].
  intros [= <-]. split; [done|]. split; [done|]. split; [done|].
  split; [apply uint16_range|]. by eapply readData_range.
Qed.

Lemma read_inv section base typeID rs :
  pruned rs /\ fresh rs /\ readFrom section typeID rs ->
  let rs' := fst (ResourceSet_read rs section base typeID) in
  pruned rs' /\ fresh rs' /\ readFrom section typeID rs'.
Proof.
  intros H. cbn zeta. unfold ResourceSet_read, readWith.
  apply (walk_short (fun rs => pruned rs /\ fresh rs /\ readFrom section typeID rs));
    [done|].
  intros te st _ Hst.
  destruct (skipType typeID (ident te)) eqn:Hs; [done|].
  apply skipType_false in Hs.
  apply (walk_short (fun rs => pruned rs /\ fresh rs /\ readFrom section typeID rs));
    [done|].
  intros re st1 _ Hst1.
  apply (walk_short (fun rs => pruned rs /\ fresh rs /\ readFrom section typeID rs));
    [done|].
  intros le st2 _ Hst2. by apply readLang_inv.
Qed.

Lemma load_inv section base typeID rs :
  loadFromSection section base typeID = Ok rs ->
  pruned rs /\ fresh rs /\ readFrom section typeID rs.
Proof.
  unfold loadFromSection.
  pose proof (read_inv section base typeID emptySet) as H.
  destruct (ResourceSet_read emptySet section base typeID) as [rs' [e|]]; [done|].
  intros [= <-]. apply H. split; [apply pruned_empty|]. split; [apply fresh_empty|].
  intros t r l p Hg. unfold ResourceSet_Get in Hg. cbn in Hg.
  by rewrite lookup_empty in Hg.
Qed.

(** X2: Whatever the bytes of the section, a set returned by [LoadFromEXE] has
    no empty type or resource, no ordering cache filled in, only valid
    identifiers and 16-bit languages, and every payload of it is a range of
    bytes of the section. *)
Theorem loaded_set_valid (section : list byte) (baseAddress : Z) :
  match LoadFromSection section baseAddress with
  | Ok rs =>
    pruned rs /\ fresh rs
    /\ forall t r l p, ResourceSet_Get rs t r l = Some p ->
         checkIdentifier t = None /\ checkIdentifier r = None
         /\ 0 <= l < 2 ^ 16
         /\ exists o, has_at section o p
  | Err _ => True
  end.
Proof.
  unfold LoadFromSection.
  destruct (loadFromSection section baseAddress (ID 0)) as [rs|] eqn:E; [|done].
  apply load_inv in E as (Hp & Hf & Hr). split; [done|]. split; [done|].
  intros t r l p Hg. destruct (Hr t r l p Hg) as (_ & H). exact H.
Qed.

(** X3: [LoadFromEXESingleType] refuses the type 0 with [errZeroID]; whatever
    the bytes of the section, a set that it returns holds resources of the
    requested type only, and besides these the icons when the requested type
    is the group of icons and the cursors when it is the group of cursors. *)
Theorem single_type_filter (section : list byte) (baseAddress : Z)
    (typeID : Identifier) :
  match LoadFromSectionSingleType section baseAddress typeID with
  | Ok rs =>
    typeID <> ID 0
    /\ forall t r l p, ResourceSet_Get rs t r l = Some p ->
         t = typeID
         \/ (t = RT_ICON /\ typeID = RT_GROUP_ICON)
         \/ (t = RT_CURSOR /\ typeID = RT_GROUP_CURSOR)
  | Err e => typeID = ID 0 -> e = errZeroID
  end.
Proof.
  unfold LoadFromSectionSingleType.
  destruct (decide (typeID = ID 0)) as [->|Hne].
  - by rewrite bool_decide_eq_true_2.
  - rewrite bool_decide_eq_false_2 by done.
    destruct (loadFromSection section baseAddress typeID) as [rs|] eqn:E; [|done].
    apply load_inv in E as (_ & _ & Hr). split; [done|].
    intros t r l p Hg. destruct (Hr t r l p Hg) as ([|H] & _); [done|exact H].
Qed.

(** ** Sums over the maps and over the ordered tree *)

Lemma Zltb_irrefl x : Z.ltb x x = false.
Proof. apply Z.ltb_irrefl. Qed.

Lemma sum_data_langs re (g : DataEntry -> Z) :
  re_complete re ->
  sumZ (map (fun kd => g (snd kd)) (map_to_list (Data re)))
  = total (fun lp => g (mkDataEntry (snd lp))) (langsOf re).
Proof.
  intros (keys & Hk & Hc).
  rewrite (sum_over_keys (Data re) g (mkDataEntry []) keys)
    by by apply (cacheOf_perm Z.ltb _ _ Zltb_irrefl).
  unfold langsOf. rewrite Hk. cbn [cached from_option id].
  rewrite total_map. cbn [snd]. apply total_ext. intros l _.
  unfold dataOf. by destruct (default (mkDataEntry []) (Data re !! l)).
Qed.

Lemma sum_resources te (h : ResourceEntry -> Z) (h' : langList -> Z) :
  te_complete te ->
  (forall re, re_complete re -> h re = h' (langsOf re)) ->
  sumZ (map (fun kr => h (snd kr)) (map_to_list (Resources te)))
  = total (fun rl => h' (snd rl)) (resOf te).
Proof.
  intros Htec Hh. pose proof Htec as [(keys & Hk & Hc & _) _].
  rewrite (sum_over_keys (Resources te) h (mkResourceEntry ∅ None) keys)
    by by apply (cacheOf_perm lessThan _ _ lessThan_irrefl).
  unfold resOf. rewrite Hk. cbn [cached from_option id].
  rewrite total_map. cbn [snd]. apply total_ext. intros r Hr.
  destruct (complete_resource te keys r Htec Hk Hr) as [_ Hrec].
  fold (resourceOf te r). by apply Hh.
Qed.

Lemma sum_types rs (h : TypeEntry -> Z) (h' : resList -> Z) :
  complete (ordered rs) ->
  (forall te, te_complete te -> h te = h' (resOf te)) ->
  sumZ (map (fun kt => h (snd kt)) (map_to_list (Types (ordered rs))))
  = total (fun tR => h' (snd tR)) (treeOfSet rs).
Proof.
  intros Hc Hh. pose proof (typeKeys_cache_ordered rs) as Hkc.
  rewrite (sum_over_keys (Types (ordered rs)) h (mkTypeEntry ∅ None 0) (typeKeys rs))
    by by apply (cacheOf_perm lessThan _ _ lessThan_irrefl).
  unfold treeOfSet, treeOf. rewrite total_map. cbn [snd].
  apply total_ext. intros t Ht. apply Hkc in Ht as [te Hte].
  fold (typeOf (ordered rs) t). unfold typeOf. rewrite Hte. cbn [from_option id].
  apply Hh. eauto.
Qed.

Lemma len_flatT T :
  len (flatT T)
  = total (fun tR => total (fun rl => len (snd rl)) (snd tR)) T.
Proof.
  unfold flatT. apply len_flat_map. intros [t R] _. cbn [fst snd].
  unfold flatR. apply len_flat_map. intros [r ls] _. cbn [fst snd].
  unfold flatL. apply len_map.
Qed.

(** ** [Count] and [Walk] *)

Lemma numDataEntries_ordered rs :
  ResourceSet_numDataEntries (ordered rs) = ResourceSet_numDataEntries rs.
Proof.
  unfold ResourceSet_numDataEntries, ordered. cbn [fst ResourceSet_order Types].
  rewrite (sum_fmap TypeEntry_Order
             (fun te => sumZ (map (fun kr => Z.of_nat (size (Data (snd kr))))
                                  (map_to_list (Resources te))))).
  f_equal. apply map_ext. intros [t te]. cbn [snd].
  unfold TypeEntry_Order. destruct (te_OrderedKeys te); [done|]. cbn [Resources].
  rewrite (sum_fmap ResourceEntry_order (fun re => Z.of_nat (size (Data re)))).
  f_equal. apply map_ext. intros [r re]. cbn [snd]. by rewrite re_order_Data.
Qed.

Lemma numDataEntries_flat rs :
  complete (ordered rs) ->
  ResourceSet_numDataEntries rs = len (flatT (treeOfSet rs)).
Proof.
  intros Hc. rewrite <- numDataEntries_ordered, len_flatT.
  unfold ResourceSet_numDataEntries.
  apply (sum_types rs
           (fun te => sumZ (map (fun kr => Z.of_nat (size (Data (snd kr))))
                                (map_to_list (Resources te))))
           (fun R => total (fun rl => len (snd rl)) R)); [done|].
  intros te Hte.
  apply (sum_resources te (fun re => Z.of_nat (size (Data re))) (fun ls => len ls));
    [done|].
  intros re Hre. by destruct (re_size_eq re Hre) as [-> _].
Qed.

Lemma map_flat_map {A B C} (f : B -> C) (g : A -> list B) (l : list A) :
  map f (flat_map g l) = flat_map (fun x => map f (g x)) l.
Proof.
  induction l as [|x l IH]; cbn; [done|]. by rewrite map_app, IH.
Qed.

Lemma Walk_flat rs :
  snd (ResourceSet_Walk rs) = map visitOf (flatT (treeOfSet rs)).
Proof.
  unfold ResourceSet_Walk, flatT, treeOfSet, treeOf.
  change (ResourceSet_order rs state0)
    with (ordered rs, snd (ResourceSet_order rs state0)).
  cbn [snd orderedKeys ResourceSet_order]. fold (typeKeys rs).
  rewrite map_flat_map, flat_map_map'. apply flat_map_ext. intros tk.
  cbn [fst snd]. unfold flatR, resOf.
  rewrite map_flat_map, flat_map_map'. apply flat_map_ext. intros rk.
  cbn [fst snd]. unfold flatL, langsOf. rewrite !map_map. done.
Qed.

Lemma Walk_fst rs : fst (ResourceSet_Walk rs) = ordered rs.
Proof. done. Qed.

(** X4: for a set built by calls to [Set], [Count] returns the number of
    visits of [Walk]. *)
Theorem Count_Walk (calls : list setCall) :
  let rs := applySets calls in
  ResourceSet_Count rs = len (snd (ResourceSet_Walk rs)).
Proof.
  cbn zeta. unfold ResourceSet_Count.
  pose proof (fresh_clean _ (applySets_fresh calls)) as Hclean.
  pose proof (order_complete _ state0 Hclean) as Hc.
  rewrite Walk_flat, len_map. by apply numDataEntries_flat.
Qed.

(** ** [fullSize] *)

Lemma payload_total rs :
  complete (ordered rs) ->
  sumZ (map (fun kt =>
         sumZ (map (fun kr =>
               sumZ (map (fun kd => paddedDataSize (snd kd))
                         (map_to_list (Data (snd kr)))))
             (map_to_list (Resources (snd kt)))))
       (map_to_list (Types (ordered rs))))
  = len (payloadB (treeOfSet rs)).
Proof.
  intros Hc. rewrite len_payloadB.
  apply (sum_types rs
           (fun te => sumZ (map (fun kr =>
               sumZ (map (fun kd => paddedDataSize (snd kd))
                         (map_to_list (Data (snd kr)))))
             (map_to_list (Resources te))))
           payloadSizeR); [done|].
  intros te Hte. unfold payloadSizeR.
  apply (sum_resources te
           (fun re => sumZ (map (fun kd => paddedDataSize (snd kd))
                                (map_to_list (Data re))))
           payloadSizeL); [done|].
  intros re Hre. unfold payloadSizeL.
  by apply (sum_data_langs re paddedDataSize).
Qed.

Lemma len_imageB no nd T :
  len (imageB no nd T) = namesAt T + len nd * 2 + len (payloadB T).
Proof.
  unfold imageB.
  rewrite !len_app, len_typeDirB, len_resDirsB, len_langDirsB, len_dataIndexB,
    len_writeUint16s.
  unfold namesAt, dataIndexAt, langDirsAt. lia.
Qed.

Lemma fullSize_bytes rs :
  clean rs -> snd (ResourceSet_fullSize rs) = len (ResourceSet_bytes rs).
Proof.
  intros Hclean. pose proof (order_complete _ state0 Hclean) as Hc.
  fold (ordered rs) in Hc.
  rewrite bytes_image, len_imageB by done.
  unfold ResourceSet_fullSize.
  destruct (prepare_fields rs) as (Hfst & _).
  destruct (ResourceSet_prepare rs) as [rs1 s]. cbn [fst snd] in *. subst rs1.
  rewrite dirSize_namesAt, payload_total by done. done.
Qed.

(** X5: for a set built by calls to [Set], [fullSize] returns the length of
    the section that [write] produces. *)
Theorem fullSize_is_length (calls : list setCall) :
  let rs := applySets calls in
  snd (ResourceSet_fullSize rs) = len (ResourceSet_bytes rs).
Proof.
  cbn zeta. apply fullSize_bytes, fresh_clean, applySets_fresh.
Qed.

(** ** The order of the walk *)

Lemma sorted_app {A} (R : A -> A -> Prop) l1 l2 :
  StronglySorted R l1 -> StronglySorted R l2 ->
  (forall a b, a ∈ l1 -> b ∈ l2 -> R a b) ->
  StronglySorted R (l1 ++ l2).
Proof.
  intros H1 H2 H12. induction H1 as [|x l1 H1 IH Hx]; [done|].
  cbn [app]. constructor.
  - apply IH. intros a b Ha Hb. apply H12; [by right|done].
  - apply Forall_app. split; [done|].
    apply Forall_forall. intros b Hb. apply H12; [by left|done].
Qed.

Lemma sorted_flat_map {A B} (lt : A -> A -> Prop) (R : B -> B -> Prop)
    (f : A -> list B) l :
  StronglySorted lt l ->
  (forall x, x ∈ l -> StronglySorted R (f x)) ->
  (forall x y a b, lt x y -> a ∈ f x -> b ∈ f y -> R a b) ->
  StronglySorted R (flat_map f l).
Proof.
  intros Hl Hf Hc. induction Hl as [|x l Hl IH Hx]; cbn [flat_map]; [constructor|].
  apply sorted_app.
  - apply Hf. by left.
  - apply IH. intros y Hy. apply Hf. by right.
  - intros a b Ha Hb. apply list_elem_of_In, in_flat_map in Hb as (y & Hy & Hb).
    rewrite Forall_forall in Hx.
    apply (Hc x y); [apply Hx; by apply list_elem_of_In|done|by apply list_elem_of_In].
Qed.

Lemma sorted_map {A B} (lt : A -> A -> Prop) (R : B -> B -> Prop) (f : A -> B) l :
  StronglySorted lt l -> (forall x y, lt x y -> R (f x) (f y)) ->
  StronglySorted R (map f l).
Proof.
  intros Hl Hf. induction Hl as [|x l Hl IH Hx]; cbn [map]; constructor; [done|].
  apply Forall_map. eapply Forall_impl; [exact Hx|]. intros y Hy. by apply Hf.
Qed.

Lemma flatL_key t r ls e : e ∈ flatL t r ls -> exists l, entryKey e = (t, r, l).
Proof.
  unfold flatL. intros H. apply list_elem_of_fmap in H as ([l p] & -> & _).
  by exists l.
Qed.

Lemma flatR_key t R e : e ∈ flatR t R -> exists r l, entryKey e = (t, r, l).
Proof.
  unfold flatR. intros H. apply list_elem_of_In, in_flat_map in H as ([r ls] & _ & H).
  apply list_elem_of_In, flatL_key in H as [l H]. eauto.
Qed.

Lemma flatT_sorted rs :
  complete (ordered rs) -> StronglySorted entryLess (flatT (treeOfSet rs)).
Proof.
  intros Hc. pose proof (typeKeys_cache_ordered rs) as [Hkin Hks].
  unfold flatT, treeOfSet, treeOf. rewrite flat_map_map'. cbn [fst snd].
  apply (sorted_flat_map (fun a b => lessThan a b = true)); [done| |].
  - intros t Ht. apply Hkin in Ht as [te Hte].
    unfold typeOf. rewrite Hte. cbn [from_option id].
    pose proof (Hc _ _ Hte) as Htec.
    pose proof Htec as [(rkeys & Hk & [Hrkin Hrks] & _) _].
    unfold flatR, resOf. rewrite Hk. cbn [cached from_option id].
    rewrite flat_map_map'. cbn [fst snd].
    apply (sorted_flat_map (fun a b => lessThan a b = true)); [done| |].
    + intros r Hr.
      destruct (complete_resource te rkeys r Htec Hk Hr)
        as [_ (lkeys & Hlk & [_ Hlks])].
      unfold flatL, langsOf. rewrite Hlk. cbn [cached from_option id].
      rewrite map_map. cbn [fst snd].
      apply (sorted_map (fun a b => Z.ltb a b = true)); [done|].
      intros x y Hxy. unfold entryLess, entryKey, keyLess. cbn [fst].
      right. split; [done|]. right. split; [done|]. by apply Z.ltb_lt.
    + intros x y a b Hxy Ha Hb.
      apply flatL_key in Ha as [la Ha]. apply flatL_key in Hb as [lb Hb].
      unfold entryLess. rewrite Ha, Hb. cbn. right. split; [done|]. by left.
  - intros x y a b Hxy Ha Hb.
    apply flatR_key in Ha as (ra & la & Ha). apply flatR_key in Hb as (rb & lb & Hb).
    unfold entryLess. rewrite Ha, Hb. cbn. by left.
Qed.

Lemma Get_Set_cases rs t r l d t' r' l' p :
  ResourceSet_Get (fst (ResourceSet_Set rs t r l d)) t' r' l' = Some p ->
  ((t, r, l) = (t', r', l') /\ d = Some p) \/ ResourceSet_Get rs t' r' l' = Some p.
Proof.
  unfold ResourceSet_Set.
  destruct (checkIdentifier r); [by right|].
  destruct (checkIdentifier t); [by right|]. cbn [fst].
  destruct d as [d|].
  - rewrite Get_set. destruct (decide _); [|by right]. intros [= <-]. by left.
  - change (ResourceSet_set rs t r l None) with (ResourceSet_delete rs t r l).
    rewrite Get_delete. destruct (decide _); [done|by right].
Qed.

Lemma applySets_langs16 calls : calls16 calls -> langs16 (applySets calls).
Proof.
  unfold applySets, runOps.
  assert (H0 : langs16 emptySet).
  { intros t r l p H. unfold ResourceSet_Get in H. cbn in H.
    by rewrite lookup_empty in H. }
  revert H0. generalize emptySet.
  induction calls as [|[[[t r] l] d] calls IH]; intros rs Hrs Hc; [done|].
  apply Forall_cons in Hc as [Hl Hc]. cbn [map fold_left callOp runOp].
  apply IH; [|done]. intros t' r' l' p Hg.
  apply Get_Set_cases in Hg as [[[= <- <- <-] _]|Hg]; [done|by eapply Hrs].
Qed.

Lemma Walk_entries rs :
  complete (ordered rs) -> langs16 rs ->
  snd (ResourceSet_Walk rs) = flatT (treeOfSet rs).
Proof.
  intros Hc H16. rewrite Walk_flat. rewrite <- (map_id (flatT (treeOfSet rs))) at 2.
  apply map_ext_in. intros [[[t r] l] p] Hin.
  apply list_elem_of_In, flatT_elem in Hin; [|done].
  apply H16 in Hin. unfold visitOf, uint16, is_uint16 in *.
  by rewrite Z.mod_small.
Qed.

(** X6: [Walk] on a set built by calls to [Set]: the visits are exactly the
    resources that [Get] finds, each with its payload; they come in the order
    of the keys (by type, then by resource, then by language, names before
    ordinals), so that no resource is visited twice; and the walk leaves what
    [Get] returns unchanged. *)
Theorem Walk_visits (calls : list setCall) :
  calls16 calls ->
  let rs := applySets calls in
  let W := snd (ResourceSet_Walk rs) in
  (forall t r l p, (t, r, l, p) ∈ W <-> ResourceSet_Get rs t r l = Some p)
  /\ StronglySorted entryLess W
  /\ forall t r l,
       ResourceSet_Get (fst (ResourceSet_Walk rs)) t r l = ResourceSet_Get rs t r l.
Proof.
  intros H16. cbn zeta.
  pose proof (fresh_clean _ (applySets_fresh calls)) as Hclean.
  pose proof (order_complete _ state0 Hclean) as Hc.
  rewrite Walk_entries by (done || by apply applySets_langs16).
  split; [|split].
  - intros. by apply flatT_elem.
  - by apply flatT_sorted.
  - intros. rewrite Walk_fst. apply Get_ordered.
Qed.

(** The walk of three resources set in another order. *)
Lemma Walk_visits_witness :
  snd (ResourceSet_Walk (applySets walkCalls))
  = [(Name "CFG", ID 1, 0, [Byte.x03]);
     (ID 3, ID 2, 0, [Byte.x01]);
     (ID 3, ID 2, 1033, [Byte.x02])]
  /\ StronglySorted entryLess (snd (ResourceSet_Walk (applySets walkCalls))).
Proof.
  split; [by vm_compute|].
  refine (proj1 (proj2 (Walk_visits walkCalls _))).
  repeat constructor; by vm_compute.
Defined.

(** ** [WalkType] *)









(** ** [firstLang] *)

Lemma runOps_langs16 ops : ops16 ops -> langs16 (runOps ops).
Proof.
  unfold runOps.
  assert (H0 : langs16 emptySet).
  { intros t r l p H. unfold ResourceSet_Get in H. cbn in H.
    by rewrite lookup_empty in H. }
  revert H0. generalize emptySet.
  induction ops as [|o ops IH]; intros rs Hrs Hc; [done|].
  apply Forall_cons in Hc as [Hl Hc]. cbn [fold_left].
  apply IH; [|done]. intros t' r' l' p Hg. destruct o as [t r l d| |]; cbn [runOp] in Hg.
  - apply Get_Set_cases in Hg as [[[= <- <- <-] _]|Hg]; [done|by eapply Hrs].
  - rewrite Walk_fst, Get_ordered in Hg. by eapply Hrs.
  - rewrite write_fst in Hg. fold (ordered rs) in Hg. rewrite Get_ordered in Hg.
    by eapply Hrs.
Qed.

Lemma Get_languages rs t r te re l :
  Types rs !! t = Some te -> Resources te !! r = Some re ->
  ResourceSet_Get rs t r l = de_Data <$> Data re !! l.
Proof.
  intros Ht Hr. unfold ResourceSet_Get. rewrite Ht. cbn. rewrite Hr. cbn.
  by destruct (Data re !! l).
Qed.

Lemma firstLang_spec rs t r :
  caches_ok rs -> langs16 rs ->
  let l0 := snd (ResourceSet_firstLang rs t r) in
  (forall t' r' l',
     ResourceSet_Get (fst (ResourceSet_firstLang rs t r)) t' r' l'
     = ResourceSet_Get rs t' r' l')
  /\ ((forall l, ResourceSet_Get rs t r l = None) -> l0 = 0)
  /\ ((exists l, ResourceSet_Get rs t r l <> None) ->
      ResourceSet_Get rs t r l0 <> None
      /\ forall l, ResourceSet_Get rs t r l <> None -> l0 <= l).
Proof.
  intros Hok H16. cbn zeta. unfold ResourceSet_firstLang.
  destruct (Types rs !! t) as [te|] eqn:Ht.
  2:{ cbn [fst snd]. split; [done|]. split; [done|]. intros [l Hl].
      unfold ResourceSet_Get in Hl. by rewrite Ht in Hl. }
  destruct (Resources te !! r) as [re|] eqn:Hr.
  2:{ cbn [fst snd]. split; [done|]. split; [done|]. intros [l Hl].
      unfold ResourceSet_Get in Hl. rewrite Ht in Hl. cbn in Hl. by rewrite Hr in Hl. }
  destruct (Z.eqb_spec (Z.of_nat (size (Data re))) 0) as [Hz|Hz].
  { cbn [fst snd]. split; [done|]. split; [done|]. intros [l Hl].
    rewrite (Get_languages rs t r te re) in Hl by done.
    assert (Data re = ∅) as He by (apply map_size_empty_iff; lia).
    by rewrite He, lookup_empty in Hl. }
  cbn [fst snd].
  destruct (Hok _ _ Ht) as [_ Hres].
  destruct (re_order_complete re (Hres _ _ Hr)) as (keys & Hk & [Hkin Hks]).
  rewrite re_order_Data in Hkin. rewrite Hk. cbn [cached from_option id].
  split; [|split].
  - intros t' r' l'. unfold ResourceSet_Get. cbn [Types].
    destruct (decide (t = t')) as [<-|Hne]; [|by rewrite lookup_insert_ne].
    rewrite lookup_insert_eq, Ht. cbn.
    destruct (decide (r = r')) as [<-|Hne]; [|by rewrite lookup_insert_ne].
    rewrite lookup_insert_eq, Hr. cbn. by rewrite re_order_Data.
  - intros Hnone. destruct keys as [|k keys]; [done|].
    assert (is_Some (Data re !! k)) as [de Hde] by (apply Hkin; by left).
    specialize (Hnone k). rewrite (Get_languages rs t r te re) in Hnone by done.
    by rewrite Hde in Hnone.
  - intros _. destruct keys as [|k keys].
    { exfalso. apply Hz. assert (Data re = ∅) as ->; [|by rewrite map_size_empty].
      apply map_empty. intros l. apply eq_None_not_Some. intros Hs.
      apply Hkin in Hs. by apply elem_of_nil in Hs. }
    cbn [nth].
    assert (is_Some (Data re !! k)) as [de Hde] by (apply Hkin; by left).
    assert (Hgk : ResourceSet_Get rs t r k = Some (de_Data de)).
    { rewrite (Get_languages rs t r te re) by done. by rewrite Hde. }
    pose proof (H16 _ _ _ _ Hgk) as Hk16.
    unfold uint16, is_uint16 in *. rewrite Z.mod_small by done.
    split; [by rewrite Hgk|].
    intros l Hl. rewrite (Get_languages rs t r te re) in Hl by done.
    assert (is_Some (Data re !! l)) as Hs by (by destruct (Data re !! l); eauto).
    apply Hkin, elem_of_cons in Hs as [->|Hs]; [lia|].
    apply StronglySorted_inv in Hks as [_ Hall].
    rewrite Forall_forall in Hall. specialize (Hall l Hs).
    apply Z.ltb_lt in Hall. lia.
Qed.

(** X8: [firstLang] returns the lowest language for which the resource has
    data, and 0 when the set has no such resource; it leaves what [Get]
    returns unchanged. *)
Theorem firstLang_lowest (ops : list op) (typeID resID : Identifier) :
  ops16 ops ->
  let rs := runOps ops in
  let l0 := snd (ResourceSet_firstLang rs typeID resID) in
  (forall t r l,
     ResourceSet_Get (fst (ResourceSet_firstLang rs typeID resID)) t r l
     = ResourceSet_Get rs t r l)
  /\ ((forall l, ResourceSet_Get rs typeID resID l = None) -> l0 = 0)
  /\ ((exists l, ResourceSet_Get rs typeID resID l <> None) ->
      ResourceSet_Get rs typeID resID l0 <> None
      /\ forall l, ResourceSet_Get rs typeID resID l <> None -> l0 <= l).
Proof.
  intros H16. apply firstLang_spec; [apply runOps_caches_ok|by apply runOps_langs16].
Qed.

(** The lowest of two languages, the second one set after a walk. *)
Lemma firstLang_lowest_witness :
  snd (ResourceSet_firstLang (runOps langOps) (ID 16) (ID 1)) = 1033
  /\ forall l, ResourceSet_Get (runOps langOps) (ID 16) (ID 1) l <> None ->
       snd (ResourceSet_firstLang (runOps langOps) (ID 16) (ID 1)) <= l.
Proof.
  split; [by vm_compute|].
  refine (proj2 (proj2 (proj2 (firstLang_lowest langOps (ID 16) (ID 1) _)) _)).
  - repeat constructor; by vm_compute.
  - exists 1033. by vm_compute.
Defined.

(** ** The data records and the relocation addresses *)

Lemma thread_flat_map {X Y A} (f : Y -> Z -> list A) (sz : Y -> Z)
    (F : X -> Z -> list A) (SZ : X -> Z) (g : X -> list Y) xs : forall o,
  (forall x o, F x o = thread f sz (g x) o) ->
  (forall x, SZ x = total sz (g x)) ->
  thread F SZ xs o = thread f sz (flat_map g xs) o.
Proof.
  induction xs as [|x xs IH]; intros o HF HS; [done|].
  cbn [thread flat_map]. by rewrite thread_app, HF, HS, IH.
Qed.

Lemma total_flat_map {X Y} (sz : Y -> Z) (SZ : X -> Z) (g : X -> list Y) xs :
  (forall x, SZ x = total sz (g x)) -> total SZ xs = total sz (flat_map g xs).
Proof.
  intros HS. induction xs as [|x xs IH]; [done|].
  cbn [flat_map]. by rewrite total_cons, total_app, HS, IH.
Qed.

Lemma relocsL_flat t r ls a :
  relocsL ls a = thread (fun (_ : entry) o => [o]) (fun _ => sizeOfDataEntry)
                        (flatL t r ls) a.
Proof. unfold relocsL, flatL. by rewrite thread_map. Qed.

Lemma dataIndexL_flat t r ls o :
  dataIndexL ls o = thread recordB padded (flatL t r ls) o.
Proof. unfold dataIndexL, flatL. by rewrite thread_map. Qed.

Lemma indexSizeL_flat t r (ls : langList) :
  len ls * sizeOfDataEntry = total (fun _ : entry => sizeOfDataEntry) (flatL t r ls).
Proof. unfold flatL. by rewrite total_const, len_map. Qed.

Lemma payloadSizeL_flat t r ls : payloadSizeL ls = total padded (flatL t r ls).
Proof. unfold payloadSizeL, flatL. by rewrite total_map. Qed.

Lemma relocsR_flat t R a :
  relocsR R a = thread (fun (_ : entry) o => [o]) (fun _ => sizeOfDataEntry)
                       (flatR t R) a.
Proof.
  unfold relocsR, flatR. apply thread_flat_map.
  - intros rl o. apply relocsL_flat.
  - intros rl. apply indexSizeL_flat.
Qed.

Lemma dataIndexR_flat t R o :
  dataIndexR R o = thread recordB padded (flatR t R) o.
Proof.
  unfold dataIndexR, flatR. apply thread_flat_map.
  - intros rl o'. apply dataIndexL_flat.
  - intros rl. apply payloadSizeL_flat.
Qed.

Lemma indexSizeR_flat t R :
  dataIndexSizeR R = total (fun _ : entry => sizeOfDataEntry) (flatR t R).
Proof.
  unfold dataIndexSizeR, flatR. apply total_flat_map.
  intros rl. apply indexSizeL_flat.
Qed.

Lemma payloadSizeR_flat t R : payloadSizeR R = total padded (flatR t R).
Proof.
  unfold payloadSizeR, flatR. apply total_flat_map.
  intros rl. apply payloadSizeL_flat.
Qed.

Lemma relocsB_flat T a :
  relocsB T a = thread (fun (_ : entry) o => [o]) (fun _ => sizeOfDataEntry)
                       (flatT T) a.
Proof.
  unfold relocsB, flatT. apply thread_flat_map.
  - intros tR o. apply relocsR_flat.
  - intros tR. apply indexSizeR_flat.
Qed.

Lemma dataIndexB_flat T o :
  dataIndexB T o = thread recordB padded (flatT T) o.
Proof.
  unfold dataIndexB, flatT. apply thread_flat_map.
  - intros tR o'. apply dataIndexR_flat.
  - intros tR. apply payloadSizeR_flat.
Qed.

Lemma payloadB_flat T : payloadB T = flat_map paddedPayload (flatT T).
Proof.
  unfold payloadB, flatT. rewrite flat_map_flat_map. apply flat_map_ext.
  intros [t R]. cbn [fst snd]. unfold payloadR, flatR.
  rewrite flat_map_flat_map. apply flat_map_ext. intros [r ls]. cbn [fst snd].
  unfold payloadL, flatL. by rewrite flat_map_map'.
Qed.

(** The [i]-th resource of the walk: its relocation address, its data
    record and its payload. *)
Lemma flat_records (F : list entry) : forall a o i e,
  F !! i = Some e ->
  thread (fun (_ : entry) o => [o]) (fun _ => sizeOfDataEntry) F a !! i
  = Some (a + sizeOfDataEntry * Z.of_nat i)
  /\ has_at (thread recordB padded F o) (sizeOfDataEntry * Z.of_nat i)
            (recordB e (o + total padded (take i F)))
  /\ has_at (flat_map paddedPayload F) (total padded (take i F)) (snd e).
Proof.
  induction F as [|x F IH]; intros a o i e Hi; [done|].
  destruct i as [|i].
  - injection Hi as ->. cbn [thread flat_map take app].
    change (Some a = Some (a + sizeOfDataEntry * Z.of_nat 0) /\ has_at (recordB e o ++ thread recordB padded F (o + padded e)) (sizeOfDataEntry * Z.of_nat 0) (recordB e (o + total padded [])) /\ has_at (paddedPayload e ++ flat_map paddedPayload F) (total padded []) (snd e)).
    rewrite total_nil, Z.add_0_r, Z.mul_0_r, Z.add_0_r.
    split; [done|]. split; [apply has_at_here|].
    unfold paddedPayload.
    destruct (writeData_padded (mkDataEntry (snd e))) as [-> _].
    cbn [de_Data]. rewrite <- app_assoc. apply has_at_here.
  - change (F !! i = Some e) in Hi.
    destruct (IH (a + sizeOfDataEntry) (o + padded x) i e Hi) as (H1 & H2 & H3).
    cbn [thread flat_map take]. rewrite total_cons.
    split; [|split].
    + cbn [app].
      change (thread (fun (_ : entry) o => [o]) (fun _ => sizeOfDataEntry) F
                (a + sizeOfDataEntry) !! i
              = Some (a + sizeOfDataEntry * Z.of_nat (S i))).
      rewrite H1. f_equal. lia.
    + replace (sizeOfDataEntry * Z.of_nat (S i))
        with (len (recordB x o) + sizeOfDataEntry * Z.of_nat i)
        by (unfold recordB; rewrite len_writeDataEntry;
            unfold sizeOfDataEntry; lia).
      apply has_at_shift.
      by replace (o + (padded x + total padded (take i F)))
        with (o + padded x + total padded (take i F)) by lia.
    + replace (padded x + total padded (take i F))
        with (len (paddedPayload x) + total padded (take i F)).
      * by apply has_at_shift.
      * unfold paddedPayload, padded.
        by destruct (writeData_padded (mkDataEntry (snd x))) as [_ ->].
Qed.

(** ** Alignment *)

Lemma divide8_total {X} (sz : X -> Z) (l : list X) :
  (forall x, (8 | sz x)) -> (8 | total sz l).
Proof.
  intros H. induction l as [|x l IH]; [apply Z.divide_0_r|].
  rewrite total_cons. by apply Z.divide_add_r.
Qed.

Lemma divide8_table n : (8 | sizeOfDirTable + n * sizeOfDirEntry).
Proof.
  unfold sizeOfDirTable, sizeOfDirEntry. exists (2 + n). lia.
Qed.

Lemma divide8_index n : (8 | n * sizeOfDataEntry).
Proof. unfold sizeOfDataEntry. exists (2 * n). lia. Qed.

Lemma divide8_namesAt T : (8 | namesAt T).
Proof.
  unfold namesAt, dataIndexAt, langDirsAt, resDirsAt.
  apply Z.divide_add_r; [apply Z.divide_add_r; [apply Z.divide_add_r|]|].
  - apply divide8_table.
  - apply divide8_total. intros. apply divide8_table.
  - apply divide8_total. intros. apply divide8_total. intros. apply divide8_table.
  - apply divide8_total. intros. unfold dataIndexSizeR.
    apply divide8_total. intros. apply divide8_index.
Qed.

Lemma divide8_alignData n : (8 | alignData n).
Proof. rewrite alignData_eq. by exists ((n + 7) / 8); lia. Qed.

Lemma divide8_names rs :
  (8 | len (namesData (snd (ResourceSet_prepare rs))) * 2).
Proof.
  unfold ResourceSet_prepare.
  destruct (ResourceSet_order rs state0) as [rs1 s].
  destruct (fold_left addName _ _) as [[o' no'] data].
  cbn [snd namesData]. rewrite len_app. unfold len at 2. rewrite repeat_length.
  set (sz := len data * 2).
  destruct (alignData_bounds sz) as [_ Hb].
  pose proof (divide8_alignData sz) as [q Hq].
  replace (alignData sz - sz) with ((4 * q - len data) * 2)
    by (unfold sz in *; lia).
  rewrite Z.div_mul by done.
  rewrite Z2Nat.id by (unfold sz in *; lia).
  exists q. unfold sz in *. lia.
Qed.

(** X9: The relocation list of a set built by calls to [Set] has one address per
    resource, in the order of the walk; at that address of the section lies
    the data record of the resource, whose first field is the offset at which
    the payload of the resource is written and whose second field is the
    length of the payload; and that offset is a multiple of 8. *)
Theorem relocations_fresh (calls : list setCall) :
  let rs := applySets calls in
  let out := ResourceSet_bytes rs in
  let rel := snd (ResourceSet_write rs) in
  let W := snd (ResourceSet_Walk rs) in
  len rel = ResourceSet_Count rs
  /\ forall i e, W !! i = Some e ->
       exists a o,
         rel !! i = Some a
         /\ readUint32 out a = uint32 o
         /\ readUint32 out (a + 4) = uint32 (len (snd e))
         /\ has_at out o (snd e)
         /\ o mod 8 = 0.
Proof.
  cbn zeta. set (rs := applySets calls).
  pose proof (fresh_clean _ (applySets_fresh calls)) as Hclean. fold rs in Hclean.
  pose proof (order_complete rs state0 Hclean) as Hc. fold (ordered rs) in Hc.
  unfold ResourceSet_bytes. rewrite (write_image rs Hclean). cbn [fst snd].
  set (s := snd (ResourceSet_prepare rs)). set (T := treeOfSet rs).
  rewrite relocsB_flat, Walk_flat. fold T.
  split.
  - rewrite (thread_length_const _ _ _ _ 1) by done.
    unfold ResourceSet_Count. rewrite (numDataEntries_flat rs Hc). fold T. lia.
  - intros i e Hi. rewrite list_lookup_fmap in Hi.
    destruct (flatT T !! i) as [e0|] eqn:He0; [|done]. injection Hi as <-.
    set (o0 := namesAt T + len (namesData s) * 2).
    destruct (flat_records (flatT T) (dataIndexAt T) o0 i e0 He0) as (H1 & H2 & H3).
    exists (dataIndexAt T + sizeOfDataEntry * Z.of_nat i),
           (o0 + total padded (take i (flatT T))).
    assert (Hparts :
      has_at (imageB (nameOffset s) (namesData s) T) (dataIndexAt T)
             (dataIndexB T o0)
      /\ has_at (imageB (nameOffset s) (namesData s) T) o0 (payloadB T)).
    { destruct (has_at_parts (imageB (nameOffset s) (namesData s) T) _ _ _ _ _ _
                  eq_refl) as (_ & _ & _ & P4 & _ & P6).
      rewrite len_typeDirB, len_resDirsB, len_langDirsB in P4.
      rewrite len_typeDirB, len_resDirsB, len_langDirsB, len_dataIndexB,
        len_writeUint16s in P6.
      split.
      - unfold dataIndexAt, langDirsAt. exact P4.
      - replace o0 with (resDirsAt T + total (fun tR => resTableSize (snd tR)) T
          + total (fun tR => total (fun rl => langTableSize (snd rl)) (snd tR)) T
          + total (fun tR => dataIndexSizeR (snd tR)) T + 2 * len (namesData s));
          [exact P6|]. unfold o0, namesAt, dataIndexAt, langDirsAt. lia. }
    destruct Hparts as [Hdi Hp].
    rewrite dataIndexB_flat in Hdi. rewrite payloadB_flat in Hp.
    pose proof (has_at_trans _ _ _ _ _ Hdi H2) as Hrec.
    pose proof (has_at_trans _ _ _ _ _ Hp H3) as Hpay.
    unfold recordB, writeDataEntry in Hrec.
    apply has_at_app in Hrec as [Hrva Hrec]. rewrite len_le_split in Hrec.
    change (Z.of_nat 4) with 4 in Hrec.
    apply has_at_app in Hrec as [Hsize _].
    assert (He : snd (visitOf e0) = snd e0) by (by destruct e0 as [[[? ?] ?] ?]).
    rewrite He.
    split; [done|]. split; [|split; [|split]].
    + unfold readUint32. rewrite (has_at_slice _ _ _ 4 Hrva)
        by (by rewrite len_le_split).
      apply le_combine_split_small. apply uint32_range.
    + unfold readUint32.
      rewrite (has_at_slice _ _ _ 4 Hsize) by (by rewrite len_le_split).
      apply le_combine_split_small. apply uint32_range.
    + done.
    + apply Z.mod_divide; [done|]. unfold o0.
      apply Z.divide_add_r; [apply Z.divide_add_r|].
      * apply divide8_namesAt.
      * apply divide8_names.
      * apply divide8_total. intros. apply divide8_alignData.
Qed.

(** ** The section as a function of the contents *)

Lemma pruned_ordered rs : pruned rs -> pruned (ordered rs).
Proof.
  intros Hp t te' Hte. unfold ordered in Hte. cbn in Hte.
  rewrite lookup_fmap in Hte.
  destruct (Types rs !! t) as [te|] eqn:E; [|done]. injection Hte as <-.
  destruct (Hp _ _ E) as [Hne Hres]. unfold TypeEntry_Order.
  destruct (te_OrderedKeys te); [by split|]. cbn [Resources]. split.
  - intros He. by apply fmap_empty_inv in He.
  - intros r re' Hre. rewrite lookup_fmap in Hre.
    destruct (Resources te !! r) as [re|] eqn:Er; [|done]. injection Hre as <-.
    rewrite re_order_Data. by eapply Hres.
Qed.

Lemma Get_inv rs t r l p :
  ResourceSet_Get rs t r l = Some p ->
  exists te re de, Types rs !! t = Some te /\ Resources te !! r = Some re
                   /\ Data re !! l = Some de /\ de_Data de = p.
Proof.
  unfold ResourceSet_Get. intros H.
  destruct (Types rs !! t) as [te|] eqn:E1; [|done]. cbn in H.
  destruct (Resources te !! r) as [re|] eqn:E2; [|done]. cbn in H.
  destruct (Data re !! l) as [de|] eqn:E3; [|done]. cbn in H.
  injection H as <-. by exists te, re, de.
Qed.

Lemma pruned_resource rs t te r re :
  pruned rs -> Types rs !! t = Some te -> Resources te !! r = Some re ->
  exists l p, ResourceSet_Get rs t r l = Some p.
Proof.
  intros Hp Ht Hr. destruct (Hp _ _ Ht) as [_ Hres].
  destruct (map_choose _ (Hres _ _ Hr)) as (l & de & Hl).
  exists l, (de_Data de). rewrite (Get_languages rs t r te re) by done.
  by rewrite Hl.
Qed.

Lemma pruned_type rs t te :
  pruned rs -> Types rs !! t = Some te ->
  exists r l p, ResourceSet_Get rs t r l = Some p.
Proof.
  intros Hp Ht. destruct (Hp _ _ Ht) as [Hne _].
  destruct (map_choose _ Hne) as (r & re & Hr).
  destruct (pruned_resource rs t te r re Hp Ht Hr) as (l & p & H). eauto.
Qed.

Lemma cacheOf_unique `{Countable K} {V W} (less : K -> K -> bool)
    (m : gmap K V) (m' : gmap K W) k1 k2 :
  (forall x, less x x = false) ->
  (forall x y z, less x y = true -> less y z = true -> less x z = true) ->
  (forall x y, less x y = false -> less y x = false -> x = y) ->
  cacheOf less m k1 -> cacheOf less m' k2 ->
  (forall k, is_Some (m !! k) <-> is_Some (m' !! k)) -> k1 = k2.
Proof.
  intros Hi Ht Hto [Hin1 Hs1] [Hin2 Hs2] Hdom.
  eapply (sorted_unique less); [done..|].
  apply NoDup_Permutation.
  - by apply (sorted_NoDup less).
  - by apply (sorted_NoDup less).
  - intros k. by rewrite Hin1, Hin2.
Qed.

Lemma sameData_sym rs1 rs2 : sameData rs1 rs2 -> sameData rs2 rs1.
Proof. intros H t r l. by rewrite H. Qed.

Lemma same_types rs1 rs2 t :
  pruned rs1 -> sameData rs1 rs2 ->
  is_Some (Types rs1 !! t) -> is_Some (Types rs2 !! t).
Proof.
  intros Hp Hs [te Hte]. destruct (pruned_type rs1 t te Hp Hte) as (r & l & p & Hg).
  rewrite Hs in Hg. apply Get_inv in Hg as (te2 & _ & _ & H & _). eauto.
Qed.

Lemma same_resources rs1 rs2 t te1 te2 r :
  pruned rs1 -> sameData rs1 rs2 ->
  Types rs1 !! t = Some te1 -> Types rs2 !! t = Some te2 ->
  is_Some (Resources te1 !! r) -> is_Some (Resources te2 !! r).
Proof.
  intros Hp Hs Ht1 Ht2 [re Hre].
  destruct (pruned_resource rs1 t te1 r re Hp Ht1 Hre) as (l & p & Hg).
  rewrite Hs in Hg. apply Get_inv in Hg as (te2' & re2 & _ & H & Hr & _).
  rewrite Ht2 in H. injection H as <-. eauto.
Qed.

Lemma same_languages rs1 rs2 t r te1 te2 re1 re2 l :
  sameData rs1 rs2 ->
  Types rs1 !! t = Some te1 -> Types rs2 !! t = Some te2 ->
  Resources te1 !! r = Some re1 -> Resources te2 !! r = Some re2 ->
  de_Data <$> Data re1 !! l = de_Data <$> Data re2 !! l.
Proof.
  intros Hs Ht1 Ht2 Hr1 Hr2.
  rewrite <- (Get_languages rs1 t r te1 re1), <- (Get_languages rs2 t r te2 re2)
    by done. apply Hs.
Qed.

Lemma tree_same rs1 rs2 k1 k2 :
  complete rs1 -> complete rs2 -> pruned rs1 -> pruned rs2 -> sameData rs1 rs2 ->
  cacheOf lessThan (Types rs1) k1 -> cacheOf lessThan (Types rs2) k2 ->
  treeOf rs1 k1 = treeOf rs2 k2.
Proof.
  intros Hc1 Hc2 Hp1 Hp2 Hs Hk1 Hk2.
  assert (k1 = k2) as <-.
  { apply (cacheOf_unique lessThan (Types rs1) (Types rs2));
      [apply lessThan_irrefl|apply lessThan_trans|apply lessThan_total|done..|].
    intros t. split; [by apply same_types|].
    apply same_types; [done|by apply sameData_sym]. }
  unfold treeOf. apply map_ext_in. intros t Ht. f_equal.
  apply list_elem_of_In in Ht.
  destruct (proj1 (proj1 Hk1 t) Ht) as [te1 Hte1].
  destruct (proj1 (proj1 Hk2 t) Ht) as [te2 Hte2].
  unfold typeOf. rewrite Hte1, Hte2. cbn [from_option id].
  pose proof (Hc1 _ _ Hte1) as Htc1. pose proof (Hc2 _ _ Hte2) as Htc2.
  pose proof Htc1 as [(rk1 & Hrk1 & Hrc1 & _) _].
  pose proof Htc2 as [(rk2 & Hrk2 & Hrc2 & _) _].
  assert (rk1 = rk2) as <-.
  { apply (cacheOf_unique lessThan (Resources te1) (Resources te2));
      [apply lessThan_irrefl|apply lessThan_trans|apply lessThan_total|done..|].
    intros r. split; [by apply (same_resources rs1 rs2 t te1 te2 r)|].
    apply (same_resources rs2 rs1 t te2 te1 r); [done|by apply sameData_sym|done..]. }
  unfold resOf. rewrite Hrk1, Hrk2. cbn [cached from_option id].
  apply map_ext_in. intros r Hr. f_equal. apply list_elem_of_In in Hr.
  destruct (complete_resource te1 rk1 r Htc1 Hrk1 Hr) as [Hre1 (lk1 & Hlk1 & Hlc1)].
  destruct (complete_resource te2 rk1 r Htc2 Hrk2 Hr) as [Hre2 (lk2 & Hlk2 & Hlc2)].
  pose proof (fun l => same_languages rs1 rs2 t r te1 te2 _ _ l Hs Hte1 Hte2 Hre1 Hre2)
    as Hl.
  assert (lk1 = lk2) as <-.
  { apply (cacheOf_unique Z.ltb (Data (resourceOf te1 r)) (Data (resourceOf te2 r)));
      [apply Zltb_irrefl|apply Zltb_trans|apply Zltb_total|done..|].
    intros l. rewrite <- !(fmap_is_Some de_Data). by rewrite Hl. }
  unfold langsOf. rewrite Hlk1, Hlk2. cbn [cached from_option id].
  apply map_ext_in. intros l _. f_equal. unfold dataOf.
  specialize (Hl l).
  destruct (Data (resourceOf te1 r) !! l), (Data (resourceOf te2 r) !! l);
    cbn in *; congruence.
Qed.

Lemma elem_of_firstn {A} (x : A) n l : x ∈ firstn n l -> x ∈ l.
Proof.
  intros H. rewrite <- (firstn_skipn n l). apply elem_of_app. by left.
Qed.

Lemma nameSet_tree rs :
  complete (ordered rs) ->
  nameSet (ordered rs) = list_to_set (treeNames (treeOfSet rs)).
Proof.
  intros Hc. pose proof (typeKeys_cache_ordered rs) as [Hkin _].
  apply set_eq. intros n. unfold nameSet, treeNames.
  rewrite !elem_of_list_to_set, !list_elem_of_In, !in_flat_map. split.
  - intros ([t te] & Hin & Hn). cbn [fst snd] in Hn.
    apply list_elem_of_In, elem_of_map_to_list in Hin.
    pose proof (Hc _ _ Hin) as [(keys & Hk & [_ Hs] & Hcount) _].
    exists (t, resOf te). split.
    + unfold treeOfSet, treeOf. apply in_map_iff. exists t. split.
      * unfold typeOf. by rewrite Hin.
      * apply list_elem_of_In, Hkin. eauto.
    + cbn [fst snd]. apply list_elem_of_In. apply list_elem_of_In, elem_of_app in Hn.
      apply elem_of_app. destruct Hn as [Hn|Hn]; [by left|right].
      rewrite Hk in Hn. cbn [cached from_option id] in Hn.
      apply namesOf_elem in Hn. apply elem_of_firstn in Hn.
      apply namesOf_elem. unfold resOf. rewrite Hk. cbn [cached from_option id].
      rewrite map_map. cbn [fst]. by rewrite map_id.
  - intros ([t R] & Hin & Hn). cbn [fst snd] in Hn.
    unfold treeOfSet, treeOf in Hin. apply in_map_iff in Hin as (tk & [= -> <-] & Htk).
    apply list_elem_of_In, Hkin in Htk as [te Hte].
    unfold typeOf in Hn. rewrite Hte in Hn. cbn [from_option id] in Hn.
    pose proof (Hc _ _ Hte) as [(keys & Hk & [_ Hs] & Hcount) _].
    exists (t, te). split.
    + apply list_elem_of_In. by apply elem_of_map_to_list.
    + cbn [fst snd]. apply list_elem_of_In. apply list_elem_of_In, elem_of_app in Hn.
      apply elem_of_app. destruct Hn as [Hn|Hn]; [by left|right].
      rewrite Hk, Hcount. cbn [cached from_option id].
      apply namesOf_elem, name_in_leading; [done|].
      apply namesOf_elem in Hn. unfold resOf in Hn. rewrite Hk in Hn.
      cbn [cached from_option id] in Hn. rewrite map_map in Hn. cbn [fst] in Hn.
      by rewrite map_id in Hn.
Qed.

Lemma prepare_same rs1 rs2 :
  nameSet (ordered rs1) = nameSet (ordered rs2) ->
  ResourceSet_dirSize (ordered rs1) = ResourceSet_dirSize (ordered rs2) ->
  nameOffset (snd (ResourceSet_prepare rs1)) = nameOffset (snd (ResourceSet_prepare rs2))
  /\ namesData (snd (ResourceSet_prepare rs1)) = namesData (snd (ResourceSet_prepare rs2)).
Proof.
  intros Hn Hd. unfold ResourceSet_prepare.
  change (ResourceSet_order rs1 state0)
    with (ordered rs1, snd (ResourceSet_order rs1 state0)).
  change (ResourceSet_order rs2 state0)
    with (ordered rs2, snd (ResourceSet_order rs2 state0)).
  cbn iota. rewrite Hn, Hd.
  by destruct (fold_left addName _ _) as [[o' no'] data].
Qed.

Lemma write_same rs1 rs2 :
  clean rs1 -> clean rs2 -> pruned rs1 -> pruned rs2 -> sameData rs1 rs2 ->
  ResourceSet_bytes rs1 = ResourceSet_bytes rs2
  /\ snd (ResourceSet_write rs1) = snd (ResourceSet_write rs2).
Proof.
  intros Hc1 Hc2 Hp1 Hp2 Hs.
  pose proof (order_complete rs1 state0 Hc1) as Ho1. fold (ordered rs1) in Ho1.
  pose proof (order_complete rs2 state0 Hc2) as Ho2. fold (ordered rs2) in Ho2.
  assert (HT : treeOfSet rs1 = treeOfSet rs2).
  { apply tree_same;
      [done|done|by apply pruned_ordered|by apply pruned_ordered| |
       apply typeKeys_cache_ordered|apply typeKeys_cache_ordered].
    intros t r l. by rewrite !Get_ordered. }
  destruct (prepare_same rs1 rs2) as [Hno Hnd].
  { by rewrite !nameSet_tree, HT. }
  { by rewrite !dirSize_namesAt, HT. }
  unfold ResourceSet_bytes. rewrite (write_image rs1 Hc1), (write_image rs2 Hc2).
  cbn [fst snd]. by rewrite Hno, Hnd, HT.
Qed.

Lemma applySets_pruned calls : pruned (applySets calls).
Proof.
  unfold applySets, runOps. generalize pruned_empty. generalize emptySet.
  induction calls as [|[[[t r] l] d] calls IH]; intros rs Hp; cbn; [done|].
  apply IH. by apply Set_preserves_pruned.
Qed.

(** X10: Two sets built by calls to [Set] that hold the same resources are
    serialized to the same bytes, with the same relocation list, whatever the
    order of the calls and whatever was replaced or deleted on the way. *)
Theorem serialization_canonical (calls1 calls2 : list setCall) :
  sameData (applySets calls1) (applySets calls2) ->
  ResourceSet_bytes (applySets calls1) = ResourceSet_bytes (applySets calls2)
  /\ snd (ResourceSet_write (applySets calls1))
     = snd (ResourceSet_write (applySets calls2)).
Proof.
  intros Hs.
  apply write_same;
    [apply fresh_clean, applySets_fresh|apply fresh_clean, applySets_fresh|
     apply applySets_pruned|apply applySets_pruned|done].
Qed.

(** Three resources, set directly and set with a replacement, a deletion
    and another order. *)
Lemma serialization_canonical_witness :
  ResourceSet_bytes (applySets historyCalls) = ResourceSet_bytes (applySets directCalls).
Proof.
  refine (proj1 (serialization_canonical historyCalls directCalls _)).
  assert (H : contents (applySets historyCalls) = contents (applySets directCalls))
    by (by vm_compute).
  intros t r l. unfold ResourceSet_Get.
  apply (f_equal (fun c => c !! t)) in H. unfold contents in H.
  rewrite !lookup_fmap in H.
  destruct (Types (applySets historyCalls) !! t) as [te1|],
           (Types (applySets directCalls) !! t) as [te2|]; cbn in *; try done.
  injection H as H. apply (f_equal (fun c => c !! r)) in H.
  rewrite !lookup_fmap in H.
  destruct (Resources te1 !! r) as [re1|], (Resources te2 !! r) as [re2|];
    cbn in *; try done.
  injection H as H. by rewrite H.
Defined.

(** ** Decoding one type *)

Lemma keptTree_skip typeID t R T :
  skipType typeID t = true -> keptTree typeID ((t, R) :: T) = keptTree typeID T.
Proof.
  intros H. unfold keptTree. apply filter_cons_False.
  unfold kept. cbn [fst]. congruence.
Qed.

Lemma keptTree_keep typeID t R T :
  skipType typeID t = false ->
  keptTree typeID ((t, R) :: T) = (t, R) :: keptTree typeID T.
Proof. intros H. unfold keptTree. by apply filter_cons_True. Qed.

Section DecodeFiltered.
Context (buf : list byte) (no : gmap string Z) (typeID : Identifier).
Hypothesis buf_small : len buf < 2 ^ 31.

Lemma typeLoop_filter (T : tree) (o_rt o_lt o_di o_p : Z) (rs : ResourceSet) :
  Forall (type_ok buf no) T ->
  has_at buf o_rt (resDirsB no T o_lt) -> has_at buf o_lt (langDirsB T o_di) ->
  has_at buf o_di (dataIndexB T o_p) -> has_at buf o_p (payloadB T) ->
  forEntries (fun typeEntry st =>
      if skipType typeID (ident typeEntry) then (st, None)
      else
        walk typeEntry buf (fun resourceEntry st =>
          let resourceEntry := setLeaf resourceEntry in
          walk resourceEntry buf (readLang buf 0 typeEntry resourceEntry) st) st)
    (thread (fun tR o => [mkDirEntry (fst tR) o false])
            (fun tR => resTableSize (snd tR)) T o_rt) rs
  = (setTree rs (keptTree typeID T), None).
Proof.
  intros Hall. revert o_rt o_lt o_di o_p rs.
  induction Hall as [|[t R] T (Hk & Hc & Hlen & HR) Hall IH];
    intros o_rt o_lt o_di o_p rs Hrt Hlt Hdi Hp; [done|].
  cbn [thread app forEntries fst snd] in *.
  unfold resDirsB in Hrt. cbn [thread snd] in Hrt. fold (resDirsB no T) in Hrt.
  apply has_at_app in Hrt as [Htab Hrt]. rewrite len_tableB in Hrt.
  unfold langDirsB in Hlt. cbn [thread snd] in Hlt. fold (langDirsB T) in Hlt.
  apply has_at_app in Hlt as [Hlt1 Hlt]. rewrite len_langDirsR in Hlt.
  unfold dataIndexB in Hdi. cbn [thread snd] in Hdi. fold (dataIndexB T) in Hdi.
  apply has_at_app in Hdi as [Hdi1 Hdi]. rewrite len_dataIndexR in Hdi.
  unfold payloadB in Hp. cbn [flat_map snd] in Hp. fold (payloadB T) in Hp.
  apply has_at_app in Hp as [Hp1 Hp]. rewrite len_payloadR in Hp.
  destruct (has_at_bounds _ _ _ Hlt1) as [Hb0 Hb1]. rewrite len_langDirsR in Hb1.
  cbn [ident].
  destruct (skipType typeID t) eqn:Hskip.
  - rewrite keptTree_skip by done.
    by apply (IH _ (o_lt + total (fun rl => langTableSize (snd rl)) R)
                (o_di + dataIndexSizeR R) (o_p + payloadSizeR R)).
  - rewrite keptTree_keep by done. cbn [setTree fold_left fst snd].
    unfold walk at 1.
    rewrite (readDirTable_subdir buf no (mkDirEntry t o_rt false) langTableSize R o_lt);
      [| done | done | done | | done | lia].
    2:{ eapply Forall_impl; [exact HR|]. intros rl [Hrk _]. split; [done|].
        apply langTableSize_pos. }
    rewrite (resLoop buf buf_small (mkDirEntry t o_rt false) R o_lt o_di o_p);
      [| done | | done..].
    2:{ eapply Forall_impl; [exact HR|]. by intros rl [_ Hro]. }
    cbn [ident].
    by apply (IH _ (o_lt + total (fun rl => langTableSize (snd rl)) R)
                (o_di + dataIndexSizeR R) (o_p + payloadSizeR R)).
Qed.

Lemma decode_image_filter (nd : list Z) (T : tree) (rs : ResourceSet) :
  buf = imageB no nd T -> tree_ok buf no T ->
  readWith (readLang buf 0) buf typeID rs
  = (setTree rs (keptTree typeID T), None).
Proof.
  intros Hbuf [HlenT Hall].
  assert (Hparts :
    has_at buf 0 (typeDirB no T)
    /\ has_at buf (resDirsAt T) (resDirsB no T (langDirsAt T))
    /\ has_at buf (langDirsAt T) (langDirsB T (dataIndexAt T))
    /\ has_at buf (dataIndexAt T) (dataIndexB T (namesAt T + len nd * 2))
    /\ has_at buf (namesAt T + len nd * 2) (payloadB T)).
  { destruct (has_at_parts _ _ _ _ _ _ _ Hbuf) as (P1 & P2 & P3 & P4 & _ & P6).
    rewrite len_typeDirB in *.
    rewrite len_resDirsB, ?len_langDirsB, ?len_dataIndexB, ?len_writeUint16s in *.
    split; [done|]. split; [done|].
    split; [unfold langDirsAt; done|].
    split; [unfold dataIndexAt, langDirsAt; done|].
    replace (namesAt T + len nd * 2)
      with (resDirsAt T + total (fun tR => resTableSize (snd tR)) T
            + total (fun tR => total (fun rl => langTableSize (snd rl)) (snd tR)) T
            + total (fun tR => dataIndexSizeR (snd tR)) T + 2 * len nd) at 1;
      [done|]. unfold namesAt, dataIndexAt, langDirsAt. lia. }
  destruct Hparts as (H0 & H1 & H2 & H3 & H4).
  destruct (has_at_bounds _ _ _ H1) as [Hb0 Hb1]. rewrite len_resDirsB in Hb1.
  unfold readWith, walk at 1.
  rewrite (readDirTable_subdir buf no rootEntry resTableSize T (resDirsAt T));
    [| done | done | done | | done | lia].
  2:{ eapply Forall_impl; [exact Hall|]. intros tR (Hk & _). split; [done|].
      apply resTableSize_pos. }
  by apply (typeLoop_filter T (resDirsAt T) (langDirsAt T) (dataIndexAt T)
              (namesAt T + len nd * 2)).
Qed.
End DecodeFiltered.

Lemma flatT_filter typeID T t r l p :
  (t, r, l, p) ∈ flatT (keptTree typeID T)
  <-> skipType typeID t = false /\ (t, r, l, p) ∈ flatT T.
Proof.
  unfold flatT. rewrite !list_elem_of_In, !in_flat_map. split.
  - intros (tR & Hin & He). unfold keptTree in Hin.
    apply list_elem_of_In, list_elem_of_filter in Hin as [Hk Hin].
    pose proof He as He'. apply list_elem_of_In, flatR_key in He' as (r' & l' & Hkey).
    cbn in Hkey. injection Hkey as -> _ _. split; [done|].
    exists tR. split; [by apply list_elem_of_In|done].
  - intros [Hs (tR & Hin & He)].
    pose proof He as He'. apply list_elem_of_In, flatR_key in He' as (r' & l' & Hkey).
    cbn in Hkey. injection Hkey as Ht _ _.
    exists tR. split; [|done].
    unfold keptTree.
    apply list_elem_of_In, list_elem_of_filter. split; [|by apply list_elem_of_In].
    unfold kept. by rewrite <- Ht.
Qed.

Lemma setTree_filter_Get rs typeID t r l :
  complete (ordered rs) ->
  ResourceSet_Get (setTree emptySet (keptTree typeID (treeOfSet rs))) t r l
  = if skipType typeID t then None else ResourceSet_Get rs t r l.
Proof.
  intros Hc. rewrite setTree_flat.
  destruct (GetKey_fold (flatT (keptTree typeID (treeOfSet rs))) emptySet (t, r, l))
    as [(p & Hp & Hg)|[Hno Hg]]; cbn [GetKey] in Hg; rewrite Hg.
  - apply flatT_filter in Hp as [-> Hp]. symmetry. by apply flatT_elem.
  - cbn. destruct (skipType typeID t) eqn:Hs; [done|].
    destruct (ResourceSet_Get rs t r l) as [p|] eqn:E; [|done].
    apply flatT_elem in E; [|done]. exfalso. apply (Hno p).
    apply flatT_filter. by split.
Qed.

Lemma admitted_skipType typeID t : admitted typeID t -> skipType typeID t = false.
Proof.
  unfold admitted, skipType. intros [->|[->|[[-> ->]|[-> ->]]]].
  - done.
  - destruct (decide (typeID = ID 0)) as [->|H0]; [done|].
    rewrite (bool_decide_eq_true_2 _ H0). cbn [andb].
    by rewrite bool_decide_eq_false_2 by (by intros H; apply H).
  - done.
  - done.
Qed.

Lemma roundtrip_set_filter rs typeID :
  clean rs -> keys_wf rs -> fits rs ->
  exists rs', loadFromSection (ResourceSet_bytes rs) 0 typeID = Ok rs'
    /\ forall t r l,
         ResourceSet_Get rs' t r l
         = if skipType typeID t then None else ResourceSet_Get rs t r l.
Proof.
  intros Hclean Hwf Hfits.
  pose proof (order_complete rs state0 Hclean) as Hc. fold (ordered rs) in Hc.
  exists (setTree emptySet (keptTree typeID (treeOfSet rs))). split.
  - unfold loadFromSection, ResourceSet_read.
    rewrite (decode_image_filter (ResourceSet_bytes rs)
               (nameOffset (snd (ResourceSet_prepare rs))) typeID (proj2 Hfits)
               (namesData (snd (ResourceSet_prepare rs))) (treeOfSet rs));
      [done|by apply bytes_image|by apply tree_ok_of_set].
  - intros. by apply setTree_filter_Get.
Qed.

(** X11: Decoding with a type filter the section serialized for a collection of
    resources (within the limits of the format, as for the round trip without
    a filter) yields exactly the resources of the collection whose type the
    filter lets through: the requested type, and with the group of icons the
    icons, with the group of cursors the cursors. *)
Theorem roundtrip_filtered (entries : list entry) (typeID : Identifier) :
  NoDup (map entryKey entries) -> Forall entry_ok entries ->
  fits (buildSet entries) ->
  exists S',
    loadFromSection (ResourceSet_bytes (buildSet entries)) 0 typeID = Ok S'
    /\ forall t r l p,
         ResourceSet_Get S' t r l = Some p
         <-> (t, r, l, p) ∈ entries /\ admitted typeID t.
Proof.
  intros Hnd Hall Hfits.
  destruct (buildSet_inv entries Hall) as [Hfresh Hwf].
  destruct (roundtrip_set_filter (buildSet entries) typeID
              (fresh_clean _ Hfresh) Hwf Hfits) as (S' & Hload & Hget).
  exists S'. split; [done|]. intros t r l p. rewrite Hget.
  destruct (skipType typeID t) eqn:Hs.
  - split; [done|]. intros [_ Ha]. apply admitted_skipType in Ha. congruence.
  - rewrite buildSet_Get by done. split; [|by intros [? _]].
    intros Hin. split; [done|]. by apply skipType_false.
Qed.

(** Loading the group of icons of a set that also holds a manifest. *)
Lemma roundtrip_filtered_witness :
  exists S',
    loadFromSection (ResourceSet_bytes (buildSet filteredEntries)) 0 RT_GROUP_ICON = Ok S'
    /\ forall t r l p,
         ResourceSet_Get S' t r l = Some p
         <-> (t, r, l, p) ∈ filteredEntries /\ admitted RT_GROUP_ICON t.
Proof.
  apply (roundtrip_filtered filteredEntries RT_GROUP_ICON).
  - apply (bool_decide_unpack _). by vm_compute.
  - repeat constructor; by vm_compute.
  - split; [split|]; [by vm_compute| |by vm_compute].
    apply (bool_decide_unpack _). by vm_compute.
Defined.

(** ** Icons in a resource set *)

Lemma set_lastIconID rs t r l d :
  lastIconID (ResourceSet_set rs t r l (Some d)) = bump t RT_ICON r (lastIconID rs).
Proof.
  unfold ResourceSet_set.
  destruct (Types rs !! t) as [te|]; [destruct (Resources te !! r) as [re|]|];
    done.
Qed.

Lemma setIconImages_ok imgs : forall rs,
  0 <= lastIconID rs -> lastIconID rs + len imgs <= 65535 ->
  Forall Image_wf imgs ->
  setIconImages rs imgs
  = (fold_left setEntry (iconEntries imgs (lastIconID rs + 1)) rs,
     groupEntries imgs (lastIconID rs + 1), None).
Proof.
  induction imgs as [|img imgs IH]; intros rs H0 Hn Hall; [done|].
  apply Forall_cons in Hall as [[_ Himg] Hall].
  unfold len in Hn. cbn [length] in Hn.
  cbn [setIconImages iconEntries groupEntries fold_left].
  unfold uint16. rewrite Z.mod_small by lia.
  destruct (Image img) as [d|] eqn:Hd; [|done]. cbn [from_option id].
  unfold ResourceSet_Set. cbn [checkIdentifier RT_ICON].
  destruct (Z.eqb_spec (lastIconID rs + 1) 0) as [?|_]; [lia|].
  change (3 =? 0) with false. cbn iota.
  set (rs1 := ResourceSet_set rs RT_ICON (ID (lastIconID rs + 1)) LCIDNeutral (Some d)).
  change (setEntry rs (RT_ICON, ID (lastIconID rs + 1), 0, d)) with rs1.
  assert (HL : lastIconID rs1 = lastIconID rs + 1).
  { unfold rs1. rewrite set_lastIconID. unfold bump, RT_ICON.
    rewrite bool_decide_eq_true_2 by done.
    destruct (Z.ltb_spec (lastIconID rs) (lastIconID rs + 1)); lia. }
  rewrite (IH rs1) by (done || unfold len; lia). rewrite HL. done.
Qed.

Lemma iconEntries_key imgs : forall id e,
  e ∈ iconEntries imgs id ->
  exists j, 0 <= j /\ entryKey e = (RT_ICON, ID (id + j), 0).
Proof.
  induction imgs as [|img imgs IH]; intros id e He; [by apply elem_of_nil in He|].
  cbn [iconEntries] in He. apply elem_of_cons in He as [->|He].
  - exists 0. split; [lia|]. cbn. by rewrite Z.add_0_r.
  - apply IH in He as (j & Hj & ->). exists (j + 1). split; [lia|].
    do 3 f_equal. lia.
Qed.

Lemma iconEntries_NoDup imgs : forall id, NoDup (map entryKey (iconEntries imgs id)).
Proof.
  induction imgs as [|img imgs IH]; intros id; cbn [iconEntries map]; constructor.
  - intros Hin. apply list_elem_of_fmap in Hin as (e & Heq & He).
    apply iconEntries_key in He as (j & Hj & Hk). rewrite Hk in Heq.
    cbn in Heq. injection Heq as Heq. lia.
  - apply IH.
Qed.

Lemma iconEntries_lookup imgs : forall id j img,
  imgs !! j = Some img ->
  (RT_ICON, ID (id + Z.of_nat j), 0, default [] (Image img)) ∈ iconEntries imgs id.
Proof.
  induction imgs as [|x imgs IH]; intros id j img Hj; [done|].
  destruct j as [|j].
  - injection Hj as ->. cbn [iconEntries]. rewrite Z.add_0_r. by left.
  - change (imgs !! j = Some img) in Hj. cbn [iconEntries]. right.
    replace (id + Z.of_nat (S j)) with (id + 1 + Z.of_nat j) by lia. by apply IH.
Qed.

Lemma entries_functional (L : list entry) k a b :
  NoDup (map entryKey L) -> (k, a) ∈ L -> (k, b) ∈ L -> a = b.
Proof.
  induction L as [|e L IH]; intros Hnd Ha Hb.
  - by apply elem_of_nil in Ha.
  - cbn in Hnd. apply NoDup_cons in Hnd as [Hn Hnd].
    apply elem_of_cons in Ha as [Ha|Ha], Hb as [Hb|Hb].
    + congruence.
    + subst e. exfalso. apply Hn. cbn.
      apply list_elem_of_fmap. by exists (k, b).
    + subst e. exfalso. apply Hn. cbn.
      apply list_elem_of_fmap. by exists (k, a).
    + eauto.
Qed.

Lemma Get_fold_in (L : list entry) rs t r l p :
  NoDup (map entryKey L) -> (t, r, l, p) ∈ L ->
  ResourceSet_Get (fold_left setEntry L rs) t r l = Some p.
Proof.
  intros Hnd Hin.
  destruct (GetKey_fold L rs (t, r, l)) as [(p' & Hp & Hg)|[Hno _]].
  - cbn [GetKey] in Hg. rewrite Hg. f_equal.
    by apply (entries_functional L (t, r, l)).
  - by apply Hno in Hin.
Qed.

Lemma Get_fold_out (L : list entry) rs t r l :
  (forall p, (t, r, l, p) ∉ L) ->
  ResourceSet_Get (fold_left setEntry L rs) t r l = ResourceSet_Get rs t r l.
Proof.
  intros Hout.
  destruct (GetKey_fold L rs (t, r, l)) as [(p' & Hp & _)|[_ Hg]].
  - by apply Hout in Hp.
  - exact Hg.
Qed.

(** ** The binary form of the group *)

Lemma read_write_entry info id :
  IconInfo_wf info -> 0 <= id < 2 ^ 16 ->
  readIconResDirEntry (writeIconResDirEntry info id) = (info, id).
Proof.
  intros (HW & HH & HC & HR & HP & HB & HS) Hid.
  destruct info as [W H C R P B S]. cbn [Width Height ColorCount ii_Reserved Planes
    BitCount BytesInRes] in *.
  unfold readIconResDirEntry, readIconInfo.
  set (bs := writeIconResDirEntry (mkIconInfo W H C R P B S) id).
  change (slice bs 0 1) with (le_split 1 W).
  change (slice bs 1 1) with (le_split 1 H).
  change (slice bs 2 1) with (le_split 1 C).
  change (slice bs 3 1) with (le_split 1 R).
  change (slice bs 4 2) with (le_split 2 P).
  change (slice bs 6 2) with (le_split 2 B).
  change (slice bs 8 4) with (le_split 4 S).
  change (slice bs 12 2) with (le_split 2 id).
  by rewrite !le_combine_split_small by done.
Qed.

Lemma len_writeIconResDirEntry info id :
  len (writeIconResDirEntry info id) = sizeOfIconResDirEntry.
Proof. done. Qed.

Lemma len_groupEntries imgs : forall id,
  len (groupEntries imgs id) = len imgs * sizeOfIconResDirEntry.
Proof.
  induction imgs as [|img imgs IH]; intros id; [done|].
  cbn [groupEntries]. rewrite len_app, IH, len_writeIconResDirEntry.
  unfold len. cbn [length]. lia.
Qed.

(** ** [firstLang] on a resource that has the neutral language *)

Lemma firstLang_caches_ok rs t r :
  caches_ok rs -> caches_ok (fst (ResourceSet_firstLang rs t r)).
Proof.
  intros Hok. unfold ResourceSet_firstLang.
  destruct (Types rs !! t) as [te|] eqn:Ht; [|done].
  destruct (Resources te !! r) as [re|] eqn:Hr; [|done].
  destruct (Z.of_nat (size (Data re)) =? 0); [done|]. cbn [fst].
  apply caches_ok_insert; [done|].
  destruct (Hok _ _ Ht) as [Hkeys Hres]. split.
  - cbn [te_OrderedKeys Resources NamesCount]. intros keys Hk.
    destruct (Hkeys keys Hk) as [Hc Hn]. split; [|done].
    apply cacheOf_insert_present; [eauto|done].
  - cbn [Resources]. intros r' re' Hl.
    destruct (decide (r = r')) as [<-|Hne].
    + rewrite lookup_insert_eq in Hl. injection Hl as <-.
      apply ResourceEntry_order_ok. by eapply Hres.
    + rewrite lookup_insert_ne in Hl by done. by eapply Hres.
Qed.

Lemma firstLang_neutral rs t r p :
  caches_ok rs -> langs16 rs ->
  ResourceSet_Get rs t r 0 = Some p ->
  snd (ResourceSet_firstLang rs t r) = 0.
Proof.
  intros Hok H16 Hg.
  destruct (firstLang_spec rs t r Hok H16) as (_ & _ & Hlow).
  destruct Hlow as [Hin Hmin].
  { exists 0. by rewrite Hg. }
  specialize (Hmin 0). rewrite Hg in Hmin. specialize (Hmin ltac:(done)).
  destruct (ResourceSet_Get rs t r (snd (ResourceSet_firstLang rs t r)))
    as [p'|] eqn:E; [|done].
  apply H16 in E. unfold is_uint16 in E. lia.
Qed.

Lemma firstLang_langs16 rs t r :
  caches_ok rs -> langs16 rs -> langs16 (fst (ResourceSet_firstLang rs t r)).
Proof.
  intros Hok H16 t' r' l' p Hg.
  destruct (firstLang_spec rs t r Hok H16) as (Hsame & _).
  rewrite Hsame in Hg. by eapply H16.
Qed.

(** ** Reading the group back *)

Lemma getIconImages_ok imgs : forall rs data pos id acc,
  has_at data pos (groupEntries imgs id) ->
  caches_ok rs -> langs16 rs ->
  0 <= id -> id + len imgs <= 2 ^ 16 ->
  Forall Image_wf imgs ->
  (forall j img, imgs !! j = Some img ->
     ResourceSet_Get rs RT_ICON (ID (id + Z.of_nat j)) 0 = Image img) ->
  snd (getIconImages (length imgs) rs data pos acc) = IconOk (mkIcon (acc ++ imgs)).
Proof.
  induction imgs as [|img imgs IH]; intros rs data pos id acc Hat Hok H16 H0 Hn Hall Hget.
  - cbn. by rewrite app_nil_r.
  - apply Forall_cons in Hall as [[Hinfo Himg] Hall].
    unfold len in Hn. cbn [length] in Hn.
    cbn [groupEntries] in Hat. apply has_at_app in Hat as [Hat1 Hat2].
    rewrite len_writeIconResDirEntry in Hat2.
    cbn [length getIconImages].
    rewrite (binaryRead_has_at data pos (writeIconResDirEntry (Info img) id))
      by done.
    rewrite read_write_entry by (done || lia).
    pose proof (Hget O img eq_refl) as Hg0. rewrite Z.add_0_r in Hg0.
    destruct (Image img) as [d|] eqn:Hd; [|done].
    pose proof (firstLang_neutral rs RT_ICON (ID id) d Hok H16 Hg0) as Hl.
    destruct (firstLang_spec rs RT_ICON (ID id) Hok H16) as (Hsame & _).
    pose proof (firstLang_caches_ok rs RT_ICON (ID id) Hok) as Hok'.
    pose proof (firstLang_langs16 rs RT_ICON (ID id) Hok H16) as H16'.
    destruct (ResourceSet_firstLang rs RT_ICON (ID id)) as [rs1 lang].
    cbn [fst snd] in *. subst lang. rewrite Hsame, Hg0.
    rewrite (IH rs1 data (pos + sizeOfIconResDirEntry) (id + 1)); try done.
    + rewrite <- app_assoc. cbn [app]. do 3 f_equal.
      destruct img as [info im]. cbn in *. by rewrite Hd.
    + lia.
    + unfold len. lia.
    + intros j img' Hj. rewrite Hsame.
      replace (id + 1 + Z.of_nat j) with (id + Z.of_nat (S j)) by lia.
      by apply Hget.
Qed.

Lemma sort_Slice_length {A} (less : A -> A -> bool) (l : list A) :
  length (sort_Slice less l) = length l.
Proof. apply Permutation_length, sort_Slice_perm. Qed.

Lemma sort_Slice_Forall {A} (less : A -> A -> bool) (P : A -> Prop) (l : list A) :
  Forall P l -> Forall P (sort_Slice less l).
Proof. intros H. by rewrite sort_Slice_perm. Qed.

Lemma runOps_lastIconID ops : 0 <= lastIconID (runOps ops).
Proof.
  unfold runOps. assert (H0 : 0 <= lastIconID emptySet) by done.
  revert H0. generalize emptySet.
  induction ops as [|o ops IH]; intros rs Hrs; [done|].
  cbn [fold_left]. apply IH. destruct o as [t r l d| |]; cbn [runOp].
  - unfold ResourceSet_Set.
    destruct (checkIdentifier r); [done|]. destruct (checkIdentifier t); [done|].
    cbn [fst]. destruct d as [d|].
    + rewrite set_lastIconID. unfold bump. destruct (bool_decide _); [|done].
      destruct r as [i|]; [|done]. destruct (Z.ltb_spec (lastIconID rs) i); lia.
    + change (ResourceSet_set rs t r l None) with (ResourceSet_delete rs t r l).
      unfold ResourceSet_delete.
      destruct (Types rs !! t) as [te|]; [|done].
      destruct (Resources te !! r) as [re|]; [|done].
      by repeat case_match.
  - done.
  - by rewrite write_fst.
Qed.

Lemma fold_setEntry_caches_ok (E : list entry) : forall rs,
  caches_ok rs -> caches_ok (fold_left setEntry E rs).
Proof.
  induction E as [|[[[t r] l] p] E IH]; intros rs Hok; [done|].
  cbn [fold_left setEntry]. apply IH. by apply set_caches_ok.
Qed.

Lemma GetIconTranslation_ok rs resID langID imgs id :
  caches_ok rs -> langs16 rs -> 0 < id -> id + len imgs <= 2 ^ 16 ->
  Forall Image_wf imgs ->
  ResourceSet_Get rs RT_GROUP_ICON resID langID
  = Some (writeIconDirHeader 0 1 (uint16 (len imgs)) ++ groupEntries imgs id) ->
  (forall j img, imgs !! j = Some img ->
     ResourceSet_Get rs RT_ICON (ID (id + Z.of_nat j)) 0 = Image img) ->
  snd (ResourceSet_GetIconTranslation rs resID langID) = IconOk (mkIcon imgs).
Proof.
  intros Hok H16 H0 Hn Hall Hgroup Hget.
  unfold ResourceSet_GetIconTranslation. rewrite Hgroup.
  set (hdr := writeIconDirHeader 0 1 (uint16 (len imgs))).
  rewrite (binaryRead_has_at _ 0 hdr) by (apply has_at_here || done).
  change (readUint16 hdr 0) with (le_combine (le_split 2 0)).
  change (readUint16 hdr 2) with (le_combine (le_split 2 1)).
  change (readUint16 hdr 4) with (le_combine (le_split 2 (uint16 (len imgs)))).
  rewrite !le_combine_split_small by (done || apply uint16_range).
  cbn [Z.eqb negb orb]. change (1 =? 1) with true. cbn [negb orb].
  unfold uint16. pose proof (len_nonneg imgs).
  rewrite Z.mod_small by lia. unfold len at 1. rewrite Nat2Z.id.
  apply (getIconImages_ok imgs rs _ sizeOfIconDirHeader id []); try done; [|lia].
  exists hdr, []. rewrite app_nil_r. done.
Qed.

Lemma SetIconTranslation_ok rs resID langID icon :
  caches_ok rs -> langs16 rs -> 0 <= lastIconID rs ->
  checkIdentifier resID = None -> is_uint16 langID -> Icon_wf icon ->
  lastIconID rs + len (Images icon) <= 65535 ->
  let imgs := Images (Icon_order icon) in
  exists rs',
    ResourceSet_SetIconTranslation rs resID langID icon
    = (rs', Icon_order icon, None)
    /\ caches_ok rs' /\ langs16 rs'
    /\ Forall Image_wf imgs /\ len imgs = len (Images icon)
    /\ ResourceSet_Get rs' RT_GROUP_ICON resID langID
       = Some (writeIconDirHeader 0 1 (uint16 (len imgs))
               ++ groupEntries imgs (lastIconID rs + 1))
    /\ (forall j img, imgs !! j = Some img ->
          ResourceSet_Get rs' RT_ICON (ID (lastIconID rs + 1 + Z.of_nat j)) 0
          = Image img).
Proof.
  intros Hok H16 H0 Hres Hlang Hwf Hn. cbn zeta.
  unfold ResourceSet_SetIconTranslation.
  set (imgs := Images (Icon_order icon)).
  assert (Hlen : len imgs = len (Images icon)).
  { unfold imgs, Icon_order, sort_SliceStable, len. cbn [Images].
    by rewrite sort_Slice_length. }
  assert (Hall : Forall Image_wf imgs).
  { unfold imgs, Icon_order, sort_SliceStable. cbn [Images].
    by apply sort_Slice_Forall. }
  rewrite (setIconImages_ok imgs rs) by (done || lia).
  set (E := iconEntries imgs (lastIconID rs + 1)).
  set (rs1 := fold_left setEntry E rs).
  rewrite <- Hlen.
  set (data := writeIconDirHeader 0 1 (uint16 (len imgs))
               ++ groupEntries imgs (lastIconID rs + 1)).
  unfold ResourceSet_Set. rewrite Hres. cbn [checkIdentifier RT_GROUP_ICON].
  change (14 =? 0) with false. cbn iota.
  exists (ResourceSet_set rs1 (ID 14) resID langID (Some data)).
  split; [done|].
  assert (Hok1 : caches_ok rs1) by (by apply fold_setEntry_caches_ok).
  assert (H161 : langs16 rs1).
  { intros t r l p Hg.
    destruct (GetKey_fold E rs (t, r, l)) as [(p' & Hp & _)|[_ Hg']].
    - apply iconEntries_key in Hp as (j & _ & Hk). cbn in Hk.
      injection Hk as _ _ ->. done.
    - cbn [GetKey] in Hg'. fold rs1 in Hg'. rewrite Hg' in Hg. by eapply H16. }
  split; [by apply set_caches_ok|]. split.
  { intros t r l p Hg. rewrite Get_set in Hg.
    destruct (decide _) as [[= <- <- <-]|]; [done|by eapply H161]. }
  split; [done|]. split; [done|]. split.
  { rewrite Get_set. by rewrite decide_True. }
  intros j img Hj. rewrite Get_set. rewrite decide_False by done.
  pose proof (iconEntries_lookup imgs (lastIconID rs + 1) j img Hj) as Hin.
  rewrite Forall_forall in Hall.
  destruct (Hall img) as [_ Himg]; [by eapply list_elem_of_lookup_2|].
  destruct (Image img) as [d|] eqn:Hd; [|done]. cbn [from_option id] in Hin.
  apply Get_fold_in; [apply iconEntries_NoDup|done].
Qed.

(** X12: An icon set with [SetIconTranslation] is read back by
    [GetIconTranslation], and one set with [SetIcon] by [GetIcon], with its
    images in the order of [Icon.order]; the set is one reached by calls to
    [Set], walks and writes, the icon has no nil image and the ordinals after
    [lastIconID] do not run out. *)
Theorem SetIcon_GetIcon (ops : list op) (resID : Identifier) (langID : Z)
    (icon : Icon) :
  ops16 ops -> checkIdentifier resID = None -> is_uint16 langID ->
  Icon_wf icon ->
  lastIconID (runOps ops) + len (Images icon) <= 65535 ->
  let rs := runOps ops in
  let set := ResourceSet_SetIconTranslation rs resID langID icon in
  set = (fst (fst set), Icon_order icon, None)
  /\ snd (ResourceSet_GetIconTranslation (fst (fst set)) resID langID)
     = IconOk (Icon_order icon)
  /\ (langID = LCIDNeutral ->
      set = ResourceSet_SetIcon rs resID icon
      /\ snd (ResourceSet_GetIcon (fst (fst set)) resID) = IconOk (Icon_order icon)).
Proof.
  intros H16 Hres Hlang Hwf Hn. cbn zeta.
  destruct (SetIconTranslation_ok (runOps ops) resID langID icon)
    as (rs' & Hset & Hok' & H16' & Hall & Hlen & Hgroup & Hget);
    [apply runOps_caches_ok|by apply runOps_langs16|apply runOps_lastIconID|done..|].
  pose proof (runOps_lastIconID ops) as H0.
  rewrite Hset. cbn [fst snd]. split; [done|]. split.
  - apply (GetIconTranslation_ok rs' resID langID _ (lastIconID (runOps ops) + 1));
      [done|done|lia| |done|done|done].
    unfold Icon_order in *. cbn [Images] in *. lia.
  - intros ->. split; [done|]. unfold ResourceSet_GetIcon.
    pose proof (firstLang_neutral rs' RT_GROUP_ICON resID _ Hok' H16' Hgroup) as Hl.
    destruct (firstLang_spec rs' RT_GROUP_ICON resID Hok' H16') as (Hsame & _).
    pose proof (firstLang_caches_ok rs' RT_GROUP_ICON resID Hok') as Hok''.
    pose proof (firstLang_langs16 rs' RT_GROUP_ICON resID Hok' H16') as H16''.
    destruct (ResourceSet_firstLang rs' RT_GROUP_ICON resID) as [rs'' lang].
    cbn [fst snd] in *. subst lang.
    apply (GetIconTranslation_ok rs'' resID 0 _ (lastIconID (runOps ops) + 1));
      [done|done|lia| |done| |].
    + unfold Icon_order in *. cbn [Images] in *. lia.
    + by rewrite Hsame.
    + intros j img Hj. rewrite Hsame. by apply Hget.
Qed.

(** An icon of two images, the larger one last, set under a name in a set
    that holds an icon image already. *)
Lemma SetIcon_GetIcon_witness :
  snd (ResourceSet_GetIcon
         (fst (fst (ResourceSet_SetIcon (runOps sampleOps) (Name "APP") sampleIcon)))
         (Name "APP"))
  = IconOk (Icon_order sampleIcon).
Proof.
  refine (proj2 (proj2 (proj2
            (SetIcon_GetIcon sampleOps (Name "APP") 0 sampleIcon _ _ _ _ _))
            eq_refl)).
  - repeat constructor; by vm_compute.
  - done.
  - by vm_compute.
  - repeat constructor; by vm_compute.
  - by vm_compute.
Defined.

(** ** [Icon.order] *)

Section StableSort.
Context {A : Type} (less : A -> A -> bool).
Hypothesis less_irrefl : forall x, less x x = false.
Hypothesis less_trans :
  forall x y z, less x y = true -> less y z = true -> less x z = true.
Hypothesis less_neg_trans :
  forall x y z, less x y = false -> less y z = false -> less x z = false.

Lemma less_asym x y : less x y = true -> less y x = false.
Proof.
  intros H. destruct (less y x) eqn:E; [|done].
  pose proof (less_trans _ _ _ H E) as Hc. by rewrite less_irrefl in Hc.
Qed.

Lemma stable_insert_sorted x l :
  StronglySorted (fun a b => less b a = false) l ->
  StronglySorted (fun a b => less b a = false) (sort_insert less x l).
Proof.
  intros Hs. induction Hs as [|y l Hs IH Hall]; cbn [sort_insert].
  - repeat constructor.
  - destruct (less y x) eqn:Hyx.
    + constructor; [done|].
      apply Forall_forall. intros z Hz.
      rewrite sort_insert_perm in Hz.
      apply elem_of_cons in Hz as [->|Hz]; [by apply less_asym|].
      rewrite Forall_forall in Hall. by apply Hall.
    + constructor; [by constructor|].
      constructor; [done|].
      eapply Forall_impl; [exact Hall|]. intros z Hz. cbn in Hz. eauto.
Qed.

Lemma stable_sort_sorted l :
  StronglySorted (fun a b => less b a = false) (sort_Slice less l).
Proof.
  induction l as [|x l IH]; cbn [sort_Slice]; [constructor|].
  by apply stable_insert_sorted.
Qed.

Lemma stable_insert_filter (P : A -> Prop) `{forall x, Decision (P x)} x l :
  (forall y z, P y -> P z -> less y z = false) ->
  filter P (sort_insert less x l) = filter P (x :: l).
Proof.
  intros HP. induction l as [|y l IH]; [done|]. cbn [sort_insert].
  destruct (less y x) eqn:Hyx; [|done].
  rewrite filter_cons, IH, !filter_cons.
  destruct (decide (P y)) as [Py|]; [|done].
  destruct (decide (P x)) as [Px|]; [|done].
  by rewrite (HP y x Py Px) in Hyx.
Qed.

Lemma stable_sort_filter (P : A -> Prop) `{forall x, Decision (P x)} l :
  (forall y z, P y -> P z -> less y z = false) ->
  filter P (sort_Slice less l) = filter P l.
Proof.
  intros HP. induction l as [|x l IH]; [done|]. cbn [sort_Slice].
  rewrite stable_insert_filter by done. by rewrite !filter_cons, IH.
Qed.

End StableSort.

Lemma iconLess_true a b :
  iconLess a b = true
  <-> BitCount (Info b) < BitCount (Info a)
      \/ (BitCount (Info a) = BitCount (Info b)
          /\ uint8 (Width (Info b) - 1) + 1 < uint8 (Width (Info a) - 1) + 1).
Proof.
  unfold iconLess. rewrite orb_true_iff, andb_true_iff, !Z.ltb_lt, Z.eqb_eq. done.
Qed.

Lemma iconLess_false a b :
  iconLess a b = false
  <-> BitCount (Info a) <= BitCount (Info b)
      /\ (BitCount (Info a) = BitCount (Info b)
          -> uint8 (Width (Info a) - 1) + 1 <= uint8 (Width (Info b) - 1) + 1).
Proof.
  rewrite <- not_true_iff_false, iconLess_true. lia.
Qed.

Lemma iconLess_irrefl x : iconLess x x = false.
Proof. apply iconLess_false. lia. Qed.

Lemma iconLess_trans x y z :
  iconLess x y = true -> iconLess y z = true -> iconLess x z = true.
Proof. rewrite !iconLess_true. lia. Qed.

Lemma iconLess_neg_trans x y z :
  iconLess x y = false -> iconLess y z = false -> iconLess x z = false.
Proof. rewrite !iconLess_false. lia. Qed.

(** The width that [Icon.order] compares: 0 stands for 256. *)
Lemma width_rank w :
  0 <= w < 2 ^ 8 -> uint8 (w - 1) + 1 = if w =? 0 then 256 else w.
Proof.
  intros Hw. unfold uint8. destruct (Z.eqb_spec w 0) as [->|Hne]; [done|].
  rewrite Z.mod_small by lia. lia.
Qed.

(** X13: [Icon.order] rearranges the images so that none comes after an image of
    fewer bits per pixel, or of the same bits per pixel and a smaller width,
    the width 0 counting as 256; images of the same rank keep the order they
    had. *)
Theorem Icon_order_sorted (icon : Icon) :
  let imgs := Images (Icon_order icon) in
  Permutation imgs (Images icon)
  /\ StronglySorted
       (fun a b =>
          BitCount (Info b) <= BitCount (Info a)
          /\ (BitCount (Info a) = BitCount (Info b) ->
              uint8 (Width (Info b) - 1) + 1 <= uint8 (Width (Info a) - 1) + 1))
       imgs
  /\ (forall a, filter (sameRank a) imgs = filter (sameRank a) (Images icon))
  /\ forall w, 0 <= w < 2 ^ 8 ->
       uint8 (w - 1) + 1 = if w =? 0 then 256 else w.
Proof.
  cbn zeta. unfold Icon_order, sort_SliceStable. cbn [Images].
  split; [apply sort_Slice_perm|]. split; [|split; [|apply width_rank]].
  - pose proof (stable_sort_sorted iconLess iconLess_irrefl iconLess_trans
                  iconLess_neg_trans (Images icon)) as Hs.
    induction Hs as [|x l Hs IH Hall]; constructor; [done|].
    eapply Forall_impl; [exact Hall|]. intros y Hy. cbn in Hy.
    apply iconLess_false in Hy. lia.
  - intros a. apply stable_sort_filter.
    intros y z [Hay Hya] [Haz Hza].
    by apply (iconLess_neg_trans y a z).
Qed.

(** ** The ordinals of the icon images *)

Lemma delete_lastIconID rs t r l :
  lastIconID (ResourceSet_delete rs t r l) = lastIconID rs.
Proof.
  unfold ResourceSet_delete.
  destruct (Types rs !! t) as [te|]; [|done].
  destruct (Resources te !! r) as [re|]; [|done].
  by repeat case_match.
Qed.

Lemma bump_ge t tag r L : L <= bump t tag r L.
Proof.
  unfold bump. destruct (bool_decide _); [|lia].
  destruct r as [i|]; [|lia]. destruct (Z.ltb_spec L i); lia.
Qed.

Lemma Set_icons_below rs t r l d :
  icons_below rs -> icons_below (fst (ResourceSet_Set rs t r l d)).
Proof.
  intros Hb. unfold ResourceSet_Set.
  destruct (checkIdentifier r); [done|]. destruct (checkIdentifier t); [done|].
  cbn [fst]. destruct d as [d|].
  - intros i l' p. rewrite Get_set, set_lastIconID.
    destruct (decide _) as [[= -> -> ->]|].
    + intros _. unfold bump. rewrite bool_decide_eq_true_2 by done.
      destruct (Z.ltb_spec (lastIconID rs) i); lia.
    + intros Hg. apply Hb in Hg. pose proof (bump_ge t RT_ICON r (lastIconID rs)). lia.
  - change (ResourceSet_set rs t r l None) with (ResourceSet_delete rs t r l).
    intros i l' p. rewrite Get_delete, delete_lastIconID.
    destruct (decide _); [done|]. apply Hb.
Qed.

Lemma runOps_icons_below ops : icons_below (runOps ops).
Proof.
  unfold runOps.
  assert (H0 : icons_below emptySet).
  { intros i l p H. unfold ResourceSet_Get in H. cbn in H.
    by rewrite lookup_empty in H. }
  revert H0. generalize emptySet.
  induction ops as [|o ops IH]; intros rs Hrs; [done|].
  cbn [fold_left]. apply IH. destruct o as [t r l d| |]; cbn [runOp].
  - by apply Set_icons_below.
  - intros i l p. rewrite Walk_fst, Get_ordered. apply Hrs.
  - intros i l p. rewrite write_fst. fold (ordered rs). rewrite Get_ordered.
    apply Hrs.
Qed.

Lemma fold_icons_lastIconID imgs : forall rs,
  0 <= lastIconID rs ->
  lastIconID (fold_left setEntry (iconEntries imgs (lastIconID rs + 1)) rs)
  = lastIconID rs + len imgs.
Proof.
  induction imgs as [|img imgs IH]; intros rs H0.
  - cbn. unfold len. cbn. lia.
  - cbn [iconEntries fold_left setEntry].
    set (rs1 := ResourceSet_set rs RT_ICON (ID (lastIconID rs + 1)) 0 _).
    assert (HL : lastIconID rs1 = lastIconID rs + 1).
    { unfold rs1. rewrite set_lastIconID. unfold bump.
      rewrite bool_decide_eq_true_2 by done.
      destruct (Z.ltb_spec (lastIconID rs) (lastIconID rs + 1)); lia. }
    rewrite <- HL, IH by lia. rewrite HL. unfold len. cbn [length]. lia.
Qed.

Lemma iconEntries_elem imgs : forall id e,
  e ∈ iconEntries imgs id ->
  exists j img, imgs !! j = Some img
    /\ e = (RT_ICON, ID (id + Z.of_nat j), 0, default [] (Image img)).
Proof.
  induction imgs as [|x imgs IH]; intros id e He; [by apply elem_of_nil in He|].
  cbn [iconEntries] in He. apply elem_of_cons in He as [->|He].
  - exists O, x. split; [done|]. by rewrite Z.add_0_r.
  - apply IH in He as (j & img & Hj & ->). exists (S j), img. split; [done|].
    do 3 f_equal. f_equal. lia.
Qed.

(** X14: [SetIconTranslation] gives the images the ordinals that follow
    [lastIconID], which no icon image of the set has, and moves [lastIconID]
    past them; except for the group that it sets, every resource of the set
    is still there unchanged, and the set holds nothing else than these, the
    images and the group. *)
Theorem SetIcon_frame (ops : list op) (resID : Identifier) (langID : Z)
    (icon : Icon) :
  ops16 ops -> checkIdentifier resID = None -> is_uint16 langID ->
  Icon_wf icon ->
  lastIconID (runOps ops) + len (Images icon) <= 65535 ->
  let rs := runOps ops in
  let rs' := fst (fst (ResourceSet_SetIconTranslation rs resID langID icon)) in
  lastIconID rs' = lastIconID rs + len (Images icon)
  /\ (forall i l, lastIconID rs < i -> ResourceSet_Get rs RT_ICON (ID i) l = None)
  /\ (forall t r l p,
        ResourceSet_Get rs t r l = Some p ->
        (t, r, l) <> (RT_GROUP_ICON, resID, langID) ->
        ResourceSet_Get rs' t r l = Some p)
  /\ (forall t r l p,
        ResourceSet_Get rs' t r l = Some p ->
        ResourceSet_Get rs t r l = Some p
        \/ (t, r, l) = (RT_GROUP_ICON, resID, langID)
        \/ exists j img,
             Images (Icon_order icon) !! j = Some img
             /\ (t, r, l) = (RT_ICON, ID (lastIconID rs + 1 + Z.of_nat j), 0)
             /\ Image img = Some p).
Proof.
  intros H16 Hres Hlang Hwf Hn. cbn zeta.
  pose proof (runOps_lastIconID ops) as H0.
  pose proof (runOps_icons_below ops) as Hbelow.
  set (rs := runOps ops) in *.
  unfold ResourceSet_SetIconTranslation.
  set (imgs := Images (Icon_order icon)).
  assert (Hlen : len imgs = len (Images icon)).
  { unfold imgs, Icon_order, sort_SliceStable, len. cbn [Images].
    by rewrite sort_Slice_length. }
  assert (Hall : Forall Image_wf imgs).
  { unfold imgs, Icon_order, sort_SliceStable. cbn [Images].
    by apply sort_Slice_Forall. }
  rewrite (setIconImages_ok imgs rs) by (done || lia).
  set (E := iconEntries imgs (lastIconID rs + 1)).
  unfold ResourceSet_Set. rewrite Hres. cbn [checkIdentifier RT_GROUP_ICON].
  change (14 =? 0) with false. cbn iota. cbn [fst].
  split; [|split; [|split]].
  - rewrite set_lastIconID. unfold bump.
    rewrite bool_decide_eq_false_2 by done.
    unfold E. rewrite fold_icons_lastIconID by done. lia.
  - intros i l Hi. destruct (ResourceSet_Get rs RT_ICON (ID i) l) eqn:E1; [|done].
    apply Hbelow in E1. lia.
  - intros t r l p Hg Hne. rewrite Get_set. rewrite decide_False by congruence.
    rewrite Get_fold_out; [done|].
    intros p' Hin. apply iconEntries_key in Hin as (j & Hj & Hk).
    cbn in Hk. injection Hk as -> -> ->. apply Hbelow in Hg. lia.
  - intros t r l p. rewrite Get_set.
    destruct (decide _) as [Heq|Hne]; [intros _; right; left; congruence|].
    intros Hg.
    destruct (GetKey_fold E rs (t, r, l)) as [(p' & Hp & Hg')|[_ Hg']];
      cbn [GetKey] in Hg'; rewrite Hg' in Hg.
    + injection Hg as ->. right. right.
      apply iconEntries_elem in Hp as (j & img & Hj & Heq).
      injection Heq as -> -> -> ->. exists j, img. split; [done|]. split; [done|].
      rewrite Forall_forall in Hall.
      destruct (Hall img) as [_ Himg]; [by eapply list_elem_of_lookup_2|].
      by destruct (Image img).
    + by left.
Qed.

(** Two images added to a set whose highest icon ordinal is 7. *)
Lemma SetIcon_frame_witness :
  lastIconID (fst (fst (ResourceSet_SetIconTranslation (runOps iconOps)
                          (Name "APP") 0 sampleIcon))) = 9
  /\ ResourceSet_Get (fst (fst (ResourceSet_SetIconTranslation (runOps iconOps)
                                  (Name "APP") 0 sampleIcon))) RT_ICON (ID 7) 0
     = Some [Byte.xff].
Proof.
  destruct (SetIcon_frame iconOps (Name "APP") 0 sampleIcon) as (H1 & _ & H3 & _).
  - repeat constructor; by vm_compute.
  - done.
  - by vm_compute.
  - repeat constructor; by vm_compute.
  - by vm_compute.
  - split; [exact H1|]. by apply H3.
Defined.

(** ** Running out of ordinals *)

Lemma setIconImages_overflow imgs : forall rs,
  0 <= lastIconID rs <= 65535 -> 65535 < lastIconID rs + len imgs ->
  Forall Image_wf imgs ->
  exists bs,
    setIconImages rs imgs
    = (fold_left setEntry
         (iconEntries (take (Z.to_nat (65535 - lastIconID rs)) imgs)
                      (lastIconID rs + 1)) rs,
       bs, Some errZeroID).
Proof.
  induction imgs as [|img imgs IH]; intros rs H0 Hn Hall.
  { unfold len in Hn. cbn in Hn. lia. }
  apply Forall_cons in Hall as [[_ Himg] Hall].
  unfold len in Hn. cbn [length] in Hn.
  cbn [setIconImages].
  destruct (Image img) as [d|] eqn:Hd; [|done].
  destruct (decide (lastIconID rs = 65535)) as [HL|HL].
  - rewrite HL. change (uint16 (65535 + 1)) with 0.
    eexists. unfold ResourceSet_Set. cbn [checkIdentifier]. cbn. done.
  - unfold uint16. rewrite Z.mod_small by lia.
    unfold ResourceSet_Set. cbn [checkIdentifier RT_ICON].
    destruct (Z.eqb_spec (lastIconID rs + 1) 0) as [?|_]; [lia|].
    change (3 =? 0) with false. cbn iota.
    set (rs1 := ResourceSet_set rs RT_ICON (ID (lastIconID rs + 1)) LCIDNeutral (Some d)).
    assert (HL1 : lastIconID rs1 = lastIconID rs + 1).
    { unfold rs1. rewrite set_lastIconID. unfold bump, RT_ICON.
      rewrite bool_decide_eq_true_2 by done.
      destruct (Z.ltb_spec (lastIconID rs) (lastIconID rs + 1)); lia. }
    destruct (IH rs1) as [bs Hbs]; [lia|unfold len; lia|done|].
    rewrite Hbs. eexists. rewrite HL1.
    replace (Z.to_nat (65535 - lastIconID rs))
      with (S (Z.to_nat (65535 - (lastIconID rs + 1)))) by lia.
    cbn [take iconEntries fold_left setEntry]. rewrite Hd. cbn [from_option id].
    reflexivity.
Qed.

(** X15: When the icon has more images than there are ordinals left after
    [lastIconID], [SetIconTranslation] fails with [errZeroID]: the ordinal
    wraps around to 0, which [Set] refuses.  The images that still got an
    ordinal stay in the set, and the group is not written. *)
Theorem SetIcon_ordinals_exhausted (ops : list op) (resID : Identifier)
    (langID : Z) (icon : Icon) :
  Icon_wf icon ->
  lastIconID (runOps ops) <= 65535 ->
  65535 < lastIconID (runOps ops) + len (Images icon) ->
  let rs := runOps ops in
  let set := ResourceSet_SetIconTranslation rs resID langID icon in
  snd set = Some errZeroID
  /\ ResourceSet_Get (fst (fst set)) RT_GROUP_ICON resID langID
     = ResourceSet_Get rs RT_GROUP_ICON resID langID
  /\ forall j img,
       Images (Icon_order icon) !! j = Some img ->
       lastIconID rs + 1 + Z.of_nat j <= 65535 ->
       ResourceSet_Get (fst (fst set)) RT_ICON (ID (lastIconID rs + 1 + Z.of_nat j)) 0
       = Image img.
Proof.
  intros Hwf HL Hn. cbn zeta.
  pose proof (runOps_lastIconID ops) as H0.
  set (rs := runOps ops) in *.
  unfold ResourceSet_SetIconTranslation.
  set (imgs := Images (Icon_order icon)).
  assert (Hlen : len imgs = len (Images icon)).
  { unfold imgs, Icon_order, sort_SliceStable, len. cbn [Images].
    by rewrite sort_Slice_length. }
  assert (Hall : Forall Image_wf imgs).
  { unfold imgs, Icon_order, sort_SliceStable. cbn [Images].
    by apply sort_Slice_Forall. }
  destruct (setIconImages_overflow imgs rs) as [bs ->]; [lia|lia|done|].
  cbn [fst snd]. split; [done|]. split.
  - apply Get_fold_out. intros p Hin.
    apply iconEntries_key in Hin as (j & _ & Hk). cbn in Hk. by injection Hk.
  - intros j img Hj Hle.
    rewrite Forall_forall in Hall.
    destruct (Hall img) as [_ Himg]; [by eapply list_elem_of_lookup_2|].
    destruct (Image img) as [d|] eqn:Hd; [|done].
    apply Get_fold_in; [apply iconEntries_NoDup|].
    pose proof (iconEntries_lookup (take (Z.to_nat (65535 - lastIconID rs)) imgs)
                  (lastIconID rs + 1) j img) as Hin.
    rewrite Hd in Hin. apply Hin.
    rewrite lookup_take_lt by lia. done.
Qed.

(** Two images when one ordinal is left. *)
Lemma SetIcon_ordinals_exhausted_witness :
  snd (ResourceSet_SetIconTranslation (runOps fullOps) (Name "APP") 0 sampleIcon)
  = Some errZeroID.
Proof.
  refine (proj1 (SetIcon_ordinals_exhausted fullOps (Name "APP") 0 sampleIcon _ _ _)).
  - repeat constructor; by vm_compute.
  - by vm_compute.
  - by vm_compute.
Defined.

(** ** What [GetIconTranslation] returns *)

Lemma firstLang_Get rs t r t' r' l' :
  ResourceSet_Get (fst (ResourceSet_firstLang rs t r)) t' r' l'
  = ResourceSet_Get rs t' r' l'.
Proof.
  unfold ResourceSet_firstLang.
  destruct (Types rs !! t) as [te|] eqn:Ht; [|done].
  destruct (Resources te !! r) as [re|] eqn:Hr; [|done].
  destruct (Z.of_nat (size (Data re)) =? 0); [done|]. cbn [fst].
  unfold ResourceSet_Get. cbn [Types].
  destruct (decide (t = t')) as [<-|Hne]; [|by rewrite lookup_insert_ne].
  rewrite lookup_insert_eq, Ht. cbn.
  destruct (decide (r = r')) as [<-|Hne]; [|by rewrite lookup_insert_ne].
  rewrite lookup_insert_eq, Hr. cbn. by rewrite re_order_Data.
Qed.

Lemma binaryRead_ok data pos n bs :
  0 < n -> binaryRead data pos n = Ok bs ->
  pos + n <= len data /\ bs = slice data pos n.
Proof.
  unfold binaryRead. intros Hn.
  destruct (Z.eqb_spec n 0) as [?|_]; [lia|]. cbn [orb].
  destruct (Z.leb_spec (pos + n) (len data)); [|done].
  by intros [= <-].
Qed.

Lemma getIconImages_sound n : forall rs0 rs data pos acc,
  sameData rs rs0 -> pos <= len data ->
  let out := getIconImages n rs data pos acc in
  sameData (fst out) rs0
  /\ match snd out with
     | IconOk icon =>
       exists new, Images icon = acc ++ new /\ length new = n
                   /\ Forall (storedImage rs0) new
                   /\ pos + sizeOfIconResDirEntry * Z.of_nat n <= len data
     | IconErr e => e <> errGroupNotFound
     end.
Proof.
  induction n as [|n IH]; intros rs0 rs data pos acc Hs Hpos; cbn zeta.
  - cbn [getIconImages fst snd]. split; [done|].
    exists []. rewrite app_nil_r. split; [done|]. split; [done|].
    split; [constructor|lia].
  - cbn [getIconImages].
    destruct (binaryRead data pos sizeOfIconResDirEntry) as [bs|] eqn:Hb;
      [|by split].
    apply binaryRead_ok in Hb as [Hle _]; [|done].
    destruct (readIconResDirEntry bs) as [info id].
    pose proof (firstLang_Get rs RT_ICON (ID id)) as Hsame.
    destruct (ResourceSet_firstLang rs RT_ICON (ID id)) as [rs1 lang].
    cbn [fst] in Hsame.
    assert (Hs1 : sameData rs1 rs0).
    { intros t r l. by rewrite Hsame. }
    destruct (ResourceSet_Get rs1 RT_ICON (ID id) lang) as [img|] eqn:Hg;
      [|by split].
    specialize (IH rs0 rs1 data (pos + sizeOfIconResDirEntry)
                  (acc ++ [mkIconImage info (Some img)]) Hs1 Hle).
    cbn zeta in IH. destruct IH as [IH1 IH2]. split; [done|].
    destruct (snd (getIconImages n rs1 data (pos + sizeOfIconResDirEntry) _))
      as [icon|e]; [|done].
    destruct IH2 as (new & Himgs & Hlen & Hall & Hend).
    exists (mkIconImage info (Some img) :: new).
    split; [by rewrite Himgs, <- app_assoc|]. split; [cbn; by rewrite Hlen|].
    split; [|lia].
    constructor; [|done]. exists id, lang, img. split; [done|]. by rewrite <- Hs1.
Qed.

Lemma slice_slice {A} (l : list A) m a n :
  0 <= a -> 0 <= n -> a + n <= m -> slice (slice l 0 m) a n = slice l a n.
Proof.
  intros Ha Hn Hm. unfold slice. cbn [Z.to_nat drop].
  rewrite skipn_firstn_comm, firstn_firstn. f_equal. lia.
Qed.

(** X16: [GetIconTranslation] leaves what [Get] returns unchanged.  When it
    returns an icon, the set holds the group, whose header has the type 1 and
    counts the images of the icon, the group is long enough for that many
    entries, and every image is the payload of an icon image of the set; it
    reports [errGroupNotFound] only when the set does not hold the group. *)
Theorem GetIconTranslation_sound (rs : ResourceSet) (resID : Identifier)
    (langID : Z) :
  let out := ResourceSet_GetIconTranslation rs resID langID in
  sameData (fst out) rs
  /\ match snd out with
     | IconOk icon =>
       exists data,
         ResourceSet_Get rs RT_GROUP_ICON resID langID = Some data
         /\ readUint16 data 0 = 0 /\ readUint16 data 2 = 1
         /\ readUint16 data 4 = len (Images icon)
         /\ sizeOfIconDirHeader + sizeOfIconResDirEntry * len (Images icon)
            <= len data
         /\ Forall (storedImage rs) (Images icon)
     | IconErr e =>
       e = errGroupNotFound
       <-> ResourceSet_Get rs RT_GROUP_ICON resID langID = None
     end.
Proof.
  cbn zeta. unfold ResourceSet_GetIconTranslation.
  destruct (ResourceSet_Get rs RT_GROUP_ICON resID langID) as [data|] eqn:Hg;
    [|by split].
  destruct (binaryRead data 0 sizeOfIconDirHeader) as [hdr|] eqn:Hb;
    [|by split].
  apply binaryRead_ok in Hb as [Hle ->]; [|done].
  assert (Hrd : forall k, 0 <= k -> k + 2 <= sizeOfIconDirHeader ->
            readUint16 (slice data 0 sizeOfIconDirHeader) k = readUint16 data k).
  { intros k Hk0 Hk1. unfold readUint16. f_equal. apply slice_slice; lia. }
  rewrite !Hrd by (unfold sizeOfIconDirHeader; lia).
  destruct (Z.eqb_spec (readUint16 data 2) 1) as [Ht|]; [|by split].
  destruct (Z.eqb_spec (readUint16 data 0) 0) as [Hr|]; [|by split].
  cbn [negb orb].
  pose proof (getIconImages_sound (Z.to_nat (readUint16 data 4)) rs rs data
                sizeOfIconDirHeader [] ltac:(done) ltac:(lia)) as [H1 H2].
  cbn zeta in H1, H2. split; [done|].
  destruct (snd (getIconImages _ rs data sizeOfIconDirHeader [])) as [icon|e].
  - destruct H2 as (new & Himgs & Hlen & Hall & Hend). cbn [app] in Himgs.
    assert (0 <= readUint16 data 4) by apply le_combine_bound.
    assert (Hn : len new = readUint16 data 4).
    { unfold len. rewrite Hlen. by apply Z2Nat.id. }
    rewrite Z2Nat.id in Hend by done.
    exists data. rewrite Himgs, Hn. unfold len in *. repeat split; done || lia.
  - split; [done|]. intros Hn. by rewrite Hn in Hg.
Qed.

(** ** The layout of an ICO file *)

Lemma len_writeIconFileDirEntry info o :
  len (writeIconFileDirEntry info o) = sizeOfIconFileDirEntry.
Proof. done. Qed.

Lemma len_saveIconEntries imgs : forall o,
  len (saveIconEntries imgs o) = len imgs * sizeOfIconFileDirEntry.
Proof.
  induction imgs as [|img imgs IH]; intros o; [done|].
  cbn [saveIconEntries]. rewrite len_app, IH, len_writeIconFileDirEntry.
  unfold len. cbn [length]. lia.
Qed.

Lemma save_records imgs : forall o j img,
  imgs !! j = Some img ->
  has_at (saveIconEntries imgs o) (sizeOfIconFileDirEntry * Z.of_nat j)
         (writeIconFileDirEntry (Info img) (o + total imageLen (take j imgs)))
  /\ has_at (flat_map imageBytes imgs) (total imageLen (take j imgs))
            (imageBytes img).
Proof.
  induction imgs as [|x imgs IH]; intros o j img Hj; [done|].
  destruct j as [|j].
  - injection Hj as ->. cbn [saveIconEntries flat_map take].
    rewrite total_nil, Z.add_0_r, Z.mul_0_r.
    split; apply has_at_here.
  - change (imgs !! j = Some img) in Hj.
    destruct (IH (o + imageLen x) j img Hj) as [H1 H2].
    cbn [saveIconEntries flat_map take]. rewrite total_cons. split.
    + replace (sizeOfIconFileDirEntry * Z.of_nat (S j))
        with (len (writeIconFileDirEntry (Info x) o)
              + sizeOfIconFileDirEntry * Z.of_nat j)
        by (rewrite len_writeIconFileDirEntry; unfold sizeOfIconFileDirEntry; lia).
      apply has_at_shift.
      by replace (o + (imageLen x + total imageLen (take j imgs)))
        with (o + imageLen x + total imageLen (take j imgs)) by lia.
    + by apply has_at_shift.
Qed.

(** X17: [SaveICO] writes a header of type 1 that counts the images, then one
    directory entry of 16 bytes per image in the order of [Icon.order], then
    the images; the entry of every image holds its [IconInfo] and, in its
    last field, the offset at which the bytes of that image are written. *)
Theorem SaveICO_layout (icon : Icon) :
  let out := snd (Icon_SaveICO icon) in
  let imgs := Images (Icon_order icon) in
  fst (Icon_SaveICO icon) = Icon_order icon
  /\ readUint16 out 0 = 0 /\ readUint16 out 2 = 1
  /\ readUint16 out 4 = uint16 (len imgs)
  /\ len out = sizeOfIconDirHeader + len imgs * sizeOfIconFileDirEntry
               + total imageLen imgs
  /\ forall j img, imgs !! j = Some img ->
       exists o,
         has_at out (sizeOfIconDirHeader + sizeOfIconFileDirEntry * Z.of_nat j)
                (writeIconInfo (Info img) ++ le_split 4 (uint32 o))
         /\ has_at out o (imageBytes img).
Proof.
  cbn zeta. unfold Icon_SaveICO. cbn [fst snd].
  set (imgs := Images (Icon_order icon)).
  assert (Hlen : len (Images icon) = len imgs).
  { unfold imgs, Icon_order, sort_SliceStable, len. cbn [Images].
    by rewrite sort_Slice_length. }
  rewrite Hlen.
  set (hdr := writeIconDirHeader 0 1 (uint16 (len imgs))).
  set (o0 := sizeOfIconDirHeader + len imgs * sizeOfIconFileDirEntry).
  split; [done|].
  assert (Hhdr : forall k n v, has_at hdr k (le_split n v) ->
            le_combine (slice (hdr ++ saveIconEntries imgs o0
                               ++ flat_map imageBytes imgs) k (Z.of_nat n))
            = v mod 2 ^ (Z.of_nat n * 8)).
  { intros k n v Hat. rewrite (has_at_slice _ k (le_split n v)).
    - apply le_combine_split.
    - by apply has_at_prefix.
    - by rewrite len_le_split. }
  split; [|split; [|split; [|split]]].
  - apply (Hhdr 0 2%nat 0). apply has_at_here.
  - apply (Hhdr 2 2%nat 1). exists (le_split 2 0), (le_split 2 (uint16 (len imgs))). done.
  - transitivity (uint16 (len imgs) mod 2 ^ (Z.of_nat 2 * 8)).
    + apply (Hhdr 4 2%nat).
      exists (le_split 2 0 ++ le_split 2 1), []. by rewrite app_nil_r.
    + apply Z.mod_small. pose proof (Z.mod_pos_bound (len imgs) (2 ^ 16)).
      unfold uint16. change (2 ^ (Z.of_nat 2 * 8)) with (2 ^ 16). lia.
  - rewrite !len_app, len_saveIconEntries.
    rewrite (len_flat_map imageBytes imageLen) by done.
    change (len hdr) with sizeOfIconDirHeader. lia.
  - intros j img Hj.
    destruct (save_records imgs o0 j img Hj) as [H1 H2].
    exists (o0 + total imageLen (take j imgs)). split.
    + apply (has_at_shift hdr) in H1. change (len hdr) with sizeOfIconDirHeader in H1.
      by apply has_at_prefix with (post := flat_map imageBytes imgs) in H1;
        rewrite <- app_assoc in H1.
    + apply (has_at_shift (hdr ++ saveIconEntries imgs o0)) in H2.
      rewrite len_app, len_saveIconEntries in H2.
      change (len hdr) with sizeOfIconDirHeader in H2.
      rewrite <- app_assoc in H2. fold o0 in H2. exact H2.
Qed.
